(* ===== verification/_CoqProject ===== *)
-Q . S2P
Prelude.v
ChainBuffer.v
Poller.v
Iteration.v
Timestamp.v
TimerQueue.v
ByteQueue.v
BufferTest.v
TcpConnection.v
SendOrder.v
EventLoop.v
TcpServer.v
ServerStack.v
Endian.v
OldBuffer.v
Connector.v
TcpClient.v
ClientStack.v
ClientEnd.v
ClientWait.v
LogStream.v
AsyncOutputer.v
InetAddress.v
Socket.v
SocketLife.v
Acceptor.v
LogFile.v
ThreadPool.v
StringProxy.v
Calendar.v
Environment.v
StackTrace.v
Logger.v
EventLoopThread.v
MemPool.v
Sync.v
SyncTests.v
Thread.v
EchoServer.v
Network.v
PingPong.v
EchoClient.v
EchoProgram.v
PingPongClient.v
Bench.v
LoopLifetime.v
