(* ===== verification/Prelude.v ===== *)
(** * muzi: a verification library for the muzi network library

    muzi is a C++17 library for TCP servers and clients in the style of the
    reactor: a loop per thread waits for descriptors, timers and queued
    functors, and calls back.  This library models its code file by file and
    proves that the parts do what they are meant to do; where the code does
    something else, a theorem shows what.

    ** The parts and the files

    Names follow the source; paths are relative to [src/muzi].

    - [Prelude] (this file): bytes, results and faults, machine integers,
      segments of arrays, automation.
    - [ChainBuffer] ([net/chain_buffer.h], [.cc], [net/buffer.h]): the byte
      queue of a connection, a list of fixed blocks with two cursors.
      [OldBuffer] ([net/old_buffer.h], [.cc]): the buffer it replaced.
      [ByteQueue]: the interface of both, [ByteQueue] with [ByteQueueLaws];
      clients of a buffer are proved against it.
    - [Endian] ([net/endian_transform.h]): network byte order and integers in
      memory.
    - [Poller] ([net/channel.h], [.cc], [net/poller.h], [net/poller/epoll_poller.h],
      [.cc]): channels, their dispatch, and the poller that keeps the
      kernel's interest list; the kernel's epoll is the class [EpollKernel].
      [chan_abs] is the view of one channel its owner is proved against.
      [Iteration]: a poll and the dispatch of what it found, as the loop
      composes them.
    - [Timestamp] ([base/timestamp.h], [.cc], [base/timezone.h]) and
      [TimerQueue] ([net/timer.h], [.cc], [net/timer_queue.h], [.cc]): time,
      and the timers of a loop.  [Calendar]: the calendar of [gmtime_r], the
      time zones, and the texts of time stamps over it.
    - [EventLoop] ([net/event_loop.h], [.cc]): the loop and the threads that
      queue in it or quit it, as labelled steps.  [LoopLifetime]: creating and
      destroying loops, over the poller.
    - [EventLoopThread] ([net/event_loop_thread.h], [.cc]): a loop in a thread
      of its own.  [TcpServer] holds the pool of such threads
      ([net/event_loop_thread_pool.h], [.cc]).
    - [InetAddress] ([net/address.h], [net/inet_address.h], [.cc],
      [net/local_address.h], the address functions of [net/socket_ops.cc]):
      the structs of addresses as memory; the class [Address] with
      [AddressLaws] is what their clients use.
    - [Socket] ([net/socket.h], [.cc], [net/socket_ops.cc]): the wrappers of
      the system calls, connecting, sending and receiving.  [SocketLife]: a
      socket from its creation to its destructor.  [Acceptor]
      ([net/acceptor.h], [.cc]): accepting, over any [Address].
    - [TcpConnection] ([net/tcp_connection.h], [.cc]): a connection, over any
      [ByteQueue] and the channel view of [Poller].  [SendOrder]: what other
      threads send to it.
    - [TcpServer] ([net/tcp_server.h], [.cc]): the server, the states of its
      connections and their loops.  [ServerStack]: the same server with the
      connection objects of [TcpConnection].
    - [Connector] ([net/connector.h], [.cc]) and [TcpClient]
      ([net/tcp_client.h], [.cc]): connecting with retries, and the client.
      [ClientStack]: the client with connection objects; [ClientEnd]: its
      destruction and what outlives it, with [base/weak_callback.h];
      [ClientWait]: the threads that wait for it.
    - [LogStream] ([base/fixed_buffer.h], [base/log_stream.h], [.cc],
      [base/logger.h], [.cc]): log lines.  [StackTrace] ([base/stacktrace.cc],
      [base/traced_exception.h], [.cc]): the text of a call stack, and the
      exception that carries it.  [Logger] ([base/logger.h], [.cc],
      [base/outputer.h]): loggers, their macros and outputers, over both.
      [AsyncOutputer] ([base/async_outputer.h], [.cc]): logging from many
      threads.  [LogFile] ([base/log_file.h], [.cc], [base/file_utils.h]): the
      rolling file.
    - [Environment] ([base/config.cc], [base/process_info.cc],
      [net/poller/default_poller.cc]): what the process finds around it.
    - [ThreadPool] ([base/thread_pool.h], [.cc]): a pool of workers.
    - [StringProxy] ([base/string_proxy.h]): string views.
    - [MemPool] ([net/mem_pool.h], [.cc]): the block allocator.
    - [Sync] ([base/current_thread.h], [.cc], [base/mutex.h], [base/condition.h],
      [.cc], [base/countdown_latch.h], [.cc]): the identifier of a thread, the
      mutex and its holder, waiting, the latch.  [Thread] ([base/thread.h],
      [.cc]): starting and joining a thread, over that latch.
    - [EchoServer] ([examples/echo_server.cc]): a user's callbacks on a
      connection with chained buffers, the parts put together.  [Network]:
      two such connections and a lossless network between them, for
      [EchoClient] ([examples/echo_client.cc]) and [PingPong]
      ([src/examples/pingpong/client.cc], [server.cc]).  [EchoProgram]: the
      two echo servers from their [main], over [ServerStack].
      [PingPongClient]: the sessions of the benchmark's client.  [Bench] ([src/examples/pingpong/bench.cc]):
      the event benchmark.
    - [BufferTest] ([net/test/buffer_test.cc]) and [SyncTests]
      ([base/test/mutex_test.cc], [condtion_test.cc]): tests as programs.

    ** How code becomes definitions

    An operation is a function of the state of its object, with the answers
    of system calls as arguments.  Its result is in [res]: a value, or the
    [fault] that ends a debug build ([AssertFail], [Aborted]) or is undefined
    behaviour.  Objects that are shared are in a store and named by their
    index.  Where threads meet, each atomic step is a label, a run is a list of
    labels, and the theorems hold for every list; waiting on a condition is a
    state a thread leaves when signalled, or spuriously.  Integers are [Z]
    with their wrap-around where a value can reach it.

    ** What the theorems show

    - Data structures refine what they stand for: both buffers a queue of
      bytes, the poller a set of channels, the timer queue a set of timers,
      the log file a sequence of bytes.
    - Invariants under every sequence of events or interleaving: the
      connection, the server, the client, the connector, the acceptor, the
      loop, its thread, the thread pool, the logging thread, the latch and the
      thread started with it.  With them comes what users rely on: bytes
      arrive in order, whichever thread sends them, each task and timer runs
      once, descriptors do not leak, a close is reported once, no wake-up is
      missed, the logging thread ends, a latch that is down releases
      everybody.
    - Functions are exact: dispatch of events, the timers that fire, the
      texts of time stamps, addresses, call stacks and log lines, the order of
      times and of their texts, byte order, the comparison of views, the
      delays of the connector.
    - Bounds: log lines and blocks of the allocator stay in their memory;
      connecting makes at most six attempts, within the calls a socket makes
      from its creation to its end ([SocketLife]).
    - Parts put together: an echo server, from [main], sends back on every
      connection what it received there ([EchoProgram]); the server and the
      client with connection objects believe of each connection what it is
      ([ServerStack], [ClientStack]); a
      client may be destroyed at any time ([ClientEnd]); a session with its
      server reads back its own block for ever ([PingPong]); what is typed
      into the echo client is printed by it ([EchoClient]); each channel the
      poller found ready gets the callbacks of its events ([Iteration]); what is logged
      arrives, and all of it before an abort ([Logger]); the tests that check
      something pass under every schedule and on every input ([BufferTest],
      [SyncTests]).
    - The invariants of runs go as far as the code does: where an event makes
      it go wrong, the theorem covers every run up to that event and says
      which one it is.  So the theorems about connections (in [TcpConnection],
      [SendOrder], [ServerStack], [ClientStack], [ClientEnd], [EchoClient],
      [PingPong]) hold to the end or to a direct write of which the socket
      takes only a part; those about connecting ([Connector], [ClientStack])
      to an attempt that begins while the reset of the last channel is
      queued; that of [ChainBuffer] to an operation at a border of the list of
      blocks; that of [LogStream] to a pointer that does not fit; those of
      [Acceptor] and [LogFile] to what aborts the process.  [EchoProgram] and
      [TcpConnection.connection_closing] need no such bound.  What overload
      drops is exact too: the buffers above two of a batch of more than 25
      ([AsyncOutputer]), the rest of a line that fills its stream ([Logger]),
      the file of a second roll in one second ([LogFile]).
    - What fails: a partial direct write reads beyond its message
      ([TcpConnection.short_write_overreads]), a task queued by the loop's
      thread before [Loop] wakes nobody ([EventLoop.own_task_sleeps]), a start
      before the reset of the last attempt fails an assertion
      ([Connector.start_before_reset]), quitting and stopping can wait
      for ever ([EventLoop.quit_can_hang], [EventLoopThread.stop_hangs],
      [ThreadPool.stop_can_hang]), connections accepted together share one
      address ([Acceptor.accept_shares_address]), and the lemmas next to the
      theorems of each file.

    ** Fuel and bounds

    Loops over a list or a counter of the state recurse on it.  The loops of
    [ChainBuffer] get fuel from the length they move over plus two, those of
    [LogStream] 20 decimal and 16 hexadecimal digits, the most a 64-bit number
    has, and [EnsureWritable] the missing bytes plus one; the theorems show
    that [OutOfFuel] is never the answer.  The loop of [Send] in [Socket] goes
    on as long as the kernel says so; its fuel is more than the retries.

    ** Not modelled

    - Overflow of sizes and of times (64 bits) and of the server's count of
      connections, and failing allocation except in [MemPool].  [ReadFd]
      forms [begin()] of the end of its list, which it does not use: with
      checked iterators that is a fault ([ReadFd_loop] of [ChainBuffer]); the
      files over [ByteQueue] take iterators that are not checked.
    - Log lines written by the other components, and the flush after each
      line of a debug build.  The lines [backtrace_symbols] gives, the C++
      demangler and [strerror_r] are arguments.
    - The destruction of a client by a thread other than its loop's, beyond the
      waits of [ClientWait].
    - Access without a lock is taken to be atomic and in order.  In the
      models of other files than [Sync], [SyncTests] and [Thread], locking, waiting,
      signalling and starting a thread are single steps.
    - The times the benchmarks print, and the arguments of the ping-pong
      programs.
    - [base/singleton.h], the C stubs under [components], the tests that check
      nothing, and the copies of the headers under
      [src/include].
    *)

From Stdlib Require Export ZArith Lia Ascii.
From stdpp Require Export base numbers strings gmap sets list.

(** [naive_solver] and [set_solver] clear what they have already cleared. *)
#[export] Set Warnings "-clear-no-such-hyp".

(** ** Bytes and strings *)

Abbreviation bytes := (list ascii).

(** A C string literal, as the bytes of the array without its NUL. *)
Definition B (s : string) : bytes := String.list_ascii_of_string s.

Definition nul : ascii := "000"%char.

(** ** Faults and results *)

(** What ends a run of the C++ code other than by returning.  [AssertFail]
    is a failed [assert] of a debug build; the others are undefined
    behaviour ([OutOfBounds], [EndDeref], [NullDeref], [UseAfterFree],
    [IntOverflow], [LockMisuse]: a mutex released by a thread that does not
    own it) or [abort()] by the logger ([Aborted]).  [OutOfFuel] belongs to the model:
    the theorems show that it is never the answer. *)
Inductive fault :=
  | AssertFail
  | OutOfBounds
  | EndDeref
  | NullDeref
  | UseAfterFree
  | IntOverflow
  | LockMisuse
  | Aborted
  | OutOfFuel.

#[export] Instance fault_eq_dec : EqDecision fault.
Proof. solve_decision. Defined.

Inductive res (A : Type) :=
  | Ok (a : A)
  | Fault (f : fault).
Arguments Ok {A} a.
Arguments Fault {A} f.

#[export] Instance res_ret : MRet res := fun A a => Ok a.
#[export] Instance res_bind : MBind res := fun A C k m =>
  match m with Ok a => k a | Fault f => Fault f end.

Definition assert (b : bool) : res unit := if b then Ok tt else Fault AssertFail.

(** Dereferencing: an option read as a value or a fault. *)
Definition deref {A} (f : fault) (o : option A) : res A :=
  match o with Some a => Ok a | None => Fault f end.

Definition is_ok {A} (r : res A) : bool :=
  match r with Ok _ => true | Fault _ => false end.

(** ** Machine integers *)

Definition wrap (w : Z) (x : Z) : Z := (x mod 2 ^ w)%Z.
Definition swrap (w : Z) (x : Z) : Z :=
  ((x + 2 ^ (w - 1)) mod 2 ^ w - 2 ^ (w - 1))%Z.

(** ** Reading and writing a segment of an array *)

(** [overwrite off d l]: the array [l] after [memcpy(l + off, d, |d|)]. *)
Definition overwrite (off : nat) (d l : bytes) : bytes :=
  take off l ++ d ++ drop (off + length d) l.

(** [memcpy] out of the memory [src] that starts at the source pointer: it
    must hold at least [n] bytes. *)
Definition read_mem (src : bytes) (n : nat) : res bytes :=
  if decide (n ≤ length src) then Ok (take n src) else Fault OutOfBounds.

(** [memcpy] into the array [l] at offset [off]. *)
Definition write_mem (off : nat) (d l : bytes) : res bytes :=
  if decide (off + length d ≤ length l) then Ok (overwrite off d l)
  else Fault OutOfBounds.

(** ** Automation *)

Create HintDb muzi discriminated.
Create Rewrite HintDb muzi_rw.

(** [inv_res]: undo one successful monadic step in a hypothesis. *)
Ltac inv_res :=
  repeat match goal with
  | H : Ok _ = Ok _ |- _ => injection H as H; subst
  | H : Fault _ = Ok _ |- _ => discriminate H
  | H : Ok _ = Fault _ |- _ => discriminate H
  | H : mret _ = Ok _ |- _ => injection H as H; subst
  end.

(** [case_res H]: split the first bind of [H : (x ← m; k) = Ok _]. *)
Ltac case_res H :=
  match type of H with
  | mbind _ ?m = _ =>
      let E := fresh "E" in destruct m eqn:E; cbn in H; [|discriminate H]
  end.

(** Decide the guards [if decide P] of the goal whose truth [lia] knows. *)
Ltac decide_lia :=
  repeat match goal with
  | |- context [decide ?P] =>
      first [ rewrite (decide_True (P := P)) by lia
            | rewrite (decide_False (P := P)) by lia ]
  end.

(** ** Lists *)

Section lists.
Context {A : Type}.
Implicit Types l k : list A.

Lemma take_take_drop n m l : take n l ++ take m (drop n l) = take (n + m) l.
Proof.
  revert l; induction n as [|n IH]; intros [|x l]; simpl; try done.
  - by rewrite take_nil.
  - by rewrite IH.
Qed.

Lemma length_concat_uniform (n : nat) (ls : list (list A)) :
  Forall (λ b, length b = n) ls → length (concat ls) = length ls * n.
Proof.
  induction 1 as [|b ls Hb _ IH]; simpl; [done|].
  rewrite length_app, IH, Hb. lia.
Qed.

Lemma concat_app_singleton (ls : list (list A)) b : concat (ls ++ [b]) = concat ls ++ b.
Proof. rewrite concat_app. simpl. by rewrite app_nil_r. Qed.

(** The [i]-th block of a list of blocks of size [n], inside the
    concatenation. *)
Lemma concat_lookup_block (n i : nat) (ls : list (list A)) b :
  Forall (λ b, length b = n) ls → ls !! i = Some b →
  concat ls = take (i * n) (concat ls) ++ b ++ drop (S i * n) (concat ls).
Proof.
  intros Hall. revert i. induction Hall as [|b' ls Hb Hall IH]; intros i Hi; [done|].
  destruct i as [|i]; simpl in *.
  - injection Hi as ->. rewrite Nat.add_0_r, <- Hb, drop_app_length. done.
  - rewrite (take_app_ge _ _ (n + i * n)), (drop_app_ge _ _ (n + (n + i * n))) by lia.
    replace (n + i * n - length b') with (i * n) by lia.
    replace (n + (n + i * n) - length b') with (S i * n) by lia.
    rewrite <- app_assoc. f_equal. by apply IH.
Qed.

Lemma concat_insert_block (n i : nat) (ls : list (list A)) b b' :
  Forall (λ b, length b = n) ls → ls !! i = Some b →
  concat (<[i := b']> ls) = take (i * n) (concat ls) ++ b' ++ drop (S i * n) (concat ls).
Proof.
  intros Hall. revert i. induction Hall as [|b0 ls Hb Hall IH]; intros i Hi; [done|].
  destruct i as [|i]; simpl in *.
  - by rewrite Nat.add_0_r, <- Hb, drop_app_length.
  - rewrite (take_app_ge _ _ (n + i * n)), (drop_app_ge _ _ (n + (n + i * n))) by lia.
    replace (n + i * n - length b0) with (i * n) by lia.
    replace (n + (n + i * n) - length b0) with (S i * n) by lia.
    rewrite <- app_assoc. f_equal. by apply IH.
Qed.

Lemma Forall_insert_same (P : A → Prop) l i x :
  Forall P l → P x → Forall P (<[i := x]> l).
Proof. intros. by apply Forall_insert. Qed.
End lists.

(** ** Threads: counting, and one of them moving *)

Fixpoint countb {A : Type} (f : A → bool) (l : list A) : nat :=
  match l with [] => 0 | x :: l => (if f x then 1 else 0) + countb f l end.

Lemma countb_insert {A : Type} (f : A → bool) i x y l :
  l !! i = Some x → countb f (<[i := y]> l) + (if f x then 1 else 0) = countb f l + (if f y then 1 else 0).
Proof.
  revert i. induction l as [|z l IH]; intros [|i] Hi; try done.
  - injection Hi as ->. cbn. destruct (f x), (f y); lia.
  - change (<[S i := y]> (z :: l)) with (z :: <[i := y]> l). cbn [countb]. specialize (IH i Hi). revert IH. destruct (f x), (f y), (f z); lia.
Qed.

Lemma countb_app {A : Type} (f : A → bool) l l' : countb f (l ++ l') = countb f l + countb f l'.
Proof. induction l as [|x l IH]; cbn; [done|]. rewrite IH. destruct (f x); lia. Qed.

Lemma countb_elem {A : Type} (f : A → bool) i x l : l !! i = Some x → f x = true → 1 ≤ countb f l.
Proof.
  revert i. induction l as [|z l IH]; intros [|i] Hi Hf; try done; cbn in *.
  - injection Hi as ->. rewrite Hf. lia.
  - specialize (IH i Hi Hf). destruct (f z); lia.
Qed.

Lemma countb_zero {A : Type} (f : A → bool) i x l : countb f l = 0 → l !! i = Some x → f x = false.
Proof. intros H0 Hi. destruct (f x) eqn:E; [|done]. pose proof (countb_elem f i x l Hi E). lia. Qed.

Lemma countb_none {A : Type} (f : A → bool) l : countb f l = 0%nat ↔ ∀ i x, l !! i = Some x → f x = false.
Proof.
  induction l as [|x l IH]; cbn; [split; [intros _ i x; by rewrite lookup_nil|done]|]. split.
  - intros H [|i] y E; [injection E as ->; by destruct (f y)|]. apply (proj1 IH) with i; [destruct (f x); lia|done].
  - intros H. rewrite (H 0%nat x eq_refl). apply IH. intros i y E. exact (H (S i) y E).
Qed.

Lemma existsb_count {A : Type} (f : A → bool) l : existsb f l = bool_decide (1 ≤ countb f l).
Proof.
  induction l as [|x l IH]; [done|]. cbn. rewrite IH. destruct (f x); [|done]. cbn.
  symmetry. apply bool_decide_eq_true_2. lia.
Qed.

(** Lookups after an update of one thread. *)
Ltac thread_cases :=
  repeat match goal with
  | H : <[_ := _]> _ !! _ = Some _ |- _ =>
      let E := fresh "E" in apply list_lookup_insert_Some in H as [(<- & E & _)|[? H]]; [try subst|]
  end.

(** ** Segments *)

Lemma length_overwrite off d l :
  off + length d ≤ length l → length (overwrite off d l) = length l.
Proof.
  intros. unfold overwrite. rewrite !length_app, length_take, length_drop. lia.
Qed.

Lemma overwrite_nil off l : overwrite off [] l = l.
Proof. unfold overwrite. simpl. by rewrite Nat.add_0_r, take_drop. Qed.

Lemma take_overwrite off d l :
  off ≤ length l → take (off + length d) (overwrite off d l) = take off l ++ d.
Proof.
  intros. unfold overwrite. rewrite app_assoc, take_app_length'; [done|].
  rewrite length_app, length_take. lia.
Qed.

Lemma take_overwrite_le n off d l :
  n ≤ off → off ≤ length l → take n (overwrite off d l) = take n l.
Proof.
  intros. unfold overwrite. rewrite take_app_le by (rewrite length_take; lia).
  rewrite take_take. f_equal. lia.
Qed.

(** Writing inside one block of a uniform list of blocks is writing in the
    concatenation. *)
Lemma concat_overwrite (n i off : nat) (ls : list bytes) b d :
  Forall (λ b, length b = n) ls → ls !! i = Some b → off + length d ≤ n →
  concat (<[i := overwrite off d b]> ls) = overwrite (i * n + off) d (concat ls).
Proof.
  intros Hall Hi Hd.
  assert (length b = n) as Hb by (rewrite Forall_lookup in Hall; eauto).
  assert (i < length ls) as Hlt by (eapply lookup_lt_Some; eauto).
  pose proof (length_concat_uniform _ _ Hall) as Hlen.
  assert (S i * n ≤ length ls * n) by (apply Nat.mul_le_mono_r; lia).
  rewrite (concat_insert_block n i ls b) by done.
  pose proof (concat_lookup_block n i ls b Hall Hi) as E.
  set (p := take (i * n) (concat ls)) in *. set (q := drop (S i * n) (concat ls)) in *.
  assert (length p = i * n) by (unfold p; rewrite length_take; simpl in *; lia).
  rewrite E. unfold overwrite.
  rewrite (take_app_ge p) by lia. replace (i * n + off - length p) with off by lia.
  rewrite (take_app_le b) by lia.
  rewrite (drop_app_ge p) by lia.
  replace (i * n + off + length d - length p) with (off + length d) by lia.
  rewrite (drop_app_le b) by lia. by rewrite <- !app_assoc.
Qed.

(** Two successive writes, the second right after the first. *)
Lemma overwrite_app off d1 d2 l :
  off + length d1 ≤ length l →
  overwrite (off + length d1) d2 (overwrite off d1 l) = overwrite off (d1 ++ d2) l.
Proof.
  intros. unfold overwrite at 1. rewrite take_overwrite by lia.
  unfold overwrite. rewrite length_app, <- !app_assoc. do 3 f_equal.
  rewrite drop_app_ge by (rewrite length_take; lia).
  rewrite drop_app_ge by (rewrite length_take; lia).
  rewrite drop_drop. f_equal. rewrite length_take. lia.
Qed.

#[export] Hint Rewrite overwrite_nil : muzi_rw.
#[export] Hint Resolve Forall_insert_same : muzi.

(** ** Two machines that agree up to a point *)

(** The same events under two step functions, [real] and [ideal], that give
    the same result as long as [stops] does not hold. *)
Section agree.
Context {E S : Type}.
Variables real ideal : E → S → res S.
Variables legal legal' : E → S → Prop.
Variable stops : E → S → bool.
Variables run_real run_ideal : list E → S → res S.
Variables legal_real legal_ideal : list E → S → Prop.
Hypothesis run_real_nil : ∀ s, run_real [] s = Ok s.
Hypothesis run_ideal_nil : ∀ s, run_ideal [] s = Ok s.
Hypothesis run_real_cons : ∀ e es s, run_real (e :: es) s = (s ← real e s; run_real es s).
Hypothesis run_ideal_cons : ∀ e es s, run_ideal (e :: es) s = (s ← ideal e s; run_ideal es s).
Hypothesis legal_real_cons : ∀ e es s, legal_real (e :: es) s → legal e s ∧ ∀ s', real e s = Ok s' → legal_real es s'.
Hypothesis legal_ideal_nil : ∀ s, legal_ideal [] s.
Hypothesis legal_ideal_cons : ∀ e es s, legal' e s → (∀ s', ideal e s = Ok s' → legal_ideal es s') → legal_ideal (e :: es) s.
Hypothesis step_agrees : ∀ e s, legal e s → stops e s = false → legal' e s ∧ real e s = ideal e s.

(** They agree on every step of a run. *)
Fixpoint agree (es : list E) (s : S) : Prop :=
  match es with
  | [] => True
  | e :: es => real e s = ideal e s ∧ ∀ s', real e s = Ok s' → agree es s'
  end.

Lemma agree_run es : ∀ s, agree es s → run_real es s = run_ideal es s.
Proof.
  induction es as [|e es IH]; intros s Ha; [by rewrite run_real_nil, run_ideal_nil|]. destruct Ha as [He Ha].
  rewrite run_real_cons, run_ideal_cons, <- He. destruct (real e s) as [s'|]; [|done]. cbn [mbind res_bind]. by apply IH, Ha.
Qed.

(** A legal run is, up to its end or to the first event at which the real
    machine [stops], a legal run of the ideal one. *)
Lemma run_split es : ∀ s, legal_real es s →
  ∃ done rest, es = done ++ rest ∧ agree done s ∧ legal_ideal done s ∧
    (rest = [] ∨ ∃ e rest', rest = e :: rest' ∧ ∀ s', run_real done s = Ok s' → stops e s' = true).
Proof.
  induction es as [|e es IH]; intros s Hl; [exists [], []; split_and!; [done|done|done|by left]|].
  apply legal_real_cons in Hl as [He Hl]. destruct (stops e s) eqn:Es.
  { exists [], (e :: es). split_and!; [done|done|done|]. right. exists e, es. split; [done|].
    intros s' E'. rewrite run_real_nil in E'. by injection E' as <-. }
  destruct (step_agrees e s He Es) as [He' Ha]. destruct (real e s) as [s1|f] eqn:E1.
  - destruct (IH s1 (Hl s1 eq_refl)) as (dn & rest & -> & Hag & Hli & Hr). exists (e :: dn), rest.
    split_and!; [done| |apply legal_ideal_cons; [done|]; intros s' E'; congruence|].
    + split; [congruence|]. intros s' E'. rewrite E1 in E'. injection E' as <-. exact Hag.
    + destruct Hr as [?|(e' & rest' & -> & Hs)]; [by left|]. right. exists e', rest'. split; [done|].
      intros s' E'. rewrite run_real_cons, E1 in E'. by apply Hs.
  - exists (e :: es), []. rewrite app_nil_r. split_and!; [done| |apply legal_ideal_cons; [done|]; intros s' E'; congruence|by left].
    split; [congruence|]. intros s' E'. congruence.
Qed.

(** What holds of every run of the ideal machine holds of the real one up to
    that event. *)
Lemma run_upto (P : list E → S → Prop) es s :
  (∀ dn, agree dn s → legal_ideal dn s → ∃ s', run_ideal dn s = Ok s' ∧ P dn s') →
  legal_real es s →
  ∃ done rest s', es = done ++ rest ∧ run_real done s = Ok s' ∧ P done s' ∧
    (rest = [] ∨ ∃ e rest', rest = e :: rest' ∧ stops e s' = true).
Proof.
  intros HP Hl. destruct (run_split es s Hl) as (dn & rest & -> & Ha & Hli & Hr). destruct (HP dn Ha Hli) as (s' & E' & Hs').
  pose proof (agree_run dn s Ha) as Er. rewrite E' in Er. exists dn, rest, s'. split_and!; try done.
  destruct Hr as [?|(e & rest' & -> & Hst)]; [by left|]. right. exists e, rest'. split; [done|]. by apply Hst.
Qed.
End agree.
