(* ===== verification/ChainBuffer.v ===== *)
(** The chained buffer of [muzi/net/chain_buffer.h] and [chain_buffer.cc]:
    the byte queue behind every connection, kept as a list of blocks of 4096
    bytes with a read and a write position. The list iterators are indices
    into [buffers_] (the end iterator is its length), the positions are
    offsets into the block of their iterator. *)

From S2P Require Import Prelude.

Definition kBufferSize : nat := Z.to_nat 4096.
Definition kInitialBufferNum : nat := 1.
Definition MaxVecSize : nat := 16.
Definition ExtraSpace : nat := Z.to_nat 65536.

Record ChainBuffer := mkChain {
  buffers_ : list bytes;
  readable_bytes_ : nat;
  write_buffer_ : nat;
  read_buffer_ : nat;
  write_pos_ : nat;
  read_pos_ : nat
}.

(** A block as [std::list] value-initialises it. *)
Definition new_block : bytes := replicate kBufferSize nul.

Definition ChainBuffer_new : ChainBuffer :=
  {| buffers_ := replicate kInitialBufferNum new_block; readable_bytes_ := 0;
     write_buffer_ := 0; read_buffer_ := 0; write_pos_ := 0; read_pos_ := 0 |}.

(** [it->begin()], [it->end()]: dereferencing the end iterator is undefined. *)
Definition block_at (b : ChainBuffer) (it : nat) : res bytes :=
  deref EndDeref (buffers_ b !! it).

(** ** Observers *)

Definition SlowReadableBytes (b : ChainBuffer) : Z :=
  (Z.of_nat (write_buffer_ b) - Z.of_nat (read_buffer_ b)) * Z.of_nat kBufferSize
  + Z.of_nat (write_pos_ b) - Z.of_nat (read_pos_ b).

Definition ReadableBytes (b : ChainBuffer) : nat := readable_bytes_ b.

Definition WritableBytes (b : ChainBuffer) : nat :=
  (length (buffers_ b) - write_buffer_ b) * kBufferSize - write_pos_ b.

(** ** Moving a position: the private [Forward] and [BackWard] *)

Fixpoint Forward_loop (fuel : nat) (bl : list bytes) (it pos len : nat) : res (nat * nat) :=
  match fuel with
  | O => Fault OutOfFuel
  | S fuel =>
      if decide (0 < len) then
        blk ← deref EndDeref (bl !! it);
        let n := length blk - pos in
        if decide (len < n) then Ok (it, pos + len)
        else
          _ ← deref EndDeref (bl !! S it);
          Forward_loop fuel bl (S it) 0 (len - n)
      else Ok (it, pos)
  end.

Definition Forward (b : ChainBuffer) (it pos len : nat) : res (nat * nat) :=
  Forward_loop (S (S len)) (buffers_ b) it pos len.

Fixpoint BackWard_loop (fuel : nat) (bl : list bytes) (it pos len : nat) : res (nat * nat) :=
  match fuel with
  | O => Fault OutOfFuel
  | S fuel =>
      if decide (0 < len) then
        let n := pos in
        if decide (len < n) then Ok (it, pos - len)
        else
          match it with
          | O => Fault EndDeref
          | S it' =>
              blk ← deref EndDeref (bl !! it');
              BackWard_loop fuel bl it' (length blk) (len - n)
          end
      else Ok (it, pos)
  end.

Definition BackWard (b : ChainBuffer) (it pos len : nat) : res (nat * nat) :=
  BackWard_loop (S (S len)) (buffers_ b) it pos len.

(** ** Consuming *)

(** [splice(end(), buffers_, it)]: move the node at index [it] to the end. *)
Definition splice {A} (it : nat) (l : list A) : list A :=
  match l !! it with
  | Some x => take it l ++ drop (S it) l ++ [x]
  | None => l
  end.

(** Where an iterator that pointed to index [i] points after [splice it]. *)
Definition splice_it (it len i : nat) : nat :=
  if decide (i = it) then len - 1 else if decide (it < i ∧ i < len) then i - 1 else i.

(** One turn of the loop of [Retrive] that leaves the first block. *)
Definition next_read_block (b : ChainBuffer) : res ChainBuffer :=
  let temp := read_buffer_ b in
  let len := length (buffers_ b) in
  _ ← deref EndDeref (buffers_ b !! S temp);
  Ok {| buffers_ := splice temp (buffers_ b);
        readable_bytes_ := readable_bytes_ b;
        write_buffer_ := splice_it temp len (write_buffer_ b);
        read_buffer_ := splice_it temp len (S temp);
        write_pos_ := write_pos_ b;
        read_pos_ := 0 |}.

Definition set_read_pos (pos : nat) (b : ChainBuffer) : ChainBuffer :=
  {| buffers_ := buffers_ b; readable_bytes_ := readable_bytes_ b;
     write_buffer_ := write_buffer_ b; read_buffer_ := read_buffer_ b;
     write_pos_ := write_pos_ b; read_pos_ := pos |}.

Definition set_readable (n : nat) (b : ChainBuffer) : ChainBuffer :=
  {| buffers_ := buffers_ b; readable_bytes_ := n;
     write_buffer_ := write_buffer_ b; read_buffer_ := read_buffer_ b;
     write_pos_ := write_pos_ b; read_pos_ := read_pos_ b |}.

Definition set_write (it pos : nat) (b : ChainBuffer) : ChainBuffer :=
  {| buffers_ := buffers_ b; readable_bytes_ := readable_bytes_ b;
     write_buffer_ := it; read_buffer_ := read_buffer_ b;
     write_pos_ := pos; read_pos_ := read_pos_ b |}.

Definition set_buffers (bl : list bytes) (b : ChainBuffer) : ChainBuffer :=
  {| buffers_ := bl; readable_bytes_ := readable_bytes_ b;
     write_buffer_ := write_buffer_ b; read_buffer_ := read_buffer_ b;
     write_pos_ := write_pos_ b; read_pos_ := read_pos_ b |}.

Fixpoint Retrive_loop (fuel : nat) (b : ChainBuffer) (len : nat) : res ChainBuffer :=
  match fuel with
  | O => Fault OutOfFuel
  | S fuel =>
      if decide (0 < len) then
        blk ← block_at b (read_buffer_ b);
        let m := length blk - read_pos_ b in
        if decide (len < m) then Ok (set_read_pos (read_pos_ b + len) b)
        else b' ← next_read_block b; Retrive_loop fuel b' (len - m)
      else Ok b
  end.

Definition Retrive (b : ChainBuffer) (len : nat) : res ChainBuffer :=
  _ ← assert (bool_decide (len ≤ ReadableBytes b));
  Retrive_loop (S (S len)) (set_readable (readable_bytes_ b - len) b) len.

Definition RetriveAll (b : ChainBuffer) : ChainBuffer :=
  {| buffers_ := buffers_ b; readable_bytes_ := 0; write_buffer_ := 0;
     read_buffer_ := 0; write_pos_ := 0; read_pos_ := 0 |}.

Fixpoint Peek_loop (fuel : nat) (bl : list bytes) (it pos len : nat) : res bytes :=
  match fuel with
  | O => Fault OutOfFuel
  | S fuel =>
      if decide (0 < len) then
        blk ← deref EndDeref (bl !! it);
        let m := length blk - pos in
        if decide (len < m) then Ok (take len (drop pos blk))
        else
          _ ← deref EndDeref (bl !! S it);
          rest ← Peek_loop fuel bl (S it) 0 (len - m);
          Ok (drop pos blk ++ rest)
      else Ok []
  end.

Definition PeekAsString (b : ChainBuffer) (len : nat) : res bytes :=
  _ ← assert (bool_decide (len ≤ ReadableBytes b));
  Peek_loop (S (S len)) (buffers_ b) (read_buffer_ b) (read_pos_ b) len.

Definition PeekAllAsString (b : ChainBuffer) : res bytes :=
  PeekAsString b (ReadableBytes b).

Definition RetriveAsString (b : ChainBuffer) (len : nat) : res (bytes * ChainBuffer) :=
  ret ← PeekAsString b len; b' ← Retrive b len; Ok (ret, b').

Definition RetriveAllAsString (b : ChainBuffer) : res (bytes * ChainBuffer) :=
  ret ← PeekAllAsString b; Ok (ret, RetriveAll b).

(** ** Producing *)

(** [std::memcpy(from, data, n)] where [from] is offset [pos] of block [it]. *)
Definition memcpy_block (it pos : nat) (d : bytes) (bl : list bytes) : res (list bytes) :=
  blk ← deref EndDeref (bl !! it);
  blk' ← write_mem pos d blk;
  Ok (<[it := blk']> bl).

Fixpoint Append_loop (fuel : nat) (b : ChainBuffer) (data : bytes) (len : nat) :
    res ChainBuffer :=
  match fuel with
  | O => Fault OutOfFuel
  | S fuel =>
      if decide (0 < len) then
        blk ← block_at b (write_buffer_ b);
        let from_it := write_buffer_ b in
        let from := write_pos_ b in
        let m := length blk - write_pos_ b in
        if decide (len < m) then
          src ← read_mem data len;
          bl ← memcpy_block from_it from src (buffers_ b);
          Ok (set_buffers bl (set_write from_it (from + len) b))
        else
          let bl0 := if decide (S from_it = length (buffers_ b))
                     then buffers_ b ++ [new_block] else buffers_ b in
          src ← read_mem data m;
          bl ← memcpy_block from_it from src bl0;
          Append_loop fuel (set_buffers bl (set_write (S from_it) 0 b))
            (drop m data) (len - m)
      else Ok b
  end.

(** [Append(const char *data, size_t len)]: [data] is the memory from the
    pointer on, which may hold more or fewer than [len] bytes. *)
Definition Append (b : ChainBuffer) (data : bytes) (len : nat) : res ChainBuffer :=
  Append_loop (S (S len)) (set_readable (readable_bytes_ b + len) b) data len.

(** The overloads on [StringProxy], [std::string] and [const char *]. *)
Definition AppendStr (b : ChainBuffer) (str : bytes) : res ChainBuffer :=
  Append b str (length str).

(** [Append(const ChainBuffer &)], of another buffer. *)
Fixpoint AppendChain_loop (n : nat) (b : ChainBuffer) (src : ChainBuffer) (it pos : nat) :
    res ChainBuffer :=
  match n with
  | O =>
      blk ← block_at src it;
      Append b (drop pos blk) (write_pos_ src - pos)
  | S n =>
      blk ← block_at src it;
      b' ← Append b (drop pos blk) (length blk - pos);
      AppendChain_loop n b' src (S it) 0
  end.

Definition AppendChain (b src : ChainBuffer) : res ChainBuffer :=
  AppendChain_loop (write_buffer_ src - read_buffer_ src) b src
    (read_buffer_ src) (read_pos_ src).

Definition UnWrite (b : ChainBuffer) (len : nat) : res ChainBuffer :=
  _ ← assert (bool_decide (len ≤ ReadableBytes b));
  '(it, pos) ← BackWard b (write_buffer_ b) (write_pos_ b) len;
  Ok (set_readable (readable_bytes_ b - len) (set_write it pos b)).

Definition HasWrite (b : ChainBuffer) (len : nat) : res ChainBuffer :=
  _ ← assert (bool_decide (len ≤ WritableBytes b));
  '(it, pos) ← Forward b (write_buffer_ b) (write_pos_ b) len;
  Ok (set_readable (readable_bytes_ b + len) (set_write it pos b)).

Definition Shrink (b : ChainBuffer) (reserve : nat) : res ChainBuffer :=
  if decide (WritableBytes b ≤ reserve) then Ok b
  else
    '(it, _) ← Forward b (write_buffer_ b) (write_pos_ b) reserve;
    Ok (set_buffers (take (S it) (buffers_ b)) b).

(** ** Scatter and gather system calls *)

(** One [struct iovec]: a block, an offset in it and a length. *)
Record iovec := mkIov { iov_block : nat; iov_off : nat; iov_len : nat }.

Definition iov_total (vec : list iovec) : nat := sum_list_with iov_len vec.

(** What [readv(2)] answers: an error with its errno, or the bytes read. *)
Inductive readv_result :=
  | ReadvErr (err : Z)
  | ReadvData (data : bytes).

(** [readv(2)] and [writev(2)], given the lengths of the vectors, the second
    also the bytes they hold. *)
Abbreviation readv_fn := (list nat → readv_result).
Inductive writev_result :=
  | WritevErr (err : Z)
  | WritevN (n : nat).
Abbreviation writev_fn := (bytes → writev_result).

(** The kernel fills the vectors in order. *)
Fixpoint scatter (vec : list iovec) (d : bytes) (bl : list bytes) : res (list bytes) :=
  match vec with
  | [] => Ok bl
  | v :: vec =>
      bl' ← memcpy_block (iov_block v) (iov_off v) (take (iov_len v) d) bl;
      scatter vec (drop (iov_len v) d) bl'
  end.

(** The loop that fills [vec] from [write_buffer_] to the end of the list, at
    most [n] vectors; it answers the vectors and the block it stopped at. *)
Fixpoint read_vecs (n : nat) (bl : list bytes) (it pos : nat) : list iovec * nat :=
  match n with
  | O => ([], it)
  | S n =>
      match bl !! it with
      | None => ([], it)
      | Some blk =>
          let '(vec, last) := read_vecs n bl (S it) 0 in
          (mkIov it pos (length blk - pos) :: vec, last)
      end
  end.

(** The loop as it is written: when it leaves the last block it takes
    [peek_buffer->begin()] of [end()].  The address is never used; with
    [checked] iterators, as in a debug build of the standard library, taking it
    is a fault nevertheless. *)
Fixpoint read_vecs_loop (checked : bool) (n : nat) (bl : list bytes) (it pos : nat) : res (list iovec * nat) :=
  match n with
  | O => Ok ([], it)
  | S n =>
      match bl !! it with
      | None => Ok ([], it)
      | Some blk =>
          _ ← (if checked then deref EndDeref (bl !! S it) else Ok blk);
          '(vec, last) ← read_vecs_loop checked n bl (S it) 0;
          Ok (mkIov it pos (length blk - pos) :: vec, last)
      end
  end.

Lemma read_vecs_unchecked n bl : ∀ it pos, read_vecs_loop false n bl it pos = Ok (read_vecs n bl it pos).
Proof.
  induction n as [|n IH]; intros it pos; [done|]. cbn [read_vecs_loop read_vecs]. destruct (bl !! it) as [blk|]; [|done].
  cbn [mbind res_bind]. rewrite IH. cbn [mbind res_bind]. by destruct (read_vecs n bl (S it) 0).
Qed.

(** Checked iterators make no other difference. *)
Lemma read_vecs_checked n bl : ∀ it pos,
  read_vecs_loop true n bl it pos = Ok (read_vecs n bl it pos) ∨
  read_vecs_loop true n bl it pos = Fault EndDeref ∧ length bl ≤ it + n.
Proof.
  induction n as [|n IH]; intros it pos; [by left|]. cbn [read_vecs_loop read_vecs]. destruct (bl !! it) as [blk|]; [|by left].
  destruct (bl !! S it) eqn:E; cbn [deref mbind res_bind].
  - destruct (IH (S it) 0) as [->|[-> Hl]]; [left; by destruct (read_vecs n bl (S it) 0)|right; split; [done|lia]].
  - right. apply lookup_ge_None in E. split; [done|lia].
Qed.

Section syscalls.
Variable checked : bool.
Variable readv : readv_fn.
Variable writev : writev_fn.

(** The answer is the return value, [*saved_errno] and the new buffer. *)
Definition ReadFd_loop (b : ChainBuffer) : res (Z * option Z * ChainBuffer) :=
  '(vec, peek) ← read_vecs_loop checked (MaxVecSize - 1) (buffers_ b) (write_buffer_ b) (write_pos_ b);
  let writable := iov_total vec in
  match readv (map iov_len vec ++ [ExtraSpace]) with
  | ReadvErr e => Ok ((-1)%Z, Some e, b)
  | ReadvData d =>
      let readn := length d in
      bl ← scatter vec d (buffers_ b);
      let extra_buf := drop writable d in
      let b1 := set_buffers bl b in
      if decide (writable ≤ readn) then
        let b2 := if decide (peek = length bl)
                  then set_write (length bl) 0 (set_buffers (bl ++ [new_block]) b1)
                  else set_write peek 0 b1 in
        b3 ← Append (set_readable (readable_bytes_ b2 + writable) b2)
               extra_buf (readn - writable);
        Ok (Z.of_nat readn, None, b3)
      else
        b2 ← HasWrite b1 readn; Ok (Z.of_nat readn, None, b2)
  end.

(** The vectors [WriteFd] builds, read out of the blocks. *)
Fixpoint write_vecs (n : nat) (bl : list bytes) (it pos wit wpos : nat) : res bytes :=
  match n with
  | O => Ok []
  | S n =>
      blk ← deref EndDeref (bl !! it);
      if decide (it = wit) then Ok (take (wpos - pos) (drop pos blk))
      else
        _ ← deref EndDeref (bl !! S it);
        rest ← write_vecs n bl (S it) 0 wit wpos;
        Ok (drop pos blk ++ rest)
  end.

(** The answer also holds the bytes handed to the socket. *)
Definition WriteFd (b : ChainBuffer) : res (Z * option Z * bytes * ChainBuffer) :=
  vec ← write_vecs MaxVecSize (buffers_ b) (read_buffer_ b) (read_pos_ b)
          (write_buffer_ b) (write_pos_ b);
  match writev vec with
  | WritevErr e => Ok ((-1)%Z, Some e, [], b)
  | WritevN n => b' ← Retrive b n; Ok (Z.of_nat n, None, take n vec, b')
  end.
End syscalls.

(** Elsewhere the iterators are those of the release library. *)
Definition ReadFd : readv_fn → ChainBuffer → res (Z * option Z * ChainBuffer) := ReadFd_loop false.

(** ** The abstract byte queue and the representation invariant *)

(** [content b]: the bytes between the read and the write position. *)
Definition content (b : ChainBuffer) : bytes :=
  drop (read_buffer_ b * kBufferSize + read_pos_ b)
    (take (write_buffer_ b * kBufferSize + write_pos_ b) (concat (buffers_ b))).

Record wf (b : ChainBuffer) : Prop := mkWf {
  wf_blocks : Forall (λ x, length x = kBufferSize) (buffers_ b);
  wf_read : read_buffer_ b = 0;
  wf_write : write_buffer_ b < length (buffers_ b);
  wf_write_pos : write_pos_ b < kBufferSize;
  wf_read_pos : read_pos_ b < kBufferSize;
  wf_order : read_pos_ b ≤ write_buffer_ b * kBufferSize + write_pos_ b;
  wf_readable : readable_bytes_ b + read_pos_ b
                = write_buffer_ b * kBufferSize + write_pos_ b
}.

Lemma kBufferSize_pos : 0 < kBufferSize.
Proof. unfold kBufferSize. lia. Qed.

#[local] Opaque kBufferSize ExtraSpace.

Lemma length_new_block : length new_block = kBufferSize.
Proof. apply length_replicate. Qed.

Section positions.
Variable bl : list bytes.
Hypothesis Hbl : Forall (λ x, length x = kBufferSize) bl.

Lemma block_lookup it : it < length bl → ∃ blk, bl !! it = Some blk ∧ length blk = kBufferSize.
Proof.
  intros Hit. destruct (lookup_lt_is_Some_2 bl it Hit) as [blk E].
  exists blk. split; [done|]. rewrite Forall_lookup in Hbl. eauto.
Qed.

Lemma drop_block it pos blk :
  bl !! it = Some blk → pos ≤ kBufferSize →
  drop (it * kBufferSize + pos) (concat bl)
  = drop pos blk ++ drop (S it * kBufferSize) (concat bl).
Proof.
  intros E Hpos. pose proof (concat_lookup_block _ _ _ _ Hbl E) as H.
  assert (length blk = kBufferSize) as Hb by (rewrite Forall_lookup in Hbl; eauto).
  assert (it < length bl) by (eapply lookup_lt_Some; eauto).
  pose proof (length_concat_uniform _ _ Hbl) as Hlen.
  assert (S it * kBufferSize ≤ length bl * kBufferSize) by (apply Nat.mul_le_mono_r; lia).
  rewrite H at 1. rewrite drop_app_ge by (rewrite length_take; lia).
  rewrite length_take, Nat.min_l by lia.
  replace (it * kBufferSize + pos - it * kBufferSize) with pos by lia.
  by rewrite drop_app_le by lia.
Qed.

(** [Forward] adds to the linear position. *)
Lemma Forward_loop_spec fuel it pos len :
  len < fuel → pos < kBufferSize →
  it * kBufferSize + pos + len < length bl * kBufferSize →
  ∃ it' pos', Forward_loop fuel bl it pos len = Ok (it', pos') ∧
    it' < length bl ∧ pos' < kBufferSize ∧
    it' * kBufferSize + pos' = it * kBufferSize + pos + len.
Proof.
  revert it pos len. induction fuel as [|fuel IH]; intros it pos len Hf Hp Hlt; [lia|].
  assert (it < length bl) as Hit by nia.
  simpl. destruct (decide (0 < len)) as [Hl|Hl].
  - destruct (block_lookup it Hit) as (blk & E & Hb). rewrite E. simpl. rewrite Hb.
    destruct (decide (len < kBufferSize - pos)) as [Hn|Hn].
    + exists it, (pos + len). repeat split; lia.
    + assert (S it < length bl) as HSit by nia.
      destruct (block_lookup (S it) HSit) as (blk' & E' & _). rewrite E'. simpl.
      pose proof kBufferSize_pos.
      destruct (IH (S it) 0 (len - (kBufferSize - pos))) as (it' & pos' & -> & ?);
        [lia|lia|lia|].
      exists it', pos'. split; [done|]. lia.
  - exists it, pos. repeat split; lia.
Qed.

(** [BackWard] subtracts from it, and stops one past the last byte of a
    block when the new position is at a block boundary. *)
Lemma BackWard_loop_spec fuel it pos len :
  len < fuel → it < length bl → 0 < pos ≤ kBufferSize →
  len < it * kBufferSize + pos →
  ∃ it' pos', BackWard_loop fuel bl it pos len = Ok (it', pos') ∧
    it' < length bl ∧ 0 < pos' ≤ kBufferSize ∧
    it' * kBufferSize + pos' + len = it * kBufferSize + pos.
Proof.
  revert it pos len. induction fuel as [|fuel IH]; intros it pos len Hf Hit Hp Hlt; [lia|].
  simpl. destruct (decide (0 < len)) as [Hl|Hl].
  - destruct (decide (len < pos)) as [Hn|Hn].
    + exists it, (pos - len). repeat split; lia.
    + destruct it as [|it]; [lia|].
      destruct (block_lookup it) as (blk & E & Hb); [lia|]. rewrite E. simpl. rewrite Hb.
      pose proof kBufferSize_pos.
      destruct (IH it kBufferSize (len - pos)) as (it' & pos' & -> & ?); [lia..|].
      exists it', pos'. split; [done|]. lia.
  - exists it, pos. repeat split; lia.
Qed.

(** The same from a position that may be at the start of a block. *)
Lemma BackWard_loop_spec0 fuel it pos len :
  S len < fuel → it < length bl → pos ≤ kBufferSize →
  len < it * kBufferSize + pos → 0 < pos ∨ 0 < len →
  ∃ it' pos', BackWard_loop fuel bl it pos len = Ok (it', pos') ∧
    it' < length bl ∧ 0 < pos' ≤ kBufferSize ∧
    it' * kBufferSize + pos' + len = it * kBufferSize + pos.
Proof.
  intros Hf Hit Hp Hlt Hpl. destruct (decide (0 < pos)); [apply BackWard_loop_spec; lia|].
  destruct fuel as [|fuel]; [lia|]. cbn [BackWard_loop].
  rewrite decide_True by lia. rewrite decide_False by lia. destruct it as [|it]; [lia|].
  destruct (block_lookup it) as (blk & -> & Hb); [lia|]. cbn [mbind res_bind deref]. rewrite Hb.
  pose proof kBufferSize_pos.
  destruct (BackWard_loop_spec fuel it kBufferSize (len - pos)) as (it' & pos' & -> & ?); [lia..|].
  exists it', pos'. split; [done|]. lia.
Qed.

Lemma Peek_loop_spec fuel it pos len :
  len < fuel → pos < kBufferSize →
  it * kBufferSize + pos + len < length bl * kBufferSize →
  Peek_loop fuel bl it pos len
  = Ok (take len (drop (it * kBufferSize + pos) (concat bl))).
Proof.
  revert it pos len. induction fuel as [|fuel IH]; intros it pos len Hf Hp Hlt; [lia|].
  assert (it < length bl) as Hit by nia.
  simpl. destruct (decide (0 < len)) as [Hl|Hl].
  - destruct (block_lookup it Hit) as (blk & E & Hb). rewrite E. simpl. rewrite Hb.
    rewrite (drop_block it pos blk) by (done || lia).
    destruct (decide (len < kBufferSize - pos)) as [Hn|Hn].
    + by rewrite take_app_le by (rewrite length_drop; lia).
    + assert (S it < length bl) as HSit by nia.
      destruct (block_lookup (S it) HSit) as (blk' & E' & _). rewrite E'. simpl.
      pose proof kBufferSize_pos.
      rewrite IH by lia. simpl.
      rewrite take_app_ge by (rewrite length_drop; lia).
      rewrite length_drop, Hb, Nat.add_0_r. done.
  - replace len with 0 by lia. done.
Qed.
End positions.

Lemma read_mem_ok src n : n ≤ length src → read_mem src n = Ok (take n src).
Proof. intros. unfold read_mem. by rewrite decide_True. Qed.

Lemma memcpy_block_spec bl it off d :
  Forall (λ x, length x = kBufferSize) bl → it < length bl →
  off + length d ≤ kBufferSize →
  ∃ bl', memcpy_block it off d bl = Ok bl' ∧
    Forall (λ x, length x = kBufferSize) bl' ∧ length bl' = length bl ∧
    concat bl' = overwrite (it * kBufferSize + off) d (concat bl).
Proof.
  intros Hbl Hit Hd. destruct (block_lookup bl Hbl it Hit) as (blk & E & Hb).
  unfold memcpy_block, write_mem. rewrite E. simpl. rewrite decide_True by lia.
  eexists. split; [done|]. rewrite length_insert. repeat split.
  - apply Forall_insert_same; [done|]. rewrite length_overwrite; lia.
  - by apply concat_overwrite.
Qed.

(** What appending does to the written part of the blocks. *)
Record appended (b b' : ChainBuffer) (d : bytes) : Prop := mkAppended {
  app_blocks : Forall (λ x, length x = kBufferSize) (buffers_ b');
  app_read : read_buffer_ b' = read_buffer_ b ∧ read_pos_ b' = read_pos_ b;
  app_write : write_buffer_ b' < length (buffers_ b') ∧ write_pos_ b' < kBufferSize;
  app_len : write_buffer_ b' * kBufferSize + write_pos_ b'
            = write_buffer_ b * kBufferSize + write_pos_ b + length d;
  app_readable : readable_bytes_ b' = readable_bytes_ b;
  app_content : take (write_buffer_ b' * kBufferSize + write_pos_ b') (concat (buffers_ b'))
    = take (write_buffer_ b * kBufferSize + write_pos_ b) (concat (buffers_ b)) ++ d
}.

Lemma extend_blocks (c : bool) (bl : list bytes) :
  Forall (λ x, length x = kBufferSize) bl →
  Forall (λ x, length x = kBufferSize) (if c then bl ++ [new_block] else bl).
Proof.
  intros. destruct c; [|done]. apply Forall_app_2; [done|].
  by apply Forall_singleton, length_new_block.
Qed.

Lemma write_in_range (bl : list bytes) it pos :
  Forall (λ x, length x = kBufferSize) bl → it < length bl → pos ≤ kBufferSize →
  it * kBufferSize + pos ≤ length (concat bl).
Proof. intros Hbl ??. rewrite (length_concat_uniform _ _ Hbl). nia. Qed.

Lemma Append_loop_spec fuel b data len :
  len < fuel → len ≤ length data →
  Forall (λ x, length x = kBufferSize) (buffers_ b) →
  write_buffer_ b < length (buffers_ b) → write_pos_ b < kBufferSize →
  ∃ b', Append_loop fuel b data len = Ok b' ∧ appended b b' (take len data).
Proof.
  revert b data len. induction fuel as [|fuel IH]; intros b data len Hf Hd Hbl Hw Hp; [lia|].
  simpl. destruct (decide (0 < len)) as [Hl|Hl].
  2: { replace len with 0 by lia. exists b. split; [done|].
       split; try done. all: simpl; rewrite ?app_nil_r, ?Nat.add_0_r; done. }
  destruct (block_lookup _ Hbl _ Hw) as (blk & E & Hb).
  unfold block_at. rewrite E. simpl. rewrite Hb.
  pose proof (write_in_range _ _ (write_pos_ b) Hbl Hw) as Hr.
  destruct (decide (len < kBufferSize - write_pos_ b)) as [Hn|Hn].
  - rewrite read_mem_ok by done. simpl.
    destruct (memcpy_block_spec (buffers_ b) (write_buffer_ b) (write_pos_ b) (take len data))
      as (bl' & -> & Hbl' & Hlen' & Hc); [done..| |].
    { rewrite length_take. lia. }
    eexists. split; [done|]. split; simpl; try done; try (rewrite ?length_take; lia).
    rewrite Hc, Nat.add_assoc.
    replace len with (length (take len data)) at 1 by (rewrite length_take; lia).
    apply take_overwrite. lia.
  - set (m := kBufferSize - write_pos_ b) in *.
    rewrite read_mem_ok by lia. simpl.
    set (bl0 := if decide _ then _ else _).
    assert (Forall (λ x, length x = kBufferSize) bl0) as Hbl0.
    { unfold bl0. case_decide; [|done]. by apply (extend_blocks true). }
    assert (S (write_buffer_ b) < length bl0) as Hlen0.
    { unfold bl0. case_decide; [rewrite length_app; simpl|]; lia. }
    assert (take (write_buffer_ b * kBufferSize + write_pos_ b) (concat bl0)
            = take (write_buffer_ b * kBufferSize + write_pos_ b) (concat (buffers_ b))) as Ht0.
    { unfold bl0. case_decide; [|done]. rewrite concat_app_singleton, take_app_le; [done|lia]. }
    assert (length (take m data) = m) as Hm by (rewrite length_take; lia).
    destruct (memcpy_block_spec bl0 (write_buffer_ b) (write_pos_ b) (take m data))
      as (bl' & -> & Hbl' & Hlen' & Hc); [done|lia|lia|]. simpl.
    pose proof kBufferSize_pos.
    destruct (IH (set_buffers bl' (set_write (S (write_buffer_ b)) 0 b)) (drop m data) (len - m))
      as (b' & -> & [A1 A2 A3 A4 A5 A6]); simpl in *; [lia|rewrite length_drop; lia|done|lia|lia|].
    exists b'. split; [done|]. split; try done.
    + rewrite A4, !length_take, length_drop. lia.
    + rewrite A6, Nat.add_0_r, Hc.
      match goal with |- take ?x _ ++ _ = _ =>
        replace x with (write_buffer_ b * kBufferSize + write_pos_ b + length (take m data)) by lia
      end.
      rewrite take_overwrite.
      * rewrite Ht0, <- app_assoc, take_take_drop. do 2 f_equal. lia.
      * rewrite (length_concat_uniform _ _ Hbl0). nia.
Qed.

(** Appending extends the queue; the invariant is re-established. *)
Lemma appended_wf b b' (d : bytes) n :
  wf b → n = length d → appended (set_readable (readable_bytes_ b + n) b) b' d →
  wf b' ∧ content b' = content b ++ d.
Proof.
  intros [W1 W2 W3 W4 W5 W6 W7] -> [A1 [A2 A2'] [A3 A3'] A4 A5 A6]; simpl in *.
  split; [split; try done; lia|].
  unfold content. rewrite A2, A2', A6.
  rewrite drop_app_le; [done|]. rewrite length_take, W2.
  pose proof (write_in_range _ _ (write_pos_ b) W1 W3). lia.
Qed.

Lemma content_length b : wf b → length (content b) = readable_bytes_ b.
Proof.
  intros [W1 W2 W3 W4 W5 W6 W7]. unfold content. rewrite length_drop, length_take, W2.
  pose proof (write_in_range _ _ (write_pos_ b) W1 W3). lia.
Qed.

Lemma Append_spec b data len :
  wf b → len ≤ length data →
  ∃ b', Append b data len = Ok b' ∧ wf b' ∧ content b' = content b ++ take len data.
Proof.
  intros Hwf Hd. pose proof Hwf as [W1 W2 W3 W4 W5 W6 W7]. unfold Append.
  destruct (Append_loop_spec (S (S len)) (set_readable (readable_bytes_ b + len) b) data len)
    as (b' & -> & Happ); [lia|done..|].
  exists b'. split; [done|]. apply (appended_wf b b' (take len data) len); [done| |done].
  rewrite length_take. lia.
Qed.

Lemma AppendStr_spec b str :
  wf b → ∃ b', AppendStr b str = Ok b' ∧ wf b' ∧ content b' = content b ++ str.
Proof.
  intros Hwf. destruct (Append_spec b str (length str) Hwf) as (b' & E & ? & Hc); [done|].
  exists b'. rewrite firstn_all in Hc. done.
Qed.

(** Leaving the first block: it is recycled at the end of the list. *)
Lemma next_read_block_spec n b :
  wf b → 0 < write_buffer_ b →
  ∃ b', next_read_block (set_readable n b) = Ok (set_readable n b') ∧ wf b' ∧
    content b' = drop (kBufferSize - read_pos_ b) (content b) ∧
    readable_bytes_ b' = readable_bytes_ b - (kBufferSize - read_pos_ b) ∧
    read_pos_ b' = 0.
Proof.
  intros [W1 W2 W3 W4 W5 W6 W7] Hw. unfold next_read_block. simpl. rewrite W2.
  destruct (block_lookup _ W1 1) as (blk1 & E1 & _); [lia|]. rewrite E1. cbn [mbind res_bind deref].
  destruct (buffers_ b) as [|blk bl] eqn:Ebl; [done|]. simpl in *.
  apply Forall_cons_1 in W1 as [Hb W1]. cbn beta in Hb.
  exists {| buffers_ := bl ++ [blk]; readable_bytes_ := readable_bytes_ b - (kBufferSize - read_pos_ b);
       write_buffer_ := write_buffer_ b - 1; read_buffer_ := 0;
       write_pos_ := write_pos_ b; read_pos_ := 0 |}.
  pose proof (length_concat_uniform _ _ W1) as Hlen.
  pose proof kBufferSize_pos.
  assert (write_buffer_ b * kBufferSize = kBufferSize + (write_buffer_ b - 1) * kBufferSize) as Hwk
    by (destruct (write_buffer_ b); lia).
  pose proof (Nat.le_0_l ((write_buffer_ b - 1) * kBufferSize)).
  assert ((write_buffer_ b - 1) * kBufferSize + write_pos_ b ≤ length (concat bl)).
  { rewrite Hlen. assert (S (write_buffer_ b - 1) * kBufferSize ≤ length bl * kBufferSize)
      by (apply Nat.mul_le_mono_r; lia). lia. }
  split.
  { unfold set_readable, splice, splice_it; simpl. decide_lia. simpl.
    done. }
  split; [split; simpl; try lia|].
  - apply Forall_app_2; [done|]. by apply Forall_singleton.
  - rewrite length_app. simpl. lia.
  - split; [|split; [done|done]]. unfold content. simpl. rewrite W2, Ebl. simpl.
    rewrite concat_app_singleton, take_app_le by lia.
    rewrite Hwk, <- Nat.add_assoc, take_app_ge by lia.
    replace (kBufferSize + _ - length blk) with ((write_buffer_ b - 1) * kBufferSize + write_pos_ b) by lia.
    rewrite drop_0, drop_drop, drop_app_ge by lia.
    replace (_ - length blk) with 0 by lia. by rewrite drop_0.
Qed.

Lemma Retrive_loop_spec fuel n b len :
  len < fuel → wf b → len ≤ readable_bytes_ b →
  ∃ b', Retrive_loop fuel (set_readable n b) len = Ok (set_readable n b') ∧ wf b' ∧
    content b' = drop len (content b) ∧ readable_bytes_ b' = readable_bytes_ b - len.
Proof.
  revert b len. induction fuel as [|fuel IH]; intros b len Hf Hwf Hle; [lia|].
  pose proof Hwf as [W1 W2 W3 W4 W5 W6 W7]. simpl. destruct (decide (0 < len)).
  2: { replace len with 0 by lia. exists b. rewrite drop_0. repeat split; try done. lia. }
  destruct (block_lookup _ W1 (read_buffer_ b)) as (blk & E & Hb); [lia|].
  unfold block_at. simpl. rewrite E. simpl. rewrite Hb.
  destruct (decide (len < kBufferSize - read_pos_ b)).
  - exists (set_read_pos (read_pos_ b + len) (set_readable (readable_bytes_ b - len) b)).
    split; [done|]. split; [split; simpl; try done; lia|]. split; [|done].
    unfold content. simpl. by rewrite drop_drop, Nat.add_assoc.
  - destruct (next_read_block_spec n b Hwf) as (b1 & -> & Hwf1 & Hc1 & Hr1 & Hp1).
    { destruct (write_buffer_ b); lia. }
    simpl.
    destruct (IH b1 (len - (kBufferSize - read_pos_ b))) as (b' & -> & Hwf' & Hc' & Hr');
      [lia|done|lia|].
    exists b'. split; [done|]. split; [done|]. rewrite Hc', Hc1, drop_drop.
    split; [f_equal|]; lia.
Qed.

Lemma set_readable_id b : set_readable (readable_bytes_ b) b = b.
Proof. by destruct b. Qed.

Lemma Retrive_spec b len :
  wf b → len ≤ ReadableBytes b →
  ∃ b', Retrive b len = Ok b' ∧ wf b' ∧ content b' = drop len (content b).
Proof.
  intros Hwf Hle. unfold Retrive. rewrite bool_decide_eq_true_2 by done. simpl.
  destruct (Retrive_loop_spec (S (S len)) (readable_bytes_ b - len) b len)
    as (b' & E & Hwf' & Hc & Hr); [lia|done|done|].
  exists b'. simpl in E. rewrite E. rewrite <- Hr, set_readable_id. done.
Qed.

Lemma PeekAsString_spec b len :
  wf b → len ≤ ReadableBytes b → PeekAsString b len = Ok (take len (content b)).
Proof.
  intros [W1 W2 W3 W4 W5 W6 W7] Hle. unfold PeekAsString.
  rewrite bool_decide_eq_true_2 by done. cbn [mbind res_bind assert].
  unfold ReadableBytes in Hle.
  assert (S (write_buffer_ b) * kBufferSize ≤ length (buffers_ b) * kBufferSize)
    by (apply Nat.mul_le_mono_r; lia).
  rewrite Peek_loop_spec; [|done|lia|done|rewrite W2; lia].
  f_equal. unfold content. rewrite skipn_firstn_comm, take_take. f_equal. rewrite W2. lia.
Qed.

Lemma RetriveAll_spec b : wf b → wf (RetriveAll b) ∧ content (RetriveAll b) = [].
Proof.
  intros [W1 W2 W3 W4 W5 W6 W7]. split; [|done].
  pose proof kBufferSize_pos. split; simpl; try done; lia.
Qed.

Lemma ChainBuffer_new_wf : wf ChainBuffer_new ∧ content ChainBuffer_new = [].
Proof.
  pose proof kBufferSize_pos. split; [|done]. split; simpl; try lia.
  apply Forall_singleton, length_new_block.
Qed.

(** Moving only the write position, within what is allocated. *)
Lemma set_write_wf b it pos n :
  wf b → it < length (buffers_ b) → pos < kBufferSize →
  read_pos_ b ≤ it * kBufferSize + pos →
  n + read_pos_ b = it * kBufferSize + pos →
  wf (set_readable n (set_write it pos b)).
Proof. intros [W1 W2 W3 W4 W5 W6 W7] ????. split; done. Qed.

Lemma WritableBytes_alt b :
  wf b → WritableBytes b + write_buffer_ b * kBufferSize + write_pos_ b
         = length (concat (buffers_ b)).
Proof.
  intros [W1 W2 W3 W4 W5 W6 W7]. rewrite (length_concat_uniform _ _ W1).
  unfold WritableBytes. rewrite Nat.mul_sub_distr_r.
  assert (S (write_buffer_ b) * kBufferSize ≤ length (buffers_ b) * kBufferSize)
    by (apply Nat.mul_le_mono_r; lia). lia.
Qed.

(** [HasWrite] makes bytes already in the blocks part of the queue. *)
Lemma HasWrite_spec b len :
  wf b → len < WritableBytes b →
  ∃ b', HasWrite b len = Ok b' ∧ wf b' ∧
    content b' = content b ++
      take len (drop (write_buffer_ b * kBufferSize + write_pos_ b) (concat (buffers_ b))).
Proof.
  intros Hwf Hlt. pose proof (WritableBytes_alt b Hwf) as Ha.
  pose proof Hwf as [W1 W2 W3 W4 W5 W6 W7].
  unfold HasWrite. rewrite bool_decide_eq_true_2 by lia. cbn [mbind res_bind assert].
  rewrite (length_concat_uniform _ _ W1) in Ha.
  destruct (Forward_loop_spec _ W1 (S (S len)) (write_buffer_ b) (write_pos_ b) len)
    as (it & pos & E & H1 & H2 & H3); [lia..|].
  unfold Forward. rewrite E. simpl. eexists. split; [done|].
  split; [apply set_write_wf; try done; lia|].
  unfold content. simpl. rewrite H3, <- take_take_drop, drop_app_le; [done|].
  rewrite length_take, (length_concat_uniform _ _ W1). rewrite W2. lia.
Qed.

Lemma Forward_spec b len :
  wf b → len < WritableBytes b →
  ∃ it pos, Forward b (write_buffer_ b) (write_pos_ b) len = Ok (it, pos) ∧
    it < length (buffers_ b) ∧ pos < kBufferSize ∧
    it * kBufferSize + pos = write_buffer_ b * kBufferSize + write_pos_ b + len.
Proof.
  intros Hwf Hlt. pose proof (WritableBytes_alt b Hwf) as Ha.
  pose proof Hwf as [W1 W2 W3 W4 W5 W6 W7]. rewrite (length_concat_uniform _ _ W1) in Ha.
  apply Forward_loop_spec; [done|lia..].
Qed.

Lemma UnWrite_spec b len :
  wf b → len ≤ ReadableBytes b →
  len < write_buffer_ b * kBufferSize + write_pos_ b →
  (write_buffer_ b * kBufferSize + write_pos_ b - len) mod kBufferSize ≠ 0 →
  ∃ b', UnWrite b len = Ok b' ∧ wf b' ∧
    content b' = take (ReadableBytes b - len) (content b).
Proof.
  intros Hwf Hle Hlt Hmod. pose proof Hwf as [W1 W2 W3 W4 W5 W6 W7].
  unfold UnWrite. rewrite bool_decide_eq_true_2 by done. cbn [mbind res_bind assert].
  destruct (BackWard_loop_spec0 _ W1 (S (S len)) (write_buffer_ b) (write_pos_ b) len)
    as (it & pos & E & H1 & H2 & H3); [lia..| |].
  { destruct (decide (write_pos_ b = 0)) as [Ep|]; [|lia]. right.
    destruct (decide (0 < len)); [done|]. exfalso. apply Hmod.
    replace len with 0 by lia. rewrite Ep, Nat.add_0_r, Nat.sub_0_r. apply Nat.Div0.mod_mul. }
  unfold BackWard. rewrite E. simpl. unfold ReadableBytes in *.
  assert (pos ≠ kBufferSize).
  { intros ->. apply Hmod. rewrite <- H3.
    replace (it * kBufferSize + kBufferSize + len - len) with (S it * kBufferSize) by lia.
    apply Nat.Div0.mod_mul. }
  eexists. split; [done|]. split; [apply set_write_wf; try done; lia|].
  unfold content. simpl. rewrite take_drop_commute, take_take. do 2 f_equal. rewrite W2. lia.
Qed.

(** [Shrink] frees whole blocks behind the write position, and leaves room
    for [reserve] bytes. *)
Lemma Shrink_spec b reserve :
  wf b →
  ∃ b', Shrink b reserve = Ok b' ∧ wf b' ∧ content b' = content b ∧
    (reserve < WritableBytes b →
     reserve < WritableBytes b' ∧ WritableBytes b' ≤ reserve + kBufferSize).
Proof.
  intros Hwf. pose proof Hwf as [W1 W2 W3 W4 W5 W6 W7]. unfold Shrink.
  destruct (decide (WritableBytes b ≤ reserve)) as [Hle|Hlt].
  { exists b. repeat split; try done; lia. }
  destruct (Forward_spec b reserve Hwf) as (it & pos & E & H1 & H2 & H3); [lia|].
  rewrite E. cbn [mbind res_bind]. eexists. split; [done|].
  assert (write_buffer_ b ≤ it) as Hit by nia.
  assert (wf (set_buffers (take (S it) (buffers_ b)) b)) as Hwf'.
  { split; simpl; try done; [by apply Forall_take|]. rewrite length_take. lia. }
  split; [done|]. split.
  - unfold content. cbn [read_buffer_ read_pos_ write_buffer_ write_pos_ buffers_ set_buffers].
    rewrite <- (take_drop (S it) (buffers_ b)) at 2.
    rewrite concat_app, take_app_le; [done|].
    rewrite (length_concat_uniform kBufferSize) by (by apply Forall_take).
    rewrite length_take, Nat.min_l by lia.
    assert (write_buffer_ b * kBufferSize ≤ it * kBufferSize) by (apply Nat.mul_le_mono_r; lia). lia.
  - intros _. unfold WritableBytes.
    cbn [write_buffer_ write_pos_ buffers_ set_buffers].
    rewrite length_take, Nat.min_l, Nat.mul_sub_distr_r by lia. lia.
Qed.

(** The other buffer's bytes are appended in order. *)
Lemma AppendChain_spec b src :
  wf b → wf src →
  ∃ b', AppendChain b src = Ok b' ∧ wf b' ∧ content b' = content b ++ content src.
Proof.
  intros Hwf [W1 W2 W3 W4 W5 W6 W7]. unfold AppendChain, content at 3. rewrite W2.
  assert (∀ n b it pos, wf b → it + n = write_buffer_ src → pos ≤ kBufferSize →
    it * kBufferSize + pos ≤ write_buffer_ src * kBufferSize + write_pos_ src →
    ∃ b', AppendChain_loop n b src it pos = Ok b' ∧ wf b' ∧
      content b' = content b ++
        take (write_buffer_ src * kBufferSize + write_pos_ src - (it * kBufferSize + pos))
          (drop (it * kBufferSize + pos) (concat (buffers_ src)))) as Hloop.
  2: { destruct (Hloop (write_buffer_ src - 0) b 0 (read_pos_ src)) as (b' & E & ? & Hc);
         [done|lia..|].
       exists b'. rewrite Hc, skipn_firstn_comm. done. }
  clear dependent b. induction n as [|n IH]; intros b it pos Hwf Hit Hpos Hle; simpl.
  - destruct (block_lookup _ W1 it) as (blk & E & Hb); [lia|].
    unfold block_at. rewrite E. simpl. assert (it = write_buffer_ src) as -> by lia.
    destruct (Append_spec b (drop pos blk) (write_pos_ src - pos)) as (b' & E' & Hwf' & Hc);
      [done|rewrite length_drop; lia|].
    exists b'. rewrite (drop_block _ W1 _ _ blk), take_app_le
      by (done || lia || (rewrite length_drop; lia)).
    split; [done|]. split; [done|]. rewrite Hc. do 2 f_equal. lia.
  - destruct (block_lookup _ W1 it) as (blk & E & Hb); [lia|].
    unfold block_at. rewrite E. cbn [mbind res_bind deref]. rewrite Hb.
    destruct (Append_spec b (drop pos blk) (kBufferSize - pos)) as (b1 & -> & Hwf1 & Hc1);
      [done|rewrite length_drop; lia|]. cbn [mbind res_bind].
    pose proof kBufferSize_pos.
    assert (S it * kBufferSize ≤ write_buffer_ src * kBufferSize)
      by (apply Nat.mul_le_mono_r; lia).
    destruct (IH b1 (S it) 0) as (b' & -> & Hwf' & Hc'); [done|lia..|].
    exists b'. split; [done|]. split; [done|].
    rewrite Hc', Hc1, <- app_assoc, (drop_block _ W1 it pos blk), Nat.add_0_r by (done || lia).
    rewrite (take_app_ge (drop pos blk)) by (rewrite length_drop; lia).
    rewrite firstn_all2 by (rewrite length_drop; lia).
    do 3 f_equal. rewrite length_drop. lia.
Qed.

(** ** Scatter reads *)

Lemma read_vecs_last n (bl : list bytes) it pos vec last :
  Forall (λ x, length x = kBufferSize) bl → read_vecs n bl it pos = (vec, last) →
  pos ≤ kBufferSize → it ≤ length bl → pos = 0 ∨ (0 < n ∧ it < length bl) →
  last ≤ length bl ∧ it * kBufferSize + pos + iov_total vec = last * kBufferSize.
Proof.
  intros Hbl. revert it pos vec last.
  induction n as [|n IH]; intros it pos vec last E Hpos Hit Hc; simpl in E.
  { injection E as <- <-. unfold iov_total. simpl. lia. }
  destruct (bl !! it) as [blk|] eqn:Eb.
  - assert (length blk = kBufferSize) by (rewrite Forall_lookup in Hbl; eauto).
    apply lookup_lt_Some in Eb.
    destruct (read_vecs n bl (S it) 0) as [vec' last'] eqn:E'. injection E as <- <-.
    destruct (IH _ _ _ _ E') as [? Hs]; [lia|lia|by left|].
    unfold iov_total in *. simpl. lia.
  - apply lookup_ge_None in Eb. injection E as <- <-. unfold iov_total. simpl. lia.
Qed.

Lemma scatter_spec n (bl0 bl : list bytes) it pos d :
  Forall (λ x, length x = kBufferSize) bl0 →
  Forall (λ x, length x = kBufferSize) bl → length bl = length bl0 →
  pos ≤ kBufferSize →
  ∃ bl', scatter (read_vecs n bl0 it pos).1 d bl = Ok bl' ∧
    Forall (λ x, length x = kBufferSize) bl' ∧ length bl' = length bl ∧
    concat bl' = overwrite (it * kBufferSize + pos)
                   (take (iov_total (read_vecs n bl0 it pos).1) d) (concat bl).
Proof.
  intros Hbl0. revert bl it pos d.
  induction n as [|n IH]; intros bl it pos d Hbl Hlen Hpos; simpl.
  { exists bl. by rewrite overwrite_nil. }
  destruct (bl0 !! it) as [blk|] eqn:Eb; [|exists bl; simpl; by rewrite overwrite_nil].
  assert (length blk = kBufferSize) as Hb by (rewrite Forall_lookup in Hbl0; eauto).
  apply lookup_lt_Some in Eb.
  destruct (read_vecs n bl0 (S it) 0) as [vec last] eqn:E. simpl. rewrite Hb.
  set (m := kBufferSize - pos).
  destruct (memcpy_block_spec bl it pos (take m d)) as (bl1 & -> & Hbl1 & Hlen1 & Hc1);
    [done|lia|rewrite length_take; lia|]. simpl.
  destruct (IH bl1 (S it) 0 (drop m d)) as (bl' & E' & Hbl' & Hlen' & Hc'); [done|lia|lia|].
  rewrite E in E', Hc'. simpl in E', Hc'. exists bl'. split; [done|]. split; [done|].
  split; [lia|]. rewrite Hc', Hc1. unfold iov_total. simpl. fold m.
  destruct (decide (length d ≤ m)).
  - rewrite (drop_ge d) by done. rewrite take_nil, overwrite_nil, !firstn_all2 by lia. done.
  - rewrite <- take_take_drop.
    replace (kBufferSize + it * kBufferSize + 0)
      with (it * kBufferSize + pos + length (take m d)) by (rewrite length_take; lia).
    apply overwrite_app. rewrite length_take, (length_concat_uniform _ _ Hbl).
    assert (S it * kBufferSize ≤ length bl * kBufferSize) by (apply Nat.mul_le_mono_r; lia). lia.
Qed.

(** What the manual pages promise: [readv] never reads more than the vectors
    hold, [writev] never writes more than it is given. *)
Definition readv_ok (readv : readv_fn) : Prop :=
  ∀ lens d, readv lens = ReadvData d → length d ≤ sum_list lens.
Definition writev_ok (writev : writev_fn) : Prop :=
  ∀ vec n, writev vec = WritevN n → n ≤ length vec.

Lemma sum_list_iov vec : sum_list (map iov_len vec ++ [ExtraSpace]) = iov_total vec + ExtraSpace.
Proof.
  unfold iov_total. induction vec as [|v vec IH]; simpl; [lia|]. rewrite IH. lia.
Qed.

Lemma concat_snoc_new (bl : list bytes) n :
  n ≤ length (concat bl) → take n (concat (bl ++ [new_block])) = take n (concat bl).
Proof. intros. by rewrite concat_app_singleton, take_app_le. Qed.

(** The position [ReadFd] moves to once all the vectors are full. *)
Lemma ReadFd_jump b (bl : list bytes) peek w d :
  wf b → Forall (λ x, length x = kBufferSize) bl → length bl = length (buffers_ b) →
  peek ≤ length bl → length d = w →
  write_buffer_ b * kBufferSize + write_pos_ b + w = peek * kBufferSize →
  concat bl = overwrite (write_buffer_ b * kBufferSize + write_pos_ b) d (concat (buffers_ b)) →
  let b1 := set_buffers bl b in
  let b2 := if decide (peek = length bl)
            then set_write (length bl) 0 (set_buffers (bl ++ [new_block]) b1)
            else set_write peek 0 b1 in
  let b3 := set_readable (readable_bytes_ b2 + w) b2 in
  wf b3 ∧ content b3 = content b ++ d.
Proof.
  intros Hwf Hbl Hlen Hpeek Hd Hw Hc b1 b2 b3. subst b1.
  pose proof Hwf as [W1 W2 W3 W4 W5 W6 W7].
  pose proof (length_concat_uniform _ _ Hbl) as HL. pose proof kBufferSize_pos.
  assert (buffers_ b3 = buffers_ b2) as Hb3 by done.
  assert (take (peek * kBufferSize) (concat (buffers_ b2))
          = take (write_buffer_ b * kBufferSize + write_pos_ b) (concat (buffers_ b)) ++ d) as Ht.
  { transitivity (take (peek * kBufferSize) (concat bl)).
    - unfold b2. case_decide; simpl; [|done]. apply concat_snoc_new.
      rewrite HL. apply Nat.mul_le_mono_r. lia.
    - rewrite Hc, <- Hw, <- Hd. apply take_overwrite. apply write_in_range; [done..|lia]. }
  assert (wf b3) as Hwf3.
  { unfold b3, b2. case_decide; split; simpl; rewrite ?length_app; simpl; try done; try lia.
    apply Forall_app_2; [done|]. apply Forall_singleton, length_new_block. }
  split; [done|].
  assert (write_buffer_ b3 * kBufferSize + write_pos_ b3 = peek * kBufferSize ∧
    read_buffer_ b3 = read_buffer_ b ∧ read_pos_ b3 = read_pos_ b) as (E1 & E2 & E3).
  { unfold b3, b2. case_decide; simpl; lia. }
  unfold content. rewrite E1, E2, E3, Hb3, Ht. rewrite drop_app_le; [done|].
  rewrite length_take, W2. pose proof (write_in_range _ _ (write_pos_ b) W1 W3). lia.
Qed.

Lemma drop_take_overwrite off d l :
  off + length d ≤ length l → take (length d) (drop off (overwrite off d l)) = d.
Proof.
  intros. rewrite <- (Nat.add_0_r off) at 1. rewrite <- drop_drop.
  rewrite drop_0. unfold overwrite. rewrite drop_app_length' by (rewrite length_take; lia).
  by rewrite take_app_length.
Qed.

Lemma ReadFd_spec readv b :
  wf b → readv_ok readv →
  ∃ r, ReadFd readv b = Ok r ∧
    match readv (map iov_len (read_vecs (MaxVecSize - 1) (buffers_ b) (write_buffer_ b)
                               (write_pos_ b)).1 ++ [ExtraSpace]) with
    | ReadvErr e => r = ((-1)%Z, Some e, b)
    | ReadvData d => ∃ b', r = (Z.of_nat (length d), None, b') ∧ wf b' ∧
                       content b' = content b ++ d
    end.
Proof.
  intros Hwf Hok. pose proof Hwf as [W1 W2 W3 W4 W5 W6 W7]. unfold ReadFd, ReadFd_loop. rewrite read_vecs_unchecked.
  destruct (read_vecs _ _ _ _) as [vec peek] eqn:Ev. simpl.
  destruct (readv _) as [e|d] eqn:Er; [by eauto|].
  apply Hok in Er. rewrite sum_list_iov in Er.
  destruct (read_vecs_last _ _ _ _ _ _ W1 Ev) as [Hpeek Hsum];
    [lia|lia|right; unfold MaxVecSize; lia|].
  destruct (scatter_spec (MaxVecSize - 1) (buffers_ b) (buffers_ b) (write_buffer_ b)
    (write_pos_ b) d W1 W1 eq_refl) as (bl' & E & Hbl' & Hlen & Hc); [lia|].
  rewrite Ev in E, Hc. simpl in E, Hc. rewrite E. cbn [mbind res_bind].
  destruct (decide (iov_total vec ≤ length d)) as [Hge|Hlt].
  - destruct (ReadFd_jump b bl' peek (iov_total vec) (take (iov_total vec) d))
      as [Hwf3 Hc3]; [done|done|done|lia|rewrite length_take; lia|done|done|].
    destruct (Append_spec _ (drop (iov_total vec) d) (length d - iov_total vec) Hwf3)
      as (b' & -> & Hwf' & Hc'); [by rewrite length_drop|].
    eexists. split; [done|]. exists b'. split; [done|]. split; [done|].
    rewrite Hc', Hc3, <- length_drop, firstn_all, <- app_assoc, take_drop. done.
  - assert (wf (set_buffers bl' b)) as Hwf1 by (split; simpl; done || lia).
    pose proof (WritableBytes_alt _ Hwf1) as Ha. simpl in Ha.
    rewrite (length_concat_uniform _ _ Hbl') in Ha.
    assert (peek * kBufferSize ≤ length bl' * kBufferSize) by (apply Nat.mul_le_mono_r; lia).
    rewrite firstn_all2 in Hc by lia.
    destruct (HasWrite_spec (set_buffers bl' b) (length d) Hwf1) as (b' & -> & Hwf' & Hc'); [lia|].
    eexists. split; [done|]. exists b'. split; [done|]. split; [done|].
    rewrite Hc'. simpl. rewrite Hc. f_equal.
    + unfold content. simpl. rewrite Hc, take_overwrite_le; [done|lia|].
      apply write_in_range; [done..|lia].
    + apply drop_take_overwrite. rewrite (length_concat_uniform _ _ W1), <- Hlen. lia.
Qed.

(** The gathered bytes are a prefix of the queue, all of it when at most
    sixteen blocks hold it. *)
Lemma write_vecs_spec n (bl : list bytes) it pos wit wpos :
  Forall (λ x, length x = kBufferSize) bl →
  it ≤ wit < length bl → wpos < kBufferSize → pos ≤ kBufferSize →
  it * kBufferSize + pos ≤ wit * kBufferSize + wpos →
  ∃ vec, write_vecs n bl it pos wit wpos = Ok vec ∧
    vec `prefix_of` take (wit * kBufferSize + wpos - (it * kBufferSize + pos))
                      (drop (it * kBufferSize + pos) (concat bl)) ∧
    (wit - it < n → vec = take (wit * kBufferSize + wpos - (it * kBufferSize + pos))
                      (drop (it * kBufferSize + pos) (concat bl))).
Proof.
  intros Hbl. revert it pos. induction n as [|n IH]; intros it pos Hit Hwp Hpos Hle; simpl.
  { exists []. split; [done|]. split; [apply prefix_nil|lia]. }
  destruct (block_lookup _ Hbl it) as (blk & E & Hb); [lia|]. rewrite E. cbn [mbind res_bind deref].
  rewrite (drop_block _ Hbl it pos blk) by done. case_decide as Heq.
  - subst it. eexists. split; [done|].
    rewrite take_app_le by (rewrite length_drop; lia).
    replace (wit * kBufferSize + wpos - (wit * kBufferSize + pos)) with (wpos - pos) by lia. done.
  - destruct (block_lookup _ Hbl (S it)) as (blk' & E' & _); [lia|].
    rewrite E'. cbn [mbind res_bind deref]. pose proof kBufferSize_pos.
    assert (S it * kBufferSize ≤ wit * kBufferSize) by (apply Nat.mul_le_mono_r; lia).
    destruct (IH (S it) 0) as (vec & -> & Hpre & Hall); [lia..|]. cbn [mbind res_bind].
    eexists. split; [done|].
    rewrite take_app_ge by (rewrite length_drop; lia).
    rewrite Nat.add_0_r in Hpre, Hall.
    replace (wit * kBufferSize + wpos - (it * kBufferSize + pos) - length (drop pos blk))
      with (wit * kBufferSize + wpos - S it * kBufferSize) by (rewrite length_drop; lia).
    split; [by apply prefix_app|]. intros. f_equal. apply Hall. lia.
Qed.

Lemma WriteFd_spec writev b :
  wf b → writev_ok writev →
  ∃ vec, vec `prefix_of` content b ∧ (write_buffer_ b < MaxVecSize → vec = content b) ∧
    match writev vec with
    | WritevErr e => WriteFd writev b = Ok ((-1)%Z, Some e, [], b)
    | WritevN n => ∃ b', WriteFd writev b = Ok (Z.of_nat n, None, take n (content b), b') ∧
                     n ≤ length vec ∧ wf b' ∧ content b' = drop n (content b)
    end.
Proof.
  intros Hwf Hok. pose proof Hwf as [W1 W2 W3 W4 W5 W6 W7]. unfold WriteFd. rewrite W2.
  destruct (write_vecs_spec MaxVecSize (buffers_ b) 0 (read_pos_ b) (write_buffer_ b)
    (write_pos_ b) W1) as (vec & -> & Hpre & Hall); [lia..|].
  cbn [mbind res_bind]. exists vec.
  assert (take (write_buffer_ b * kBufferSize + write_pos_ b - (0 * kBufferSize + read_pos_ b))
    (drop (0 * kBufferSize + read_pos_ b) (concat (buffers_ b))) = content b) as Hcont.
  { unfold content. by rewrite W2, skipn_firstn_comm. }
  rewrite Hcont in Hpre, Hall. split; [done|]. split; [intros; apply Hall; lia|].
  destruct (writev vec) as [e|n] eqn:Ew; [done|]. apply Hok in Ew.
  pose proof (prefix_length _ _ Hpre). pose proof (content_length b Hwf).
  destruct (Retrive_spec b n Hwf) as (b' & -> & Hwf' & Hc'); [unfold ReadableBytes; lia|].
  exists b'. split; [|done]. cbn [mbind res_bind].
  destruct Hpre as [k Hk]. rewrite Hk, take_app_le by done. done.
Qed.

(** With checked iterators [ReadFd] reads as it does without them, or is
    undefined, which it is when fewer than sixteen blocks are left. *)
Lemma ReadFd_checked readv b :
  wf b →
  ReadFd_loop true readv b = ReadFd readv b ∨
  ReadFd_loop true readv b = Fault EndDeref ∧ length (buffers_ b) < write_buffer_ b + MaxVecSize.
Proof.
  intros Hwf. unfold ReadFd, ReadFd_loop. rewrite read_vecs_unchecked.
  destruct (read_vecs_checked (MaxVecSize - 1) (buffers_ b) (write_buffer_ b) (write_pos_ b)) as [->|[-> Hl]]; [by left|].
  right. split; [done|]. unfold MaxVecSize in *. lia.
Qed.

(** ** Refinement of an unbounded byte queue *)

Inductive op :=
  | OpAppend (str : bytes)
  | OpAppendTwice (s1 s2 : bytes)   (** fill a second buffer, append it *)
  | OpRetrive (len : nat)
  | OpRetriveAll
  | OpPeek (len : nat)
  | OpPeekAll
  | OpRetriveAsString (len : nat)
  | OpRetriveAllAsString
  | OpUnWrite (len : nat)
  | OpHasWrite (len : nat)
  | OpShrink (reserve : nat)
  | OpReadFd (readv : readv_fn)
  | OpWriteFd (writev : writev_fn).

Section ops.
Variable checked : bool.

(** One public operation on the buffer and the bytes it hands out. *)
Definition run_op (b : ChainBuffer) (o : op) : res (bytes * ChainBuffer) :=
  match o with
  | OpAppend str => b' ← AppendStr b str; Ok ([], b')
  | OpAppendTwice s1 s2 =>
      c1 ← AppendStr ChainBuffer_new s1; c2 ← AppendStr c1 s2;
      b' ← AppendChain b c2; Ok ([], b')
  | OpRetrive len => b' ← Retrive b len; Ok ([], b')
  | OpRetriveAll => Ok ([], RetriveAll b)
  | OpPeek len => s ← PeekAsString b len; Ok (s, b)
  | OpPeekAll => s ← PeekAllAsString b; Ok (s, b)
  | OpRetriveAsString len => RetriveAsString b len
  | OpRetriveAllAsString => RetriveAllAsString b
  | OpUnWrite len => b' ← UnWrite b len; Ok ([], b')
  | OpHasWrite len => b' ← HasWrite b len; Ok ([], b')
  | OpShrink reserve => b' ← Shrink b reserve; Ok ([], b')
  | OpReadFd readv => '(_, b') ← ReadFd_loop checked readv b; Ok ([], b')
  | OpWriteFd writev => '(_, _, sent, b') ← WriteFd writev b; Ok (sent, b')
  end.

Fixpoint run_ops (b : ChainBuffer) (ops : list op) : res (list bytes * ChainBuffer) :=
  match ops with
  | [] => Ok ([], b)
  | o :: ops =>
      '(out, b1) ← run_op b o; '(outs, b2) ← run_ops b1 ops; Ok (out :: outs, b2)
  end.

(** Where the class is undefined: [UnWrite] back to the border of a block,
    [HasWrite] of all that is writable, and [ReadFd] with checked iterators
    when fewer than sixteen blocks are left. *)
Definition at_border (b : ChainBuffer) (o : op) : Prop :=
  match o with
  | OpUnWrite len => 0 < len ∧ (write_buffer_ b * kBufferSize + write_pos_ b - len) mod kBufferSize = 0
  | OpHasWrite len => len = WritableBytes b
  | OpReadFd _ => checked = true ∧ length (buffers_ b) < write_buffer_ b + MaxVecSize
  | _ => False
  end.
End ops.

(** The queue itself: a list of bytes. *)
Inductive spec_step : bytes → op → bytes → bytes → Prop :=
  | SAppend q s : spec_step q (OpAppend s) [] (q ++ s)
  | SAppendTwice q s1 s2 : spec_step q (OpAppendTwice s1 s2) [] (q ++ s1 ++ s2)
  | SRetrive q n : spec_step q (OpRetrive n) [] (drop n q)
  | SRetriveAll q : spec_step q OpRetriveAll [] []
  | SPeek q n : spec_step q (OpPeek n) (take n q) q
  | SPeekAll q : spec_step q OpPeekAll q q
  | SRetriveAsString q n : spec_step q (OpRetriveAsString n) (take n q) (drop n q)
  | SRetriveAllAsString q : spec_step q OpRetriveAllAsString q []
  | SUnWrite q n : spec_step q (OpUnWrite n) [] (take (length q - n) q)
  | SHasWrite q n d : length d = n → spec_step q (OpHasWrite n) [] (q ++ d)
  | SShrink q n : spec_step q (OpShrink n) [] q
  | SReadErr q readv lens e :
      readv lens = ReadvErr e → spec_step q (OpReadFd readv) [] q
  | SRead q readv lens d :
      readv lens = ReadvData d → spec_step q (OpReadFd readv) [] (q ++ d)
  | SWriteErr q writev vec e :
      writev vec = WritevErr e → spec_step q (OpWriteFd writev) [] q
  | SWrite q writev vec n :
      vec `prefix_of` q → writev vec = WritevN n →
      spec_step q (OpWriteFd writev) (take n q) (drop n q).

Inductive spec_run : bytes → list op → list bytes → bytes → Prop :=
  | SNil q : spec_run q [] [] q
  | SCons q o out q1 ops outs q2 :
      spec_step q o out q1 → spec_run q1 ops outs q2 →
      spec_run q (o :: ops) (out :: outs) q2.

(** The operations that assert there are enough readable bytes, or enough
    writable ones. *)
Definition op_pre (b : ChainBuffer) (o : op) : Prop :=
  match o with
  | OpRetrive n | OpPeek n | OpRetriveAsString n | OpUnWrite n => n ≤ length (content b)
  | OpHasWrite n => n ≤ WritableBytes b
  | _ => True
  end.

(** The system calls of an operation behave as documented. *)
Definition op_ok (o : op) : Prop :=
  match o with
  | OpReadFd readv => readv_ok readv
  | OpWriteFd writev => writev_ok writev
  | _ => True
  end.

#[export] Hint Constructors spec_step spec_run : muzi.
#[export] Hint Resolve Append_spec AppendStr_spec AppendChain_spec Retrive_spec
  RetriveAll_spec Shrink_spec : muzi.

Lemma PeekAll_spec b : wf b → PeekAllAsString b = Ok (content b).
Proof.
  intros Hwf. unfold PeekAllAsString. rewrite PeekAsString_spec by done.
  unfold ReadableBytes. by rewrite <- (content_length b Hwf), firstn_all.
Qed.

Lemma assert_short {A} b len (k : res A) :
  wf b → ¬ len ≤ length (content b) →
  (_ ← assert (bool_decide (len ≤ ReadableBytes b)); k) = Fault AssertFail.
Proof.
  intros Hwf Hn. rewrite content_length in Hn by done.
  by rewrite bool_decide_eq_false_2.
Qed.

(** Nothing is taken back by [UnWrite 0]. *)
Lemma UnWrite_0 b : UnWrite b 0 = Ok b.
Proof.
  unfold UnWrite, BackWard. rewrite bool_decide_eq_true_2 by lia. cbn [mbind res_bind assert BackWard_loop].
  destruct b. unfold set_readable, set_write. cbn. by rewrite Nat.sub_0_r.
Qed.

Ltac step_ends E := cbn [mbind res_bind]; rewrite E; eauto with muzi.

(** The two operations that move the end of the written part without data. *)
Lemma run_op_UnWrite checked b n :
  wf b → n ≤ length (content b) → ¬ at_border checked b (OpUnWrite n) →
  ∃ b', UnWrite b n = Ok b' ∧ wf b' ∧ content b' = take (length (content b) - n) (content b).
Proof.
  intros Hwf Hn Hb. cbn [at_border] in Hb. rewrite content_length in * by done. pose proof Hwf as [W1 W2 W3 W4 W5 W6 W7].
  destruct (decide (n = 0)) as [->|Hn0].
  { rewrite UnWrite_0. exists b. split_and!; [done..|]. by rewrite Nat.sub_0_r, <- content_length, firstn_all. }
  assert ((write_buffer_ b * kBufferSize + write_pos_ b - n) mod kBufferSize ≠ 0) as Hm by (intros E; apply Hb; lia).
  apply UnWrite_spec; [done|unfold ReadableBytes; lia| |done].
  destruct (decide (write_buffer_ b * kBufferSize + write_pos_ b - n = 0)) as [E|E]; [|lia].
  by rewrite E, Nat.Div0.mod_0_l in Hm.
Qed.

(** An operation does what it does to the queue, fails its assertion, or is at
    a border. *)
Lemma run_op_spec checked b o :
  wf b → op_ok o → ¬ at_border checked b o →
  match run_op checked b o with
  | Ok (out, b') => wf b' ∧ op_pre b o ∧ spec_step (content b) o out (content b')
  | Fault f => f = AssertFail ∧ ¬ op_pre b o
  end.
Proof.
  intros Hwf Hok Hb. pose proof (content_length b Hwf) as Hlen.
  destruct o as [s|s1 s2|n| |n| |n| |n|n|n|readv|writev]; cbn [run_op op_pre op_ok] in *.
  - destruct (AppendStr_spec b s Hwf) as (b' & -> & ? & E); step_ends E.
  - destruct (AppendStr_spec _ s1 (proj1 ChainBuffer_new_wf)) as (c1 & -> & Hc1 & E1).
    cbn [mbind res_bind]. destruct (AppendStr_spec c1 s2 Hc1) as (c2 & -> & Hc2 & E2).
    cbn [mbind res_bind]. destruct (AppendChain_spec b c2 Hwf Hc2) as (b' & -> & ? & E).
    rewrite E2, E1 in E. step_ends E.
  - destruct (decide (n ≤ length (content b))).
    + destruct (Retrive_spec b n Hwf) as (b' & -> & ? & E); [unfold ReadableBytes; lia|].
      step_ends E.
    + unfold Retrive. by rewrite assert_short.
  - destruct (RetriveAll_spec b Hwf) as [? E]. split; [done|]. rewrite E. eauto with muzi.
  - destruct (decide (n ≤ length (content b))).
    + rewrite PeekAsString_spec by (done || unfold ReadableBytes; lia).
      simpl. eauto with muzi.
    + unfold PeekAsString. by rewrite assert_short.
  - rewrite PeekAll_spec by done. simpl. eauto with muzi.
  - unfold RetriveAsString. destruct (decide (n ≤ length (content b))).
    + rewrite PeekAsString_spec by (done || unfold ReadableBytes; lia). cbn [mbind res_bind].
      destruct (Retrive_spec b n Hwf) as (b' & -> & ? & E); [unfold ReadableBytes; lia|].
      step_ends E.
    + unfold PeekAsString. by rewrite assert_short.
  - unfold RetriveAllAsString. rewrite PeekAll_spec by done. simpl.
    destruct (RetriveAll_spec b Hwf) as [? E]. rewrite E. eauto with muzi.
  - destruct (decide (n ≤ length (content b))).
    + destruct (run_op_UnWrite checked b n Hwf) as (b' & -> & ? & E); [done..|]. step_ends E.
    + unfold UnWrite. by rewrite assert_short.
  - cbn [at_border] in Hb. destruct (decide (n ≤ WritableBytes b)).
    + destruct (HasWrite_spec b n Hwf) as (b' & -> & Hwf' & E); [lia|]. cbn [mbind res_bind].
      split_and!; [done|done|]. rewrite E. constructor. apply length_take_le.
      pose proof (WritableBytes_alt b Hwf). rewrite length_drop. lia.
    + unfold HasWrite. by rewrite bool_decide_eq_false_2.
  - destruct (Shrink_spec b n Hwf) as (b' & -> & ? & E & _). simpl. rewrite E.
    eauto with muzi.
  - assert (ReadFd_loop checked readv b = ReadFd readv b) as ->.
    { destruct checked; [|done]. destruct (ReadFd_checked readv b Hwf) as [?|[_ ?]]; [done|]. by destruct Hb. }
    destruct (ReadFd_spec readv b Hwf Hok) as (r & -> & Hr).
    destruct (readv _) as [e|d] eqn:E; [subst r|destruct Hr as (b' & -> & ? & Hc)]; cbn [mbind res_bind].
    + eauto with muzi.
    + rewrite Hc. eauto with muzi.
  - destruct (WriteFd_spec writev b Hwf Hok) as (vec & Hpre & _ & Hr).
    destruct (writev vec) as [e|n] eqn:E; [rewrite Hr|destruct Hr as (b' & -> & _ & ? & Hc)]; cbn [mbind res_bind].
    + eauto with muzi.
    + rewrite Hc. eauto with muzi.
Qed.

Lemma SlowReadableBytes_spec b :
  wf b → SlowReadableBytes b = Z.of_nat (ReadableBytes b).
Proof.
  intros [W1 W2 W3 W4 W5 W6 W7]. unfold SlowReadableBytes, ReadableBytes. rewrite W2. nia.
Qed.

#[export] Instance at_border_decision checked b o : Decision (at_border checked b o).
Proof. destruct o; cbn [at_border]; apply _. Defined.

(** A run goes to its end, or to the first operation that asks for more than
    there is or is at a border. *)
Lemma run_ops_spec checked ops : ∀ b,
  wf b → Forall op_ok ops →
  ∃ done rest outs b', ops = done ++ rest ∧ run_ops checked b done = Ok (outs, b') ∧
    wf b' ∧ spec_run (content b) done outs (content b') ∧
    (rest = [] ∨ ∃ o rest', rest = o :: rest' ∧
       (¬ op_pre b' o ∧ run_op checked b' o = Fault AssertFail ∨ at_border checked b' o)).
Proof.
  induction ops as [|o ops IH]; intros b Hwf Hok; [exists [], [], [], b; eauto 10 with muzi|].
  apply Forall_cons_1 in Hok as [Ho Hok]. destruct (decide (at_border checked b o)) as [Hb|Hb].
  { exists [], (o :: ops), [], b. split_and!; [done|done|done|constructor|]. right. exists o, ops. split; [done|]. by right. }
  pose proof (run_op_spec checked b o Hwf Ho Hb) as Hs. destruct (run_op checked b o) as [[out b1]|f] eqn:Eo.
  - destruct Hs as (Hwf1 & _ & Hs). destruct (IH b1 Hwf1 Hok) as (dn & rest & outs & b2 & -> & E & Hwf2 & Hr & Hrest).
    exists (o :: dn), rest, (out :: outs), b2. cbn [run_ops]. rewrite Eo. cbn [mbind res_bind]. rewrite E. split_and!; [done|done|done| |done]. by econstructor.
  - destruct Hs as [-> Hp]. exists [], (o :: ops), [], b. split_and!; [done|done|done|constructor|]. right. exists o, ops. split; [done|]. by left.
Qed.

(** C1: the chained buffer is a FIFO queue of bytes.  Any sequence of its
    operations on a fresh buffer, [UnWrite], [HasWrite] and the system calls
    included, hands out the bytes the abstract queue hands out and leaves the
    queue's content, with both byte counters equal to the queue's length, up to
    the first operation that asks for more bytes than are readable (or
    writable), which fails its [assert], or that is at a border: an [UnWrite]
    back to the border of a block, a [HasWrite] of all the writable bytes and,
    where the iterators are checked, a [ReadFd] with fewer than sixteen blocks
    left, which dereferences [end()]. *)
Theorem chain_buffer_refines_queue (checked : bool) (ops : list op) :
  Forall op_ok ops →
  ∃ done rest outs b', ops = done ++ rest ∧ run_ops checked ChainBuffer_new done = Ok (outs, b') ∧
    spec_run [] done outs (content b') ∧
    ReadableBytes b' = length (content b') ∧
    SlowReadableBytes b' = Z.of_nat (length (content b')) ∧
    (rest = [] ∨ ∃ o rest', rest = o :: rest' ∧
       (¬ op_pre b' o ∧ run_op checked b' o = Fault AssertFail ∨ at_border checked b' o)).
Proof.
  intros Hok. destruct ChainBuffer_new_wf as [Hwf Hc].
  destruct (run_ops_spec checked ops _ Hwf Hok) as (dn & rest & outs & b' & -> & E & Hwf' & Hr & Hrest). rewrite Hc in Hr.
  exists dn, rest, outs, b'. rewrite SlowReadableBytes_spec, content_length by done. done.
Qed.

Definition demo_readv : readv_fn :=
  λ lens, if decide (3 ≤ sum_list lens) then ReadvData (B "xyz") else ReadvData [].
Definition demo_writev : writev_fn := λ vec, WritevN (Nat.min 2 (length vec)).

Lemma demo_readv_ok : readv_ok demo_readv.
Proof. intros lens d. unfold demo_readv. case_decide; intros [= <-]; [done|apply Nat.le_0_l]. Qed.
Lemma demo_writev_ok : writev_ok demo_writev.
Proof.
  intros vec n H. assert (n = Nat.min 2 (length vec)) as -> by (unfold demo_writev in H; congruence).
  apply Nat.le_min_r.
Qed.

Definition demo_ops : list op :=
  [OpAppend (B "hello"); OpRetrive 1; OpReadFd demo_readv; OpWriteFd demo_writev; OpPeekAll; OpUnWrite 2; OpPeekAll].

Lemma chain_buffer_refines_queue_witness :
  Forall op_ok demo_ops ∧
  ∃ done rest outs b', demo_ops = done ++ rest ∧ run_ops false ChainBuffer_new done = Ok (outs, b') ∧
    spec_run [] done outs (content b') ∧ ReadableBytes b' = length (content b') ∧
    SlowReadableBytes b' = Z.of_nat (length (content b')) ∧
    (rest = [] ∨ ∃ o rest', rest = o :: rest' ∧
       (¬ op_pre b' o ∧ run_op false b' o = Fault AssertFail ∨ at_border false b' o)) ∧
    ((r ← run_ops false ChainBuffer_new demo_ops; Ok r.1) : res (list bytes)) = Ok [[]; []; []; B "el"; B "loxyz"; []; B "lox"].
Proof.
  assert (Forall op_ok demo_ops) as H.
  { repeat (apply Forall_cons_2; [first [exact I | exact demo_readv_ok | exact demo_writev_ok]|]).
    apply Forall_nil_2. }
  split; [exact H|]. destruct (chain_buffer_refines_queue false demo_ops H) as (dn & rest & outs & b' & H1 & H2 & H3 & H4 & H5 & H6).
  exists dn, rest, outs, b'. split_and!; try done.
Defined.

(** C19: [ReadFd] appends exactly what the kernel delivered, whether it fits
    the free blocks or spills into the stack buffer, and reports its length;
    on an error it reports the errno and leaves the buffer alone. *)
Theorem chain_buffer_ReadFd_appends readv b :
  wf b → readv_ok readv →
  ∃ lens, match readv lens with
  | ReadvErr e => ReadFd readv b = Ok ((-1)%Z, Some e, b)
  | ReadvData d => ∃ b', ReadFd readv b = Ok (Z.of_nat (length d), None, b') ∧ wf b' ∧
                     content b' = content b ++ d
  end.
Proof.
  intros Hwf Hok. destruct (ReadFd_spec readv b Hwf Hok) as (r & E & H).
  match type of H with context [readv ?l] => exists l; destruct (readv l) end; [by subst r|].
  destruct H as (b' & -> & ?). eauto.
Qed.

Lemma chain_buffer_ReadFd_appends_witness :
  wf ChainBuffer_new ∧ readv_ok demo_readv ∧
  ∃ lens, match demo_readv lens with
  | ReadvErr e => ReadFd demo_readv ChainBuffer_new = Ok ((-1)%Z, Some e, ChainBuffer_new)
  | ReadvData d => ∃ b', ReadFd demo_readv ChainBuffer_new = Ok (Z.of_nat (length d), None, b') ∧
                     wf b' ∧ content b' = content ChainBuffer_new ++ d
  end.
Proof.
  split; [exact (proj1 ChainBuffer_new_wf)|]. split; [exact demo_readv_ok|].
  exact (chain_buffer_ReadFd_appends demo_readv ChainBuffer_new
           (proj1 ChainBuffer_new_wf) demo_readv_ok).
Defined.

(** C21: [WriteFd] hands the kernel a prefix of the queue (all of it when at
    most sixteen blocks hold it), and consumes exactly what was accepted; on
    an error nothing is consumed. *)
Theorem chain_buffer_WriteFd_consumes writev b :
  wf b → writev_ok writev →
  ∃ vec, vec `prefix_of` content b ∧ (write_buffer_ b < MaxVecSize → vec = content b) ∧
    match writev vec with
    | WritevErr e => WriteFd writev b = Ok ((-1)%Z, Some e, [], b)
    | WritevN n => ∃ b', WriteFd writev b = Ok (Z.of_nat n, None, take n (content b), b') ∧
                     n ≤ length vec ∧ wf b' ∧ content b' = drop n (content b)
    end.
Proof. apply WriteFd_spec. Qed.

Lemma chain_buffer_WriteFd_consumes_witness :
  wf ChainBuffer_new ∧ writev_ok demo_writev ∧
  ∃ vec, vec `prefix_of` content ChainBuffer_new ∧
    (write_buffer_ ChainBuffer_new < MaxVecSize → vec = content ChainBuffer_new) ∧
    match demo_writev vec with
    | WritevErr e => WriteFd demo_writev ChainBuffer_new = Ok ((-1)%Z, Some e, [], ChainBuffer_new)
    | WritevN n => ∃ b', WriteFd demo_writev ChainBuffer_new
                         = Ok (Z.of_nat n, None, take n (content ChainBuffer_new), b') ∧
                     n ≤ length vec ∧ wf b' ∧ content b' = drop n (content ChainBuffer_new)
    end.
Proof.
  split; [exact (proj1 ChainBuffer_new_wf)|]. split; [exact demo_writev_ok|].
  exact (chain_buffer_WriteFd_consumes demo_writev ChainBuffer_new
           (proj1 ChainBuffer_new_wf) demo_writev_ok).
Defined.

(** ** The borders of the block list *)

Lemma BackWard_loop_front fuel (bl : list bytes) it pos :
  Forall (λ x, length x = kBufferSize) bl → it ≤ length bl → pos ≤ kBufferSize →
  0 < it * kBufferSize + pos → S (it * kBufferSize + pos) < fuel →
  BackWard_loop fuel bl it pos (it * kBufferSize + pos) = Fault EndDeref.
Proof.
  intros Hbl. revert it pos.
  assert (∀ it pos fuel, it ≤ length bl → 0 < pos ≤ kBufferSize → it * kBufferSize + pos < fuel →
    BackWard_loop fuel bl it pos (it * kBufferSize + pos) = Fault EndDeref) as Hpos.
  { induction it as [|it IH]; intros pos f Hit Hp Hf; (destruct f as [|f]; [lia|]);
      cbn [BackWard_loop]; rewrite decide_True by lia; rewrite decide_False by lia; [done|].
    destruct (block_lookup bl Hbl it) as (blk & -> & Hb); [lia|]. cbn [mbind res_bind deref].
    rewrite Hb. replace (S it * kBufferSize + pos - pos) with (it * kBufferSize + kBufferSize) by lia.
    apply IH; lia. }
  intros it pos Hit Hp H0 Hf. destruct (decide (0 < pos)); [apply Hpos; lia|].
  destruct fuel as [|fuel]; [lia|]. replace pos with 0 by lia. cbn [BackWard_loop].
  rewrite decide_True by lia. rewrite decide_False by lia. destruct it as [|it]; [done|].
  destruct (block_lookup bl Hbl it) as (blk & -> & Hb); [lia|]. cbn [mbind res_bind deref].
  rewrite Hb. replace (S it * kBufferSize + 0 - 0) with (it * kBufferSize + kBufferSize) by lia.
  pose proof kBufferSize_pos. apply Hpos; lia.
Qed.

Lemma Forward_loop_end fuel (bl : list bytes) it pos len :
  Forall (λ x, length x = kBufferSize) bl → it < length bl → pos < kBufferSize →
  len < fuel → it * kBufferSize + pos + len = length bl * kBufferSize →
  Forward_loop fuel bl it pos len = Fault EndDeref.
Proof.
  intros Hbl. revert it pos len. induction fuel as [|fuel IH]; intros it pos len Hit Hp Hf He; [lia|].
  assert (S it * kBufferSize ≤ length bl * kBufferSize) by (apply Nat.mul_le_mono_r; lia).
  cbn [Forward_loop]. rewrite decide_True by lia.
  destruct (block_lookup bl Hbl it Hit) as (blk & -> & Hb). cbn [mbind res_bind deref].
  rewrite Hb, decide_False by lia. destruct (bl !! S it) eqn:E; [|done].
  apply lookup_lt_Some in E. cbn [mbind res_bind deref]. pose proof kBufferSize_pos.
  apply IH; lia.
Qed.

(** C38: [UnWrite] takes back the last [len] bytes of the queue as long as the
    new write position is inside a block.  At the borders the class breaks:
    taking everything back from a buffer that was never consumed from
    decrements [begin()], and declaring all the writable bytes written, which
    the [assert] of [HasWrite] allows, dereferences [end()]. *)
Theorem chain_buffer_borders b len :
  wf b →
  (len ≤ ReadableBytes b →
   (write_buffer_ b * kBufferSize + write_pos_ b - len) mod kBufferSize ≠ 0 →
   ∃ b', UnWrite b len = Ok b' ∧ wf b' ∧ content b' = take (ReadableBytes b - len) (content b)) ∧
  (0 < ReadableBytes b → read_pos_ b = 0 → UnWrite b (ReadableBytes b) = Fault EndDeref) ∧
  HasWrite b (WritableBytes b) = Fault EndDeref.
Proof.
  intros Hwf. pose proof Hwf as [W1 W2 W3 W4 W5 W6 W7]. split_and!.
  - intros Hle Hmod. apply UnWrite_spec; try done.
    destruct (decide (write_buffer_ b * kBufferSize + write_pos_ b - len = 0)) as [E|E]; [|lia].
    by rewrite E, Nat.Div0.mod_0_l in Hmod.
  - intros H0 Hr. unfold UnWrite, BackWard, ReadableBytes in *.
    rewrite bool_decide_eq_true_2 by done. cbn [mbind res_bind assert].
    replace (readable_bytes_ b) with (write_buffer_ b * kBufferSize + write_pos_ b) by lia.
    rewrite BackWard_loop_front; [done|done|lia..].
  - pose proof (WritableBytes_alt b Hwf) as Ha. rewrite (length_concat_uniform _ _ W1) in Ha.
    unfold HasWrite, Forward. rewrite bool_decide_eq_true_2 by lia. cbn [mbind res_bind assert].
    rewrite Forward_loop_end; [done|done|done|done|lia|lia].
Qed.

Lemma chain_buffer_borders_witness :
  wf ChainBuffer_new ∧ HasWrite ChainBuffer_new (WritableBytes ChainBuffer_new) = Fault EndDeref.
Proof.
  split; [exact (proj1 ChainBuffer_new_wf)|].
  exact (proj2 (proj2 (chain_buffer_borders ChainBuffer_new 0 (proj1 ChainBuffer_new_wf)))).
Defined.
