(* ===== verification/Poller.v ===== *)
(** Channels ([muzi/net/channel.h], [channel.cc]) and the epoll poller they
    register with ([poller.h], [poller.cc], [poller/epoll_poller.h],
    [poller/epoll_poller.cc]).  Channels live in a store indexed by their
    address; the kernel's epoll instance is an interface. *)

From S2P Require Import Prelude.
Local Open Scope Z_scope.

(** ** Event masks, [poll(2)] values *)

Definition POLLIN : Z := 1.
Definition POLLPRI : Z := 2.
Definition POLLOUT : Z := 4.
Definition POLLERR : Z := 8.
Definition POLLHUP : Z := 16.
Definition POLLNVAL : Z := 32.
Definition POLLRDHUP : Z := 8192.

Definition kNoneEvent : Z := 0.
Definition kReadEvent : Z := Z.lor POLLIN POLLPRI.
Definition kWriteEvent : Z := POLLOUT.

(** The C++ test [if (x & mask)]. *)
Definition has (x mask : Z) : bool := negb (Z.land x mask =? 0).

(** ** Channel *)

Record Channel := mkChannel {
  fd_ : Z;
  events_ : Z;
  revents_ : Z;
  index_ : Z;
  in_using_ : bool;
  handling_event_ : bool;
  tied_ : bool;
  tied_object_ : option Z   (** the owner a [weak_ptr] points to *)
}.

Definition Channel_new (fd : Z) : Channel :=
  {| fd_ := fd; events_ := 0; revents_ := 0; index_ := -1; in_using_ := false;
     handling_event_ := false; tied_ := false; tied_object_ := None |}.

Definition SetREvents (revts : Z) (c : Channel) : Channel :=
  {| fd_ := fd_ c; events_ := events_ c; revents_ := revts; index_ := index_ c;
     in_using_ := in_using_ c; handling_event_ := handling_event_ c;
     tied_ := tied_ c; tied_object_ := tied_object_ c |}.

Definition SetIndex (index : Z) (c : Channel) : Channel :=
  {| fd_ := fd_ c; events_ := events_ c; revents_ := revents_ c; index_ := index;
     in_using_ := in_using_ c; handling_event_ := handling_event_ c;
     tied_ := tied_ c; tied_object_ := tied_object_ c |}.

Definition set_events (events : Z) (c : Channel) : Channel :=
  {| fd_ := fd_ c; events_ := events; revents_ := revents_ c; index_ := index_ c;
     in_using_ := in_using_ c; handling_event_ := handling_event_ c;
     tied_ := tied_ c; tied_object_ := tied_object_ c |}.

Definition set_in_using (b : bool) (c : Channel) : Channel :=
  {| fd_ := fd_ c; events_ := events_ c; revents_ := revents_ c; index_ := index_ c;
     in_using_ := b; handling_event_ := handling_event_ c;
     tied_ := tied_ c; tied_object_ := tied_object_ c |}.

Definition Tie (object : Z) (c : Channel) : Channel :=
  {| fd_ := fd_ c; events_ := events_ c; revents_ := revents_ c; index_ := index_ c;
     in_using_ := in_using_ c; handling_event_ := handling_event_ c;
     tied_ := true; tied_object_ := Some object |}.

Definition IsWritting (c : Channel) : bool := has (events_ c) kWriteEvent.
Definition IsReading (c : Channel) : bool := has (events_ c) kReadEvent.
Definition IsNoneEvent (c : Channel) : bool := events_ c =? kNoneEvent.

Definition ToEventStr (events : Z) : string :=
  if events =? kNoneEvent then "None"
  else if negb (Z.lor events kReadEvent =? 0) then "Read"
  else if negb (Z.lor events kWriteEvent =? 0) then "Write"
  else "Unknown".

(** ** Dispatching events *)

(** The four callbacks, functions on the state [W] of the program; an empty
    [std::function] is [None]. *)
Record Callbacks (W : Type) := mkCallbacks {
  read_callback_ : option (Z → W → res W);
  write_callback_ : option (W → res W);
  error_callback_ : option (W → res W);
  close_callback_ : option (W → res W)
}.
Arguments read_callback_ {W} _.
Arguments write_callback_ {W} _.
Arguments error_callback_ {W} _.
Arguments close_callback_ {W} _.

Section dispatch.
Context {W : Type}.
(** Assign [handling_event_] of the channel that is being handled. *)
Variable set_handling : bool → W → W.

Definition call (cb : option (W → res W)) (w : W) : res W :=
  match cb with Some f => f w | None => Ok w end.

Definition HandleEventWithGuard (revents : Z) (cbs : Callbacks W) (received_time : Z)
    (w : W) : res W :=
  let w0 := set_handling true w in
  w1 ← (if has revents (Z.lor POLLERR POLLNVAL) then call (error_callback_ cbs) w0 else Ok w0);
  w2 ← (if has revents (Z.lor (Z.lor POLLIN POLLPRI) POLLRDHUP)
        then call ((λ f, f received_time) <$> read_callback_ cbs) w1 else Ok w1);
  w3 ← (if has revents POLLOUT then call (write_callback_ cbs) w2 else Ok w2);
  w4 ← (if has revents POLLHUP && negb (has revents POLLIN)
        then call (close_callback_ cbs) w3 else Ok w3);
  Ok (set_handling false w4).

(** [alive] tells which owners a [weak_ptr] can still lock. *)
Definition HandleEvent (alive : Z → bool) (c : Channel) (cbs : Callbacks W)
    (received_time : Z) (w : W) : res W :=
  if tied_ c then
    match tied_object_ c with
    | Some o => if alive o then HandleEventWithGuard (revents_ c) cbs received_time w else Ok w
    | None => Ok w
    end
  else HandleEventWithGuard (revents_ c) cbs received_time w.
End dispatch.

(** ** The kernel's epoll instance *)

Inductive ctl_op := EPOLL_CTL_ADD | EPOLL_CTL_MOD | EPOLL_CTL_DEL.

(** [epoll_ctl(2)] on an epoll instance of type [K]: the new state, or [None]
    for a negative answer.  [interest] is the set of file descriptors it
    monitors with their event mask and user pointer. *)
Class EpollKernel (K : Type) := {
  epoll_ctl : K → ctl_op → Z → Z → Z → option K;
  interest : K → gmap Z (Z * Z)
}.

Class EpollKernelLaws (K : Type) `{EpollKernel K} := {
  epoll_add k fd ev p : interest k !! fd = None →
    ∃ k', epoll_ctl k EPOLL_CTL_ADD fd ev p = Some k' ∧ interest k' = <[fd := (ev, p)]> (interest k);
  epoll_mod k fd ev p x : interest k !! fd = Some x →
    ∃ k', epoll_ctl k EPOLL_CTL_MOD fd ev p = Some k' ∧ interest k' = <[fd := (ev, p)]> (interest k);
  epoll_del k fd ev p x : interest k !! fd = Some x →
    ∃ k', epoll_ctl k EPOLL_CTL_DEL fd ev p = Some k' ∧ interest k' = delete fd (interest k)
}.

(** A kernel that satisfies the laws: it answers EEXIST and ENOENT. *)
#[export] Instance map_epoll : EpollKernel (gmap Z (Z * Z)) := {|
  epoll_ctl k op fd ev p :=
    match op, k !! fd with
    | EPOLL_CTL_ADD, None => Some (<[fd := (ev, p)]> k)
    | EPOLL_CTL_MOD, Some _ => Some (<[fd := (ev, p)]> k)
    | EPOLL_CTL_DEL, Some _ => Some (delete fd k)
    | _, _ => None
    end;
  interest k := k
|}.

#[export] Instance map_epoll_laws : EpollKernelLaws (gmap Z (Z * Z)).
Proof.
  split; intros k fd ev p; simpl; [intros ->; eauto|intros x ->; eauto..].
Qed.

(** ** EpollPoller *)

Definition kNew : Z := -1.
Definition kAdded : Z := 0.
Definition kDeleted : Z := 1.
Definition kInitialEventListSize : nat := 16%nat.

(** [ep_events_size] is [ep_events_.size()]; [store] holds the channels;
    [in_loop] says whether the calling thread is the owner loop's. *)
Record EpollPoller (K : Type) := mkPoller {
  epfd_ : K;
  channels_ : gmap Z Z;
  ep_events_size : nat;
  store : gmap Z Channel;
  in_loop : bool
}.
Arguments mkPoller {K} _ _ _ _ _.
Arguments in_loop {K} _.
Arguments epfd_ {K} _.
Arguments channels_ {K} _.
Arguments ep_events_size {K} _.
Arguments store {K} _.

Section poller.
Context {K : Type} `{EpollKernel K}.
Implicit Types p : EpollPoller K.

Definition EpollPoller_new (k : K) : EpollPoller K := mkPoller k ∅ kInitialEventListSize ∅ true.

Definition set_epfd (k : K) p : EpollPoller K :=
  mkPoller k (channels_ p) (ep_events_size p) (store p) (in_loop p).
Definition set_channels (m : gmap Z Z) p : EpollPoller K :=
  mkPoller (epfd_ p) m (ep_events_size p) (store p) (in_loop p).
Definition set_events_size (n : nat) p : EpollPoller K :=
  mkPoller (epfd_ p) (channels_ p) n (store p) (in_loop p).
Definition set_store (s : gmap Z Channel) p : EpollPoller K :=
  mkPoller (epfd_ p) (channels_ p) (ep_events_size p) s (in_loop p).

(** Assign a field of the channel at [ptr]. *)
Definition upd_channel (f : Channel → Channel) (ptr : Z) p : EpollPoller K :=
  set_store (alter f ptr (store p)) p.

Definition channel_at p (ptr : Z) : res Channel := deref NullDeref (store p !! ptr).

(** The loop thread check logs a fatal message, which aborts. *)
Definition AssertInLoopThread p : res unit := if in_loop p then Ok tt else Fault Aborted.

Definition HasChannel p (ptr : Z) : res bool :=
  _ ← AssertInLoopThread p;
  c ← channel_at p ptr;
  Ok (bool_decide (channels_ p !! fd_ c = Some ptr)).

(** The private [Update]: a failing [epoll_ctl] is fatal. *)
Definition Update (op : ctl_op) (ptr : Z) p : res (EpollPoller K) :=
  c ← channel_at p ptr;
  match epoll_ctl (epfd_ p) op (fd_ c) (events_ c) ptr with
  | Some k => Ok (set_epfd k p)
  | None => Fault Aborted
  end.

Definition UpdateChannel (ptr : Z) p : res (EpollPoller K) :=
  _ ← AssertInLoopThread p;
  c ← channel_at p ptr;
  let index := index_ c in
  let fd := fd_ c in
  let it := channels_ p !! fd in
  if (index =? kNew) || (index =? kDeleted) then
    p1 ← (if index =? kNew then
            _ ← assert (bool_decide (it = None));
            Ok (set_channels (<[fd := ptr]> (channels_ p)) p)
          else
            _ ← assert (bool_decide (it = Some ptr)); Ok p);
    Update EPOLL_CTL_ADD ptr (upd_channel (SetIndex kAdded) ptr p1)
  else if index =? kAdded then
    _ ← assert (bool_decide (it = Some ptr));
    if IsNoneEvent c then
      p1 ← Update EPOLL_CTL_DEL ptr p; Ok (upd_channel (SetIndex kDeleted) ptr p1)
    else Update EPOLL_CTL_MOD ptr p
  else Fault Aborted.

Definition RemoveChannel (ptr : Z) p : res (EpollPoller K) :=
  _ ← AssertInLoopThread p;
  c ← channel_at p ptr;
  let fd := fd_ c in
  _ ← assert (bool_decide (channels_ p !! fd = Some ptr));
  let index := index_ c in
  if (index =? kAdded) || (index =? kDeleted) then
    p1 ← (if index =? kAdded then Update EPOLL_CTL_DEL ptr p else Ok p);
    Ok (set_channels (delete fd (channels_ p1)) p1)
  else Ok p.

(** [FillActiveChannels]: the kernel filled [evs] with masks and channels. *)
Fixpoint FillActiveChannels (evs : list (Z * Z)) p (active : list Z) :
    res (EpollPoller K * list Z) :=
  match evs with
  | [] => Ok (p, active)
  | (mask, ptr) :: evs =>
      _ ← channel_at p ptr;
      FillActiveChannels evs (upd_channel (SetREvents mask) ptr p) (active ++ [ptr])
  end.

(** What [epoll_wait] answers: [None] for an error, otherwise the events. *)
Definition Poll (answer : option (list (Z * Z))) p (active : list Z) :
    res (EpollPoller K * list Z) :=
  _ ← AssertInLoopThread p;
  match answer with
  | None => Ok (p, active)
  | Some evs =>
      let event_num := length evs in
      if decide (0 < event_num)%nat then
        _ ← assert (bool_decide (event_num ≤ ep_events_size p)%nat);
        '(p1, active') ← FillActiveChannels evs p active;
        Ok (if decide (event_num = ep_events_size p1)
            then set_events_size (ep_events_size p1 * 2)%nat p1 else p1, active')
      else Ok (p, active)
  end.

(** ** Channel operations, through the loop, to the poller *)

(** [Channel::Update]. *)
Definition Channel_Update (ptr : Z) p : res (EpollPoller K) :=
  UpdateChannel ptr (upd_channel (set_in_using true) ptr p).

Definition change_events (f : Z → Z) (ptr : Z) p : res (EpollPoller K) :=
  Channel_Update ptr (upd_channel (λ c, set_events (f (events_ c)) c) ptr p).

Definition EnableReading : Z → EpollPoller K → res (EpollPoller K) :=
  change_events (λ e, Z.lor e kReadEvent).
Definition DisableReading : Z → EpollPoller K → res (EpollPoller K) :=
  change_events (λ e, Z.land e (Z.lnot kReadEvent)).
Definition EnableWritting : Z → EpollPoller K → res (EpollPoller K) :=
  change_events (λ e, Z.lor e kWriteEvent).
Definition DisableWritting : Z → EpollPoller K → res (EpollPoller K) :=
  change_events (λ e, Z.land e (Z.lnot kWriteEvent)).
Definition DisableAll : Z → EpollPoller K → res (EpollPoller K) :=
  change_events (λ _, kNoneEvent).

Definition Channel_Remove (ptr : Z) p : res (EpollPoller K) :=
  c ← channel_at p ptr;
  _ ← assert (IsNoneEvent c);
  p1 ← RemoveChannel ptr p;
  Ok (upd_channel (set_in_using false) ptr p1).

(** Construction at a free address, and the asserts of the destructor. *)
Definition Channel_create (ptr fd : Z) p : EpollPoller K :=
  set_store (<[ptr := Channel_new fd]> (store p)) p.

Definition Channel_destroy (ptr : Z) p : res (EpollPoller K) :=
  c ← channel_at p ptr;
  _ ← assert (negb (in_using_ c));
  _ ← assert (negb (handling_event_ c));
  Ok (set_store (delete ptr (store p)) p).
End poller.

(** ** The invariant of the poller *)

Section invariant.
Context {K : Type} `{EpollKernelLaws K}.
Implicit Types p : EpollPoller K.

(** What epoll should monitor for [fd]: the events of the channel registered
    for it, unless the channel is marked deleted. *)
Definition monitored p (fd : Z) : option (Z * Z) :=
  ptr ← channels_ p !! fd;
  c ← store p !! ptr;
  if index_ c =? kAdded then Some (events_ c, ptr) else None.

Record poller_wf p : Prop := mkPollerWf {
  pwf_loop : in_loop p = true;
  pwf_reg fd ptr : channels_ p !! fd = Some ptr →
    ∃ c, store p !! ptr = Some c ∧ fd_ c = fd ∧
      (index_ c = kAdded ∨ index_ c = kDeleted ∧ events_ c = kNoneEvent);
  pwf_use ptr c : store p !! ptr = Some c →
    in_using_ c = true ↔ channels_ p !! fd_ c = Some ptr;
  pwf_interest fd : interest (epfd_ p) !! fd = monitored p fd
}.

(** A channel that may register: it is registered, or it is new and its file
    descriptor is free. *)
Definition usable p (ptr : Z) (c : Channel) : Prop :=
  channels_ p !! fd_ c = Some ptr ∨ (index_ c = kNew ∧ channels_ p !! fd_ c = None).

Lemma upd_channel_eq f ptr p c :
  store p !! ptr = Some c → upd_channel f ptr p = set_store (<[ptr := f c]> (store p)) p.
Proof.
  intros E. unfold upd_channel. f_equal. apply map_eq. intros i.
  rewrite lookup_alter, lookup_insert. case_decide; subst; [by rewrite E|done].
Qed.

Lemma registered_fd p ptr c fd :
  poller_wf p → store p !! ptr = Some c → channels_ p !! fd = Some ptr → fd = fd_ c.
Proof. intros Hwf E Hr. destruct (pwf_reg _ Hwf _ _ Hr) as (c' & E' & ? & _). congruence. Qed.

Lemma monitored_other p ptr c c' fd k n b :
  poller_wf p → store p !! ptr = Some c → fd ≠ fd_ c →
  monitored (mkPoller k (<[fd_ c := ptr]> (channels_ p)) n (<[ptr := c']> (store p)) b) fd
  = monitored p fd.
Proof.
  intros Hwf E Hne. unfold monitored. simpl. rewrite lookup_insert_ne by done.
  destruct (channels_ p !! fd) as [ptr'|] eqn:Ec; [simpl|done].
  rewrite lookup_insert_ne; [done|]. intros <-. by eapply Hne, registered_fd.
Qed.

Lemma poller_wf_replace p ptr c c' k n :
  poller_wf p → store p !! ptr = Some c → usable p ptr c →
  fd_ c' = fd_ c → in_using_ c' = true →
  (index_ c' = kAdded ∨ index_ c' = kDeleted ∧ events_ c' = kNoneEvent) →
  interest k = (if index_ c' =? kAdded
                then <[fd_ c := (events_ c', ptr)]> (interest (epfd_ p))
                else delete (fd_ c) (interest (epfd_ p))) →
  poller_wf (mkPoller k (<[fd_ c := ptr]> (channels_ p)) n (<[ptr := c']> (store p)) true).
Proof.
  intros Hwf E Hu Hfd Huse Hidx Hk. split; simpl; [done|..].
  - intros fd ptr' Hr. destruct (decide (fd = fd_ c)) as [->|Hne].
    + rewrite lookup_insert_eq in Hr. injection Hr as <-.
      exists c'. by rewrite lookup_insert_eq.
    + rewrite lookup_insert_ne in Hr by done.
      rewrite lookup_insert_ne by (intros <-; by eapply Hne, registered_fd).
      by apply (pwf_reg p).
  - intros ptr' c2 E2. destruct (decide (ptr' = ptr)) as [->|Hne].
    + rewrite lookup_insert_eq in E2. injection E2 as <-. by rewrite Hfd, lookup_insert_eq.
    + rewrite lookup_insert_ne in E2 by done. rewrite (pwf_use p Hwf _ _ E2).
      destruct (decide (fd_ c2 = fd_ c)) as [->|]; [|by rewrite lookup_insert_ne].
      rewrite lookup_insert_eq. destruct Hu as [->|[_ ->]]; split; congruence.
  - intros fd. destruct (decide (fd = fd_ c)) as [->|Hne].
    + unfold monitored. simpl. rewrite lookup_insert_eq. simpl. rewrite lookup_insert_eq.
      simpl. rewrite Hk. case_match; [by rewrite lookup_insert_eq|by rewrite lookup_delete_eq].
    + rewrite (monitored_other p ptr c) by done. rewrite <- (pwf_interest p Hwf), Hk.
      case_match; [by rewrite lookup_insert_ne|by rewrite lookup_delete_ne].
Qed.

(** The interest set at the file descriptor of a usable channel. *)
Lemma interest_usable p ptr c :
  poller_wf p → store p !! ptr = Some c → usable p ptr c →
  interest (epfd_ p) !! fd_ c
  = if index_ c =? kAdded then Some (events_ c, ptr) else None.
Proof.
  intros Hwf E Hu. rewrite (pwf_interest p Hwf). unfold monitored.
  destruct Hu as [Hr|[Hn Hr]]; rewrite Hr; simpl; [by rewrite E|by rewrite Hn].
Qed.

(** The channel after [UpdateChannel]. *)
Definition updated (c : Channel) : Channel :=
  if (index_ c =? kAdded) && IsNoneEvent c then SetIndex kDeleted c else SetIndex kAdded c.

Lemma SetIndex_id c : SetIndex (index_ c) c = c.
Proof. by destruct c. Qed.

(** [UpdateChannel] after the channel's events and use flag were assigned. *)
Lemma UpdateChannel_spec p ptr c c1 :
  poller_wf p → store p !! ptr = Some c → usable p ptr c →
  fd_ c1 = fd_ c → index_ c1 = index_ c → in_using_ c1 = true →
  ∃ k, UpdateChannel ptr (set_store (<[ptr := c1]> (store p)) p)
       = Ok (mkPoller k (<[fd_ c := ptr]> (channels_ p)) (ep_events_size p)
               (<[ptr := updated c1]> (store p)) true) ∧
    poller_wf (mkPoller k (<[fd_ c := ptr]> (channels_ p)) (ep_events_size p)
               (<[ptr := updated c1]> (store p)) true).
Proof.
  intros Hwf E Hu Hfd Hidx Huse. pose proof (interest_usable p ptr c Hwf E Hu) as Hi.
  pose proof (pwf_loop p Hwf) as Hl.
  assert (index_ c = kNew ∧ channels_ p !! fd_ c = None ∨
          channels_ p !! fd_ c = Some ptr ∧ (index_ c = kAdded ∨ index_ c = kDeleted)) as Hcase.
  { destruct Hu as [Hr|?]; [right|by left]. split; [done|].
    destruct (pwf_reg p Hwf _ _ Hr) as (c' & ? & _ & [?|[? _]]);
      assert (c' = c) as -> by congruence; auto. }
  unfold UpdateChannel, AssertInLoopThread, channel_at. simpl. rewrite Hl, lookup_insert_eq.
  cbn [mbind res_bind deref]. rewrite Hidx, Hfd.
  destruct Hcase as [[Hn Hr]|[Hr [Ha|Hd]]].
  - rewrite Hn in *. rewrite Hr. simpl in Hi. cbn -[set_store upd_channel Update].
    destruct (epoll_add (epfd_ p) (fd_ c) (events_ c1) ptr Hi) as (k & Ek & Hk).
    unfold Update, channel_at, upd_channel. simpl. rewrite lookup_alter_eq, lookup_insert_eq. simpl.
    rewrite Hfd, Ek. exists k. unfold updated. rewrite Hidx. simpl.
    rewrite alter_insert_eq. unfold set_store, set_epfd. simpl. rewrite ?Hl. split; [done|].
    apply poller_wf_replace; simpl; auto.
  - rewrite Ha in *. rewrite Hr. simpl in Hi. cbn -[set_store upd_channel Update].
    rewrite bool_decide_eq_true_2 by done. cbn -[set_store upd_channel Update].
    unfold updated. rewrite Hidx. simpl. destruct (IsNoneEvent c1) eqn:En.
    + destruct (epoll_del (epfd_ p) (fd_ c) (events_ c1) ptr _ Hi) as (k & Ek & Hk).
      unfold Update, channel_at. simpl. rewrite lookup_insert_eq. simpl. rewrite Hfd, Ek.
      exists k. unfold upd_channel. simpl. rewrite alter_insert_eq.
      unfold set_store, set_epfd. simpl. rewrite ?Hl.
      rewrite (insert_id (channels_ p)) by done. split; [done|].
      rewrite <- (insert_id (channels_ p) (fd_ c) ptr) by done.
      apply poller_wf_replace; simpl; auto.
      right. split; [done|]. by apply Z.eqb_eq.
    + destruct (epoll_mod (epfd_ p) (fd_ c) (events_ c1) ptr _ Hi) as (k & Ek & Hk).
      unfold Update, channel_at. simpl. rewrite lookup_insert_eq. simpl. rewrite Hfd, Ek.
      exists k. unfold set_store, set_epfd. simpl. rewrite ?Hl.
      replace (SetIndex kAdded c1) with c1 by (rewrite <- Hidx; symmetry; apply SetIndex_id).
      rewrite (insert_id (channels_ p)) by done. split; [done|].
      rewrite <- (insert_id (channels_ p) (fd_ c) ptr) by done.
      apply poller_wf_replace; auto. by rewrite Hidx.
  - rewrite Hd in *. rewrite Hr. simpl in Hi. cbn -[set_store upd_channel Update].
    rewrite bool_decide_eq_true_2 by done. cbn -[set_store upd_channel Update].
    destruct (epoll_add (epfd_ p) (fd_ c) (events_ c1) ptr Hi) as (k & Ek & Hk).
    unfold Update, channel_at, upd_channel. simpl. rewrite lookup_alter_eq, lookup_insert_eq. simpl.
    rewrite Hfd, Ek. exists k. unfold updated. rewrite Hidx. simpl.
    rewrite alter_insert_eq. unfold set_store, set_epfd. simpl. rewrite ?Hl.
    rewrite (insert_id (channels_ p)) by done. split; [done|].
    rewrite <- (insert_id (channels_ p) (fd_ c) ptr) by done.
    apply poller_wf_replace; simpl; auto.
Qed.
End invariant.

(** ** The abstract poll set and the refinement theorem *)

Inductive status := Fresh | Registered | Removed.
#[export] Instance status_eq_dec : EqDecision status.
Proof. solve_decision. Defined.

Record chan_abs := mkAbs { a_fd : Z; a_events : Z; a_status : status }.

Definition abs_channel (c : Channel) : chan_abs :=
  mkAbs (fd_ c) (events_ c)
    (if in_using_ c then Registered else if index_ c =? kNew then Fresh else Removed).

Inductive chan_op :=
  | ChCreate (ptr fd : Z)
  | ChEnableReading (ptr : Z)
  | ChDisableReading (ptr : Z)
  | ChEnableWritting (ptr : Z)
  | ChDisableWritting (ptr : Z)
  | ChDisableAll (ptr : Z)
  | ChRemove (ptr : Z)
  | ChDestroy (ptr : Z).

(** No registered channel uses [fd]. *)
Definition fd_free (fd : Z) (a : gmap Z chan_abs) : Prop :=
  map_Forall (λ _ x, ¬ (a_fd x = fd ∧ a_status x = Registered)) a.

Definition spec_events (f : Z → Z) (ptr : Z) (a : gmap Z chan_abs) : option (gmap Z chan_abs) :=
  x ← a !! ptr;
  if bool_decide (a_status x = Registered ∨ (a_status x = Fresh ∧ fd_free (a_fd x) a))
  then Some (<[ptr := mkAbs (a_fd x) (f (a_events x)) Registered]> a) else None.

(** The poll set as a client sees it; [None] is a misuse of the interface. *)
Definition spec_chan (a : gmap Z chan_abs) (o : chan_op) : option (gmap Z chan_abs) :=
  match o with
  | ChCreate ptr fd =>
      if bool_decide (a !! ptr = None) then Some (<[ptr := mkAbs fd 0 Fresh]> a) else None
  | ChEnableReading ptr => spec_events (λ e, Z.lor e kReadEvent) ptr a
  | ChDisableReading ptr => spec_events (λ e, Z.land e (Z.lnot kReadEvent)) ptr a
  | ChEnableWritting ptr => spec_events (λ e, Z.lor e kWriteEvent) ptr a
  | ChDisableWritting ptr => spec_events (λ e, Z.land e (Z.lnot kWriteEvent)) ptr a
  | ChDisableAll ptr => spec_events (λ _, kNoneEvent) ptr a
  | ChRemove ptr =>
      x ← a !! ptr;
      if bool_decide (a_status x = Registered ∧ a_events x = kNoneEvent)
      then Some (<[ptr := mkAbs (a_fd x) (a_events x) Removed]> a) else None
  | ChDestroy ptr =>
      x ← a !! ptr;
      if bool_decide (a_status x ≠ Registered) then Some (delete ptr a) else None
  end.

Fixpoint spec_chans (a : gmap Z chan_abs) (ops : list chan_op) : option (gmap Z chan_abs) :=
  match ops with [] => Some a | o :: ops => a' ← spec_chan a o; spec_chans a' ops end.

Section refinement.
Context {K : Type} `{EpollKernelLaws K}.
Implicit Types p : EpollPoller K.

Definition run_chan p (o : chan_op) : res (EpollPoller K) :=
  match o with
  | ChCreate ptr fd => Ok (Channel_create ptr fd p)
  | ChEnableReading ptr => EnableReading ptr p
  | ChDisableReading ptr => DisableReading ptr p
  | ChEnableWritting ptr => EnableWritting ptr p
  | ChDisableWritting ptr => DisableWritting ptr p
  | ChDisableAll ptr => DisableAll ptr p
  | ChRemove ptr => Channel_Remove ptr p
  | ChDestroy ptr => Channel_destroy ptr p
  end.

Fixpoint run_chans p (ops : list chan_op) : res (EpollPoller K) :=
  match ops with [] => Ok p | o :: ops => p' ← run_chan p o; run_chans p' ops end.

Definition abs p : gmap Z chan_abs := abs_channel <$> store p.

(** The kernel monitors exactly what the registered channels ask for. *)
Definition kernel_agrees p : Prop :=
  (∀ ptr x, abs p !! ptr = Some x → a_status x = Registered → a_events x ≠ kNoneEvent →
     interest (epfd_ p) !! a_fd x = Some (a_events x, ptr)) ∧
  (∀ fd e ptr, interest (epfd_ p) !! fd = Some (e, ptr) →
     abs p !! ptr = Some (mkAbs fd e Registered)).

Lemma abs_lookup p ptr x :
  abs p !! ptr = Some x ↔ ∃ c, store p !! ptr = Some c ∧ x = abs_channel c.
Proof.
  unfold abs. rewrite lookup_fmap. destruct (store p !! ptr) as [c|]; simpl; split.
  - intros [= <-]. eauto.
  - by intros (c' & [= <-] & ->).
  - done.
  - by intros (? & [=] & _).
Qed.

(** A channel is being handled only while its callbacks run. *)
Definition idle p : Prop := ∀ ptr c, store p !! ptr = Some c → handling_event_ c = false.

Lemma registered_status c : a_status (abs_channel c) = Registered ↔ in_using_ c = true.
Proof. unfold abs_channel. simpl. repeat case_match; naive_solver. Qed.

Lemma wf_kernel_agrees p : poller_wf p → kernel_agrees p.
Proof.
  intros Hwf. split.
  - intros ptr x (c & E & ->)%abs_lookup Hr He. rewrite registered_status in Hr. simpl in *.
    rewrite (pwf_use p Hwf _ _ E) in Hr.
    rewrite (interest_usable p ptr c Hwf E) by (by left).
    destruct (pwf_reg p Hwf _ _ Hr) as (c' & E' & _ & [Ha|[_ Hn]]);
      assert (c' = c) as -> by congruence; [by rewrite Ha|done].
  - intros fd e ptr Hi. rewrite (pwf_interest p Hwf) in Hi. unfold monitored in Hi.
    destruct (channels_ p !! fd) as [ptr'|] eqn:Hc; [simpl in Hi|done].
    destruct (pwf_reg p Hwf _ _ Hc) as (c & E & Hfd & _). rewrite E in Hi. simpl in Hi.
    destruct (index_ c =? kAdded) eqn:Ha; [|done]. injection Hi as <- <-.
    apply abs_lookup. exists c. split; [done|]. unfold abs_channel. subst fd.
    by rewrite (proj2 (pwf_use p Hwf _ _ E) Hc).
Qed.

Lemma usable_abs p ptr c :
  poller_wf p → store p !! ptr = Some c →
  a_status (abs_channel c) = Registered ∨
    (a_status (abs_channel c) = Fresh ∧ fd_free (fd_ c) (abs p)) →
  usable p ptr c.
Proof.
  intros Hwf E [Hr|[Hf Hfree]].
  - left. by rewrite <- (pwf_use p Hwf _ _ E), <- registered_status.
  - right. unfold abs_channel in Hf. simpl in Hf.
    destruct (in_using_ c); [done|]. destruct (index_ c =? kNew) eqn:Hn; [|done].
    split; [by apply Z.eqb_eq|]. destruct (channels_ p !! fd_ c) as [ptr'|] eqn:Hc; [|done].
    destruct (pwf_reg p Hwf _ _ Hc) as (c' & E' & Hfd & _).
    destruct (Hfree ptr' (abs_channel c')).
    + apply abs_lookup. eauto.
    + rewrite registered_status. simpl. split; [done|].
      apply (pwf_use p Hwf _ _ E'). by rewrite Hfd.
Qed.

Lemma updated_fields c :
  fd_ (updated c) = fd_ c ∧ events_ (updated c) = events_ c ∧
  in_using_ (updated c) = in_using_ c ∧ handling_event_ (updated c) = handling_event_ c.
Proof. unfold updated. by case_match. Qed.

Lemma idle_insert p ptr c k m n b :
  idle p → handling_event_ c = false → idle (mkPoller k m n (<[ptr := c]> (store p)) b).
Proof.
  intros Hi Hc ptr' c'. simpl. destruct (decide (ptr' = ptr)) as [->|].
  - rewrite lookup_insert_eq. congruence.
  - rewrite lookup_insert_ne by done. apply Hi.
Qed.

Lemma change_events_spec p f ptr a' :
  poller_wf p → idle p → spec_events f ptr (abs p) = Some a' →
  ∃ p', change_events f ptr p = Ok p' ∧ poller_wf p' ∧ idle p' ∧ abs p' = a'.
Proof.
  intros Hwf Hid Hs. unfold spec_events in Hs.
  destruct (abs p !! ptr) as [x|] eqn:Ex; [simpl in Hs|done].
  case_bool_decide as Hu; [injection Hs as <-|done].
  apply abs_lookup in Ex as (c & E & ->).
  pose proof (usable_abs p ptr c Hwf E Hu) as Hus.
  unfold change_events, Channel_Update. rewrite (upd_channel_eq _ ptr p c E).
  rewrite (upd_channel_eq _ _ _ (set_events (f (events_ c)) c))
    by (simpl; by rewrite lookup_insert_eq).
  unfold set_store. simpl. rewrite insert_insert_eq.
  destruct (UpdateChannel_spec p ptr c (set_in_using true (set_events (f (events_ c)) c)))
    as (k & Ek & Hwf'); [done..|].
  unfold set_store in Ek. rewrite Ek. eexists. split; [done|]. split; [done|].
  destruct (updated_fields (set_in_using true (set_events (f (events_ c)) c))) as (F1&F2&F3&F4).
  split.
  - apply idle_insert; [done|]. rewrite F4. simpl. eauto.
  - unfold abs. simpl. rewrite fmap_insert. f_equal. unfold abs_channel. by rewrite F1, F2, F3.
Qed.

Lemma Channel_Remove_spec p ptr c :
  poller_wf p → store p !! ptr = Some c → in_using_ c = true → events_ c = kNoneEvent →
  ∃ k, let p' := mkPoller k (delete (fd_ c) (channels_ p)) (ep_events_size p)
                   (<[ptr := set_in_using false c]> (store p)) true in
    Channel_Remove ptr p = Ok p' ∧ poller_wf p'.
Proof.
  intros Hwf E Hu He. pose proof (proj1 (pwf_use p Hwf _ _ E) Hu) as Hr.
  pose proof (interest_usable p ptr c Hwf E (or_introl Hr)) as Hi.
  destruct (pwf_reg p Hwf _ _ Hr) as (c' & E' & _ & Hidx). assert (c' = c) as -> by congruence.
  assert (∃ k, (if index_ c =? kAdded then Update EPOLL_CTL_DEL ptr p else Ok p)
               = Ok (set_epfd k p) ∧ interest k = delete (fd_ c) (interest (epfd_ p)))
    as (k & Ek & Hk).
  { destruct (index_ c =? kAdded) eqn:Ha.
    - destruct (epoll_del (epfd_ p) (fd_ c) (events_ c) ptr _ Hi) as (k & Ek & Hk).
      exists k. unfold Update, channel_at. rewrite E. simpl. by rewrite Ek.
    - exists (epfd_ p). split; [by destruct p|]. by rewrite delete_id. }
  exists k. cbn zeta. unfold Channel_Remove, RemoveChannel, AssertInLoopThread, channel_at.
  rewrite (pwf_loop p Hwf), E. cbn [mbind res_bind deref].
  assert (IsNoneEvent c = true) as -> by (apply Z.eqb_eq, He). cbn [mbind res_bind assert].
  rewrite bool_decide_eq_true_2 by done. cbn [mbind res_bind assert].
  assert ((index_ c =? kAdded) || (index_ c =? kDeleted) = true) as ->
    by (destruct Hidx as [->|[-> _]]; done).
  rewrite Ek. cbn [mbind res_bind]. rewrite (upd_channel_eq _ _ _ c) by done.
  unfold set_store, set_channels. simpl. rewrite (pwf_loop p Hwf). split; [done|].
  split; simpl; [done|..].
  - intros fd ptr' [Hne Hc]%lookup_delete_Some.
    rewrite lookup_insert_ne by (intros <-; by eapply Hne, eq_sym, registered_fd).
    by apply (pwf_reg p).
  - intros ptr' c2 E2. destruct (decide (ptr' = ptr)) as [->|Hne].
    + rewrite lookup_insert_eq in E2. injection E2 as <-. simpl. by rewrite lookup_delete_eq.
    + rewrite lookup_insert_ne in E2 by done. rewrite (pwf_use p Hwf _ _ E2).
      rewrite lookup_delete_Some. split; [|by intros [_ ?]]. intros Hc. split; [|done].
      intros Heq. rewrite <- Heq, Hr in Hc. congruence.
  - intros fd. rewrite Hk. unfold monitored. simpl. destruct (decide (fd = fd_ c)) as [->|Hne].
    + by rewrite !lookup_delete_eq.
    + rewrite !lookup_delete_ne, (pwf_interest p Hwf) by done. unfold monitored.
      destruct (channels_ p !! fd) as [ptr'|] eqn:Ec; [simpl|done].
      rewrite lookup_insert_ne; [done|]. intros <-. by eapply Hne, registered_fd.
Qed.

Lemma Channel_create_spec p ptr fd :
  poller_wf p → store p !! ptr = None → poller_wf (Channel_create ptr fd p).
Proof.
  intros Hwf E. assert (∀ fd', channels_ p !! fd' ≠ Some ptr) as Hno.
  { intros fd' Hc. destruct (pwf_reg p Hwf _ _ Hc) as (c & E' & _). congruence. }
  split; simpl.
  - apply (pwf_loop p Hwf).
  - intros fd' ptr' Hc. rewrite lookup_insert_ne by (intros <-; by eapply Hno).
    by apply (pwf_reg p).
  - intros ptr' c. destruct (decide (ptr' = ptr)) as [->|].
    + rewrite lookup_insert_eq. intros [= <-]. simpl. split; [done|]. intros Hc. by destruct (Hno fd).
    + rewrite lookup_insert_ne by done. apply (pwf_use p Hwf).
  - intros fd'. rewrite (pwf_interest p Hwf). unfold monitored. simpl.
    destruct (channels_ p !! fd') as [ptr'|] eqn:Hc; [simpl|done].
    rewrite lookup_insert_ne; [done|]. intros <-. by eapply Hno.
Qed.

Lemma Channel_destroy_spec p ptr c :
  poller_wf p → store p !! ptr = Some c → in_using_ c = false →
  poller_wf (set_store (delete ptr (store p)) p).
Proof.
  intros Hwf E Hu. assert (∀ fd', channels_ p !! fd' ≠ Some ptr) as Hno.
  { intros fd' Hc. assert (fd' = fd_ c) as -> by (by eapply registered_fd).
    apply (pwf_use p Hwf _ _ E) in Hc. congruence. }
  split; simpl.
  - apply (pwf_loop p Hwf).
  - intros fd' ptr' Hc. rewrite lookup_delete_ne by (intros <-; by eapply Hno).
    by apply (pwf_reg p).
  - intros ptr' c' [_ E']%lookup_delete_Some. by apply (pwf_use p Hwf).
  - intros fd'. rewrite (pwf_interest p Hwf). unfold monitored. simpl.
    destruct (channels_ p !! fd') as [ptr'|] eqn:Hc; [simpl|done].
    rewrite lookup_delete_ne; [done|]. intros <-. by eapply Hno.
Qed.

Lemma run_chan_spec p o a' :
  poller_wf p → idle p → spec_chan (abs p) o = Some a' →
  ∃ p', run_chan p o = Ok p' ∧ poller_wf p' ∧ idle p' ∧ abs p' = a'.
Proof.
  intros Hwf Hid Hs. destruct o as [ptr fd|ptr|ptr|ptr|ptr|ptr|ptr|ptr];
    try (by apply change_events_spec); simpl in *.
  - case_bool_decide as Hn; [injection Hs as <-|done]. eexists. split; [done|].
    assert (store p !! ptr = None) as E.
    { unfold abs in Hn. rewrite lookup_fmap in Hn. by destruct (store p !! ptr). }
    split; [by apply Channel_create_spec|]. split.
    + destruct p. by apply (idle_insert (mkPoller _ _ _ _ _)).
    + unfold abs, Channel_create, set_store. simpl. by rewrite fmap_insert.
  - destruct (abs p !! ptr) as [x|] eqn:Ex; [simpl in Hs|done].
    apply abs_lookup in Ex as (c & E & ->).
    case_bool_decide as Hu; [injection Hs as <-|done]. destruct Hu as [Hu He].
    rewrite registered_status in Hu.
    destruct (Channel_Remove_spec p ptr c Hwf E Hu He) as (k & Ek & Hwf').
    rewrite Ek. eexists. split; [done|]. split; [done|]. split.
    + apply idle_insert; [done|]. simpl. eauto.
    + unfold abs. simpl. rewrite fmap_insert. f_equal. unfold abs_channel. simpl.
      destruct (pwf_reg p Hwf _ _ (proj1 (pwf_use p Hwf _ _ E) Hu)) as (c' & E' & _ & Hidx).
      assert (c' = c) as -> by congruence. by destruct Hidx as [->|[-> _]].
  - destruct (abs p !! ptr) as [x|] eqn:Ex; [simpl in Hs|done].
    apply abs_lookup in Ex as (c & E & ->).
    case_bool_decide as Hu; [injection Hs as <-|done]. rewrite registered_status in Hu.
    apply not_true_is_false in Hu.
    unfold Channel_destroy, channel_at. rewrite E. cbn [mbind res_bind deref].
    rewrite Hu, (Hid _ _ E). eexists. split; [done|]. split; [by eapply Channel_destroy_spec|].
    split.
    + intros ptr' c'. simpl. intros [_ E']%lookup_delete_Some. by eapply Hid.
    + unfold abs. simpl. by rewrite fmap_delete.
Qed.

Lemma run_chans_spec ops : ∀ p a',
  poller_wf p → idle p → spec_chans (abs p) ops = Some a' →
  ∃ p', run_chans p ops = Ok p' ∧ poller_wf p' ∧ idle p' ∧ abs p' = a'.
Proof.
  induction ops as [|o ops IH]; intros p a' Hwf Hid Hs; simpl in *.
  { injection Hs as <-. eauto. }
  destruct (spec_chan (abs p) o) as [a1|] eqn:E1; [simpl in Hs|done].
  destruct (run_chan_spec p o a1 Hwf Hid E1) as (p1 & -> & Hwf1 & Hid1 & <-). simpl. eauto.
Qed.

Lemma EpollPoller_new_wf (k : K) :
  interest k = ∅ → poller_wf (EpollPoller_new k) ∧ idle (EpollPoller_new k).
Proof.
  intros Hk. split; [|done]. split; simpl; try done.
  intros fd. by rewrite Hk.
Qed.

(** C5: any sequence of channel operations that a client of the interface may
    make (create, enable and disable reading or writing, remove, destroy) runs
    on a fresh poller without a failed [assert] or a fatal [epoll_ctl] error,
    changes the channels as the abstract poll set says, and leaves the kernel
    monitoring exactly the registered channels with their current events. *)
Theorem poller_refines_poll_set (k : K) (ops : list chan_op) a :
  interest k = ∅ → spec_chans ∅ ops = Some a →
  ∃ p', run_chans (EpollPoller_new k) ops = Ok p' ∧ abs p' = a ∧ kernel_agrees p'.
Proof.
  intros Hk Hs. destruct (EpollPoller_new_wf k Hk) as [Hwf Hid].
  destruct (run_chans_spec ops (EpollPoller_new k) a Hwf Hid) as (p' & E & Hwf' & _ & Ha).
  { unfold abs. simpl. by rewrite fmap_empty. }
  exists p'. split; [done|]. split; [done|]. by apply wf_kernel_agrees.
Qed.

(** ** Polling *)

Lemma SetREvents_wf p ptr c m :
  poller_wf p → store p !! ptr = Some c →
  poller_wf (set_store (<[ptr := SetREvents m c]> (store p)) p).
Proof.
  intros Hwf E. split; simpl.
  - apply (pwf_loop p Hwf).
  - intros fd ptr' Hc. destruct (pwf_reg p Hwf _ _ Hc) as (c' & E' & Hf & Hidx).
    destruct (decide (ptr' = ptr)) as [->|].
    + rewrite lookup_insert_eq. assert (c' = c) as -> by congruence. by exists (SetREvents m c).
    + rewrite lookup_insert_ne by done. eauto.
  - intros ptr' c'. destruct (decide (ptr' = ptr)) as [->|].
    + rewrite lookup_insert_eq. intros [= <-]. simpl. by apply (pwf_use p Hwf).
    + rewrite lookup_insert_ne by done. apply (pwf_use p Hwf).
  - intros fd. rewrite (pwf_interest p Hwf). unfold monitored. simpl.
    destruct (channels_ p !! fd) as [ptr'|]; [simpl|done].
    destruct (decide (ptr' = ptr)) as [->|].
    + by rewrite lookup_insert_eq, E.
    + by rewrite lookup_insert_ne.
Qed.

Lemma FillActiveChannels_spec evs : ∀ p active,
  poller_wf p → (∀ m ptr, (m, ptr) ∈ evs → is_Some (store p !! ptr)) → NoDup evs.*2 →
  ∃ p', FillActiveChannels evs p active = Ok (p', active ++ evs.*2) ∧ poller_wf p' ∧
    abs p' = abs p ∧ ep_events_size p' = ep_events_size p ∧
    (∀ m ptr, (m, ptr) ∈ evs → revents_ <$> store p' !! ptr = Some m) ∧
    (∀ ptr, ptr ∉ evs.*2 → store p' !! ptr = store p !! ptr).
Proof.
  induction evs as [|[m ptr] evs IH]; intros p active Hwf Hin Hnd; simpl.
  { exists p. rewrite app_nil_r. split_and!; try done. intros ?? ?%not_elem_of_nil. done. }
  apply NoDup_cons in Hnd as [Hnin Hnd].
  destruct (Hin m ptr) as [c E]; [by left|]. unfold channel_at. rewrite E.
  cbn [mbind res_bind deref]. rewrite (upd_channel_eq _ ptr p c E).
  destruct (IH (set_store (<[ptr := SetREvents m c]> (store p)) p) (active ++ [ptr]))
    as (p' & -> & Hwf' & Ha & Hsz & Hr & Ho).
  - by apply SetREvents_wf.
  - intros m' ptr' Hin'. simpl. destruct (decide (ptr' = ptr)) as [->|].
    + rewrite lookup_insert_eq. by eexists.
    + rewrite lookup_insert_ne by done. eapply Hin. by right.
  - done.
  - exists p'. rewrite <- app_assoc. split; [done|]. split; [done|]. split.
    { rewrite Ha. unfold abs. simpl. rewrite fmap_insert. apply insert_id.
      rewrite lookup_fmap, E. done. }
    split; [done|]. split.
    + intros m' ptr' [[= -> ->]|Hin']%elem_of_cons; [|by apply Hr].
      rewrite Ho by done. simpl. by rewrite lookup_insert_eq.
    + intros ptr' [Hne Hnin']%not_elem_of_cons. rewrite Ho by done. simpl.
      by rewrite lookup_insert_ne.
Qed.

(** When [epoll_wait] reports channels it monitors, at most as many as
    the event array holds, [Poll] appends exactly those channels in order,
    each carrying its reported mask, changes nothing else, and doubles a full
    array so that the next poll can report more. *)
Theorem poll_reports_active p evs active :
  poller_wf p → evs ≠ [] → (length evs ≤ ep_events_size p)%nat → NoDup evs.*2 →
  (∀ m ptr, (m, ptr) ∈ evs → ∃ fd e, interest (epfd_ p) !! fd = Some (e, ptr)) →
  ∃ p', Poll (Some evs) p active = Ok (p', active ++ evs.*2) ∧ poller_wf p' ∧ abs p' = abs p ∧
    (∀ m ptr, (m, ptr) ∈ evs → revents_ <$> store p' !! ptr = Some m) ∧
    (ep_events_size p' = if decide (length evs = ep_events_size p)
                         then ep_events_size p * 2 else ep_events_size p)%nat.
Proof.
  intros Hwf Hne Hle Hnd Hin. unfold Poll, AssertInLoopThread. rewrite (pwf_loop p Hwf).
  cbn [mbind res_bind]. rewrite decide_True by (destruct evs; [done|simpl; lia]).
  rewrite bool_decide_eq_true_2 by done. cbn [mbind res_bind assert].
  destruct (FillActiveChannels_spec evs p active Hwf) as (p' & -> & Hwf' & Ha & Hsz & Hr & _).
  { intros m ptr (fd & e & Hi)%Hin. apply (wf_kernel_agrees p Hwf) in Hi.
    apply abs_lookup in Hi as (c & ? & _). by exists c. }
  { done. }
  cbn [mbind res_bind]. eexists. split; [done|]. rewrite Hsz.
  case_decide; split_and!; try done. by destruct Hwf'.
Qed.
End refinement.

Definition demo_chans : list chan_op :=
  [ChCreate 100 7; ChEnableReading 100; ChCreate 200 8; ChEnableWritting 200;
   ChDisableReading 100; ChEnableReading 100; ChDisableAll 200; ChRemove 200; ChDestroy 200].

Lemma poller_refines_poll_set_witness :
  interest (∅ : gmap Z (Z * Z)) = ∅ ∧
  ∃ a, spec_chans ∅ demo_chans = Some a ∧ a !! 100 = Some (mkAbs 7 3 Registered) ∧
  ∃ p', run_chans (EpollPoller_new (∅ : gmap Z (Z * Z))) demo_chans = Ok p' ∧ abs p' = a ∧
        kernel_agrees p'.
Proof.
  split; [reflexivity|]. eexists. split; [vm_compute; reflexivity|]. split; [reflexivity|].
  apply (poller_refines_poll_set (∅ : gmap Z (Z * Z)) demo_chans); [reflexivity|].
  vm_compute. reflexivity.
Defined.

Definition demo_poller : EpollPoller (gmap Z (Z * Z)) :=
  mkPoller {[7 := (3, 100)]} {[7 := 100]} 1
    {[100 := mkChannel 7 3 0 kAdded true false false None]} true.

Lemma demo_poller_wf : poller_wf demo_poller.
Proof.
  split; simpl; [done|..].
  - intros fd ptr [<- <-]%lookup_singleton_Some. rewrite lookup_singleton_eq.
    eexists. split; [done|]. split; [done|]. by left.
  - intros ptr c [<- <-]%lookup_singleton_Some. simpl. by rewrite lookup_singleton_eq.
  - intros fd. unfold monitored. simpl. destruct (decide (fd = 7)) as [->|].
    + rewrite !lookup_singleton_eq. simpl. by rewrite lookup_singleton_eq.
    + by rewrite !lookup_singleton_ne.
Qed.

Lemma poll_reports_active_witness :
  poller_wf demo_poller ∧
  ∃ p', Poll (Some [(1, 100)]) demo_poller [] = Ok (p', [100]) ∧ ep_events_size p' = 2%nat.
Proof.
  split; [exact demo_poller_wf|].
  destruct (poll_reports_active demo_poller [(1, 100)] [] demo_poller_wf)
    as (p' & E & _ & _ & _ & Hs).
  - discriminate.
  - vm_compute. apply le_n.
  - apply NoDup_singleton.
  - intros m ptr H. exists 7, 3. apply list_elem_of_singleton in H. injection H as -> ->. reflexivity.
  - exists p'. split; [exact E|]. rewrite Hs. reflexivity.
Defined.

(** ** The order in which the callbacks run *)

Lemma has_pow2 r n : 0 <= n → has r (2 ^ n) = Z.testbit r n.
Proof.
  intros Hn. unfold has. destruct (Z.testbit r n) eqn:Hb.
  - apply negb_true_iff, Z.eqb_neq. intros H0.
    assert (Z.testbit (Z.land r (2 ^ n)) n = false) as Hf by (rewrite H0; apply Z.bits_0).
    rewrite Z.land_spec, Hb, Z.pow2_bits_true in Hf by done. done.
  - apply negb_false_iff, Z.eqb_eq, Z.bits_inj. intros m.
    rewrite Z.land_spec, Z.bits_0, Z.pow2_bits_eqb by done.
    destruct (Z.eqb_spec n m) as [->|]; [by rewrite Hb|apply andb_false_r].
Qed.

Lemma has_lor r a b : has r (Z.lor a b) = has r a || has r b.
Proof.
  unfold has. rewrite Z.land_lor_distr_r, <- negb_andb. f_equal.
  apply eq_true_iff_eq. rewrite andb_true_iff, !Z.eqb_eq. apply Z.lor_eq_0_iff.
Qed.

Inductive cb_kind := ErrorCb | ReadCb | WriteCb | CloseCb.

(** Which callbacks a received mask calls for, by bit number. *)
Definition dispatch (r : Z) : list cb_kind :=
  (if Z.testbit r 3 || Z.testbit r 5 then [ErrorCb] else []) ++
  (if Z.testbit r 0 || Z.testbit r 1 || Z.testbit r 13 then [ReadCb] else []) ++
  (if Z.testbit r 2 then [WriteCb] else []) ++
  (if Z.testbit r 4 && negb (Z.testbit r 0) then [CloseCb] else []).

Definition run_cb {W} (cbs : Callbacks W) (t : Z) (k : cb_kind) : W → res W :=
  match k with
  | ErrorCb => call (error_callback_ cbs)
  | ReadCb => call ((λ f, f t) <$> read_callback_ cbs)
  | WriteCb => call (write_callback_ cbs)
  | CloseCb => call (close_callback_ cbs)
  end.

Fixpoint run_cbs {W} (cbs : Callbacks W) (t : Z) (ks : list cb_kind) (w : W) : res W :=
  match ks with [] => Ok w | k :: ks => w' ← run_cb cbs t k w; run_cbs cbs t ks w' end.

(** Handling an event runs the error, read, write and close callbacks in
    that order, each exactly when the received mask asks for it (close only
    on a hang-up without readable data), between setting and clearing
    [handling_event_]; a tied channel whose owner is gone runs nothing. *)
Theorem handle_event_dispatch {W} (set_handling : bool → W → W) alive c (cbs : Callbacks W) t w :
  HandleEvent set_handling alive c cbs t w =
  if tied_ c && negb (from_option alive false (tied_object_ c)) then Ok w
  else w' ← run_cbs cbs t (dispatch (revents_ c)) (set_handling true w);
       Ok (set_handling false w').
Proof.
  assert (∀ r, HandleEventWithGuard set_handling r cbs t w
    = w' ← run_cbs cbs t (dispatch r) (set_handling true w); Ok (set_handling false w')) as Hg.
  { intros r. unfold HandleEventWithGuard, dispatch. rewrite !has_lor.
    change POLLIN with (2 ^ 0). change POLLPRI with (2 ^ 1). change POLLOUT with (2 ^ 2).
    change POLLERR with (2 ^ 3). change POLLHUP with (2 ^ 4). change POLLNVAL with (2 ^ 5).
    change POLLRDHUP with (2 ^ 13). rewrite !has_pow2 by done.
    destruct (Z.testbit r 3 || Z.testbit r 5),
      (Z.testbit r 0 || Z.testbit r 1 || Z.testbit r 13), (Z.testbit r 2),
      (Z.testbit r 4 && negb (Z.testbit r 0)); simpl; try done;
      repeat (match goal with |- context [call ?f ?x] => destruct (call f x) end; simpl); done. }
  unfold HandleEvent. destruct (tied_ c); simpl; [|apply Hg].
  destruct (tied_object_ c) as [o|]; simpl; [|done]. destruct (alive o); simpl; [apply Hg|done].
Qed.

(** The event names of the poller's trace lines tell nothing: every
    nonempty mask is printed as "Read", because the masks are combined with a
    bitwise or where the test needs a bitwise and. *)
Theorem event_str_is_read events :
  ToEventStr events = (if events =? kNoneEvent then "None"%string else "Read"%string) ∧
  ToEventStr kWriteEvent = "Read"%string ∧ has kWriteEvent kReadEvent = false.
Proof.
  split_and!; [|done..]. unfold ToEventStr. destruct (events =? kNoneEvent) eqn:E; [done|].
  destruct (Z.lor events kReadEvent =? 0) eqn:E2; [|done].
  apply Z.eqb_eq, Z.lor_eq_0_iff in E2 as [-> _]. done.
Qed.

(** A removed channel cannot register again: [RemoveChannel] leaves [index_]
    as it was, so the next update looks for the channel in the map. *)
Lemma removed_channel_stays_out {K} `{EpollKernelLaws K} (p p' : EpollPoller K) ptr c :
  poller_wf p → store p !! ptr = Some c → in_using_ c = true →
  Channel_Remove ptr p = Ok p' → EnableReading ptr p' = Fault AssertFail.
Proof.
  intros Hwf E Hu Hrm. pose proof (pwf_loop p Hwf) as Hl.
  assert (events_ c = kNoneEvent) as He.
  { unfold Channel_Remove, channel_at in Hrm. rewrite E in Hrm. simpl in Hrm.
    destruct (IsNoneEvent c) eqn:En; [by apply Z.eqb_eq|done]. }
  destruct (Channel_Remove_spec p ptr c Hwf E Hu He) as (k & Ek & Hwf').
  rewrite Ek in Hrm. injection Hrm as <-.
  destruct (pwf_reg p Hwf _ _ (proj1 (pwf_use p Hwf _ _ E) Hu)) as (c' & E' & _ & Hidx).
  assert (c' = c) as -> by congruence.
  unfold EnableReading, change_events, Channel_Update, UpdateChannel, AssertInLoopThread, channel_at.
  simpl. rewrite !lookup_alter_eq, lookup_insert_eq. simpl. rewrite lookup_delete_eq.
  destruct Hidx as [->|[-> _]]; done.
Qed.

(** ** One channel, as its owner sees it *)

(** What [EnableReading] and the like do to a channel of the abstract poll
    set whose descriptor no other channel uses. *)
Definition chan_update (f : Z → Z) (x : chan_abs) : res chan_abs :=
  match a_status x with
  | Removed => Fault AssertFail
  | _ => Ok (mkAbs (a_fd x) (f (a_events x)) Registered)
  end.

Definition chan_enable_reading : chan_abs → res chan_abs := chan_update (λ e, Z.lor e kReadEvent).
Definition chan_disable_reading : chan_abs → res chan_abs :=
  chan_update (λ e, Z.land e (Z.lnot kReadEvent)).
Definition chan_enable_writting : chan_abs → res chan_abs := chan_update (λ e, Z.lor e kWriteEvent).
Definition chan_disable_writting : chan_abs → res chan_abs :=
  chan_update (λ e, Z.land e (Z.lnot kWriteEvent)).
Definition chan_disable_all : chan_abs → res chan_abs := chan_update (λ _, kNoneEvent).
Definition chan_remove (x : chan_abs) : res chan_abs :=
  if bool_decide (a_status x = Registered ∧ a_events x = kNoneEvent)
  then Ok (mkAbs (a_fd x) (a_events x) Removed) else Fault AssertFail.
Definition chan_writting (x : chan_abs) : bool := has (a_events x) kWriteEvent.
Definition chan_reading (x : chan_abs) : bool := has (a_events x) kReadEvent.

(** The owner's view is the poll set's. *)
Lemma chan_update_spec f ptr a x y :
  a !! ptr = Some x → fd_free (a_fd x) a ∨ a_status x = Registered →
  chan_update f x = Ok y → spec_events f ptr a = Some (<[ptr := y]> a).
Proof.
  intros Ha Hf Hu. unfold spec_events. rewrite Ha. cbn. unfold chan_update in Hu.
  destruct (a_status x) eqn:Es; [..|done]; injection Hu as <-; rewrite bool_decide_true; try done.
  - right. destruct Hf; done.
  - by left.
Qed.

Lemma chan_remove_spec ptr a x y :
  a !! ptr = Some x → chan_remove x = Ok y → spec_chan a (ChRemove ptr) = Some (<[ptr := y]> a).
Proof.
  intros Ha Hu. cbn. rewrite Ha. cbn. unfold chan_remove in Hu. by case_bool_decide; inv_res.
Qed.

Lemma chan_writting_bit x : chan_writting x = Z.testbit (a_events x) 2.
Proof. unfold chan_writting, kWriteEvent. change POLLOUT with (2 ^ 2). by apply has_pow2. Qed.

(** Whether the channel waits for writing after an update. *)
Lemma chan_writting_updates fd e s :
  chan_writting (mkAbs fd (Z.lor e kWriteEvent) s) = true ∧
  chan_writting (mkAbs fd (Z.land e (Z.lnot kWriteEvent)) s) = false ∧
  chan_writting (mkAbs fd (Z.lor e kReadEvent) s) = chan_writting (mkAbs fd e s) ∧
  chan_writting (mkAbs fd (Z.land e (Z.lnot kReadEvent)) s) = chan_writting (mkAbs fd e s) ∧
  chan_writting (mkAbs fd kNoneEvent s) = false.
Proof.
  rewrite !chan_writting_bit. cbn [a_events].
  rewrite !Z.lor_spec, !Z.land_spec, !Z.lnot_spec by lia.
  change (Z.testbit kWriteEvent 2) with true. change (Z.testbit kReadEvent 2) with false.
  cbn. by rewrite orb_true_r, orb_false_r, andb_true_r, andb_false_r.
Qed.
