(* ===== verification/Iteration.v ===== *)
(** An iteration of [EventLoop::Loop] ([muzi/net/event_loop.cc]) over the
    poller and the channels of [Poller]: the answer of the kernel, the
    channels that become active, their callbacks in order, and what those do
    to the channels. *)

From S2P Require Import Prelude Poller.
#[local] Open Scope Z_scope.

(** ** The iteration *)

Definition set_handling_event (b : bool) (c : Channel) : Channel :=
  mkChannel (fd_ c) (events_ c) (revents_ c) (index_ c) (in_using_ c) b (tied_ c) (tied_object_ c).

Section iteration.
Context {K : Type} `{EpollKernel K}.
(** What the callback [k] of the channel at [ptr] does to the channels of the
    loop; which owners a [weak_ptr] can still lock. *)
Variable script : Z → cb_kind → list chan_op.
Variable alive : Z → bool.
Implicit Types p : EpollPoller K.

(** The poller and the callbacks called so far. *)
Abbreviation iter_state := (EpollPoller K * list (Z * cb_kind))%type.

Definition callback (ptr : Z) (k : cb_kind) (s : iter_state) : res iter_state :=
  p ← run_chans s.1 (script ptr k); Ok (p, s.2 ++ [(ptr, k)]).

Definition channel_callbacks (ptr : Z) : Callbacks iter_state :=
  mkCallbacks _ (Some (λ _, callback ptr ReadCb)) (Some (callback ptr WriteCb))
    (Some (callback ptr ErrorCb)) (Some (callback ptr CloseCb)).

(** [for (Channel *channel : active_channels_) channel->HandleEvent(time)]. *)
Fixpoint HandleActive (time : Z) (active_channels : list Z) (s : iter_state) : res iter_state :=
  match active_channels with
  | [] => Ok s
  | ptr :: active_channels =>
      c ← deref UseAfterFree (store s.1 !! ptr);
      s ← HandleEvent (λ b s, (upd_channel (set_handling_event b) ptr s.1, s.2)) alive c (channel_callbacks ptr) time s;
      HandleActive time active_channels s
  end.

(** The body of the [while] up to [ExecuteFunctors]; [answer] is what
    [epoll_wait] answers. *)
Definition Loop_iteration (answer : option (list (Z * Z))) (time : Z) p : res iter_state :=
  '(p, active_channels) ← Poll answer p [];
  HandleActive time active_channels (p, []).
End iteration.

(** ** What callbacks leave alone *)

(** Assign the fields that channel operations do not touch. *)
Definition mark (r : Z) (h t : bool) (ob : option Z) (c : Channel) : Channel :=
  mkChannel (fd_ c) (events_ c) r (index_ c) (in_using_ c) h t ob.

(** The channel is not created or destroyed. *)
Definition spares (ptr : Z) (o : chan_op) : Prop :=
  match o with ChCreate q _ | ChDestroy q => q ≠ ptr | _ => True end.

Section frame.
Context {K : Type} `{EpollKernelLaws K}.
Implicit Types p : EpollPoller K.
Variables (r : Z) (h t : bool) (ob : option Z) (ptr : Z).

Abbreviation U := (upd_channel (K := K) (mark r h t ob) ptr).

Lemma channel_at_mark p q :
  channel_at (U p) q = (c ← channel_at p q; Ok (if decide (q = ptr) then mark r h t ob c else c)).
Proof.
  unfold channel_at, upd_channel. cbn [store set_store]. rewrite lookup_alter.
  destruct (decide (q = ptr)) as [->|Hne]; [rewrite decide_True by done|rewrite decide_False by congruence];
    by destruct (store p !! _).
Qed.

Lemma upd_mark f q p :
  (∀ c, f (mark r h t ob c) = mark r h t ob (f c)) → upd_channel f q (U p) = U (upd_channel f q p).
Proof.
  intros Hf. unfold upd_channel, set_store. cbn. f_equal. destruct (decide (q = ptr)) as [->|Hne].
  - rewrite !alter_alter_eq. apply alter_ext. intros c _. apply Hf.
  - by rewrite alter_alter_ne.
Qed.

Lemma Update_mark op q p : Update op q (U p) = (p' ← Update op q p; Ok (U p')).
Proof.
  unfold Update. rewrite channel_at_mark. destruct (channel_at p q) as [c|]; [|done]. cbn [mbind res_bind].
  change (epfd_ (U p)) with (epfd_ p).
  replace (fd_ (if decide (q = ptr) then mark r h t ob c else c)) with (fd_ c) by (by destruct (decide _)).
  replace (events_ (if decide (q = ptr) then mark r h t ob c else c)) with (events_ c) by (by destruct (decide _)).
  by destruct (epoll_ctl _ _ _ _ _).
Qed.

(** Every field that is read is the same. *)
Lemma mark_reads (q : Z) c :
  let c' := if decide (q = ptr) then mark r h t ob c else c in
  fd_ c' = fd_ c ∧ events_ c' = events_ c ∧ index_ c' = index_ c ∧ in_using_ c' = in_using_ c ∧ IsNoneEvent c' = IsNoneEvent c.
Proof. cbn zeta. by destruct (decide _). Qed.

Lemma UpdateChannel_mark q p : UpdateChannel q (U p) = (p' ← UpdateChannel q p; Ok (U p')).
Proof.
  unfold UpdateChannel, AssertInLoopThread. change (in_loop (U p)) with (in_loop p). destruct (in_loop p); [|done].
  cbn [mbind res_bind]. rewrite channel_at_mark. destruct (channel_at p q) as [c|]; [|done]. cbn [mbind res_bind].
  destruct (mark_reads q c) as (-> & _ & -> & _ & ->). change (channels_ (U p)) with (channels_ p).
  destruct (_ || _).
  - destruct (index_ c =? kNew).
    + destruct (assert _); [|done]. cbn [mbind res_bind].
      change (set_channels ?m (U p)) with (U (set_channels m p)). by rewrite upd_mark, Update_mark.
    + destruct (assert _); [|done]. cbn [mbind res_bind]. by rewrite upd_mark, Update_mark.
  - destruct (index_ c =? kAdded); [|done]. destruct (assert _); [|done]. cbn [mbind res_bind].
    destruct (IsNoneEvent c); [|apply Update_mark]. rewrite Update_mark.
    destruct (Update _ _ p); [|done]. cbn [mbind res_bind]. by rewrite upd_mark.
Qed.

Lemma change_events_mark f q p : change_events f q (U p) = (p' ← change_events f q p; Ok (U p')).
Proof. unfold change_events, Channel_Update. by rewrite !upd_mark, UpdateChannel_mark. Qed.

Lemma Channel_Remove_mark q p : Channel_Remove q (U p) = (p' ← Channel_Remove q p; Ok (U p')).
Proof.
  unfold Channel_Remove, RemoveChannel, AssertInLoopThread. rewrite channel_at_mark.
  destruct (channel_at p q) as [c|] eqn:Ec; [|done]. cbn [mbind res_bind].
  destruct (mark_reads q c) as (-> & _ & -> & _ & ->). destruct (assert (IsNoneEvent c)); [|done]. cbn [mbind res_bind].
  change (in_loop (U p)) with (in_loop p). change (channels_ (U p)) with (channels_ p). destruct (in_loop p); [|done].
  cbn [mbind res_bind]. destruct (assert _); [|done]. cbn [mbind res_bind].
  destruct (_ || _); cbn [mbind res_bind]; [|by rewrite upd_mark].
  destruct (index_ c =? kAdded).
  - rewrite Update_mark. destruct (Update _ _ p) as [p1|]; [|done]. cbn [mbind res_bind].
    change (set_channels ?m (U p1)) with (U (set_channels m p1)). by rewrite upd_mark.
  - cbn [mbind res_bind]. change (set_channels ?m (U p)) with (U (set_channels m p)). by rewrite upd_mark.
Qed.

(** An operation on other channels, or one that keeps the channel. *)
Lemma run_chan_mark o p : spares ptr o → run_chan (U p) o = (p' ← run_chan p o; Ok (U p')).
Proof.
  intros Hs. destruct o as [q fd|q|q|q|q|q|q|q]; cbn [run_chan spares] in *; try apply change_events_mark.
  - unfold Channel_create, upd_channel, set_store. cbn. by rewrite alter_insert_ne by congruence.
  - apply Channel_Remove_mark.
  - unfold Channel_destroy. rewrite channel_at_mark. destruct (channel_at p q) as [c|]; [|done]. cbn [mbind res_bind].
    rewrite decide_False by done. destruct (in_using_ c), (handling_event_ c); try done.
    unfold upd_channel, set_store. cbn. by rewrite delete_alter_ne.
Qed.

Lemma run_chans_mark os : ∀ p, Forall (spares ptr) os → run_chans (U p) os = (p' ← run_chans p os; Ok (U p')).
Proof.
  induction os as [|o os IH]; intros p Hs; [done|]. apply Forall_cons in Hs as [Ho Hs].
  cbn [run_chans]. rewrite run_chan_mark by done. destruct (run_chan p o) as [p1|]; [|done]. cbn [mbind res_bind]. by apply IH.
Qed.
End frame.

(** ** An iteration *)

Section spec.
Context {K : Type} `{EpollKernelLaws K}.
Variable script : Z → cb_kind → list chan_op.
Variable alive : Z → bool.
Implicit Types p : EpollPoller K.

(** What the callbacks in [todo] make of the poll set. *)
Fixpoint spec_callbacks (a : gmap Z chan_abs) (todo : list (Z * cb_kind)) : option (gmap Z chan_abs) :=
  match todo with [] => Some a | (ptr, k) :: todo => a' ← spec_chans a (script ptr k); spec_callbacks a' todo end.

(** The callbacks the answer of the kernel asks for; [mute] are the tied
    channels whose owner is gone. *)
Definition called (mute : Z → bool) (evs : list (Z * Z)) : list (Z * cb_kind) :=
  evs ≫= λ '(m, ptr), if mute ptr then [] else (λ k, (ptr, k)) <$> dispatch m.

Definition muted p (ptr : Z) : bool :=
  match store p !! ptr with Some c => tied_ c && negb (from_option alive false (tied_object_ c)) | None => false end.

Lemma spec_callbacks_app l1 l2 a : spec_callbacks a (l1 ++ l2) = (a' ← spec_callbacks a l1; spec_callbacks a' l2).
Proof. revert a. induction l1 as [|[ptr k] l1 IH]; intros a; cbn; [done|]. destruct (spec_chans _ _); cbn; [apply IH|done]. Qed.

(** The channel at [ptr] has these fields. *)
Definition marked p (ptr : Z) (x : Z * bool * option Z) : Prop :=
  ∃ c, store p !! ptr = Some c ∧ (revents_ c, tied_ c, tied_object_ c) = x.

Lemma spec_chans_spares os q : ∀ a a',
  Forall (spares q) os → spec_chans a os = Some a' → is_Some (a !! q) → is_Some (a' !! q).
Proof.
  induction os as [|o os IH]; intros a a' Hs E Hq; [by injection E as <-|]. apply Forall_cons in Hs as [Ho Hs].
  cbn [spec_chans] in E. destruct (spec_chan a o) as [a1|] eqn:E1; [|done]. apply (IH a1 a' Hs E). clear IH E.
  assert (∀ f ptr, spec_events f ptr a = Some a1 → is_Some (a1 !! q)) as Hev.
  { intros f ptr E. unfold spec_events in E. destruct (a !! ptr); [|done]. cbn in E. case_bool_decide; [|done]. injection E as <-.
    destruct (decide (ptr = q)) as [->|]; [by rewrite lookup_insert_eq|by rewrite lookup_insert_ne]. }
  destruct o as [ptr fd|ptr|ptr|ptr|ptr|ptr|ptr|ptr]; cbn [spec_chan spares] in *; try by eapply Hev.
  - case_bool_decide; [|done]. injection E1 as <-. by rewrite lookup_insert_ne.
  - destruct (a !! ptr) eqn:Ep; [|done]. cbn in E1. case_bool_decide; [|done]. injection E1 as <-.
    destruct (decide (ptr = q)) as [->|]; [by rewrite lookup_insert_eq|by rewrite lookup_insert_ne].
  - destruct (a !! ptr) eqn:Ep; [|done]. cbn in E1. case_bool_decide; [|done]. injection E1 as <-. by rewrite lookup_delete_ne.
Qed.

(** Nothing is being handled: assigning the fields a channel has changes
    nothing. *)
Lemma mark_same p ptr r t ob :
  idle p → (∀ c, store p !! ptr = Some c → (revents_ c, tied_ c, tied_object_ c) = (r, t, ob)) →
  upd_channel (mark r false t ob) ptr p = p.
Proof.
  intros Hi Hx. unfold upd_channel. rewrite alter_id; [by destruct p|]. intros c Hc. specialize (Hi _ _ Hc). specialize (Hx c Hc).
  destruct c. cbn in *. by simplify_eq.
Qed.

Lemma run_chans_marked p os p' ptr x :
  idle p → idle p' → Forall (spares ptr) os → run_chans p os = Ok p' → is_Some (abs p' !! ptr) → marked p ptr x → marked p' ptr x.
Proof.
  intros Hi Hi' Hs E [y Hy] (c & Hc & <-). apply abs_lookup in Hy as (c' & Hc' & _). exists c'. split; [done|].
  pose proof (run_chans_mark (revents_ c) false (tied_ c) (tied_object_ c) ptr os p Hs) as Em.
  rewrite mark_same in Em by (done || intros ? Hx; congruence). rewrite E in Em. cbn [mbind res_bind] in Em. injection Em as Em.
  assert (store p' !! ptr = mark (revents_ c) false (tied_ c) (tied_object_ c) <$> store p' !! ptr) as Es.
  { rewrite Em at 1. unfold upd_channel. cbn. by rewrite lookup_alter_eq. }
  rewrite Hc' in Es. cbn in Es. injection Es as ->. done.
Qed.

Lemma upd_handling b r h t ob ptr p :
  upd_channel (set_handling_event b) ptr (upd_channel (mark r h t ob) ptr p) = upd_channel (mark r b t ob) ptr p.
Proof. unfold upd_channel, set_store. cbn. by rewrite alter_alter_eq. Qed.

(** The callbacks of one channel, while it is being handled. *)
Lemma run_cbs_spec r t ob ptr time ks : ∀ p l a,
  poller_wf p → idle p → (∀ k, k ∈ ks → Forall (spares ptr) (script ptr k)) →
  spec_callbacks (abs p) ((λ k, (ptr, k)) <$> ks) = Some a →
  ∃ p' os, run_cbs (channel_callbacks script ptr) time ks (upd_channel (mark r true t ob) ptr p, l) =
      Ok (upd_channel (mark r true t ob) ptr p', l ++ ((λ k, (ptr, k)) <$> ks)) ∧
    run_chans p os = Ok p' ∧ os = ks ≫= script ptr ∧ spec_chans (abs p) os = Some a ∧ poller_wf p' ∧ idle p' ∧ abs p' = a.
Proof.
  induction ks as [|k ks IH]; intros p l a Hw Hi Hs Ha.
  - injection Ha as <-. exists p, []. by rewrite app_nil_r.
  - cbn [fmap list_fmap spec_callbacks] in Ha. destruct (spec_chans (abs p) (script ptr k)) as [a1|] eqn:E1; [|done]. cbn in Ha.
    destruct (run_chans_spec _ p a1 Hw Hi E1) as (p1 & E & Hw1 & Hi1 & Ha1).
    assert (run_cb (channel_callbacks script ptr) time k (upd_channel (mark r true t ob) ptr p, l) =
      Ok (upd_channel (mark r true t ob) ptr p1, l ++ [(ptr, k)])) as Ek.
    { assert (callback script ptr k (upd_channel (mark r true t ob) ptr p, l) = Ok (upd_channel (mark r true t ob) ptr p1, l ++ [(ptr, k)])) as Ec.
      { unfold callback. cbn [fst snd]. rewrite run_chans_mark by (apply Hs; by left). by rewrite E. }
      by destruct k. }
    destruct (IH p1 (l ++ [(ptr, k)]) a Hw1 Hi1) as (p' & os & E' & Eo & Eos & Esp & Hw' & Hi' & Ha'); [|by rewrite Ha1|].
    { intros k' Hk'. apply Hs. by right. }
    exists p', (script ptr k ++ os). cbn [run_cbs]. rewrite Ek. cbn [mbind res_bind]. rewrite E'. rewrite <- app_assoc.
    split_and!; try done; [|by rewrite Eos|].
    + assert (∀ l1 l2 p0, run_chans p0 (l1 ++ l2) = (p0' ← run_chans p0 l1; run_chans p0' l2)) as ->.
      { intros l1. induction l1 as [|o l1 IHl]; intros l2 p0; [done|]. cbn. destruct (run_chan p0 o); [apply IHl|done]. }
      by rewrite E.
    + assert (∀ l1 l2 a0, spec_chans a0 (l1 ++ l2) = (a0' ← spec_chans a0 l1; spec_chans a0' l2)) as ->.
      { intros l1. induction l1 as [|o l1 IHl]; intros l2 a0; [done|]. cbn. destruct (spec_chan a0 o); [apply IHl|done]. }
      rewrite E1. cbn. by rewrite <- Ha1.
Qed.

Lemma called_cons mute m ptr evs :
  called mute ((m, ptr) :: evs) = (if mute ptr then [] else (λ k, (ptr, k)) <$> dispatch m) ++ called mute evs.
Proof. done. Qed.

(** The active channels, one after the other. *)
Lemma HandleActive_spec time mute evs : ∀ p l a,
  poller_wf p → idle p →
  (∀ m ptr, (m, ptr) ∈ evs → ∃ t ob, marked p ptr (m, t, ob) ∧ mute ptr = t && negb (from_option alive false ob)) →
  (∀ ptr k q, (ptr, k) ∈ called mute evs → q ∈ evs.*2 → Forall (spares q) (script ptr k)) →
  spec_callbacks (abs p) (called mute evs) = Some a →
  ∃ p', HandleActive script alive time evs.*2 (p, l) = Ok (p', l ++ called mute evs) ∧ poller_wf p' ∧ idle p' ∧ abs p' = a.
Proof.
  induction evs as [|[m ptr] evs IH]; intros p l a Hw Hi Hm Hs Ha.
  - injection Ha as <-. exists p. by rewrite app_nil_r.
  - rewrite called_cons, spec_callbacks_app in Ha. rewrite called_cons.
    destruct (Hm m ptr) as (t & ob & (c & Hc & Hx) & Hmute); [by left|]. injection Hx as Hr Ht Hob.
    change ((m, ptr) :: evs).*2 with (ptr :: evs.*2). cbn [HandleActive fst]. rewrite Hc. cbn [deref mbind res_bind].
    rewrite handle_event_dispatch. rewrite Ht, Hob, <- Hmute.
    destruct (mute ptr) eqn:Em.
    + cbn [mbind res_bind app]. apply IH; try done.
      * intros m' q Hin. apply Hm. by right.
      * intros ptr' k q Hk Hq. apply (Hs ptr' k q); [by rewrite called_cons, Em|by right].
    + destruct (spec_callbacks (abs p) _) as [a1|] eqn:E1; [|done]. cbn [mbind option_bind] in Ha.
      assert (upd_channel (set_handling_event true) ptr p = upd_channel (mark m true t ob) ptr p) as Eset.
      { rewrite !(upd_channel_eq _ ptr p c Hc). do 2 f_equal. destruct c. cbn in *. by simplify_eq. }
      cbn [fst snd]. rewrite Eset, Hr.
      destruct (run_cbs_spec m t ob ptr time (dispatch m) p l a1 Hw Hi) as (p1 & os & -> & Eo & Eos & Esp & Hw1 & Hi1 & Ha1); [|done|].
      { intros k Hk. apply (Hs ptr k ptr); [|by left]. rewrite called_cons, Em, elem_of_app. left. by apply list_elem_of_fmap_2. }
      cbn [mbind res_bind fst snd].
      assert (∀ q, q ∈ ptr :: evs.*2 → Forall (spares q) os) as Hspare.
      { intros q Hq. rewrite Eos. apply Forall_forall. intros o Ho. apply list_elem_of_bind in Ho as (k & Ho & Hk).
        assert (Forall (spares q) (script ptr k)) as Hf.
        { apply (Hs ptr k q); [|done]. rewrite called_cons, Em, elem_of_app. left. by apply list_elem_of_fmap_2. }
        by apply (Forall_forall _ _) with (x := o) in Hf. }
      assert (∀ q x, q ∈ ptr :: evs.*2 → marked p q x → marked p1 q x) as Hkeep.
      { intros q x Hq Hx. apply (run_chans_marked p os); try done; [by apply Hspare|]. rewrite Ha1.
        apply (spec_chans_spares os q (abs p)); [by apply Hspare|done|]. destruct Hx as (cq & Hcq & _). unfold abs. rewrite lookup_fmap, Hcq. by eexists. }
      rewrite upd_handling, mark_same; [|done|].
      * destruct (IH p1 (l ++ ((λ k, (ptr, k)) <$> dispatch m)) a Hw1 Hi1) as (p' & E & Hw' & Hi' & Ha').
        -- intros m' q Hin. destruct (Hm m' q) as (t' & ob' & Hx & Hq); [by right|]. exists t', ob'. split; [|done].
           apply Hkeep; [|done]. right. by apply (list_elem_of_fmap_2 snd _ (m', q)).
        -- intros ptr' k q Hk Hq. apply (Hs ptr' k q); [|by right]. rewrite called_cons, elem_of_app. by right.
        -- by rewrite Ha1.
        -- exists p'. rewrite E, <- app_assoc. done.
      * intros c1 Hc1. destruct (Hkeep ptr (m, t, ob)) as (c2 & Hc2 & Hx2); [by left|exists c; split; [done|congruence]|]. congruence.
Qed.

(** [FillActiveChannels] assigns nothing but the reported masks. *)
Lemma FillActiveChannels_fields evs : ∀ p act p' act' q c',
  FillActiveChannels evs p act = Ok (p', act') → store p' !! q = Some c' →
  ∃ c, store p !! q = Some c ∧ handling_event_ c' = handling_event_ c ∧ tied_ c' = tied_ c ∧ tied_object_ c' = tied_object_ c.
Proof.
  induction evs as [|[m ptr] evs IH]; intros p act p' act' q c' E Hc; cbn [FillActiveChannels] in E.
  - injection E as <- <-. by exists c'.
  - destruct (channel_at p ptr); [|done]. cbn [mbind res_bind] in E. destruct (IH _ _ _ _ _ _ E Hc) as (c1 & H1 & -> & -> & ->).
    unfold upd_channel in H1. cbn in H1. apply lookup_alter_Some in H1 as [(<- & c & Hc1 & ->)|(_ & Hc1)]; by exists c1 || exists c.
Qed.

(** What [Poll] hands to the loop. *)
Lemma Poll_marks evs p :
  poller_wf p → idle p → (length evs ≤ ep_events_size p)%nat → NoDup evs.*2 →
  (∀ m ptr, (m, ptr) ∈ evs → ∃ fd e, interest (epfd_ p) !! fd = Some (e, ptr)) →
  ∃ p1, Poll (Some evs) p [] = Ok (p1, evs.*2) ∧ poller_wf p1 ∧ idle p1 ∧ abs p1 = abs p ∧
    ∀ m ptr, (m, ptr) ∈ evs → ∃ t ob, marked p1 ptr (m, t, ob) ∧ muted p ptr = t && negb (from_option alive false ob).
Proof.
  intros Hw Hi Hlen Hnd Hin. unfold Poll, AssertInLoopThread. rewrite (pwf_loop p Hw). cbn [mbind res_bind].
  destruct (decide _) as [_|Hz]; [|destruct evs as [|e evs]; [|cbn in Hz; lia]; exists p; split_and!; try done; by intros ?? ?%not_elem_of_nil].
  rewrite bool_decide_true by done. cbn [assert mbind res_bind].
  destruct (FillActiveChannels_spec evs p [] Hw) as (p1 & E & Hw1 & Ha & _ & Hr & _); [|done|].
  { intros m ptr (fd & e & Hf)%Hin. apply (wf_kernel_agrees p Hw) in Hf. apply abs_lookup in Hf as (c & ? & _). by eexists. }
  rewrite E. cbn [mbind res_bind]. set (p2 := if decide _ then _ else _).
  assert (store p2 = store p1 ∧ poller_wf p2) as [Es Hw2].
  { subst p2. destruct (decide _); [|done]. split; [done|]. by destruct Hw1. }
  exists p2. split; [done|]. split; [done|]. split_and!.
  - intros q c Hc. rewrite Es in Hc. destruct (FillActiveChannels_fields _ _ _ _ _ _ _ E Hc) as (c0 & Hc0 & -> & _). by apply (Hi q).
  - rewrite <- Ha. unfold abs. by rewrite Es.
  - intros m ptr Hm. specialize (Hr m ptr Hm). destruct (store p1 !! ptr) as [c|] eqn:Hc; [|done]. injection Hr as Hr.
    exists (tied_ c), (tied_object_ c). split; [exists c; rewrite Es; split; [done|congruence]|].
    destruct (FillActiveChannels_fields _ _ _ _ _ _ _ E Hc) as (c0 & Hc0 & _ & -> & ->). unfold muted. by rewrite Hc0.
Qed.

(** C8: an iteration of the loop over the poller: for each channel the kernel
    reports, in its order, exactly the callbacks its mask asks for run, error
    before read before write before close, none for a tied channel whose
    owner is gone; and as long as the callbacks use their channels as the
    interface allows and destroy none of the active ones, no assertion fails,
    the poll set becomes what they ask for, the kernel monitors exactly that,
    and the poller is ready for the next iteration. *)
Theorem iteration_dispatches evs time p a :
  poller_wf p → idle p → (length evs ≤ ep_events_size p)%nat → NoDup evs.*2 →
  (∀ m ptr, (m, ptr) ∈ evs → ∃ fd e, interest (epfd_ p) !! fd = Some (e, ptr)) →
  let todo := called (muted p) evs in
  (∀ ptr k q, (ptr, k) ∈ todo → q ∈ evs.*2 → Forall (spares q) (script ptr k)) →
  spec_callbacks (abs p) todo = Some a →
  ∃ p', Loop_iteration script alive (Some evs) time p = Ok (p', todo) ∧ abs p' = a ∧
    poller_wf p' ∧ idle p' ∧ kernel_agrees p'.
Proof.
  intros Hw Hi Hlen Hnd Hin todo Hs Ha. destruct (Poll_marks evs p Hw Hi Hlen Hnd Hin) as (p1 & E1 & Hw1 & Hi1 & Ha1 & Hm).
  unfold Loop_iteration. rewrite E1. cbn [mbind res_bind].
  destruct (HandleActive_spec time (muted p) evs p1 [] a Hw1 Hi1 Hm Hs) as (p' & E & Hw' & Hi' & Ha'); [by rewrite Ha1|].
  exists p'. split_and!; try done. by apply wf_kernel_agrees.
Qed.
End spec.

(** ** Runs *)

(** Two channels: the listening one at 100 creates and registers a third when
    it becomes readable; the one at 200 hangs up, is disabled and removed. *)
Definition two_channels : list chan_op :=
  [ChCreate 100 7; ChEnableReading 100; ChCreate 200 8; ChEnableReading 200; ChEnableWritting 200].

Definition two_script (ptr : Z) (k : cb_kind) : list chan_op :=
  match k with
  | ReadCb => if ptr =? 100 then [ChCreate 300 9; ChEnableReading 300] else []
  | WriteCb => [ChDisableWritting ptr]
  | CloseCb => [ChDisableAll ptr; ChRemove ptr]
  | ErrorCb => []
  end.

Definition two_events : list (Z * Z) := [(POLLIN, 100); (Z.lor POLLOUT POLLHUP, 200)].

Definition two_poller : EpollPoller (gmap Z (Z * Z)) :=
  match run_chans (EpollPoller_new ∅) two_channels with Ok p => p | Fault _ => EpollPoller_new ∅ end.

Lemma iteration_dispatches_witness : ∃ p',
  Loop_iteration two_script (λ _, true) (Some two_events) 5 two_poller =
    Ok (p', [(100, ReadCb); (200, WriteCb); (200, CloseCb)]) ∧
  abs p' !! 200 = Some (mkAbs 8 kNoneEvent Removed) ∧ abs p' !! 300 = Some (mkAbs 9 kReadEvent Registered) ∧ kernel_agrees p'.
Proof.
  destruct (spec_callbacks two_script (abs two_poller) [(100, ReadCb); (200, WriteCb); (200, CloseCb)]) as [a|] eqn:Ea;
    [|vm_compute in Ea; discriminate].
  assert (interest (∅ : gmap Z (Z * Z)) = ∅) as Hk0 by reflexivity. destruct (EpollPoller_new_wf _ Hk0) as [Hw0 Hi0].
  destruct (spec_chans ∅ two_channels) as [a0|] eqn:E0; [|vm_compute in E0; discriminate].
  destruct (run_chans_spec two_channels (EpollPoller_new (∅ : gmap Z (Z * Z))) a0 Hw0 Hi0 E0) as (p0 & E & Hw & Hi & _).
  assert (two_poller = p0) as <- by (unfold two_poller; by rewrite E).
  destruct (iteration_dispatches two_script (λ _, true) two_events 5 two_poller a Hw Hi) as (p' & E' & Ha & _ & _ & Hk).
  - vm_compute. lia.
  - apply (bool_decide_unpack _). by vm_compute.
  - intros m ptr Hin. apply elem_of_cons in Hin as [[= -> ->]|Hin]; [by eexists 7, _|].
    apply list_elem_of_singleton in Hin as [= -> ->]. by eexists 8, _.
  - change (called _ _) with [(100, ReadCb); (200, WriteCb); (200, CloseCb)]. intros ptr k q Hk Hq.
    assert (q = 100 ∨ q = 200) as [-> | ->] by (set_solver);
      repeat (apply elem_of_cons in Hk as [[= -> ->]|Hk]; [by repeat constructor|]); by apply not_elem_of_nil in Hk.
  - exact Ea.
  - exists p'. split; [exact E'|]. vm_compute in Ea. injection Ea as <-. rewrite Ha. split; [reflexivity|]. split; [reflexivity|exact Hk].
Defined.

(** A callback that destroys another active channel leaves the loop a dangling
    pointer. *)
Lemma destroying_active_faults :
  Loop_iteration (λ ptr _, if ptr =? 100 then [ChDisableAll 200; ChRemove 200; ChDestroy 200] else []) (λ _, true)
    (Some two_events) 5 two_poller = Fault UseAfterFree.
Proof. by vm_compute. Qed.

(** And one that destroys its own fails an assertion. *)
Lemma destroying_itself_faults :
  Loop_iteration (λ ptr _, [ChDisableAll ptr; ChRemove ptr; ChDestroy ptr]) (λ _, true)
    (Some two_events) 5 two_poller = Fault AssertFail.
Proof. by vm_compute. Qed.
