(* ===== verification/Timestamp.v ===== *)
(** Time stamps and time zones: [muzi/base/timestamp.h], [timestamp.cc] and
    [timezone.h].  A time stamp is a number of microseconds; conversions from
    [double] use the executable IEEE 754 specification of the Standard
    Library.  [localtime_r] and [gmtime_r] are parameters. *)

From S2P Require Import Prelude.
From Stdlib Require Import Floats.SpecFloat.
From stdpp Require Import pretty.
Local Open Scope Z_scope.

(** ** Doubles *)

Abbreviation double := spec_float.

Definition double_of_Z (z : Z) : double := binary_normalize 53 1024 z 0 false.
Definition dmul : double → double → double := SFmul 53 1024.
Definition ddiv : double → double → double := SFdiv 53 1024.
Definition dgt0 (d : double) : bool := SFltb (double_of_Z 0) d.

(** [static_cast<int64_t>(d)]: truncation, undefined when it does not fit. *)
Definition trunc64 (d : double) : res Z :=
  match d with
  | S754_zero _ => Ok 0
  | S754_finite s m e =>
      let a := if 0 <=? e then Zpos m * 2 ^ e else Z.quot (Zpos m) (2 ^ (- e)) in
      let v := if s then - a else a in
      if (- 2 ^ 63 <=? v) && (v <? 2 ^ 63) then Ok v else Fault IntOverflow
  | _ => Fault IntOverflow
  end.

(** ** Timestamp *)

Definition kMillisecondsPerSecond : Z := 1000.
Definition kMicrosecondsPerSecond : Z := 1000 * 1000.
Definition kNanosecondsPerSecond : Z := 1000 * 1000 * 1000.

(** [struct timeval] and [struct timespec]. *)
Record timeval := mkTimeval { tv_sec : Z; tv_usec : Z }.
Record timespec := mkTimespec { ts_sec : Z; ts_nsec : Z }.

Definition ToTimeSpec (usec : Z) : timespec :=
  {| ts_sec := Z.quot usec kMicrosecondsPerSecond;
     ts_nsec := Z.rem usec kMicrosecondsPerSecond * 1000 |}.

(** The constructor from a [timeval], also the default one with the answer of
    [gettimeofday]. A [Timestamp] is its [time_val_]. *)
Definition Timestamp_of_timeval (tv : timeval) : Z :=
  tv_sec tv * kMicrosecondsPerSecond + tv_usec tv.

Definition GetUsecs (t : Z) : Z := Z.rem t kMicrosecondsPerSecond.
Definition GetSecs (t : Z) : Z := Z.quot t kMicrosecondsPerSecond.
Definition GetTimeval (t : Z) : timeval :=
  mkTimeval (Z.quot t kMicrosecondsPerSecond) (Z.rem t kMicrosecondsPerSecond).
Definition GetOriginalString (t : Z) : bytes :=
  B "timeval(" ++ B (pretty (Z.quot t kMicrosecondsPerSecond)) ++ B ", "
    ++ B (pretty (Z.rem t kMicrosecondsPerSecond)) ++ B ")".

Definition IsValid (t : Z) : bool := 0 <? t.
Definition SetValid (t : Z) : Z := -1.
Definition GetInvalid : Z := -1.

(** [operator-], [operator+], [operator<], [operator>], [operator==]. *)
Definition ts_sub (l r : Z) : Z := l - r.
Definition ts_add (l r : Z) : Z := l + r.
Definition ts_lt (l r : Z) : bool := l <? r.
Definition ts_gt (l r : Z) : bool := r <? l.
Definition ts_eq (l r : Z) : bool := l =? r.

Definition AddTime (t : Z) (interval_secs : double) : res Z :=
  d ← trunc64 (dmul interval_secs (double_of_Z kMicrosecondsPerSecond)); Ok (t + d).

(** [LocalTimeZone::Convert] and [UtcTimeZone::Convert] of a [time_t]; the
    second subtracts the C library's [timezone]. *)
Definition LocalTimeZone_Convert (time : Z) : Z := time.
Definition UtcTimeZone_Convert (timezone time : Z) : Z := time - timezone.
Definition GetLocalTime (t : Z) : Z := LocalTimeZone_Convert (Z.quot t kMicrosecondsPerSecond).
Definition GetUtcTime (timezone t : Z) : Z :=
  UtcTimeZone_Convert timezone (Z.quot t kMicrosecondsPerSecond).

(** ** Formatting *)

(** The fields of [struct tm] that are printed. *)
Record tm := mkTm {
  tm_year : Z; tm_mon : Z; tm_mday : Z; tm_hour : Z; tm_min : Z; tm_sec : Z
}.

Definition digits (z : Z) : bytes := B (pretty z).

(** [printf("%<w>d")] and [printf("%0<w>d")]. *)
Definition pad_with (c : ascii) (w : nat) (s : bytes) : bytes := replicate (w - length s) c ++ s.
Definition fmt_d (w : nat) (z : Z) : bytes := pad_with " "%char w (digits z).
Definition fmt_0d (w : nat) (z : Z) : bytes :=
  if z <? 0 then B "-" ++ pad_with "0"%char (w - 1) (digits (- z)) else pad_with "0"%char w (digits z).

Definition time_format (b : tm) (usecs : Z) : bytes :=
  fmt_d 4 (tm_year b + 1900) ++ fmt_0d 2 (tm_mon b + 1) ++ fmt_0d 2 (tm_mday b) ++ B " "
  ++ fmt_0d 2 (tm_hour b) ++ B ":" ++ fmt_0d 2 (tm_min b) ++ B ":" ++ fmt_0d 2 (tm_sec b)
  ++ B "." ++ fmt_0d 6 usecs.

(** The thread-local variables of [timestamp.cc]. *)
Record FmtState := mkFmt { t_fmt_buf : bytes; t_time_buf : tm; last_second : Z }.

Definition FmtState_init : FmtState :=
  {| t_fmt_buf := replicate 64 nul; t_time_buf := mkTm 0 0 0 0 0 0; last_second := 0 |}.

(** [snprintf(buf, sizeof buf, ...)]. *)
Definition snprintf (s buf : bytes) : bytes :=
  overwrite 0 (take (length buf - 1) s ++ [nul]) buf.

Section format.
(** [zone_validator_->Convert(sec, &t_time_buf)]. *)
Variable Convert : Z → tm.

Definition ToFormatString (t : Z) (st : FmtState) : bytes * FmtState :=
  let sec := GetSecs t in
  let st1 := if negb (sec =? last_second st)
             then mkFmt (t_fmt_buf st) (Convert sec) sec else st in
  let buf := snprintf (time_format (t_time_buf st1) (GetUsecs t)) (t_fmt_buf st1) in
  (take 24 buf, mkFmt buf (t_time_buf st1) (last_second st1)).
End format.

(** ** Theorems *)

Lemma usec_pos : 0 < kMicrosecondsPerSecond.
Proof. done. Qed.

Lemma GetSecs_GetUsecs t : t = GetSecs t * kMicrosecondsPerSecond + GetUsecs t.
Proof. unfold GetSecs, GetUsecs. pose proof (Z.quot_rem' t kMicrosecondsPerSecond). lia. Qed.

Lemma timestamp_parts t :
  Timestamp_of_timeval (GetTimeval t) = t ∧ t = GetSecs t * kMicrosecondsPerSecond + GetUsecs t ∧
  Z.abs (GetUsecs t) < kMicrosecondsPerSecond ∧
  (0 <= t → 0 <= GetUsecs t ∧ 0 <= GetSecs t ∧
     0 <= ts_nsec (ToTimeSpec t) < kNanosecondsPerSecond) ∧
  ts_sec (ToTimeSpec t) * kNanosecondsPerSecond + ts_nsec (ToTimeSpec t) = t * 1000.
Proof.
  pose proof (GetSecs_GetUsecs t) as E. unfold GetSecs, GetUsecs in *.
  assert (Z.abs (Z.rem t kMicrosecondsPerSecond) < kMicrosecondsPerSecond) as Ha.
  { pose proof (Z.rem_bound_abs t kMicrosecondsPerSecond). unfold kMicrosecondsPerSecond in *. lia. }
  split_and!.
  - unfold Timestamp_of_timeval, GetTimeval. simpl. lia.
  - done.
  - done.
  - intros H0. pose proof (Z.rem_nonneg t kMicrosecondsPerSecond).
    pose proof (Z.quot_pos t kMicrosecondsPerSecond).
    unfold ToTimeSpec, kMicrosecondsPerSecond, kNanosecondsPerSecond in *. simpl in *. lia.
  - unfold ToTimeSpec, kNanosecondsPerSecond. simpl.
    unfold kMicrosecondsPerSecond in *. lia.
Qed.

(** A time stamp is recovered from its seconds and microseconds (through
    a [timeval] too), both parts are in range for times from the epoch on,
    and the [timespec] made from it is well formed and denotes the same
    duration. *)
Theorem timestamp_split t :
  Timestamp_of_timeval (GetTimeval t) = t ∧ t = GetSecs t * kMicrosecondsPerSecond + GetUsecs t ∧
  Z.abs (GetUsecs t) < kMicrosecondsPerSecond ∧
  (0 <= t → 0 <= GetUsecs t ∧ 0 <= GetSecs t ∧
     0 <= ts_nsec (ToTimeSpec t) < kNanosecondsPerSecond) ∧
  ts_sec (ToTimeSpec t) * kNanosecondsPerSecond + ts_nsec (ToTimeSpec t) = t * 1000.
Proof. apply timestamp_parts. Qed.

Lemma length_B s : length (B s) = String.length s.
Proof. unfold B. induction s as [|c s IH]; simpl; [done|by rewrite IH]. Qed.

Lemma length_pretty_N_go (n : nat) : ∀ x s,
  (x < 10 ^ N.of_nat n)%N → (String.length (pretty_N_go x s) ≤ n + String.length s)%nat.
Proof.
  induction n as [|n IH]; intros x s Hx.
  - replace x with 0%N by (simpl in Hx; lia). by rewrite pretty_N_go_0.
  - destruct (decide (x = 0%N)) as [->|Hne]; [rewrite pretty_N_go_0; lia|].
    rewrite pretty_N_go_step by lia. etransitivity; [apply IH|simpl; lia].
    rewrite Nat2N.inj_succ, N.pow_succ_r' in Hx. apply N.Div0.div_lt_upper_bound. lia.
Qed.

(** A number below [10^n] has at most [n] digits. *)
Lemma length_digits (n : nat) z :
  (0 < n)%nat → 0 <= z < 10 ^ Z.of_nat n → (0 < length (digits z) ≤ n)%nat.
Proof.
  intros Hn Hz. unfold digits. rewrite length_B. destruct z as [|x|x]; [simpl; lia| |lia].
  change (pretty (Z.pos x)) with (pretty (N.pos x)). unfold pretty, pretty_N.
  rewrite decide_False by done. split.
  - rewrite pretty_N_go_step by lia.
    assert (∀ y s, (0 < String.length s)%nat → (0 < String.length (pretty_N_go y s))%nat) as Hgo.
    { intros y. induction (N.lt_wf_0 y) as [y _ IH]. intros s Hs.
      destruct (decide (y = 0%N)) as [->|]; [by rewrite pretty_N_go_0|].
      rewrite pretty_N_go_step by lia. apply IH; [apply N.div_lt; lia|simpl; lia]. }
    apply Hgo. simpl. lia.
  - pose proof (length_pretty_N_go n (Npos x) "") as H. simpl in H. rewrite Nat.add_0_r in H.
    apply H. apply N2Z.inj_lt. rewrite N2Z.inj_pow. simpl. rewrite nat_N_Z. lia.
Qed.

Lemma length_fmt_0d (n : nat) z :
  (0 < n)%nat → 0 <= z < 10 ^ Z.of_nat n → length (fmt_0d n z) = n.
Proof.
  intros Hn Hz. unfold fmt_0d. destruct (Z.ltb_spec z 0); [lia|].
  unfold pad_with. rewrite length_app, length_replicate.
  pose proof (length_digits n z Hn Hz). lia.
Qed.

Lemma length_fmt_d (n : nat) z :
  (0 < n)%nat → 0 <= z < 10 ^ Z.of_nat n → length (fmt_d n z) = n.
Proof.
  intros Hn Hz. unfold fmt_d, pad_with. rewrite length_app, length_replicate.
  pose proof (length_digits n z Hn Hz). lia.
Qed.

(** The ranges [ctime(3)] documents, up to the year 9999. *)
Definition tm_ok (b : tm) : Prop :=
  0 <= tm_year b + 1900 <= 9999 ∧ 0 <= tm_mon b <= 11 ∧ 1 <= tm_mday b <= 31 ∧
  0 <= tm_hour b <= 23 ∧ 0 <= tm_min b <= 59 ∧ 0 <= tm_sec b <= 60.

Lemma length_time_format b u :
  tm_ok b → 0 <= u < kMicrosecondsPerSecond → length (time_format b u) = 24%nat.
Proof.
  intros (?&?&?&?&?&?) Hu. unfold time_format, kMicrosecondsPerSecond in *.
  rewrite !length_app, length_fmt_d by lia. rewrite !length_fmt_0d by lia. done.
Qed.

Lemma take_snprintf n s buf :
  (length s = n)%nat → (n < length buf)%nat → take n (snprintf s buf) = s.
Proof.
  intros Hn Hb. unfold snprintf, overwrite. rewrite firstn_O. cbn [app].
  rewrite (firstn_all2 s) by lia. rewrite <- app_assoc, <- Hn. apply take_app_length.
Qed.

Lemma length_snprintf s buf : (0 < length buf)%nat → length (snprintf s buf) = length buf.
Proof.
  intros Hb. unfold snprintf. apply length_overwrite.
  rewrite length_app, length_take. simpl. lia.
Qed.

(** The cache: a nonzero [last_second] is the second [t_time_buf] shows. *)
Definition fmt_cache_ok (Convert : Z → tm) (st : FmtState) : Prop :=
  length (t_fmt_buf st) = 64%nat ∧
  (last_second st ≠ 0 → t_time_buf st = Convert (last_second st)).

(** From the second second of the epoch on, [ToFormatString] prints the
    calendar time of the zone and the microseconds in exactly 24 characters,
    whatever was printed before on the thread: the cached second is never
    stale for a fixed zone. *)
Theorem timestamp_format_exact Convert t st :
  fmt_cache_ok Convert st → kMicrosecondsPerSecond <= t → tm_ok (Convert (GetSecs t)) →
  (ToFormatString Convert t st).1 = time_format (Convert (GetSecs t)) (GetUsecs t) ∧
  length (ToFormatString Convert t st).1 = 24%nat ∧
  fmt_cache_ok Convert (ToFormatString Convert t st).2.
Proof.
  intros [Hlen Hc] Ht Hok.
  destruct (timestamp_parts t) as (_ & Hs & Hu & H0 & _).
  unfold kMicrosecondsPerSecond in *. destruct H0 as (Hu0 & _); [lia|].
  assert (GetSecs t ≠ 0) as Hne by (intros E; rewrite E in Hs; lia).
  assert (∃ st1, (if negb (GetSecs t =? last_second st)
     then mkFmt (t_fmt_buf st) (Convert (GetSecs t)) (GetSecs t) else st) = st1 ∧
     t_time_buf st1 = Convert (GetSecs t) ∧ t_fmt_buf st1 = t_fmt_buf st ∧
     last_second st1 = GetSecs t) as (st1 & E1 & Et & Ef & El).
  { destruct (Z.eqb_spec (GetSecs t) (last_second st)) as [E|]; simpl; [|by eexists].
    exists st. rewrite E in *. split_and!; auto. }
  assert (length (time_format (Convert (GetSecs t)) (GetUsecs t)) = 24%nat) as H24
    by (apply length_time_format; [done|unfold kMicrosecondsPerSecond; lia]).
  unfold ToFormatString. cbn zeta. rewrite E1, Et, Ef. cbn [fst snd].
  rewrite take_snprintf by (rewrite ?H24, ?Hlen; lia).
  split; [done|]. split; [done|]. split; simpl; [by rewrite length_snprintf; lia|].
  by rewrite El.
Qed.

(** A calendar to run the model on: every second shows 2024-01-02 03:04:05. *)
Definition demo_convert (_ : Z) : tm := mkTm 124 0 2 3 4 5.

Lemma timestamp_format_exact_witness :
  fmt_cache_ok demo_convert FmtState_init ∧
  (ToFormatString demo_convert 1704164645000042 FmtState_init).1 = B "20240102 03:04:05.000042" ∧
  length (ToFormatString demo_convert 1704164645000042 FmtState_init).1 = 24%nat.
Proof.
  assert (fmt_cache_ok demo_convert FmtState_init) as H.
  { split; [reflexivity|]. intros Hn. exfalso. apply Hn. reflexivity. }
  split; [exact H|]. split; [vm_compute; reflexivity|].
  apply (timestamp_format_exact demo_convert 1704164645000042 FmtState_init H).
  - vm_compute. discriminate.
  - vm_compute. repeat split; discriminate.
Defined.

(** In the first second of the epoch a fresh thread never asks the zone:
    the zeroed cache claims to hold second 0, and the text is the impossible
    date of month 1, day 0 of 1900. *)
Lemma timestamp_format_epoch Convert t :
  0 <= t < kMicrosecondsPerSecond →
  (ToFormatString Convert t FmtState_init).1 = B "19000100 00:00:00." ++ fmt_0d 6 t.
Proof.
  intros Ht. assert (GetSecs t = 0) as Es by (apply Z.quot_small; lia).
  assert (GetUsecs t = t) as Eu by (apply Z.rem_small; lia).
  unfold ToFormatString. cbn zeta. rewrite Es, Eu.
  change (negb (0 =? last_second FmtState_init)) with false. cbn [FmtState_init fst t_time_buf t_fmt_buf].
  assert (time_format (mkTm 0 0 0 0 0 0) t = B "19000100 00:00:00." ++ fmt_0d 6 t) as Ef.
  { unfold time_format. rewrite !app_assoc. f_equal. }
  cbn [t_time_buf t_fmt_buf]. rewrite Ef. apply take_snprintf; [|rewrite length_replicate; lia].
  rewrite length_app, length_fmt_0d; [done|lia|]. unfold kMicrosecondsPerSecond in Ht. lia.
Qed.
