(* ===== verification/TimerQueue.v ===== *)
(** Timers and the timer queue: [muzi/net/timer.h], [timer.cc],
    [timer_queue.h] and [timer_queue.cc].  The ordered set of timers is the
    list of its elements in the order of [CompareEntry].  The clock, the
    allocator and what the timer callbacks do are parameters; a callback is
    the list of queue operations it makes. *)

From S2P Require Import Prelude Timestamp.
From Stdlib Require Import Floats.SpecFloat.
From stdpp Require Import sorting.
Local Open Scope Z_scope.

(** ** Timer *)

(** A [Timer] with its address; [cb_] names the callback. *)
Record Timer := mkTimer {
  t_addr : Z;
  cb_ : Z;
  expiration_ : Z;
  interval_ : double;
  repeated_ : bool;
  sequence_ : Z
}.

(** The constructor; [seq] is what [s_num_created_.fetch_add(1)] answered. *)
Definition Timer_new (addr cb when : Z) (interval : double) (seq : Z) : Timer :=
  {| t_addr := addr; cb_ := cb; expiration_ := when; interval_ := interval;
     repeated_ := dgt0 interval; sequence_ := seq |}.

Definition set_expiration (e : Z) (t : Timer) : Timer :=
  {| t_addr := t_addr t; cb_ := cb_ t; expiration_ := e; interval_ := interval_ t;
     repeated_ := repeated_ t; sequence_ := sequence_ t |}.

Definition Restart (now : Z) (t : Timer) : res Timer :=
  e ← AddTime now (interval_ t); Ok (set_expiration e t).

Definition Refresh (t : Timer) : res Timer :=
  e ← AddTime (expiration_ t) (interval_ t); Ok (set_expiration e t).

(** ** The ordered set *)

(** [CompareEntry]: by expiration, then by address. *)
Definition CompareEntry (l r : Timer) : bool :=
  ts_lt (expiration_ l) (expiration_ r)
  || (ts_eq (expiration_ l) (expiration_ r) && (t_addr l <? t_addr r)).

(** [std::set::insert]; the boolean is [res.second]. *)
Fixpoint set_insert (t : Timer) (l : list Timer) : list Timer * bool :=
  match l with
  | [] => ([t], true)
  | x :: l' =>
      if CompareEntry t x then (t :: l, true)
      else if CompareEntry x t then let '(r, ok) := set_insert t l' in (x :: r, ok)
      else (l, false)
  end.

(** The elements before [upper_bound(now)] and those from it on. *)
Fixpoint upper_bound_split (now : Z) (l : list Timer) : list Timer * list Timer :=
  match l with
  | [] => ([], [])
  | x :: l' =>
      if ts_lt now (expiration_ x) then ([], l)
      else let '(a, b) := upper_bound_split now l' in (x :: a, b)
  end.

(** [timers_.find(ptr)]: the element whose owned pointer is [ptr]. *)
Definition set_find (addr : Z) (l : list Timer) : option (nat * Timer) :=
  list_find (λ t, t_addr t = addr) l.

(** ** TimerQueue *)

(** A task queued for the loop thread by [RunInLoop]. *)
Inductive tq_functor :=
  | FAddTimerInLoop (t : Timer)
  | FCancelTimerInLoop (id : Z).

(** [armed] is the last setting of [timer_fd_]: when, and for how long;
    [fired] lists the timers run so far, and [ticks] counts clock readings. *)
Record TimerQueue := mkTQ {
  timers_ : list Timer;
  active_timers_ : gmap Z Z;
  expired_timers_ : list Timer;
  canceling_timers_ : gset Z;
  is_executing_timers_ : bool;
  s_num_created_ : Z;
  functors_ : list tq_functor;
  armed : option (Z * timespec);
  fired : list Z;
  ticks : nat
}.

Definition TimerQueue_new : TimerQueue := mkTQ [] ∅ [] ∅ false 0 [] None [] 0.

Definition set_timers (l : list Timer) (m : gmap Z Z) (q : TimerQueue) : TimerQueue :=
  mkTQ l m (expired_timers_ q) (canceling_timers_ q) (is_executing_timers_ q)
    (s_num_created_ q) (functors_ q) (armed q) (fired q) (ticks q).
Definition set_expired (l : list Timer) (q : TimerQueue) : TimerQueue :=
  mkTQ (timers_ q) (active_timers_ q) l (canceling_timers_ q) (is_executing_timers_ q)
    (s_num_created_ q) (functors_ q) (armed q) (fired q) (ticks q).
Definition set_canceling (s : gset Z) (q : TimerQueue) : TimerQueue :=
  mkTQ (timers_ q) (active_timers_ q) (expired_timers_ q) s (is_executing_timers_ q)
    (s_num_created_ q) (functors_ q) (armed q) (fired q) (ticks q).
Definition set_executing (b : bool) (q : TimerQueue) : TimerQueue :=
  mkTQ (timers_ q) (active_timers_ q) (expired_timers_ q) (canceling_timers_ q) b
    (s_num_created_ q) (functors_ q) (armed q) (fired q) (ticks q).
Definition set_created (n : Z) (q : TimerQueue) : TimerQueue :=
  mkTQ (timers_ q) (active_timers_ q) (expired_timers_ q) (canceling_timers_ q)
    (is_executing_timers_ q) n (functors_ q) (armed q) (fired q) (ticks q).
Definition set_functors (l : list tq_functor) (q : TimerQueue) : TimerQueue :=
  mkTQ (timers_ q) (active_timers_ q) (expired_timers_ q) (canceling_timers_ q)
    (is_executing_timers_ q) (s_num_created_ q) l (armed q) (fired q) (ticks q).
Definition set_armed (a : option (Z * timespec)) (n : nat) (q : TimerQueue) : TimerQueue :=
  mkTQ (timers_ q) (active_timers_ q) (expired_timers_ q) (canceling_timers_ q)
    (is_executing_timers_ q) (s_num_created_ q) (functors_ q) a (fired q) n.
Definition set_fired (l : list Z) (q : TimerQueue) : TimerQueue :=
  mkTQ (timers_ q) (active_timers_ q) (expired_timers_ q) (canceling_timers_ q)
    (is_executing_timers_ q) (s_num_created_ q) (functors_ q) (armed q) l (ticks q).

(** What a timer callback may ask of the queue. *)
Inductive tq_cmd :=
  | CmdAdd (cb when : Z) (interval : double)
  | CmdCancel (id : Z).

Definition pending_add (f : tq_functor) : option Timer :=
  match f with FAddTimerInLoop t => Some t | FCancelTimerInLoop _ => None end.

(** All the timers the queue owns or is about to own. *)
Definition owned (q : TimerQueue) : list Timer :=
  timers_ q ++ expired_timers_ q ++ omap pending_add (functors_ q).

Section timer_queue.
Variable clock : nat → Z.
Variable alloc : list Z → Z.
(** What a callback asks for, given the identifiers of the timers fired so
    far: its own state is a function of that history. *)
Variable callback : Z → list Z → list tq_cmd.

(** [Timestamp()]: read the clock. *)
Definition Now (q : TimerQueue) : Z * TimerQueue :=
  (clock (ticks q), set_armed (armed q) (S (ticks q)) q).

Definition ResetTimerFd (time : Z) (q : TimerQueue) : TimerQueue :=
  let '(now, q) := Now q in
  let time := ts_sub time now in
  let time := if negb (IsValid time) then 10 else time in
  set_armed (Some (now, mkTimespec (GetSecs time) (GetUsecs time * 1000))) (ticks q) q.

(** Reading the expired descriptor disarms it. *)
Definition ReadTimerFd (q : TimerQueue) : TimerQueue := set_armed None (ticks q) q.

Definition Insert (t : Timer) (q : TimerQueue) : res (bool * TimerQueue) :=
  let earliest := match timers_ q with
                  | [] => true
                  | x :: _ => ts_lt (expiration_ t) (expiration_ x)
                  end in
  let '(l, ok) := set_insert t (timers_ q) in
  _ ← assert ok;
  _ ← assert (bool_decide (active_timers_ q !! sequence_ t = None));
  let m := match active_timers_ q !! sequence_ t with
           | None => <[sequence_ t := t_addr t]> (active_timers_ q)
           | Some _ => active_timers_ q
           end in
  _ ← assert (bool_decide (length l = size m));
  Ok (earliest, set_timers l m q).

Definition AssertInLoopThread (in_loop : bool) : res unit :=
  if in_loop then Ok tt else Fault Aborted.

Definition AddTimerInLoop (in_loop : bool) (t : Timer) (q : TimerQueue) : res TimerQueue :=
  _ ← AssertInLoopThread in_loop;
  '(earliest, q) ← Insert t q;
  Ok (if earliest : bool then ResetTimerFd (expiration_ t) q else q).

Definition CancelTimerInLoop (in_loop : bool) (id : Z) (q : TimerQueue) : res TimerQueue :=
  _ ← AssertInLoopThread in_loop;
  q ← match active_timers_ q !! id with
      | Some addr =>
          match set_find addr (timers_ q) with
          | None => Fault AssertFail
          | Some (i, _) =>
              Ok (set_timers (delete i (timers_ q)) (delete id (active_timers_ q)) q)
          end
      | None =>
          Ok (if is_executing_timers_ q
              then set_canceling ({[id]} ∪ canceling_timers_ q) q else q)
      end;
  _ ← assert (bool_decide (length (timers_ q) = size (active_timers_ q)));
  Ok q.

(** [AddTimer] from the loop thread or from another one; the answer is the
    identifier. *)
Definition AddTimer (in_loop : bool) (cb when : Z) (interval : double) (q : TimerQueue) :
    res (Z * TimerQueue) :=
  if negb (IsValid when) then Fault Aborted
  else
    let id := s_num_created_ q in
    let t := Timer_new (alloc (t_addr <$> owned q)) cb when interval id in
    let q := set_created (id + 1) q in
    if in_loop then q ← AddTimerInLoop in_loop t q; Ok (id, q)
    else Ok (id, set_functors (functors_ q ++ [FAddTimerInLoop t]) q).

Definition Cancel (in_loop : bool) (id : Z) (q : TimerQueue) : res TimerQueue :=
  if in_loop then CancelTimerInLoop in_loop id q
  else Ok (set_functors (functors_ q ++ [FCancelTimerInLoop id]) q).

(** The loop runs the first queued task. *)
Definition RunFunctor (q : TimerQueue) : res TimerQueue :=
  match functors_ q with
  | [] => Ok q
  | FAddTimerInLoop t :: fs => AddTimerInLoop true t (set_functors fs q)
  | FCancelTimerInLoop id :: fs => CancelTimerInLoop true id (set_functors fs q)
  end.

Fixpoint run_cmds (cmds : list tq_cmd) (q : TimerQueue) : res TimerQueue :=
  match cmds with
  | [] => Ok q
  | CmdAdd cb when interval :: cmds =>
      '(_, q) ← AddTimer true cb when interval q; run_cmds cmds q
  | CmdCancel id :: cmds => q ← Cancel true id q; run_cmds cmds q
  end.

(** [Timer::Run]. *)
Definition Run (t : Timer) (q : TimerQueue) : res TimerQueue :=
  let q := set_fired (fired q ++ [sequence_ t]) q in
  run_cmds (callback (cb_ t) (fired q)) q.

Fixpoint run_timers (l : list Timer) (q : TimerQueue) : res TimerQueue :=
  match l with [] => Ok q | t :: l => q ← Run t q; run_timers l q end.

Definition GetExpired (now : Z) (q : TimerQueue) : res TimerQueue :=
  let '(before, from) := upper_bound_split now (timers_ q) in
  _ ← assert (match from with [] => true | x :: _ => ts_gt (expiration_ x) now end);
  _ ← assert (bool_decide (expired_timers_ q = []));
  let m := foldl (λ m t, delete (sequence_ t) m) (active_timers_ q) before in
  _ ← assert (bool_decide (length from = size m));
  Ok (set_expired (expired_timers_ q ++ before) (set_timers from m q)).

Fixpoint ResetTimer_loop (now : Z) (l : list Timer) (q : TimerQueue) : res TimerQueue :=
  match l with
  | [] => Ok q
  | t :: l =>
      if repeated_ t && bool_decide (sequence_ t ∉ canceling_timers_ q) then
        t ← Restart now t; '(_, q) ← Insert t q; ResetTimer_loop now l q
      else ResetTimer_loop now l q
  end.

Definition ResetTimer (now : Z) (q : TimerQueue) : res TimerQueue :=
  q ← ResetTimer_loop now (expired_timers_ q) q;
  let q := set_canceling ∅ (set_expired [] q) in
  Ok (match timers_ q with
      | [] => q
      | x :: _ => if IsValid (expiration_ x) then ResetTimerFd (expiration_ x) q else q
      end).

Definition HandleRead (in_loop : bool) (q : TimerQueue) : res TimerQueue :=
  _ ← AssertInLoopThread in_loop;
  let '(now, q) := Now q in
  let q := ReadTimerFd q in
  q ← GetExpired now q;
  q ← run_timers (expired_timers_ q) (set_executing true q);
  q ← ResetTimer now (set_executing false q);
  _ ← assert (bool_decide (canceling_timers_ q = ∅));
  _ ← assert (bool_decide (expired_timers_ q = []));
  Ok q.
End timer_queue.

(** ** The ordered set and the map of active timers *)

Abbreviation sorted := (StronglySorted (λ a b, CompareEntry a b = true)).

Lemma CompareEntry_spec a b :
  CompareEntry a b = true ↔
  expiration_ a < expiration_ b ∨ (expiration_ a = expiration_ b ∧ t_addr a < t_addr b).
Proof.
  unfold CompareEntry, ts_lt, ts_eq.
  rewrite orb_true_iff, andb_true_iff, !Z.ltb_lt, Z.eqb_eq. done.
Qed.

Lemma CompareEntry_trans a b c :
  CompareEntry a b = true → CompareEntry b c = true → CompareEntry a c = true.
Proof. rewrite !CompareEntry_spec. lia. Qed.

(** The expiration of the first timer. *)
Definition first_exp (l : list Timer) : option Z := expiration_ <$> head l.

Lemma set_insert_spec t l :
  sorted l → t_addr t ∉ (t_addr <$> l) →
  ∃ l', set_insert t l = (l', true) ∧ l' ≡ₚ t :: l ∧ sorted l'.
Proof.
  induction 1 as [|x l Hs IH Hx]; intros Ht.
  { exists [t]. repeat constructor. }
  rewrite fmap_cons, not_elem_of_cons in Ht. destruct Ht as [Hne Ht].
  destruct (IH Ht) as (l' & E & Hp & Hs'). cbn [set_insert].
  destruct (CompareEntry t x) eqn:Etx.
  - exists (t :: x :: l). split_and!; [done..|]. constructor; [by constructor|].
    constructor; [done|]. eapply Forall_impl; [exact Hx|]. intros y Hy. by eapply CompareEntry_trans.
  - assert (CompareEntry x t = true) as Ext.
    { rewrite CompareEntry_spec. apply not_true_iff_false in Etx. rewrite CompareEntry_spec in Etx. lia. }
    rewrite Ext, E. exists (x :: l'). split_and!; [done| |].
    + rewrite Hp. constructor.
    + constructor; [done|]. rewrite Hp. by constructor.
Qed.

Lemma set_insert_first t l l' :
  sorted l → set_insert t l = (l', true) →
  (match l with [] => true | x :: _ => ts_lt (expiration_ t) (expiration_ x) end = true →
   first_exp l' = Some (expiration_ t)) ∧
  (match l with [] => true | x :: _ => ts_lt (expiration_ t) (expiration_ x) end = false →
   first_exp l' = first_exp l).
Proof.
  intros Hs. destruct l as [|x l]; cbn [set_insert].
  { intros E. injection E as <-. done. }
  unfold ts_lt, first_exp. destruct (CompareEntry t x) eqn:Etx.
  - intros E. injection E as <-. cbn. rewrite CompareEntry_spec in Etx.
    destruct (Z.ltb_spec (expiration_ t) (expiration_ x)); split; intros; try done. f_equal. lia.
  - apply not_true_iff_false in Etx. rewrite CompareEntry_spec in Etx.
    destruct (Z.ltb_spec (expiration_ t) (expiration_ x)); [lia|].
    destruct (CompareEntry x t); [|done].
    destruct (set_insert t l) as [r ok]. intros E. injection E as <- ->. split; intros ?; [discriminate|reflexivity].
Qed.

Lemma upper_bound_split_spec now l :
  sorted l →
  let '(a, b) := upper_bound_split now l in
  l = a ++ b ∧ Forall (λ t, expiration_ t <= now) a ∧ Forall (λ t, now < expiration_ t) b.
Proof.
  induction 1 as [|x l Hs IH Hx]; [done|]. cbn [upper_bound_split]. unfold ts_lt.
  destruct (Z.ltb_spec now (expiration_ x)) as [Hlt|Hge].
  - split_and!; [done..|]. constructor; [done|]. eapply Forall_impl; [exact Hx|].
    intros y Hy. apply CompareEntry_spec in Hy. lia.
  - destruct (upper_bound_split now l) as [a b]. destruct IH as (-> & Ha & Hb).
    split_and!; [done| |done]. by constructor.
Qed.

Lemma sorted_delete i l : sorted l → sorted (delete i l).
Proof.
  intros Hs. revert i. induction Hs as [|x l Hs IH Hx]; intros [|i]; simpl; try done; [constructor..|].
  constructor; [apply IH|]. by apply Forall_delete.
Qed.

(** The timers of a list by identifier; [active_timers_] is this map of
    [timers_], with [t_addr] for [f]. *)
Definition keyed {A} (f : Timer → A) (l : list Timer) : gmap Z A :=
  list_to_map ((λ t, (sequence_ t, f t)) <$> l).

Section keyed.
Context {A : Type} (f : Timer → A).
Implicit Types l : list Timer.

Lemma keyed_fst l : ((λ t, (sequence_ t, f t)) <$> l).*1 = sequence_ <$> l.
Proof. by rewrite <- list_fmap_compose. Qed.

Lemma keyed_perm l k : NoDup (sequence_ <$> l) → l ≡ₚ k → keyed f l = keyed f k.
Proof.
  intros Hn Hp. apply list_to_map_proper; [by rewrite keyed_fst|]. by rewrite Hp.
Qed.

Lemma keyed_size l : NoDup (sequence_ <$> l) → size (keyed f l) = length l.
Proof.
  intros Hn. unfold keyed. rewrite map_size_list_to_map; [apply length_fmap|by rewrite keyed_fst].
Qed.

Lemma keyed_cons t l : keyed f (t :: l) = <[sequence_ t := f t]> (keyed f l).
Proof. done. Qed.

Lemma keyed_lookup_Some l k a : keyed f l !! k = Some a → ∃ t, t ∈ l ∧ sequence_ t = k ∧ f t = a.
Proof.
  intros H%elem_of_list_to_map_2. apply list_elem_of_fmap in H as (t & E & ?).
  injection E as -> ->. eauto.
Qed.

Lemma keyed_lookup_2 l t : NoDup (sequence_ <$> l) → t ∈ l → keyed f l !! sequence_ t = Some (f t).
Proof.
  intros Hn Hin. apply elem_of_list_to_map_1; [by rewrite keyed_fst|].
  apply list_elem_of_fmap. by exists t.
Qed.

Lemma keyed_lookup_None l k : keyed f l !! k = None ↔ k ∉ (sequence_ <$> l).
Proof. unfold keyed. by rewrite <- not_elem_of_list_to_map, keyed_fst. Qed.

Lemma keyed_delete l i t :
  NoDup (sequence_ <$> l) → l !! i = Some t → delete (sequence_ t) (keyed f l) = keyed f (delete i l).
Proof.
  intros Hn Hi. pose proof (delete_Permutation l i t Hi) as Hp.
  rewrite (keyed_perm _ _ Hn Hp), keyed_cons. apply delete_insert_id, keyed_lookup_None.
  rewrite Hp, fmap_cons in Hn. by apply NoDup_cons in Hn as [? _].
Qed.

Lemma keyed_delete_head t l :
  NoDup (sequence_ <$> t :: l) → delete (sequence_ t) (keyed f (t :: l)) = keyed f l.
Proof. intros Hn. by apply (keyed_delete (t :: l) 0 t). Qed.

Lemma keyed_delete_notin l k : k ∉ (sequence_ <$> l) → delete k (keyed f l) = keyed f l.
Proof. intros H. by apply delete_id, keyed_lookup_None. Qed.

Lemma keyed_delete_prefix a b :
  NoDup (sequence_ <$> a ++ b) →
  foldl (λ m t, delete (sequence_ t) m) (keyed f (a ++ b)) a = keyed f b.
Proof.
  induction a as [|t a IH]; intros Hn; [done|]. cbn [foldl app].
  rewrite keyed_delete_head by done. apply IH. simpl in Hn. by apply NoDup_cons in Hn as [_ ?].
Qed.
End keyed.

(** ** The invariant *)

(** An interval [AddTime] can convert; [usecs] is the conversion. *)
Definition usecs (interval : double) : Z :=
  match trunc64 (dmul interval (double_of_Z kMicrosecondsPerSecond)) with
  | Ok d => d
  | Fault _ => 0
  end.

Definition interval_ok (interval : double) : Prop :=
  dgt0 interval = true →
  is_ok (trunc64 (dmul interval (double_of_Z kMicrosecondsPerSecond))) = true ∧
  0 <= usecs interval.

Definition timer_ok (n : Z) (t : Timer) : Prop :=
  0 <= sequence_ t < n ∧ 0 < expiration_ t ∧ interval_ok (interval_ t) ∧
  repeated_ t = dgt0 (interval_ t).

(** The timers [l] of the set and the timers [rest] owned elsewhere. *)
Record tq_inv (l rest : list Timer) (m : gmap Z Z) (n : Z) : Prop := {
  inv_sorted : sorted l;
  inv_active : m = keyed t_addr l;
  inv_seq : NoDup (sequence_ <$> l ++ rest);
  inv_addr : NoDup (t_addr <$> l ++ rest);
  inv_ok : Forall (timer_ok n) (l ++ rest);
  inv_n : 0 <= n
}.

(** When the descriptor expires, in nanoseconds. *)
Definition deadline (a : Z * timespec) : Z :=
  a.1 * 1000 + ts_sec a.2 * kNanosecondsPerSecond + ts_nsec a.2.

(** Outside [HandleRead] the descriptor is armed when a timer waits, and
    expires by the first expiration or 10us after it was set. *)
Definition armed_ok (q : TimerQueue) : Prop :=
  is_executing_timers_ q = false → ∀ e, first_exp (timers_ q) = Some e →
  ∃ a, armed q = Some a ∧ a.1 * 1000 < deadline a <= 1000 * Z.max e (a.1 + 10) ∧
    0 <= ts_nsec a.2 < kNanosecondsPerSecond.

Record tq_wf (q : TimerQueue) : Prop := {
  wf_inv : tq_inv (timers_ q) (expired_timers_ q ++ omap pending_add (functors_ q))
             (active_timers_ q) (s_num_created_ q);
  wf_idle : is_executing_timers_ q = false → expired_timers_ q = [] ∧ canceling_timers_ q = ∅;
  wf_armed : armed_ok q
}.

Lemma tq_inv_rest l rest rest' m n : tq_inv l rest m n → rest ≡ₚ rest' → tq_inv l rest' m n.
Proof. intros [] Hp. constructor; try done; by rewrite <- Hp. Qed.

Lemma tq_inv_insert l l' t rest m n :
  tq_inv l (t :: rest) m n → sorted l' → l' ≡ₚ t :: l → tq_inv l' rest (keyed t_addr l') n.
Proof.
  intros [? ? ? ? ? ?] Hs Hp.
  assert (l' ++ rest ≡ₚ l ++ t :: rest) as E by (rewrite Hp; solve_Permutation).
  constructor; try done; by rewrite E.
Qed.

Lemma tq_inv_nodup l rest m n : tq_inv l rest m n → NoDup (sequence_ <$> l).
Proof. intros [? ? Hq]. rewrite fmap_app in Hq. by apply NoDup_app in Hq as [? _]. Qed.

Lemma tq_inv_size l rest m n : tq_inv l rest m n → length l = size m.
Proof. intros H. rewrite (inv_active _ _ _ _ H), keyed_size; [done|]. by eapply tq_inv_nodup. Qed.

Lemma tq_inv_delete l rest m n i t :
  tq_inv l rest m n → l !! i = Some t →
  tq_inv (delete i l) rest (delete (sequence_ t) m) n.
Proof.
  intros H Hi. pose proof (tq_inv_nodup _ _ _ _ H) as Hn. destruct H as [? -> Hq Ha Hk ?].
  assert (l ++ rest ≡ₚ t :: (delete i l ++ rest)) as E
    by (by rewrite (delete_Permutation l i t Hi) at 1).
  rewrite E, fmap_cons, NoDup_cons in Hq, Ha. rewrite E, Forall_cons in Hk.
  constructor; try done; [by apply sorted_delete|by apply keyed_delete|apply Hq|apply Ha|apply Hk].
Qed.

Lemma tq_inv_created l rest m n n' : tq_inv l rest m n → n <= n' → tq_inv l rest m n'.
Proof.
  intros [] ?. constructor; try done; [|lia]. eapply Forall_impl; [done|].
  intros t (? & ?). split; [lia|done].
Qed.

(** A new timer with the next identifier and a free address. *)
Lemma tq_inv_new l rest m n t :
  tq_inv l rest m n → sequence_ t = n → t_addr t ∉ (t_addr <$> l ++ rest) → timer_ok (n + 1) t →
  tq_inv l (t :: rest) m (n + 1).
Proof.
  intros H Hs Ht Hok. destruct (tq_inv_created _ _ _ _ (n + 1) H) as [? ? Hq Ha Hk ?]; [lia|].
  assert (l ++ t :: rest ≡ₚ t :: l ++ rest) as E by solve_Permutation.
  constructor; try done; rewrite E, ?fmap_cons, ?NoDup_cons, ?Forall_cons; split; try done.
  rewrite list_elem_of_fmap. intros (t' & Et & Hin).
  pose proof (inv_ok _ _ _ _ H) as Hk0. rewrite Forall_forall in Hk0.
  destruct (Hk0 t' Hin) as (? & _). lia.
Qed.

(** ** What a timer queue promises *)

(** A pending timer, without its address. *)
Record entry := mkEntry { e_cb : Z; e_when : Z; e_interval : double }.

Definition entry_of (t : Timer) : entry := mkEntry (cb_ t) (expiration_ t) (interval_ t).

Inductive spec_functor :=
  | SAdd (id : Z) (e : entry)
  | SCancel (id : Z).

(** The pending timers, those that are running and will be rearmed, the next
    identifier, the tasks of other threads and the history. *)
Record tq_spec := mkSpec {
  pending : gmap Z entry;
  running : gmap Z entry;
  next_id : Z;
  queue : list spec_functor;
  history : list Z
}.

Definition spec_new : tq_spec := mkSpec ∅ ∅ 0 [] [].

Definition spec_insert (id : Z) (e : entry) (s : tq_spec) : tq_spec :=
  mkSpec (<[id := e]> (pending s)) (running s) (next_id s) (queue s) (history s).
Definition spec_cancel (id : Z) (s : tq_spec) : tq_spec :=
  mkSpec (delete id (pending s)) (delete id (running s)) (next_id s) (queue s) (history s).
Definition spec_next (s : tq_spec) : tq_spec :=
  mkSpec (pending s) (running s) (next_id s + 1) (queue s) (history s).
Definition spec_enqueue (f : spec_functor) (s : tq_spec) : tq_spec :=
  mkSpec (pending s) (running s) (next_id s) (queue s ++ [f]) (history s).

Definition spec_add (in_loop : bool) (e : entry) (s : tq_spec) : tq_spec :=
  if in_loop then spec_insert (next_id s) e (spec_next s)
  else spec_enqueue (SAdd (next_id s) e) (spec_next s).

Definition spec_run_functor (s : tq_spec) : tq_spec :=
  match queue s with
  | [] => s
  | f :: fs =>
      let s := mkSpec (pending s) (running s) (next_id s) fs (history s) in
      match f with SAdd id e => spec_insert id e s | SCancel id => spec_cancel id s end
  end.

Definition spec_cmd (s : tq_spec) (c : tq_cmd) : tq_spec :=
  match c with
  | CmdAdd cb when interval => spec_add true (mkEntry cb when interval) s
  | CmdCancel id => spec_cancel id s
  end.

(** The callbacks of the due timers run in the order [due]; then the
    repeating ones nobody cancelled are pending again. *)
Definition spec_fire (callback : Z → list Z → list tq_cmd) (s : tq_spec) (d : Z * entry) : tq_spec :=
  let s := mkSpec (pending s) (running s) (next_id s) (queue s) (history s ++ [d.1]) in
  foldl spec_cmd s (callback (e_cb d.2) (history s)).

Definition restart (now : Z) (e : entry) : entry :=
  mkEntry (e_cb e) (now + usecs (e_interval e)) (e_interval e).

Definition rearmed (now : Z) (m : gmap Z entry) : gmap Z entry :=
  restart now <$> filter (λ p, dgt0 (e_interval p.2) = true) m.

Definition spec_tick (callback : Z → list Z → list tq_cmd) (now : Z) (due : list (Z * entry))
    (s : tq_spec) : tq_spec :=
  let s := mkSpec (filter (λ p, now < e_when p.2) (pending s)) (list_to_map due)
             (next_id s) (queue s) (history s) in
  let s := foldl (spec_fire callback) s due in
  mkSpec (pending s ∪ rearmed now (running s)) ∅ (next_id s) (queue s) (history s).

(** All the timers due at [now], the earliest first. *)
Definition due_order (now : Z) (due : list (Z * entry)) (m : gmap Z entry) : Prop :=
  due ≡ₚ map_to_list (filter (λ p, e_when p.2 <= now) m) ∧
  StronglySorted (λ a b, e_when a.2 <= e_when b.2) due.

(** The operations of the queue, and one step of the promise. *)
Inductive tq_op :=
  | OpAdd (in_loop : bool) (cb when : Z) (interval : double)
  | OpCancel (in_loop : bool) (id : Z)
  | OpRunFunctor
  | OpHandleRead.

Definition spec_functor_of (f : tq_functor) : spec_functor :=
  match f with
  | FAddTimerInLoop t => SAdd (sequence_ t) (entry_of t)
  | FCancelTimerInLoop id => SCancel id
  end.

Definition alpha (q : TimerQueue) : tq_spec :=
  mkSpec (keyed entry_of (timers_ q))
    (filter (λ p, p.1 ∉ canceling_timers_ q) (keyed entry_of (expired_timers_ q)))
    (s_num_created_ q) (spec_functor_of <$> functors_ q) (fired q).

Inductive spec_step (callback : Z → list Z → list tq_cmd) (clock : Z) :
    tq_op → tq_spec → tq_spec → Prop :=
  | step_add in_loop cb when interval s :
      spec_step callback clock (OpAdd in_loop cb when interval) s
        (spec_add in_loop (mkEntry cb when interval) s)
  | step_cancel_in_loop id s : spec_step callback clock (OpCancel true id) s (spec_cancel id s)
  | step_cancel_queued id s :
      spec_step callback clock (OpCancel false id) s (spec_enqueue (SCancel id) s)
  | step_functor s : spec_step callback clock OpRunFunctor s (spec_run_functor s)
  | step_tick due s :
      due_order clock due (pending s) →
      spec_step callback clock OpHandleRead s (spec_tick callback clock due s).

(** ** The operations keep the invariant and follow the promise *)

(** The fields [Insert], [ResetTimerFd] and [CancelTimerInLoop] leave alone. *)
Definition same_frame (q q' : TimerQueue) : Prop :=
  expired_timers_ q' = expired_timers_ q ∧ is_executing_timers_ q' = is_executing_timers_ q ∧
  s_num_created_ q' = s_num_created_ q ∧ functors_ q' = functors_ q ∧ fired q' = fired q.

Lemma same_frame_trans q1 q2 q3 : same_frame q1 q2 → same_frame q2 q3 → same_frame q1 q3.
Proof. intros (?&?&?&?&?) (?&?&?&?&?). repeat split; congruence. Qed.

#[local] Hint Extern 1 (same_frame _ _) => (repeat split) : core.

Lemma filter_notin_insert (id : Z) (C : gset Z) (m : gmap Z entry) :
  filter (λ p, p.1 ∉ {[id]} ∪ C) m = delete id (filter (λ p, p.1 ∉ C) m).
Proof.
  apply map_eq. intros k. destruct (decide (k = id)) as [->|Hne].
  - rewrite lookup_delete_eq. apply map_lookup_filter_None. right. intros x _ Hc. set_solver.
  - rewrite lookup_delete_ne by done. apply option_eq. intros x.
    rewrite !map_lookup_filter_Some. cbn [fst]. rewrite not_elem_of_union, not_elem_of_singleton. tauto.
Qed.

Section operations.
Variable clock : nat → Z.
Variable alloc : list Z → Z.
Variable callback : Z → list Z → list tq_cmd.
Hypothesis alloc_fresh : ∀ l, alloc l ∉ l.
Hypothesis clock_pos : ∀ n, 0 < clock n.
Implicit Types q : TimerQueue.

Lemma ResetTimerFd_spec e q :
  ∃ ts, ResetTimerFd clock e q = set_armed (Some (clock (ticks q), ts)) (S (ticks q)) q ∧
    0 <= ts_nsec ts < kNanosecondsPerSecond ∧
    clock (ticks q) * 1000 < deadline (clock (ticks q), ts) <= 1000 * Z.max e (clock (ticks q) + 10).
Proof.
  unfold ResetTimerFd, Now, ts_sub. cbn [ticks set_armed armed]. eexists. split; [reflexivity|].
  set (d := if negb (IsValid (e - clock (ticks q))) then 10 else e - clock (ticks q)).
  assert (0 < d ∧ clock (ticks q) + d <= Z.max e (clock (ticks q) + 10)) as [Hd Hle].
  { unfold d, IsValid. destruct (Z.ltb_spec 0 (e - clock (ticks q))); simpl; lia. }
  destruct (timestamp_parts d) as (_ & Es & _ & H0 & _).
  destruct H0 as (Hu & Hs & _); [lia|]. unfold deadline. cbn [fst snd ts_sec ts_nsec].
  pose proof (Z.rem_bound_pos d kMicrosecondsPerSecond) as Hb. fold (GetUsecs d) in Hb.
  unfold kMicrosecondsPerSecond, kNanosecondsPerSecond in *. lia.
Qed.

Lemma Insert_spec t q rest n :
  tq_inv (timers_ q) (t :: rest) (active_timers_ q) n →
  ∃ b l', Insert t q = Ok (b, set_timers l' (keyed t_addr l') q) ∧ l' ≡ₚ t :: timers_ q ∧
    tq_inv l' rest (keyed t_addr l') n ∧
    first_exp l' = if b : bool then Some (expiration_ t) else first_exp (timers_ q).
Proof.
  intros H.
  assert (t_addr t ∉ (t_addr <$> timers_ q)) as Ha.
  { pose proof (inv_addr _ _ _ _ H) as Ha. rewrite fmap_app, NoDup_app in Ha.
    intros Hin. apply Ha in Hin. apply Hin. left. }
  assert (sequence_ t ∉ (sequence_ <$> timers_ q)) as Hq.
  { pose proof (inv_seq _ _ _ _ H) as Hq. rewrite fmap_app, NoDup_app in Hq.
    intros Hin. apply Hq in Hin. apply Hin. left. }
  destruct (set_insert_spec t (timers_ q)) as (l' & E & Hp & Hs); [apply H|done|].
  pose proof (tq_inv_insert _ _ _ _ _ _ H Hs Hp) as H'.
  destruct (set_insert_first t (timers_ q) l') as [Hf Hn]; [apply H|done|].
  assert (active_timers_ q !! sequence_ t = None) as EN
    by (rewrite (inv_active _ _ _ _ H); by apply keyed_lookup_None).
  assert (<[sequence_ t := t_addr t]> (active_timers_ q) = keyed t_addr l') as Em.
  { rewrite (inv_active _ _ _ _ H), <- keyed_cons. symmetry.
    apply keyed_perm; [by eapply tq_inv_nodup|done]. }
  unfold Insert. rewrite E. eexists _, l'. split_and!; [|done..|].
  - cbn [assert mbind res_bind]. rewrite (bool_decide_true (_ = None)) by done.
    cbn [assert mbind res_bind]. rewrite EN, Em, bool_decide_true by (by eapply tq_inv_size). done.
  - destruct (match timers_ q with [] => true | x :: _ => _ end); auto.
Qed.

(** Adding a timer that is owned elsewhere. *)
Lemma AddTimerInLoop_spec t q rest n :
  tq_inv (timers_ q) (t :: rest) (active_timers_ q) n → armed_ok q →
  ∃ q', AddTimerInLoop clock true t q = Ok q' ∧ same_frame q q' ∧
    tq_inv (timers_ q') rest (active_timers_ q') n ∧ armed_ok q' ∧
    canceling_timers_ q' = canceling_timers_ q ∧
    alpha q' = spec_insert (sequence_ t) (entry_of t) (alpha q).
Proof.
  intros H Har. destruct (Insert_spec t q rest n H) as (b & l' & E & Hp & H' & Hf).
  assert (∀ q', expired_timers_ q' = expired_timers_ q → canceling_timers_ q' = canceling_timers_ q →
    s_num_created_ q' = s_num_created_ q → functors_ q' = functors_ q → fired q' = fired q →
    timers_ q' = l' → alpha q' = spec_insert (sequence_ t) (entry_of t) (alpha q)) as Hal.
  { intros q' E1 E2 E3 E4 E5 E6. unfold alpha, spec_insert. cbn. rewrite E1, E2, E3, E4, E5, E6.
    f_equal. rewrite <- keyed_cons. apply keyed_perm; [by eapply tq_inv_nodup|done]. }
  unfold AddTimerInLoop. cbn [AssertInLoopThread mbind res_bind]. rewrite E. cbn [mbind res_bind].
  destruct b.
  - destruct (ResetTimerFd_spec (expiration_ t) (set_timers l' (keyed t_addr l') q)) as (ts & -> & Hn & Hd).
    eexists. split; [reflexivity|]. split_and!; [auto|done| |done|by apply Hal].
    intros _ e. cbn. rewrite Hf. intros [= <-]. eauto.
  - eexists. split; [reflexivity|]. split_and!; [auto|done| |done|by apply Hal].
    intros He e. cbn. rewrite Hf. by apply Har.
Qed.

Lemma find_by_addr l rest m n id a :
  tq_inv l rest m n → m !! id = Some a →
  ∃ i t, set_find a l = Some (i, t) ∧ l !! i = Some t ∧ sequence_ t = id.
Proof using Type.
  intros H Hid. rewrite (inv_active _ _ _ _ H) in Hid.
  apply keyed_lookup_Some in Hid as (t & Hin & <- & <-).
  unfold set_find. destruct (list_find_elem_of (λ x, t_addr x = t_addr t) l t) as [[i t'] E]; [done..|].
  exists i, t'. apply list_find_Some in E as E'. destruct E' as (Hi & Ea & _).
  split_and!; [done|done|]. f_equal.
  apply list_elem_of_lookup in Hin as (j & Hj).
  pose proof (inv_addr _ _ _ _ H) as Hn. rewrite fmap_app in Hn. apply NoDup_app in Hn as [Hn _].
  assert (i = j) as ->.
  { eapply NoDup_lookup; [exact Hn|rewrite list_lookup_fmap, Hi|rewrite list_lookup_fmap, Hj]; [done|].
    cbn. by f_equal. }
  congruence.
Qed.

Lemma first_exp_delete l i e :
  sorted l → first_exp (delete i l) = Some e → ∃ e0, first_exp l = Some e0 ∧ e0 <= e.
Proof using Type.
  intros Hs. destruct l as [|x l]; [done|]. destruct i as [|i]; cbn.
  - destruct l as [|y l]; [done|]. intros [= <-]. eexists. split; [reflexivity|].
    apply StronglySorted_cons in Hs as [Hx _]. rewrite Forall_cons in Hx. destruct Hx as [Hx _].
    apply CompareEntry_spec in Hx. lia.
  - intros [= <-]. eexists. split; [reflexivity|lia].
Qed.

Lemma CancelTimerInLoop_spec id q :
  tq_wf q → ∃ q', CancelTimerInLoop true id q = Ok q' ∧ same_frame q q' ∧ tq_wf q' ∧
    alpha q' = spec_cancel id (alpha q).
Proof using Type.
  intros [H Hi Har]. unfold CancelTimerInLoop. cbn [AssertInLoopThread mbind res_bind].
  destruct (active_timers_ q !! id) as [a|] eqn:Ea.
  - destruct (find_by_addr _ _ _ _ _ _ H Ea) as (i & t & Ef & Hl & Hs). rewrite Ef. cbn [mbind res_bind].
    pose proof (tq_inv_delete _ _ _ _ _ _ H Hl) as H'. rewrite Hs in H'.
    cbn [assert]. rewrite bool_decide_true by (by eapply tq_inv_size). cbn [assert mbind res_bind].
    eexists. split; [reflexivity|]. split; [auto|]. split.
    + constructor; [done|done|]. intros He e Hf.
      destruct (first_exp_delete _ _ _ (inv_sorted _ _ _ _ H) Hf) as (e0 & Hf0 & Hle).
      destruct (Har He e0 Hf0) as (a0 & Ea0 & Hd & Hn). exists a0. split_and!; [done|lia..].
    + unfold alpha, spec_cancel. cbn. subst id. f_equal.
      * symmetry. apply keyed_delete; [|done]. by eapply tq_inv_nodup.
      * symmetry. apply delete_id, map_lookup_filter_None. left. apply keyed_lookup_None.
        pose proof (inv_seq _ _ _ _ H) as Hq. rewrite !fmap_app, !NoDup_app in Hq.
        intros Hin. destruct Hq as (_ & Hq & _). eapply Hq; [|apply elem_of_app; left; exact Hin].
        apply list_elem_of_fmap. eexists. split; [reflexivity|]. by eapply list_elem_of_lookup_2.
  - cbn [mbind res_bind].
    assert (delete id (keyed entry_of (timers_ q)) = keyed entry_of (timers_ q)) as Ed.
    { apply keyed_delete_notin. rewrite (inv_active _ _ _ _ H) in Ea. by apply keyed_lookup_None in Ea. }
    destruct (is_executing_timers_ q) eqn:Ex; cbn [set_canceling timers_ active_timers_];
      rewrite bool_decide_true by (by eapply tq_inv_size); eexists; (split; [reflexivity|]);
      (split; [auto|]); unfold alpha, spec_cancel; cbn.
    + split; [constructor; [done|cbn; congruence|intros ?; cbn in *; congruence]|].
      rewrite Ed. f_equal. apply filter_notin_insert.
    + split; [constructor; [done|by rewrite Ex|done]|]. rewrite Ed. f_equal. destruct (Hi eq_refl) as [-> _].
      cbn. change (keyed entry_of []) with (∅ : gmap Z entry). by rewrite map_filter_empty, delete_empty.
Qed.

Lemma Cancel_spec in_loop id q :
  tq_wf q → ∃ q', Cancel in_loop id q = Ok q' ∧ tq_wf q' ∧
    is_executing_timers_ q' = is_executing_timers_ q ∧ expired_timers_ q' = expired_timers_ q ∧
    alpha q' = if in_loop then spec_cancel id (alpha q) else spec_enqueue (SCancel id) (alpha q).
Proof using Type.
  intros Hw. destruct in_loop; cbn [Cancel].
  - destruct (CancelTimerInLoop_spec id q Hw) as (q' & E & (E1 & E2 & _) & Hw' & Ha). eauto 6.
  - destruct Hw as [H Hi Ha]. eexists. split; [reflexivity|]. split; [|split; [done|split; [done|]]].
    + constructor; [|done|done]. cbn. rewrite omap_app. cbn. by rewrite app_nil_r.
    + unfold alpha, spec_enqueue. cbn. f_equal. by rewrite fmap_app.
Qed.

Definition timer_args_ok (when : Z) (interval : double) : Prop := 0 < when ∧ interval_ok interval.

Lemma AddTimer_spec in_loop cb when interval q :
  tq_wf q → timer_args_ok when interval →
  ∃ q', AddTimer clock alloc in_loop cb when interval q = Ok (s_num_created_ q, q') ∧ tq_wf q' ∧
    is_executing_timers_ q' = is_executing_timers_ q ∧ expired_timers_ q' = expired_timers_ q ∧
    alpha q' = spec_add in_loop (mkEntry cb when interval) (alpha q).
Proof.
  intros [H Hi Ha] [Hwn Hiv]. unfold AddTimer, IsValid.
  destruct (Z.ltb_spec 0 when); [|lia]. cbn [negb].
  set (t := Timer_new _ cb when interval (s_num_created_ q)).
  assert (tq_inv (timers_ q) (t :: expired_timers_ q ++ omap pending_add (functors_ q))
            (active_timers_ q) (s_num_created_ q + 1)) as Ht.
  { apply (tq_inv_new _ _ _ _ t H); [done|apply alloc_fresh|].
    pose proof (inv_n _ _ _ _ H). unfold timer_ok, t. cbn. split_and!; try done; lia. }
  destruct in_loop.
  - destruct (AddTimerInLoop_spec t (set_created (s_num_created_ q + 1) q) _ _ Ht Ha)
      as (q' & -> & Hf & H' & Ha' & Hc & Hal). cbn [mbind res_bind].
    destruct Hf as (E1 & E2 & E3 & E4 & E5). cbn in *.
    exists q'. split; [done|]. split; [|split; [done|split; [done|exact Hal]]].
    constructor; [by rewrite E1, E3, E4| |done]. rewrite E1, E2, Hc. exact Hi.
  - eexists. split; [reflexivity|]. split; [|split; [done|split; [done|]]].
    + constructor; [|done|done]. cbn. rewrite omap_app. cbn.
      eapply tq_inv_rest; [exact Ht|]. solve_Permutation.
    + unfold alpha, spec_add, spec_enqueue. cbn. f_equal. by rewrite fmap_app.
Qed.

Lemma RunFunctor_spec q :
  tq_wf q → ∃ q', RunFunctor clock q = Ok q' ∧ tq_wf q' ∧
    is_executing_timers_ q' = is_executing_timers_ q ∧ alpha q' = spec_run_functor (alpha q).
Proof.
  intros Hw. unfold RunFunctor, spec_run_functor. cbn [alpha queue].
  destruct (functors_ q) as [|[t|id] fs] eqn:Ef; cbn [fmap list_fmap]; [by exists q| |].
  - destruct Hw as [H Hi Ha]. rewrite Ef in H.
    destruct (AddTimerInLoop_spec t (set_functors fs q) (expired_timers_ q ++ omap pending_add fs)
                (s_num_created_ q)) as (q' & -> & Hf & H' & Ha' & Hc & Hal); [|done|].
    { eapply tq_inv_rest; [exact H|]. cbn. solve_Permutation. }
    destruct Hf as (E1 & E2 & E3 & E4 & E5). cbn in *. exists q'. split; [done|].
    split; [|split; [done|exact Hal]].
    constructor; [by rewrite E1, E3, E4| |done]. rewrite E1, E2, Hc. exact Hi.
  - destruct (CancelTimerInLoop_spec id (set_functors fs q)) as (q' & -> & Hf & Hw' & Hal).
    { destruct Hw as [H Hi Ha]. constructor; [|done|done]. cbn. by rewrite Ef in H. }
    destruct Hf as (E1 & E2 & E3 & E4 & E5). eauto.
Qed.

(** *** Running callbacks *)

Definition cmd_ok (c : tq_cmd) : Prop :=
  match c with CmdAdd _ when interval => timer_args_ok when interval | CmdCancel _ => True end.

Hypothesis callback_ok : ∀ cb h, Forall cmd_ok (callback cb h).

Lemma run_cmds_spec cmds : ∀ q,
  Forall cmd_ok cmds → tq_wf q →
  ∃ q', run_cmds clock alloc cmds q = Ok q' ∧ tq_wf q' ∧
    is_executing_timers_ q' = is_executing_timers_ q ∧ expired_timers_ q' = expired_timers_ q ∧
    alpha q' = foldl spec_cmd (alpha q) cmds.
Proof.
  induction cmds as [|[cb when interval|id] cmds IH]; intros q Hc Hw; [by exists q|..];
    apply Forall_cons in Hc as [Hc Hcs].
  - destruct (AddTimer_spec true cb when interval q Hw Hc) as (q1 & E & Hw1 & Hx & He & Ha).
    destruct (IH q1 Hcs Hw1) as (q' & E' & Hw' & Hx' & He' & Ha').
    exists q'. cbn [run_cmds]. rewrite E. cbn [mbind res_bind]. rewrite E'.
    split_and!; [done|done|congruence|congruence|]. by rewrite Ha', Ha.
  - destruct (Cancel_spec true id q Hw) as (q1 & E & Hw1 & Hx & He & Ha).
    destruct (IH q1 Hcs Hw1) as (q' & E' & Hw' & Hx' & He' & Ha').
    exists q'. cbn [run_cmds]. rewrite E. cbn [mbind res_bind]. rewrite E'.
    split_and!; [done|done|congruence|congruence|]. by rewrite Ha', Ha.
Qed.

Lemma tq_wf_fired l q : tq_wf q → tq_wf (set_fired l q).
Proof. intros []. by constructor. Qed.

Lemma run_timers_spec l : ∀ q,
  tq_wf q →
  ∃ q', run_timers clock alloc callback l q = Ok q' ∧ tq_wf q' ∧
    is_executing_timers_ q' = is_executing_timers_ q ∧ expired_timers_ q' = expired_timers_ q ∧
    alpha q' = foldl (spec_fire callback) (alpha q) ((λ t, (sequence_ t, entry_of t)) <$> l).
Proof.
  induction l as [|t l IH]; intros q Hw; [by exists q|].
  destruct (run_cmds_spec (callback (cb_ t) (fired q ++ [sequence_ t]))
              (set_fired (fired q ++ [sequence_ t]) q)) as (q1 & E & Hw1 & Hx & He & Ha);
    [apply callback_ok|by apply tq_wf_fired|].
  destruct (IH q1 Hw1) as (q' & E' & Hw' & Hx' & He' & Ha').
  exists q'. cbn [run_timers]. unfold Run. cbn [fired set_fired].
  rewrite E. cbn [mbind res_bind]. rewrite E'. cbn in Hx, He.
  split_and!; [done|done|congruence|congruence|]. by rewrite Ha', Ha.
Qed.

(** *** Expired timers *)

Lemma GetExpired_spec now q :
  tq_inv (timers_ q) (omap pending_add (functors_ q)) (active_timers_ q) (s_num_created_ q) →
  expired_timers_ q = [] →
  ∃ a b, GetExpired now q = Ok (set_expired a (set_timers b (keyed t_addr b) q)) ∧
    timers_ q = a ++ b ∧ Forall (λ t, expiration_ t <= now) a ∧
    Forall (λ t, now < expiration_ t) b ∧ sorted a ∧
    tq_inv b (a ++ omap pending_add (functors_ q)) (keyed t_addr b) (s_num_created_ q).
Proof.
  intros H He.
  pose proof (upper_bound_split_spec now (timers_ q) (inv_sorted _ _ _ _ H)) as Hu.
  unfold GetExpired. destruct (upper_bound_split now (timers_ q)) as [a b].
  destruct Hu as (Hab & Ha & Hb). pose proof (tq_inv_nodup _ _ _ _ H) as Hn.
  pose proof (inv_sorted _ _ _ _ H) as Hs. rewrite Hab in Hs, Hn.
  apply StronglySorted_app in Hs as (_ & Hsa & Hsb).
  assert (match b with [] => true | x :: _ => ts_gt (expiration_ x) now end = true) as Eg.
  { destruct Hb; [done|]. unfold ts_gt. lia. }
  rewrite He, (inv_active _ _ _ _ H), Hab, keyed_delete_prefix by done. rewrite Eg.
  assert (tq_inv b (a ++ omap pending_add (functors_ q)) (keyed t_addr b) (s_num_created_ q)) as H'.
  { destruct H as [? Em Hq Had Hk ?]. rewrite Hab in *.
    assert ((a ++ b) ++ omap pending_add (functors_ q) ≡ₚ b ++ a ++ omap pending_add (functors_ q)) as E
      by solve_Permutation. rewrite E in Hq, Had, Hk. by constructor. }
  exists a, b. split_and!; try done.
  cbn [assert mbind res_bind]. rewrite (bool_decide_true ([] = [])) by done.
  cbn [assert mbind res_bind].
  rewrite bool_decide_true by (by eapply tq_inv_size). done.
Qed.

Lemma usecs_restart now t :
  interval_ok (interval_ t) → dgt0 (interval_ t) = true →
  Restart now t = Ok (set_expiration (now + usecs (interval_ t)) t) ∧ 0 <= usecs (interval_ t).
Proof.
  intros Hok Hr. destruct (Hok Hr) as [Hk Hu]. split; [|done]. unfold Restart, AddTime, usecs in *.
  destruct (trunc64 _); [done|discriminate].
Qed.

Lemma tq_inv_drop l t rest m n : tq_inv l (t :: rest) m n → tq_inv l rest m n.
Proof.
  intros [? ? Hq Ha Hk ?].
  assert (l ++ t :: rest ≡ₚ t :: l ++ rest) as E by solve_Permutation.
  rewrite E, fmap_cons, NoDup_cons in Hq, Ha. rewrite E, Forall_cons in Hk.
  constructor; try done; [apply Hq|apply Ha|apply Hk].
Qed.

Lemma tq_inv_replace l t t' rest m n :
  tq_inv l (t :: rest) m n → sequence_ t' = sequence_ t → t_addr t' = t_addr t → timer_ok n t' →
  tq_inv l (t' :: rest) m n.
Proof.
  intros [? ? Hq Ha Hk ?] Es Ea Hok.
  constructor; try done; rewrite ?fmap_app, ?fmap_cons, ?Es, ?Ea in *; try done.
  rewrite Forall_app, Forall_cons in *. tauto.
Qed.

Lemma tq_inv_not_in l t rest m n :
  tq_inv l (t :: rest) m n → (sequence_ t ∉ (sequence_ <$> l)) ∧ (sequence_ t ∉ (sequence_ <$> rest)).
Proof.
  intros [_ _ Hq]. rewrite fmap_app, NoDup_app, fmap_cons, NoDup_cons in Hq.
  destruct Hq as (_ & Hq & ? & _). split; [|done]. intros Hin. apply Hq in Hin. apply Hin. left.
Qed.

Lemma ResetTimer_loop_spec now rest l : ∀ q,
  0 < now → tq_inv (timers_ q) (l ++ rest) (active_timers_ q) (s_num_created_ q) →
  ∃ q', ResetTimer_loop now l q = Ok q' ∧ same_frame q q' ∧ canceling_timers_ q' = canceling_timers_ q ∧
    tq_inv (timers_ q') rest (active_timers_ q') (s_num_created_ q') ∧
    keyed entry_of (timers_ q') = keyed entry_of (timers_ q)
      ∪ rearmed now (filter (λ p, p.1 ∉ canceling_timers_ q) (keyed entry_of l)).
Proof.
  induction l as [|t l IH]; intros q Hnow H.
  { exists q. split_and!; auto. change (keyed entry_of []) with (∅ : gmap Z entry).
    unfold rearmed. by rewrite !map_filter_empty, fmap_empty, map_union_empty. }
  change ((t :: l) ++ rest) with (t :: l ++ rest) in H.
  pose proof (tq_inv_drop _ _ _ _ _ H) as Hdrop. destruct (tq_inv_not_in _ _ _ _ _ H) as [Hq0 Hl].
  rewrite fmap_app, not_elem_of_app in Hl. destruct Hl as [Hl _].
  rewrite <- keyed_lookup_None with (f := entry_of) in Hq0, Hl.
  assert (timer_ok (s_num_created_ q) t) as (Hsq & Hex & Hiv & Hrp).
  { pose proof (inv_ok _ _ _ _ H) as Hk. rewrite Forall_app in Hk.
    destruct Hk as (_ & Hk). by apply Forall_cons in Hk as [? _]. }
  cbn [ResetTimer_loop]. rewrite keyed_cons. unfold rearmed.
  destruct (repeated_ t) eqn:Er; cbn [andb]; [destruct (bool_decide _) eqn:Ec|].
  - apply bool_decide_eq_true in Ec. symmetry in Hrp.
    destruct (usecs_restart now t Hiv Hrp) as [-> Hu]. cbn [mbind res_bind].
    set (t' := set_expiration _ t).
    assert (tq_inv (timers_ q) (t' :: l ++ rest) (active_timers_ q) (s_num_created_ q)) as H'.
    { eapply tq_inv_replace; [exact H|done..|]. unfold timer_ok, t', set_expiration. cbn.
      rewrite Er, Hrp. split_and!; try done; lia. }
    destruct (Insert_spec t' q _ _ H') as (b & l' & E & Hp & Hi & _). rewrite E. cbn [mbind res_bind].
    destruct (IH (set_timers l' (keyed t_addr l') q) Hnow Hi) as (q' & E' & Hf & Hc & H2 & Hk).
    exists q'. split; [done|]. split; [exact Hf|]. split; [exact Hc|]. split; [done|].
    rewrite Hk. cbn [timers_ set_timers canceling_timers_].
    rewrite (keyed_perm entry_of l' (t' :: timers_ q)) by (done || by eapply tq_inv_nodup).
    rewrite map_filter_insert_True by done. rewrite map_filter_insert_True by done.
    rewrite fmap_insert, keyed_cons, <- insert_union_l, insert_union_r by done. done.
  - apply bool_decide_eq_false in Ec.
    destruct (IH q Hnow Hdrop) as (q' & E' & Hf & Hc & H2 & Hk).
    exists q'. split_and!; try done. rewrite map_filter_insert_False by done.
    by rewrite delete_id.
  - destruct (IH q Hnow Hdrop) as (q' & E' & Hf & Hc & H2 & Hk).
    exists q'. split_and!; try done. rewrite Hk. f_equal. unfold rearmed. f_equal.
    rewrite map_filter_insert. destruct (decide _); [|by rewrite delete_id].
    rewrite map_filter_insert_False by (cbn; congruence).
    rewrite delete_id; [done|]. apply map_lookup_filter_None. by left.
Qed.

Lemma filter_due now (a b : list Timer) :
  NoDup (sequence_ <$> a ++ b) → Forall (λ t, expiration_ t <= now) a →
  Forall (λ t, now < expiration_ t) b →
  filter (λ p, e_when p.2 <= now) (keyed entry_of (a ++ b)) = keyed entry_of a ∧
  filter (λ p, now < e_when p.2) (keyed entry_of (a ++ b)) = keyed entry_of b.
Proof.
  intros Hn Ha Hb. induction Ha as [|t a Ht Ha IH]; simpl.
  - split.
    + apply map_empty. intros k. apply map_lookup_filter_None. right. intros x Hx.
      apply keyed_lookup_Some in Hx as (t & Hin & _ & <-). rewrite Forall_forall in Hb.
      specialize (Hb t Hin). simpl in *. lia.
    + apply map_filter_id. intros k x Hx.
      apply keyed_lookup_Some in Hx as (t & Hin & _ & <-). rewrite Forall_forall in Hb.
      by apply (Hb t Hin).
  - apply NoDup_cons in Hn as [Hni Hn]. destruct (IH Hn) as [E1 E2].
    apply keyed_lookup_None with (f := entry_of) in Hni. rewrite !keyed_cons.
    rewrite map_filter_insert_True, map_filter_insert_False by (cbn; lia).
    by rewrite delete_id, E1, E2.
Qed.

Lemma due_order_prefix now (a b : list Timer) :
  NoDup (sequence_ <$> a ++ b) → Forall (λ t, expiration_ t <= now) a →
  Forall (λ t, now < expiration_ t) b → sorted a →
  due_order now ((λ t, (sequence_ t, entry_of t)) <$> a) (keyed entry_of (a ++ b)).
Proof.
  intros Hn Ha Hb Hs. destruct (filter_due now a b Hn Ha Hb) as [E _]. split.
  - rewrite E. symmetry. apply map_to_list_to_map. rewrite keyed_fst.
    rewrite fmap_app in Hn. by apply NoDup_app in Hn as [? _].
  - clear -Hs. induction Hs as [|t a Hs IH Ht]; cbn; [constructor|]. constructor; [done|].
    apply Forall_fmap. eapply Forall_impl; [exact Ht|]. intros t' Hc.
    apply CompareEntry_spec in Hc. cbn. lia.
Qed.

Lemma ResetTimer_spec now q :
  0 < now → tq_wf q → is_executing_timers_ q = true →
  ∃ q', ResetTimer clock now (set_executing false q) = Ok q' ∧ tq_wf q' ∧
    is_executing_timers_ q' = false ∧ canceling_timers_ q' = ∅ ∧ expired_timers_ q' = [] ∧
    alpha q' = mkSpec (pending (alpha q) ∪ rearmed now (running (alpha q))) ∅
                 (next_id (alpha q)) (queue (alpha q)) (history (alpha q)).
Proof.
  intros Hnow [H _ _] Hx. unfold ResetTimer.
  destruct (ResetTimer_loop_spec now (omap pending_add (functors_ q)) (expired_timers_ q)
              (set_executing false q) Hnow H) as (q' & E & (E1 & E2 & E3 & E4 & E5) & Ec & H' & Hk).
  cbn in E, E1, E2, E3, E4, E5, Ec, Hk. cbn [expired_timers_ set_executing]. rewrite E.
  cbn [mbind res_bind].
  assert (∀ q2, timers_ q2 = timers_ q' → expired_timers_ q2 = [] → canceling_timers_ q2 = ∅ →
    s_num_created_ q2 = s_num_created_ q' → functors_ q2 = functors_ q' → fired q2 = fired q' →
    alpha q2 = mkSpec (pending (alpha q) ∪ rearmed now (running (alpha q))) ∅
                 (next_id (alpha q)) (queue (alpha q)) (history (alpha q))) as Hal.
  { intros q2 F1 F2 F3 F4 F5 F6. unfold alpha. rewrite F1, F2, F3, F4, F5, F6, E3, E4, E5, Hk. done. }
  set (q2 := set_canceling ∅ (set_expired [] q')).
  assert (tq_inv (timers_ q2) (omap pending_add (functors_ q2)) (active_timers_ q2) (s_num_created_ q2))
    as H2 by (unfold q2; cbn; by rewrite E4).
  cbn [timers_ q2 set_canceling set_expired]. destruct (timers_ q') as [|x l] eqn:El.
  - exists q2. split_and!; try done; [|apply Hal; auto].
    constructor; [done|done|]. intros _ e. unfold q2. cbn. by rewrite El.
  - assert (0 < expiration_ x) as Hp.
    { pose proof (inv_ok _ _ _ _ H') as Hok. apply Forall_cons in Hok as [(_ & ? & _) _]. done. }
    unfold IsValid. destruct (Z.ltb_spec 0 (expiration_ x)); [|lia].
    destruct (ResetTimerFd_spec (expiration_ x) q2) as (ts & -> & Hns & Hd).
    eexists. split; [reflexivity|]. split_and!; try done; [|apply Hal; auto].
    constructor; [done|done|]. intros _ e. unfold q2. cbn. rewrite El. cbn.
    intros He. injection He as <-. eauto.
Qed.

Lemma HandleRead_spec q :
  tq_wf q → is_executing_timers_ q = false →
  ∃ q' due, HandleRead clock alloc callback true q = Ok q' ∧ tq_wf q' ∧
    is_executing_timers_ q' = false ∧
    due_order (clock (ticks q)) due (pending (alpha q)) ∧
    alpha q' = spec_tick callback (clock (ticks q)) due (alpha q).
Proof.
  intros Hw Hx. set (now := clock (ticks q)).
  set (q0 := ReadTimerFd (set_armed (armed q) (S (ticks q)) q)).
  destruct (wf_idle q Hw Hx) as [He Hc].
  assert (tq_inv (timers_ q) (omap pending_add (functors_ q)) (active_timers_ q) (s_num_created_ q))
    as H by (pose proof (wf_inv q Hw) as H; by rewrite He in H).
  destruct (GetExpired_spec now q0 H He) as (a & b & E0 & Hab & Ha & Hb & Hs & Hi). cbn in Hab.
  set (q1 := set_executing true (set_expired a (set_timers b (keyed t_addr b) q0))).
  assert (tq_wf q1) as Hw1 by (by constructor).
  destruct (run_timers_spec a q1 Hw1) as (q2 & E2 & Hw2 & Hx2 & He2 & Ha2).
  destruct (ResetTimer_spec now q2) as (q3 & E3 & Hw3 & Hx3 & Hc3 & He3 & Ha3);
    [apply clock_pos|done|done|].
  pose proof (tq_inv_nodup _ _ _ _ H) as Hn. rewrite Hab in Hn.
  exists q3, ((λ t, (sequence_ t, entry_of t)) <$> a). split; [|split_and!; [done|done| |]].
  - unfold HandleRead, Now. cbn [AssertInLoopThread mbind res_bind]. fold now q0.
    rewrite E0. cbn [mbind res_bind]. fold q1. change (expired_timers_ (set_expired a _)) with a. rewrite E2.
    cbn [mbind res_bind]. rewrite E3. cbn [mbind res_bind]. by rewrite Hc3, He3.
  - cbn [alpha pending]. rewrite Hab. by apply due_order_prefix.
  - rewrite Ha3, Ha2. unfold spec_tick.
    assert (alpha q1 = mkSpec (filter (λ p, now < e_when p.2) (pending (alpha q)))
       (list_to_map ((λ t, (sequence_ t, entry_of t)) <$> a)) (next_id (alpha q)) (queue (alpha q))
       (history (alpha q))) as ->; [|done].
    unfold alpha, q1. cbn. rewrite Hab, (proj2 (filter_due now a b Hn Ha Hb)), Hc.
    f_equal. apply map_filter_id. intros k x _. cbn. set_solver.
Qed.

(** *** Whole runs *)

Definition run_op (o : tq_op) (q : TimerQueue) : res TimerQueue :=
  match o with
  | OpAdd in_loop cb when interval =>
      '(_, q) ← AddTimer clock alloc in_loop cb when interval q; Ok q
  | OpCancel in_loop id => Cancel in_loop id q
  | OpRunFunctor => RunFunctor clock q
  | OpHandleRead => HandleRead clock alloc callback true q
  end.

Fixpoint run_ops (ops : list tq_op) (q : TimerQueue) : res TimerQueue :=
  match ops with [] => Ok q | o :: ops => q ← run_op o q; run_ops ops q end.

Definition op_ok (o : tq_op) : Prop :=
  match o with OpAdd _ _ when interval => timer_args_ok when interval | _ => True end.

Definition tq_idle (q : TimerQueue) : Prop := tq_wf q ∧ is_executing_timers_ q = false.

Lemma tq_run_op_spec o q :
  op_ok o → tq_idle q →
  ∃ q', run_op o q = Ok q' ∧ tq_idle q' ∧ spec_step callback (clock (ticks q)) o (alpha q) (alpha q').
Proof.
  intros Ho [Hw Hx]. destruct o as [in_loop cb when interval|in_loop id| |]; cbn [run_op].
  - destruct (AddTimer_spec in_loop cb when interval q Hw Ho) as (q' & -> & Hw' & Hx' & _ & Ha).
    exists q'. rewrite Ha. split; [done|]. split; [by split; congruence|constructor].
  - destruct (Cancel_spec in_loop id q Hw) as (q' & -> & Hw' & Hx' & _ & Ha).
    exists q'. rewrite Ha. split; [done|]. split; [by split; congruence|].
    destruct in_loop; constructor.
  - destruct (RunFunctor_spec q Hw) as (q' & -> & Hw' & Hx' & Ha).
    exists q'. rewrite Ha. split; [done|]. split; [by split; congruence|constructor].
  - destruct (HandleRead_spec q Hw Hx) as (q' & due & -> & Hw' & Hx' & Hd & Ha).
    exists q'. rewrite Ha. split; [done|]. split; [done|]. by constructor.
Qed.

Lemma TimerQueue_new_idle : tq_idle TimerQueue_new.
Proof.
  split; [|done]. constructor; [|done|done]. constructor; cbn; try done; constructor.
Qed.

Inductive spec_run : list tq_op → tq_spec → tq_spec → Prop :=
  | spec_run_nil s : spec_run [] s s
  | spec_run_cons o ops now s1 s2 s3 :
      spec_step callback now o s1 s2 → spec_run ops s2 s3 → spec_run (o :: ops) s1 s3.

Lemma tq_run_ops_spec ops : ∀ q,
  Forall op_ok ops → tq_idle q →
  ∃ q', run_ops ops q = Ok q' ∧ tq_idle q' ∧ spec_run ops (alpha q) (alpha q').
Proof.
  induction ops as [|o ops IH]; intros q Hok Hq; [exists q; split_and!; [done|done|constructor]|].
  apply Forall_cons in Hok as [Ho Hok].
  destruct (tq_run_op_spec o q Ho Hq) as (q1 & E & Hq1 & Hs).
  destruct (IH q1 Hok Hq1) as (q' & E' & Hq' & Hr).
  exists q'. cbn [run_ops]. rewrite E. cbn [mbind res_bind]. split_and!; [done|done|].
  by econstructor.
Qed.

(** *** Histories *)

Lemma cmds_history cmds s : history (foldl spec_cmd s cmds) = history s.
Proof. revert s. induction cmds as [|[] cmds IH]; intros s; cbn; rewrite ?IH; done. Qed.

Lemma fires_history due s : history (foldl (spec_fire callback) s due) = history s ++ due.*1.
Proof.
  revert s. induction due as [|d due IH]; intros s; cbn [foldl]; [by rewrite app_nil_r|].
  rewrite IH. unfold spec_fire. rewrite cmds_history. cbn. by rewrite <- app_assoc.
Qed.

(** A timer that is not pending and will not be. *)
Definition gone (id : Z) (s : tq_spec) : Prop :=
  pending s !! id = None ∧ running s !! id = None ∧ id < next_id s ∧ ∀ e, SAdd id e ∉ queue s.

Lemma gone_cmd id c s : gone id s → gone id (spec_cmd s c).
Proof.
  intros (Hp & Hr & Hn & Hq). destruct c as [cb when interval|id']; unfold gone; cbn.
  - rewrite lookup_insert_ne by lia. split_and!; try done. lia.
  - rewrite !lookup_delete_None. auto.
Qed.

Lemma gone_cmds id cmds s : gone id s → gone id (foldl spec_cmd s cmds).
Proof. revert s. induction cmds as [|c cmds IH]; intros s Hg; [done|]. by apply IH, gone_cmd. Qed.

Lemma gone_fires id due s : gone id s → gone id (foldl (spec_fire callback) s due).
Proof.
  revert s. induction due as [|d due IH]; intros s Hg; [done|]. cbn [foldl].
  apply IH. by apply gone_cmds.
Qed.

Lemma rearmed_None now m (id : Z) : m !! id = None → rearmed now m !! id = None.
Proof.
  intros H. unfold rearmed. rewrite lookup_fmap, fmap_None.
  apply map_lookup_filter_None. by left.
Qed.

(** What has left [pending] and [running] after the callbacks stays out. *)
Lemma gone_tick_end now id s :
  gone id s →
  gone id (mkSpec (pending s ∪ rearmed now (running s)) ∅ (next_id s) (queue s) (history s)).
Proof.
  intros (Hp & Hr & Hn & Hq). split_and!; try done. cbn.
  apply lookup_union_None. split; [done|]. by apply rearmed_None.
Qed.

Lemma due_order_elem now due m id e : due_order now due m → (id, e) ∈ due → m !! id = Some e.
Proof.
  intros [Hp _] Hin. rewrite Hp, elem_of_map_to_list in Hin.
  by apply map_lookup_filter_Some in Hin as [? _].
Qed.

Lemma gone_step now o id s s' :
  spec_step callback now o s s' → gone id s →
  gone id s' ∧ ∃ l, history s' = history s ++ l ∧ id ∉ l.
Proof.
  intros Hs Hg. destruct Hs as [in_loop cb when interval s|id' s|id' s|s|due s Hd].
  - split; [|exists []; split; [by destruct in_loop; cbn; rewrite app_nil_r|set_solver]].
    destruct in_loop; [by apply (gone_cmd id (CmdAdd cb when interval))|].
    destruct Hg as (Hp & Hr & Hn & Hq). unfold gone. cbn. split_and!; try done; [lia|].
    intros e Hin. apply elem_of_app in Hin as [Hin|Hin]; [by apply (Hq e)|].
    apply list_elem_of_singleton in Hin. injection Hin as ->. lia.
  - split; [by apply (gone_cmd id (CmdCancel id'))|].
    exists []. split; [by cbn; rewrite app_nil_r|set_solver].
  - split; [|exists []; split; [by cbn; rewrite app_nil_r|set_solver]].
    destruct Hg as (Hp & Hr & Hn & Hq). unfold gone. cbn. split_and!; try done.
    intros e Hin. apply elem_of_app in Hin as [Hin|Hin]; [by apply (Hq e)|].
    by apply list_elem_of_singleton in Hin.
  - unfold spec_run_functor. destruct Hg as (Hp & Hr & Hn & Hq).
    destruct (queue s) as [|f fs] eqn:Eq.
    { split; [unfold gone; by rewrite Eq|]. exists []. split; [by rewrite app_nil_r|set_solver]. }
    assert (∀ e, SAdd id e ∉ fs) as Hfs by (intros e Hin; apply (Hq e); by right).
    destruct f as [id' e'|id']; (split; [|exists []; split; [by cbn; rewrite app_nil_r|set_solver]]);
      unfold gone; cbn.
    + split_and!; try done. rewrite lookup_insert_ne; [done|]. intros ->. apply (Hq e'). left.
    + rewrite !lookup_delete_None. auto.
  - assert (id ∉ due.*1) as Hni.
    { intros Hin. apply list_elem_of_fmap in Hin as ([? e] & -> & Hin).
      destruct Hg as (Hp & _). cbn in Hp. rewrite (due_order_elem _ _ _ _ _ Hd Hin) in Hp. done. }
    unfold spec_tick. split.
    + apply gone_tick_end, gone_fires. destruct Hg as (Hp & Hr & Hn & Hq). split_and!; try done; cbn.
      * apply map_lookup_filter_None. by left.
      * by apply not_elem_of_list_to_map.
    + exists due.*1. cbn [history]. by rewrite fires_history.
Qed.

Lemma gone_run ops id s s' :
  spec_run ops s s' → gone id s → ∃ l, history s' = history s ++ l ∧ id ∉ l.
Proof.
  induction 1 as [s|o ops now s1 s2 s3 Hs _ IH]; intros Hg.
  { exists []. split; [by rewrite app_nil_r|set_solver]. }
  destruct (gone_step _ _ _ _ _ Hs Hg) as (Hg2 & l1 & E1 & Hl1).
  destruct (IH Hg2) as (l2 & E2 & Hl2). exists (l1 ++ l2).
  rewrite E2, E1, app_assoc. split; [done|]. by rewrite not_elem_of_app.
Qed.

(** C9: any sequence of additions and cancellations (from the loop thread or
    queued by others), of queued tasks and of timer events succeeds from the
    empty queue, no assertion failing; it follows the abstract timer set
    step by step, and between the operations [timers_] is sorted,
    [active_timers_] is its index, identifiers and addresses are distinct,
    and the descriptor is armed to expire by the first expiration. *)
Theorem timer_queue_refines ops :
  Forall op_ok ops →
  ∃ q, run_ops ops TimerQueue_new = Ok q ∧ spec_run ops spec_new (alpha q) ∧ tq_wf q ∧
    is_executing_timers_ q = false.
Proof.
  intros Hok. destruct (tq_run_ops_spec ops TimerQueue_new Hok TimerQueue_new_idle) as (q & E & [] & Hs).
  exists q. done.
Qed.

(** C12: when the descriptor expires, exactly the timers that are due at the
    time read run, the earliest first, and afterwards the others are pending
    as before together with those the callbacks added and with the repeating
    ones that were not cancelled, at [now] plus their interval. *)
Theorem handle_read_fires_due ops q :
  Forall op_ok ops → run_ops ops TimerQueue_new = Ok q →
  ∃ q' due, HandleRead clock alloc callback true q = Ok q' ∧
    due_order (clock (ticks q)) due (keyed entry_of (timers_ q)) ∧
    fired q' = fired q ++ due.*1 ∧
    alpha q' = spec_tick callback (clock (ticks q)) due (alpha q).
Proof.
  intros Hok Hr. destruct (tq_run_ops_spec ops TimerQueue_new Hok TimerQueue_new_idle) as (q0 & E & [Hw Hx] & _).
  rewrite Hr in E. injection E as <-.
  destruct (HandleRead_spec q Hw Hx) as (q' & due & E & _ & _ & Hd & Ha).
  exists q', due. split_and!; [done|done| |done].
  change (fired q') with (history (alpha q')). rewrite Ha. unfold spec_tick. cbn [history].
  by rewrite fires_history.
Qed.

Lemma queue_no_add id q :
  (∀ t, FAddTimerInLoop t ∈ functors_ q → sequence_ t ≠ id) → ∀ e, SAdd id e ∉ queue (alpha q).
Proof.
  intros Hn e Hin. apply list_elem_of_fmap in Hin as ([t|] & E & Hin); [|done].
  injection E as -> _. by apply (Hn t).
Qed.

Lemma gone_cmds_cancel id cmds s :
  CmdCancel id ∈ cmds → id < next_id s → (∀ e, SAdd id e ∉ queue s) → gone id (foldl spec_cmd s cmds).
Proof.
  revert s. induction cmds as [|c cmds IH]; intros s Hin Hn Hq; [by apply not_elem_of_nil in Hin|].
  apply elem_of_cons in Hin as [<-|Hin]; cbn [foldl].
  - apply gone_cmds. split_and!; cbn; try done; apply lookup_delete_eq.
  - apply IH; [done| |]; destruct c; cbn; try done. lia.
Qed.

Lemma cmds_mono cmds s :
  queue (foldl spec_cmd s cmds) = queue s ∧ next_id s <= next_id (foldl spec_cmd s cmds).
Proof.
  revert s. induction cmds as [|c cmds IH]; intros s; [done|]. cbn [foldl].
  destruct (IH (spec_cmd s c)) as [-> Hle]. destruct c; cbn in *; split; try done; lia.
Qed.

Lemma fire_mono s d :
  queue (spec_fire callback s d) = queue s ∧ next_id s <= next_id (spec_fire callback s d).
Proof.
  unfold spec_fire. match goal with |- context [foldl spec_cmd ?a ?b] => apply (cmds_mono b a) end.
Qed.

Lemma gone_fires_cancel id d due s :
  d ∈ due → (∀ h, CmdCancel id ∈ callback (e_cb d.2) h) → id < next_id s →
  (∀ e, SAdd id e ∉ queue s) → gone id (foldl (spec_fire callback) s due).
Proof.
  intros Hin Hc. revert s. induction due as [|d' due IH]; intros s Hn Hq; [by apply not_elem_of_nil in Hin|].
  apply elem_of_cons in Hin as [<-|Hin]; cbn [foldl].
  - apply gone_fires. apply gone_cmds_cancel; [apply Hc|done|done].
  - destruct (fire_mono s d') as [Eq Hle]. apply IH; [done|lia|by rewrite Eq].
Qed.

Lemma due_elem now due q id :
  tq_wf q → due_order now due (pending (alpha q)) →
  id ∈ due.*1 ↔ ∃ u, u ∈ timers_ q ∧ sequence_ u = id ∧ expiration_ u <= now.
Proof.
  intros Hw [Hp _]. pose proof (tq_inv_nodup _ _ _ _ (wf_inv q Hw)) as Hnd. rewrite list_elem_of_fmap. split.
  - intros ([i e] & -> & Hin). rewrite Hp, elem_of_map_to_list in Hin. apply map_lookup_filter_Some in Hin as [Hin He].
    apply keyed_lookup_Some in Hin as (u & Hu & <- & <-). by exists u.
  - intros (u & Hu & <- & He). exists (sequence_ u, entry_of u). split; [done|]. rewrite Hp, elem_of_map_to_list.
    apply map_lookup_filter_Some. split; [|done]. by apply keyed_lookup_2.
Qed.

(** A timer cancelled by a callback of the timers that are due: the batch
    goes on, and then it is gone. *)
Lemma batch_cancel ops2 id q t :
  Forall op_ok ops2 → tq_idle q → t ∈ timers_ q → expiration_ t <= clock (ticks q) →
  (∀ h, CmdCancel id ∈ callback (cb_ t) h) → id < s_num_created_ q →
  (∀ f, FAddTimerInLoop f ∈ functors_ q → sequence_ f ≠ id) →
  ∃ q1 q2 l1 l2, HandleRead clock alloc callback true q = Ok q1 ∧ run_ops ops2 q1 = Ok q2 ∧
    fired q1 = fired q ++ l1 ∧ NoDup l1 ∧
    (id ∈ l1 ↔ ∃ u, u ∈ timers_ q ∧ sequence_ u = id ∧ expiration_ u <= clock (ticks q)) ∧
    fired q2 = fired q1 ++ l2 ∧ id ∉ l2.
Proof.
  intros Hok2 [Hw Hx] Ht He Hc Hid Hn.
  destruct (HandleRead_spec q Hw Hx) as (q1 & due & E1 & Hw1 & Hx1 & Hd & Ha1).
  destruct (tq_run_ops_spec ops2 q1 Hok2 (conj Hw1 Hx1)) as (q2 & E2 & _ & Hs2).
  assert ((sequence_ t, entry_of t) ∈ due) as Hin.
  { destruct Hd as [Hp _]. rewrite Hp, elem_of_map_to_list. apply map_lookup_filter_Some.
    split; [|done]. apply keyed_lookup_2; [|done]. apply (tq_inv_nodup _ _ _ _ (wf_inv q Hw)). }
  assert (gone id (alpha q1)) as Hg.
  { rewrite Ha1. apply gone_tick_end. eapply gone_fires_cancel; [exact Hin|exact Hc|done|by apply queue_no_add]. }
  destruct (gone_run _ _ _ _ Hs2 Hg) as (l2 & El & Hl2).
  exists q1, q2, due.*1, l2. split_and!; try done.
  - change (fired q1) with (history (alpha q1)). rewrite Ha1. unfold spec_tick. cbn [history].
    by rewrite fires_history.
  - destruct Hd as [Hp _]. rewrite Hp. apply NoDup_fst_map_to_list.
  - by apply due_elem.
Qed.

(** C13: a timer that is cancelled does not run again, unless its addition is
    still queued by another thread.  Cancelled in the loop thread between two
    events, it never runs, whatever happens next.  Cancelled by the callback
    of a timer that is due (its own or another), it runs in the batch of that
    callback exactly if it was due in it, be it before or after the
    cancellation, once, and never after that batch, also if it repeats. *)
Theorem cancelled_never_fires ops1 ops2 id q :
  Forall op_ok ops1 → Forall op_ok ops2 → run_ops ops1 TimerQueue_new = Ok q →
  id < s_num_created_ q → (∀ t, FAddTimerInLoop t ∈ functors_ q → sequence_ t ≠ id) →
  (∃ q1 q2 l, Cancel true id q = Ok q1 ∧ run_ops ops2 q1 = Ok q2 ∧ fired q2 = fired q ++ l ∧ id ∉ l) ∧
  (∀ t, t ∈ timers_ q → expiration_ t <= clock (ticks q) → (∀ h, CmdCancel id ∈ callback (cb_ t) h) →
   ∃ q1 q2 l1 l2, HandleRead clock alloc callback true q = Ok q1 ∧ run_ops ops2 q1 = Ok q2 ∧
     fired q1 = fired q ++ l1 ∧ NoDup l1 ∧
     (id ∈ l1 ↔ ∃ u, u ∈ timers_ q ∧ sequence_ u = id ∧ expiration_ u <= clock (ticks q)) ∧
     fired q2 = fired q1 ++ l2 ∧ id ∉ l2).
Proof.
  intros Hok1 Hok2 Hr Hid Hn.
  destruct (tq_run_ops_spec ops1 TimerQueue_new Hok1 TimerQueue_new_idle) as (q0 & E & [Hw Hx] & _).
  rewrite Hr in E. injection E as <-. split; [|intros t Ht He Hc; by apply (batch_cancel ops2 id q t)].
  destruct (Cancel_spec true id q Hw) as (q1 & E1 & Hw1 & Hx1 & _ & Ha1).
  destruct (tq_run_ops_spec ops2 q1 Hok2) as (q2 & E2 & _ & Hs2); [by split; congruence|].
  assert (gone id (alpha q1)) as Hg.
  { rewrite Ha1. split_and!; cbn; [apply lookup_delete_eq..|done|by apply queue_no_add]. }
  destruct (gone_run _ _ _ _ Hs2 Hg) as (l & El & Hl). exists q1, q2, l.
  split_and!; try done. change (fired q2) with (history (alpha q2)). rewrite El, Ha1. done.
Qed.
End operations.

(** ** Runs of the model *)

(** A clock that advances by 1ms a reading, an allocator, half a second, and
    callbacks: timer function 1 cancels identifier 0 and adds a timer. *)
Definition demo_clock (n : nat) : Z := 1000000 + 1000 * Z.of_nat n.
Definition demo_alloc (l : list Z) : Z := foldr Z.max 0 l + 1.
Definition demo_half : double := ddiv (double_of_Z 1) (double_of_Z 2).
Definition demo_callback (cb : Z) (_ : list Z) : list tq_cmd :=
  if cb =? 1 then [CmdCancel 0; CmdAdd 2 5000000 demo_half] else [].

Lemma demo_clock_pos n : 0 < demo_clock n.
Proof. unfold demo_clock. lia. Qed.

Lemma demo_alloc_fresh l : demo_alloc l ∉ l.
Proof.
  assert (∀ x, x ∈ l → x <= foldr Z.max 0 l) as H.
  { induction l as [|y l IH]; intros x Hx; [by apply not_elem_of_nil in Hx|].
    apply elem_of_cons in Hx as [->|Hx]; cbn; [lia|]. specialize (IH x Hx). lia. }
  intros Hin. apply H in Hin. unfold demo_alloc in Hin. lia.
Qed.

Lemma demo_half_ok : interval_ok demo_half.
Proof. intros _. by vm_compute. Qed.

Lemma demo_callback_ok cb h : Forall cmd_ok (demo_callback cb h).
Proof.
  unfold demo_callback. destruct (cb =? 1); [|constructor].
  repeat constructor. by apply demo_half_ok.
Qed.

(** A repeating timer whose callback cancels it, one that does not, and a
    cancellation queued by another thread. *)
Definition demo_ops : list tq_op :=
  [OpAdd true 1 1000500 demo_half; OpAdd false 3 1000200 demo_half; OpRunFunctor;
   OpCancel false 5].

Lemma demo_ops_ok : Forall op_ok demo_ops.
Proof. repeat (constructor || apply demo_half_ok); try done. Qed.

Abbreviation demo_run := (run_ops demo_clock demo_alloc demo_callback).

Lemma timer_queue_refines_witness :
  Forall op_ok (demo_ops ++ [OpHandleRead]) ∧
  ∃ q, demo_run (demo_ops ++ [OpHandleRead]) TimerQueue_new = Ok q ∧ fired q = [1; 0] ∧
    (sequence_ <$> timers_ q) = [1; 2] ∧ tq_wf q.
Proof.
  assert (Forall op_ok (demo_ops ++ [OpHandleRead])) as Hok.
  { apply Forall_app. split; [exact demo_ops_ok|]. repeat constructor. }
  split; [exact Hok|].
  destruct (timer_queue_refines demo_clock demo_alloc demo_callback demo_alloc_fresh demo_clock_pos
              demo_callback_ok _ Hok) as (q & E & _ & Hw & _).
  exists q. split; [exact E|]. vm_compute in E. injection E as <-. split; [reflexivity|].
  split; [reflexivity|exact Hw].
Defined.

Lemma handle_read_fires_due_witness :
  ∃ q q' (due : list (Z * entry)), demo_run demo_ops TimerQueue_new = Ok q ∧
    HandleRead demo_clock demo_alloc demo_callback true q = Ok q' ∧ fired q' = fired q ++ due.*1.
Proof.
  destruct (demo_run demo_ops TimerQueue_new) as [q|f] eqn:E; [|vm_compute in E; discriminate].
  destruct (handle_read_fires_due demo_clock demo_alloc demo_callback demo_alloc_fresh demo_clock_pos
              demo_callback_ok demo_ops q demo_ops_ok E) as (q' & due & E' & _ & Ef & _).
  exists q, q', due. auto.
Defined.

(** Two timers due together; the callback of the first cancels the second. *)
Definition demo_batch : list tq_op := [OpAdd true 3 1000500 demo_half; OpAdd true 1 1000200 demo_half].

Lemma demo_batch_ok : Forall op_ok demo_batch.
Proof. repeat (constructor || apply demo_half_ok); try done. Qed.

Lemma cancelled_never_fires_witness :
  (∃ q q1 q2 l, demo_run demo_ops TimerQueue_new = Ok q ∧ Cancel true 1 q = Ok q1 ∧
    demo_run [OpHandleRead] q1 = Ok q2 ∧ fired q2 = fired q ++ l ∧ 1 ∉ l) ∧
  (∃ q q1 q2 l1 l2, demo_run demo_batch TimerQueue_new = Ok q ∧
    HandleRead demo_clock demo_alloc demo_callback true q = Ok q1 ∧ demo_run [OpHandleRead] q1 = Ok q2 ∧
    fired q1 = l1 ∧ l1 = [1; 0] ∧ fired q2 = fired q1 ++ l2 ∧ 0 ∉ l2).
Proof.
  split.
  - destruct (demo_run demo_ops TimerQueue_new) as [q|f] eqn:E; [|vm_compute in E; discriminate].
    assert (1 < s_num_created_ q ∧ functors_ q = [FCancelTimerInLoop 5]) as [Hn Hf].
    { vm_compute in E. injection E as <-. by vm_compute. }
    destruct (cancelled_never_fires demo_clock demo_alloc demo_callback demo_alloc_fresh demo_clock_pos
                demo_callback_ok demo_ops [OpHandleRead] 1 q demo_ops_ok) as [(q1 & q2 & l & H) _];
      [repeat constructor|exact E|exact Hn| |].
    + intros t. rewrite Hf. intros Hin. apply list_elem_of_singleton in Hin. discriminate.
    + exists q, q1, q2, l. auto.
  - destruct (demo_run demo_batch TimerQueue_new) as [q|f] eqn:E; [|vm_compute in E; discriminate].
    assert (∃ t, t ∈ timers_ q ∧ cb_ t = 1 ∧ expiration_ t <= demo_clock (ticks q) ∧ 0 < s_num_created_ q ∧
      functors_ q = [] ∧ fired q = []) as (t & Ht & Ec & He & Hn & Hf & Hfi).
    { vm_compute in E. injection E as <-. eexists. split; [left|]. by vm_compute. }
    destruct (cancelled_never_fires demo_clock demo_alloc demo_callback demo_alloc_fresh demo_clock_pos
                demo_callback_ok demo_batch [OpHandleRead] 0 q demo_batch_ok) as [_ H];
      [repeat constructor|exact E|exact Hn|intros f; rewrite Hf; by intros ?%not_elem_of_nil|].
    destruct (H t Ht He) as (q1 & q2 & l1 & l2 & E1 & E2 & F1 & _ & _ & F2 & Hl).
    + intros h. rewrite Ec. left.
    + exists q, q1, q2, l1, l2. rewrite Hfi in F1. split_and!; try done.
      vm_compute in E. injection E as <-. vm_compute in E1. injection E1 as <-. vm_compute in F1. exact (eq_sym F1).
Defined.

(** A cancellation made in the loop thread while the addition is still queued
    by another thread is lost: the timer runs later. *)
Lemma queued_add_not_cancelled :
  ∃ q, demo_run [OpAdd false 3 1000 demo_half; OpCancel true 0; OpRunFunctor; OpHandleRead]
         TimerQueue_new = Ok q ∧ fired q = [0].
Proof. eexists. split; vm_compute; reflexivity. Qed.
