(* ===== verification/ByteQueue.v ===== *)
(** What a connection asks of its buffers, as a type class, and the chained
    buffer's instance.  The laws speak of the queue of bytes only. *)

From S2P Require Import Prelude ChainBuffer.

Class ByteQueue (Q : Type) := {
  bq_new : Q;
  bq_readable : Q → nat;
  bq_append : Q → bytes → nat → res Q;
  bq_append_queue : Q → Q → res Q;
  bq_peek_all : Q → res bytes;
  bq_retrive : Q → nat → res Q;
  bq_readfd : readv_fn → Q → res (Z * option Z * Q);
  bq_writefd : writev_fn → Q → res (Z * option Z * bytes * Q)
}.

(** Reading appends what the kernel delivers, or nothing on an error;
    writing removes the prefix the kernel takes. *)
Inductive read_outcome (content : bytes) : Z → option Z → bytes → Prop :=
  | read_error e : read_outcome content (-1) (Some e) content
  | read_data d : read_outcome content (Z.of_nat (length d)) None (content ++ d).

Inductive write_outcome (content : bytes) : Z → option Z → bytes → bytes → Prop :=
  | write_error e : write_outcome content (-1) (Some e) [] content
  | write_data n : n ≤ length content →
      write_outcome content (Z.of_nat n) None (take n content) (drop n content).

Class ByteQueueLaws (Q : Type) `{ByteQueue Q} := {
  bq_wf : Q → Prop;
  bq_content : Q → bytes;
  bq_new_law : bq_wf bq_new ∧ bq_content bq_new = [];
  bq_readable_law q : bq_wf q → bq_readable q = length (bq_content q);
  bq_append_law q d n : bq_wf q → n ≤ length d →
    ∃ q', bq_append q d n = Ok q' ∧ bq_wf q' ∧ bq_content q' = bq_content q ++ take n d;
  bq_overread_law q d n : bq_wf q → length d < n → bq_append q d n = Fault OutOfBounds;
  bq_append_queue_law q s : bq_wf q → bq_wf s →
    ∃ q', bq_append_queue q s = Ok q' ∧ bq_wf q' ∧ bq_content q' = bq_content q ++ bq_content s;
  bq_peek_all_law q : bq_wf q → bq_peek_all q = Ok (bq_content q);
  bq_retrive_law q n : bq_wf q → n ≤ length (bq_content q) →
    ∃ q', bq_retrive q n = Ok q' ∧ bq_wf q' ∧ bq_content q' = drop n (bq_content q);
  bq_readfd_law readv q : bq_wf q → readv_ok readv →
    ∃ n err q', bq_readfd readv q = Ok (n, err, q') ∧ bq_wf q' ∧
      read_outcome (bq_content q) n err (bq_content q');
  bq_writefd_law writev q : bq_wf q → writev_ok writev →
    ∃ n err out q', bq_writefd writev q = Ok (n, err, out, q') ∧ bq_wf q' ∧
      write_outcome (bq_content q) n err out (bq_content q')
}.

#[export] Instance ChainBuffer_queue : ByteQueue ChainBuffer := {|
  bq_new := ChainBuffer_new;
  bq_readable := ReadableBytes;
  bq_append := Append;
  bq_append_queue := AppendChain;
  bq_peek_all := PeekAllAsString;
  bq_retrive := Retrive;
  bq_readfd := ReadFd;
  bq_writefd := WriteFd
|}.

Lemma ReadFd_outcome readv b :
  wf b → readv_ok readv →
  ∃ n err b', ReadFd readv b = Ok (n, err, b') ∧ wf b' ∧ read_outcome (content b) n err (content b').
Proof.
  intros Hwf Hok. destruct (ReadFd_spec readv b Hwf Hok) as (r & E & Hr).
  destruct (readv _) as [e|d].
  - subst r. eexists _, _, _. split; [exact E|]. split; [done|constructor].
  - destruct Hr as (b' & -> & Hwf' & Hc). eexists _, _, _. split; [exact E|].
    split; [done|]. rewrite Hc. constructor.
Qed.

Lemma WriteFd_outcome writev b :
  wf b → writev_ok writev →
  ∃ n err out b', WriteFd writev b = Ok (n, err, out, b') ∧ wf b' ∧
    write_outcome (content b) n err out (content b').
Proof.
  intros Hwf Hok. destruct (WriteFd_spec writev b Hwf Hok) as (vec & Hp & _ & Hr).
  destruct (writev vec) as [e|n].
  - eexists _, _, _, _. split; [exact Hr|]. split; [done|constructor].
  - destruct Hr as (b' & E & Hn & Hwf' & Hc). eexists _, _, _, _. split; [exact E|].
    split; [done|]. rewrite Hc. constructor. etransitivity; [exact Hn|].
    by apply prefix_length.
Qed.

(** Appending more than the memory at the source pointer holds. *)
Lemma Append_loop_overread fuel b data len :
  len < fuel → length data < len →
  Forall (λ x, length x = kBufferSize) (buffers_ b) →
  write_buffer_ b < length (buffers_ b) → write_pos_ b < kBufferSize →
  Append_loop fuel b data len = Fault OutOfBounds.
Proof.
  revert b data len. induction fuel as [|fuel IH]; intros b data len Hf Hd Hbl Hw Hp; [lia|].
  simpl. rewrite decide_True by lia. destruct (block_lookup _ Hbl _ Hw) as (blk & E & Hb).
  unfold block_at. rewrite E. cbn [mbind res_bind deref]. rewrite Hb.
  destruct (decide (len < kBufferSize - write_pos_ b)) as [Hn|Hn].
  - unfold read_mem. rewrite decide_False by lia. reflexivity.
  - set (m := kBufferSize - write_pos_ b) in *.
    destruct (decide (m ≤ length data)) as [Hm|Hm];
      [|unfold read_mem; rewrite (decide_False (P := m ≤ length data)) by done; reflexivity].
    rewrite read_mem_ok by done. cbn [mbind res_bind].
    set (bl0 := if decide _ then _ else _).
    assert (Forall (λ x, length x = kBufferSize) bl0 ∧ S (write_buffer_ b) < length bl0) as [Hbl0 Hlen0].
    { unfold bl0. case_decide; [|split; [done|lia]]. split; [by apply (extend_blocks true)|].
      rewrite length_app; simpl; lia. }
    destruct (memcpy_block_spec bl0 (write_buffer_ b) (write_pos_ b) (take m data))
      as (bl' & -> & Hbl' & Hlen' & _); [done|lia|rewrite length_take; lia|]. cbn [mbind res_bind].
    pose proof kBufferSize_pos. apply IH; simpl; rewrite ?length_drop; try done; lia.
Qed.

Lemma Append_overread b data len :
  wf b → length data < len → Append b data len = Fault OutOfBounds.
Proof. intros [] ?. apply Append_loop_overread; simpl; done || lia. Qed.

#[export] Instance ChainBuffer_laws : ByteQueueLaws ChainBuffer := {|
  bq_wf := wf;
  bq_content := content;
  bq_new_law := ChainBuffer_new_wf;
  bq_readable_law b H := eq_sym (content_length b H);
  bq_append_law b d n H := Append_spec b d n H;
  bq_overread_law := Append_overread;
  bq_append_queue_law := AppendChain_spec;
  bq_peek_all_law := PeekAll_spec;
  bq_retrive_law b n H Hn := Retrive_spec b n H (eq_ind _ _ Hn _ (content_length b H));
  bq_readfd_law := ReadFd_outcome;
  bq_writefd_law := WriteFd_outcome
|}.

(** The reference implementation: the queue is the list of its bytes. *)
#[export] Instance bytes_queue : ByteQueue bytes := {|
  bq_new := [];
  bq_readable := length;
  bq_append q d n := src ← read_mem d n; Ok (q ++ src);
  bq_append_queue q s := Ok (q ++ s);
  bq_peek_all := Ok;
  bq_retrive q n := if decide (n ≤ length q) then Ok (drop n q) else Fault AssertFail;
  bq_readfd readv q :=
    match readv [ExtraSpace] with
    | ReadvErr e => Ok ((-1)%Z, Some e, q)
    | ReadvData d => Ok (Z.of_nat (length d), None, q ++ d)
    end;
  bq_writefd writev q :=
    match writev q with
    | WritevErr e => Ok ((-1)%Z, Some e, [], q)
    | WritevN n => Ok (Z.of_nat n, None, take n q, drop n q)
    end
|}.

#[export] Program Instance bytes_laws : ByteQueueLaws bytes := {|
  bq_wf _ := True;
  bq_content q := q
|}.
Next Obligation. done. Qed.
Next Obligation. done. Qed.
Next Obligation. intros q d n _ Hn. cbn. rewrite read_mem_ok by done. by eexists. Qed.
Next Obligation. intros q d n _ Hn. cbn. unfold read_mem. by rewrite decide_False by lia. Qed.
Next Obligation. intros q s _ _. by eexists. Qed.
Next Obligation. done. Qed.
Next Obligation. intros q n _ Hn. cbn. rewrite decide_True by done. by eexists. Qed.
Next Obligation.
  intros readv q _ Hok. cbn. destruct (readv _) as [e|d]; eexists _, _, _; split_and!; constructor.
Qed.
Next Obligation.
  intros writev q _ Hok. cbn. destruct (writev q) as [e|n] eqn:E; eexists _, _, _, _; split_and!;
    try constructor. by apply Hok.
Qed.
