(* ===== verification/BufferTest.v ===== *)
(** The test of the buffer, [net/test/buffer_test.cc], as a program over the
    chained buffer.  Standard output takes what it is given; the file that is
    read back holds any bytes, and a read delivers as many of them as there is
    room for. *)

From S2P Require Import Prelude ChainBuffer.

Definition newline : bytes := ["010"%char].

Fixpoint repeat_bytes (n : nat) (d : bytes) : bytes := match n with 0 => [] | S n => d ++ repeat_bytes n d end.

(** [message], without its NUL. *)
Definition message : bytes := repeat_bytes 26 (B "This is not a test!!!") ++ B "END".

(** The loops that append the message [n] times. *)
Fixpoint append_times (message : bytes) (n : nat) (b : ChainBuffer) : res ChainBuffer :=
  match n with
  | 0 => Ok b
  | S n => b ← Append b message (length message); append_times message n b
  end.

Definition terminal : writev_fn := λ d, WritevN (length d).

(** [main] up to the file: what [std::cout], the log and descriptor 1 get. *)
Definition test_head (message : bytes) : res (ChainBuffer * list bytes) :=
  b ← Append ChainBuffer_new message (length message);
  _ ← assert (bool_decide (ReadableBytes b = length message));
  '(logged, b) ← RetriveAllAsString b;
  _ ← assert (bool_decide (ReadableBytes b = 0));
  b ← append_times message 10 b;
  peeked ← PeekAllAsString b;
  _ ← assert (bool_decide (ReadableBytes b = 10 * length message));
  let b := RetriveAll b in
  _ ← assert (bool_decide (ReadableBytes b = 0));
  '(n, _, nothing, b) ← WriteFd terminal b;
  _ ← assert (bool_decide (n = 0%Z));
  b ← append_times message 10 b;
  '(n, _, written, b) ← WriteFd terminal b;
  _ ← assert (bool_decide (n ≠ 0%Z));
  _ ← assert (bool_decide (ReadableBytes b = 0));
  Ok (RetriveAll b, [logged; peeked ++ newline; nothing; written]).

(** A regular file of which [rest] is left. *)
Definition read_file (rest : bytes) : readv_fn := λ lens, ReadvData (take (sum_list lens) rest).

(** The loop that reads the file and prints it; [fuel] bounds the reads. *)
Fixpoint read_loop (fuel : nat) (rest : bytes) (b : ChainBuffer) : res (Z * ChainBuffer * list bytes) :=
  match fuel with
  | 0 => Fault OutOfFuel
  | S fuel =>
      '(ret, _, b) ← ReadFd (read_file rest) b;
      if decide (0 < ret)%Z then
        '(s, b) ← RetriveAllAsString b;
        '(ret, b, out) ← read_loop fuel (drop (Z.to_nat ret) rest) b; Ok (ret, b, (s ++ newline) :: out)
      else Ok (ret, b, [])
  end.

Definition test_main (text_input : bytes) : res (list bytes) :=
  '(b, out) ← test_head message;
  '(ret, b, out') ← read_loop (S (length text_input)) text_input b;
  _ ← assert (bool_decide (0 ≤ ret)%Z);
  let b := RetriveAll b in
  Ok (out ++ out').

(** ** The test passes *)

Definition prints (out : list bytes) (r : res (ChainBuffer * list bytes)) : bool :=
  match r with Ok (_, out') => bool_decide (out' = out) | Fault _ => false end.

Lemma prints_ok out r : prints out r = true → ∃ b, r = Ok (b, out).
Proof. destruct r as [[b out']|]; [|done]. cbn. intros ->%bool_decide_eq_true. by exists b. Qed.

Lemma test_head_runs : ∃ b, test_head message =
  Ok (b, [message; repeat_bytes 10 message ++ newline; []; repeat_bytes 10 message]).
Proof. apply prints_ok. vm_compute. reflexivity. Qed.

Lemma append_times_wf message n : ∀ b b', wf b → append_times message n b = Ok b' → wf b'.
Proof.
  induction n as [|n IH]; intros b b' Hb E; [by injection E as <-|]. cbn [append_times] in E.
  destruct (Append_spec b message (length message) Hb (le_n _)) as (b1 & E1 & H1 & _). rewrite E1 in E. by apply (IH b1).
Qed.

Lemma retrive_all_string b : wf b → RetriveAllAsString b = Ok (content b, RetriveAll b).
Proof. intros Hb. unfold RetriveAllAsString. by rewrite PeekAll_spec. Qed.

Lemma terminal_ok : writev_ok terminal.
Proof. intros d n [= <-]. lia. Qed.

Lemma WriteFd_terminal_wf b n e d b' : wf b → WriteFd terminal b = Ok (n, e, d, b') → wf b'.
Proof.
  intros Hb E. destruct (WriteFd_spec terminal b Hb terminal_ok) as (vec & _ & _ & H). cbn [terminal] in H.
  destruct H as (b1 & E1 & _ & H1 & _). rewrite E in E1. injection E1 as _ _ _ ->. exact H1.
Qed.

Lemma bind_inv {A C} (m : res A) (k : A → res C) r : m ≫= k = Ok r → ∃ a, m = Ok a ∧ k a = Ok r.
Proof. destruct m as [a|]; [|done]. by exists a. Qed.

Lemma test_head_wf message b out : test_head message = Ok (b, out) → wf b ∧ content b = [].
Proof.
  unfold test_head. destruct ChainBuffer_new_wf as [H0 _]. intros E.
  destruct (Append_spec ChainBuffer_new message (length message) H0 (le_n _)) as (b1 & E1 & H1 & _). rewrite E1 in E.
  cbn [mbind res_bind] in E. apply bind_inv in E as ([] & _ & E). rewrite retrive_all_string in E by done.
  cbn [mbind res_bind] in E. apply bind_inv in E as ([] & _ & E).
  apply bind_inv in E as (b2 & E2 & E). apply append_times_wf in E2; [|by apply RetriveAll_spec].
  rewrite PeekAll_spec in E by done. cbn [mbind res_bind] in E.
  apply bind_inv in E as ([] & _ & E). apply bind_inv in E as ([] & _ & E).
  apply bind_inv in E as ([[[n3 e3] d3] b3] & E3 & E). apply WriteFd_terminal_wf in E3; [|by apply RetriveAll_spec].
  apply bind_inv in E as ([] & _ & E). apply bind_inv in E as (b4 & E4 & E). apply append_times_wf in E4; [|done].
  apply bind_inv in E as ([[[n5 e5] d5] b5] & E5 & E). apply WriteFd_terminal_wf in E5; [|done].
  apply bind_inv in E as ([] & _ & E). apply bind_inv in E as ([] & _ & E). injection E as <- <-. by apply RetriveAll_spec.
Qed.

Lemma read_file_ok rest : readv_ok (read_file rest).
Proof. intros lens d [= <-]. rewrite length_take. lia. Qed.

Lemma take_drop_min {A} (k : nat) (l : list A) : take k l ++ drop (k `min` length l) l = l.
Proof.
  destruct (decide (k ≤ length l)); [rewrite Nat.min_l by lia; apply take_drop|].
  by rewrite Nat.min_r, take_ge, drop_ge, app_nil_r by lia.
Qed.

(** The file is printed in pieces, none of them empty, until its end. *)
Lemma read_loop_spec fuel : ∀ rest b,
  wf b → content b = [] → length rest < fuel →
  ∃ b' pieces, read_loop fuel rest b = Ok (0%Z, b', (λ s, s ++ newline) <$> pieces) ∧
    concat pieces = rest ∧ Forall (λ s, s ≠ []) pieces ∧ wf b'.
Proof.
  induction fuel as [|fuel IH]; intros rest b Hb Hc Hf; [lia|]. cbn [read_loop].
  destruct (ReadFd_spec (read_file rest) b Hb (read_file_ok rest)) as (r & E & Hr). rewrite E. clear E.
  set (lens := map iov_len _ ++ [ExtraSpace]) in Hr. cbn [read_file] in Hr. destruct Hr as (b1 & -> & H1 & C1). cbn [mbind res_bind].
  assert (0 < sum_list lens) as Hs.
  { unfold lens. rewrite sum_list_with_app. unfold ExtraSpace. cbn. lia. }
  rewrite length_take. destruct rest as [|c rest].
  - rewrite Nat.min_0_r. rewrite decide_False by lia. exists b1, []. by split_and!.
  - rewrite decide_True by (cbn; lia). rewrite retrive_all_string by done. cbn [mbind res_bind].
    rewrite Nat2Z.id. destruct (RetriveAll_spec b1 H1) as [H2 C2].
    destruct (IH (drop (sum_list lens `min` length (c :: rest)) (c :: rest)) (RetriveAll b1) H2 C2)
      as (b' & pieces & -> & Ec & Hne & Hw); [rewrite length_drop; cbn in *; lia|].
    cbn [mbind res_bind]. rewrite C1, Hc. exists b', (take (sum_list lens) (c :: rest) :: pieces). cbn [fmap list_fmap concat app].
    split_and!; [done| | |done].
    + rewrite Ec. apply take_drop_min.
    + constructor; [|done]. by destruct (sum_list lens); [lia|].
Qed.

(** Whatever the file holds, no assertion of the test fails, it ends, and it
    prints the message, ten messages twice, and the file in pieces. *)
Theorem buffer_test_passes text_input :
  ∃ pieces, test_main text_input =
    Ok ([message; repeat_bytes 10 message ++ newline; []; repeat_bytes 10 message] ++ ((λ s, s ++ newline) <$> pieces)) ∧
    concat pieces = text_input ∧ Forall (λ s, s ≠ []) pieces.
Proof.
  destruct test_head_runs as [b E]. destruct (test_head_wf _ _ _ E) as [Hb Hc].
  destruct (read_loop_spec (S (length text_input)) text_input b Hb Hc) as (b' & pieces & E' & Hp & Hne & _); [lia|].
  exists pieces. unfold test_main. rewrite E. cbn [mbind res_bind]. rewrite E'. by split_and!.
Qed.
