(* ===== verification/TcpConnection.v ===== *)
(** A connection: [muzi/net/tcp_connection.h] and [tcp_connection.cc].  Its
    buffers are any [ByteQueue]; its channel is the owner's view of the poll
    set.  What the kernel answers to the n-th system call is a parameter, and
    so is [invoke], what the user's callbacks do to the connection: they may
    call it back. *)

From S2P Require Import Prelude ChainBuffer ByteQueue Poller.

(** ** State *)

Inductive ConnectionState := kConnecting | kConnected | kDisConnected | kDisConnecting.
#[export] Instance ConnectionState_eq_dec : EqDecision ConnectionState.
Proof. solve_decision. Defined.

(** A call of a user callback. *)
Inductive cb_event :=
  | EvConnection
  | EvMessage (received_time : Z)
  | EvClose
  | EvWriteComplete
  | EvHighWater (size : nat).
#[export] Instance cb_event_eq_dec : EqDecision cb_event.
Proof. solve_decision. Defined.

(** A member function bound and queued in the loop. *)
Inductive functor :=
  | FForceCloseInLoop
  | FShutDownInLoop
  | FSendInLoop (message : bytes)
  | FStartReadInLoop
  | FStopReadInLoop
  | FSetCloseCallbackInLoop
  | FDestroyConnection.
#[export] Instance functor_eq_dec : EqDecision functor.
Proof. solve_decision. Defined.

(** [kHighWaterMark]: 64 MiB. *)
Definition kHighWaterMark : Z := (64 * 1024 * 1024)%Z.

Record TcpConnection (Q : Type) := mkConn {
  state_ : ConnectionState;
  channel_ : chan_abs;
  is_reading : bool;
  high_water_mark_ : Z;
  input_buffer_ : Q;
  ouput_buffer_ : Q;
  connection_callback_ : bool   (** whether the callback is set, as for the next four *);
  message_callback_ : bool;
  close_callback_ : bool;
  write_complete_callback_ : bool;
  high_water_callback_ : bool;
  in_loop_thread : bool   (** the code runs in the thread of [loop_] *);
  functors_ : list functor   (** tasks queued in [loop_] *);
  delayed_ : nat   (** pending [ForceCloseInLoop] timers *);
  sent : bytes   (** bytes the socket has taken *);
  wr_shutdown : bool   (** [SHUT_WR] was done *);
  trace : list cb_event   (** callbacks called so far *);
  calls : nat   (** system calls made so far *)
}.
Arguments mkConn {Q}.
Arguments state_ {Q} _.
Arguments channel_ {Q} _.
Arguments is_reading {Q} _.
Arguments high_water_mark_ {Q} _.
Arguments input_buffer_ {Q} _.
Arguments ouput_buffer_ {Q} _.
Arguments connection_callback_ {Q} _.
Arguments message_callback_ {Q} _.
Arguments close_callback_ {Q} _.
Arguments write_complete_callback_ {Q} _.
Arguments high_water_callback_ {Q} _.
Arguments in_loop_thread {Q} _.
Arguments functors_ {Q} _.
Arguments delayed_ {Q} _.
Arguments sent {Q} _.
Arguments wr_shutdown {Q} _.
Arguments trace {Q} _.
Arguments calls {Q} _.

Section setters.
Context {Q : Type}.
Implicit Types c : TcpConnection Q.

Definition SetState (v : ConnectionState) c : TcpConnection Q :=
  mkConn v (channel_ c) (is_reading c) (high_water_mark_ c) (input_buffer_ c) (ouput_buffer_ c)
    (connection_callback_ c) (message_callback_ c) (close_callback_ c)
    (write_complete_callback_ c) (high_water_callback_ c) (in_loop_thread c) (functors_ c)
    (delayed_ c) (sent c) (wr_shutdown c) (trace c) (calls c).
Definition set_channel (v : chan_abs) c : TcpConnection Q :=
  mkConn (state_ c) v (is_reading c) (high_water_mark_ c) (input_buffer_ c) (ouput_buffer_ c)
    (connection_callback_ c) (message_callback_ c) (close_callback_ c)
    (write_complete_callback_ c) (high_water_callback_ c) (in_loop_thread c) (functors_ c)
    (delayed_ c) (sent c) (wr_shutdown c) (trace c) (calls c).
Definition set_is_reading (v : bool) c : TcpConnection Q :=
  mkConn (state_ c) (channel_ c) v (high_water_mark_ c) (input_buffer_ c) (ouput_buffer_ c)
    (connection_callback_ c) (message_callback_ c) (close_callback_ c)
    (write_complete_callback_ c) (high_water_callback_ c) (in_loop_thread c) (functors_ c)
    (delayed_ c) (sent c) (wr_shutdown c) (trace c) (calls c).
Definition set_input (v : Q) c : TcpConnection Q :=
  mkConn (state_ c) (channel_ c) (is_reading c) (high_water_mark_ c) v (ouput_buffer_ c)
    (connection_callback_ c) (message_callback_ c) (close_callback_ c)
    (write_complete_callback_ c) (high_water_callback_ c) (in_loop_thread c) (functors_ c)
    (delayed_ c) (sent c) (wr_shutdown c) (trace c) (calls c).
Definition set_output (v : Q) c : TcpConnection Q :=
  mkConn (state_ c) (channel_ c) (is_reading c) (high_water_mark_ c) (input_buffer_ c) v
    (connection_callback_ c) (message_callback_ c) (close_callback_ c)
    (write_complete_callback_ c) (high_water_callback_ c) (in_loop_thread c) (functors_ c)
    (delayed_ c) (sent c) (wr_shutdown c) (trace c) (calls c).
Definition set_close_callback (v : bool) c : TcpConnection Q :=
  mkConn (state_ c) (channel_ c) (is_reading c) (high_water_mark_ c) (input_buffer_ c)
    (ouput_buffer_ c) (connection_callback_ c) (message_callback_ c) v
    (write_complete_callback_ c) (high_water_callback_ c) (in_loop_thread c) (functors_ c)
    (delayed_ c) (sent c) (wr_shutdown c) (trace c) (calls c).
Definition set_thread (v : bool) c : TcpConnection Q :=
  mkConn (state_ c) (channel_ c) (is_reading c) (high_water_mark_ c) (input_buffer_ c)
    (ouput_buffer_ c) (connection_callback_ c) (message_callback_ c) (close_callback_ c)
    (write_complete_callback_ c) (high_water_callback_ c) v (functors_ c) (delayed_ c) (sent c)
    (wr_shutdown c) (trace c) (calls c).
Definition set_functors (v : list functor) c : TcpConnection Q :=
  mkConn (state_ c) (channel_ c) (is_reading c) (high_water_mark_ c) (input_buffer_ c)
    (ouput_buffer_ c) (connection_callback_ c) (message_callback_ c) (close_callback_ c)
    (write_complete_callback_ c) (high_water_callback_ c) (in_loop_thread c) v (delayed_ c)
    (sent c) (wr_shutdown c) (trace c) (calls c).
Definition set_delayed (v : nat) c : TcpConnection Q :=
  mkConn (state_ c) (channel_ c) (is_reading c) (high_water_mark_ c) (input_buffer_ c)
    (ouput_buffer_ c) (connection_callback_ c) (message_callback_ c) (close_callback_ c)
    (write_complete_callback_ c) (high_water_callback_ c) (in_loop_thread c) (functors_ c) v
    (sent c) (wr_shutdown c) (trace c) (calls c).
Definition set_sent (v : bytes) c : TcpConnection Q :=
  mkConn (state_ c) (channel_ c) (is_reading c) (high_water_mark_ c) (input_buffer_ c)
    (ouput_buffer_ c) (connection_callback_ c) (message_callback_ c) (close_callback_ c)
    (write_complete_callback_ c) (high_water_callback_ c) (in_loop_thread c) (functors_ c)
    (delayed_ c) v (wr_shutdown c) (trace c) (calls c).
Definition set_shutdown (v : bool) c : TcpConnection Q :=
  mkConn (state_ c) (channel_ c) (is_reading c) (high_water_mark_ c) (input_buffer_ c)
    (ouput_buffer_ c) (connection_callback_ c) (message_callback_ c) (close_callback_ c)
    (write_complete_callback_ c) (high_water_callback_ c) (in_loop_thread c) (functors_ c)
    (delayed_ c) (sent c) v (trace c) (calls c).
Definition set_trace (v : list cb_event) c : TcpConnection Q :=
  mkConn (state_ c) (channel_ c) (is_reading c) (high_water_mark_ c) (input_buffer_ c)
    (ouput_buffer_ c) (connection_callback_ c) (message_callback_ c) (close_callback_ c)
    (write_complete_callback_ c) (high_water_callback_ c) (in_loop_thread c) (functors_ c)
    (delayed_ c) (sent c) (wr_shutdown c) v (calls c).
Definition set_calls (v : nat) c : TcpConnection Q :=
  mkConn (state_ c) (channel_ c) (is_reading c) (high_water_mark_ c) (input_buffer_ c)
    (ouput_buffer_ c) (connection_callback_ c) (message_callback_ c) (close_callback_ c)
    (write_complete_callback_ c) (high_water_callback_ c) (in_loop_thread c) (functors_ c)
    (delayed_ c) (sent c) (wr_shutdown c) (trace c) v.
End setters.

Section connection.
Context {Q : Type} `{ByteQueue Q}.
(** [write(2)], [readv(2)] and [writev(2)], by the number of the call. *)
Variable sys_write : nat → bytes → writev_result.
Variable sys_readv : nat → readv_fn.
Variable sys_writev : nat → writev_fn.
Variable invoke : cb_event → TcpConnection Q → res (TcpConnection Q).
Implicit Types c : TcpConnection Q.

Definition tick c : TcpConnection Q := set_calls (S (calls c)) c.

(** The constructor; the setters of the callbacks are its last arguments. *)
Definition TcpConnection_new (sock_fd : Z) (on_message on_complete on_high_water : bool) :
    TcpConnection Q :=
  {| state_ := kConnecting; channel_ := mkAbs sock_fd kNoneEvent Fresh; is_reading := true;
     high_water_mark_ := kHighWaterMark; input_buffer_ := bq_new; ouput_buffer_ := bq_new;
     connection_callback_ := true; message_callback_ := on_message; close_callback_ := true;
     write_complete_callback_ := on_complete; high_water_callback_ := on_high_water;
     in_loop_thread := true; functors_ := []; delayed_ := 0; sent := []; wr_shutdown := false;
     trace := []; calls := 0 |}.

Definition AssertInLoopThread c : res unit :=
  if in_loop_thread c then Ok tt else Fault Aborted.

(** Calling a callback is seen in the trace. *)
Definition call_back (ev : cb_event) c : res (TcpConnection Q) :=
  invoke ev (set_trace (trace c ++ [ev]) c).

(** A channel operation on [channel_]. *)
Definition on_channel (f : chan_abs → res chan_abs) c : res (TcpConnection Q) :=
  x ← f (channel_ c); Ok (set_channel x c).

Definition QueueInLoop (f : functor) c : TcpConnection Q := set_functors (functors_ c ++ [f]) c.

Definition HandleClose c : res (TcpConnection Q) :=
  _ ← assert (bool_decide (state_ c = kConnected ∨ state_ c = kDisConnecting));
  _ ← AssertInLoopThread c;
  c ← on_channel chan_disable_all (SetState kDisConnected c);
  c ← call_back EvConnection c;
  call_back EvClose c.

Definition ForceCloseInLoop c : res (TcpConnection Q) :=
  _ ← AssertInLoopThread c;
  if decide (state_ c = kConnected ∨ state_ c = kDisConnecting) then HandleClose c else Ok c.

Definition ShutDownInLoop c : res (TcpConnection Q) :=
  _ ← AssertInLoopThread c;
  Ok (if negb (chan_writting (channel_ c)) then set_shutdown true c else c).

(** The test of the high water mark and the call of its callback. *)
Definition high_water (new_len : nat) c : res (TcpConnection Q) :=
  let old_len := bq_readable (ouput_buffer_ c) in
  if decide ((high_water_mark_ c <= Z.of_nat (old_len + new_len))%Z
             ∧ (Z.of_nat old_len < high_water_mark_ c)%Z ∧ high_water_callback_ c = true)
  then call_back (EvHighWater (old_len + new_len)) c else Ok c.

Definition enable_writting_if_not c : res (TcpConnection Q) :=
  if negb (chan_writting (channel_ c)) then on_channel chan_enable_writting c else Ok c.

(** [SendInLoop(const Buffer &)]. *)
Definition SendInLoop_buffer (buf : Q) c : res (TcpConnection Q) :=
  _ ← AssertInLoopThread c;
  if decide (state_ c = kDisConnected) then Ok c
  else
    c ← high_water (bq_readable buf) c;
    q ← bq_append_queue (ouput_buffer_ c) buf;
    enable_writting_if_not (set_output q c).

(** The direct write: the answer is [written] and [remaining]. *)
Definition write_directly (first : bytes) (len : nat) c : res (nat * nat * TcpConnection Q) :=
  src ← read_mem first len;
  match sys_write (calls c) src with
  | WritevN n =>
      if decide (0 < n) then
        let c := set_sent (sent c ++ take n src) (tick c) in
        c ← (if decide (len - n = 0 ∧ write_complete_callback_ c = true)
             then call_back EvWriteComplete c else Ok c);
        Ok (n, len - n, c)
      else Ok (0, len, tick c)
  | WritevErr _ => Ok (0, len, tick c)
  end.

(** [SendInLoop(const void *first, size_t len)]; [first] is the memory from
    the pointer on. *)
Definition SendInLoop (first : bytes) (len : nat) c : res (TcpConnection Q) :=
  _ ← AssertInLoopThread c;
  if decide (state_ c = kDisConnected) then Ok c
  else
    '(written, remaining, c) ←
      (if negb (chan_writting (channel_ c)) && bool_decide (bq_readable (ouput_buffer_ c) = 0)
       then write_directly first len c else Ok (0, len, c));
    if decide (0 < remaining) then
      c ← high_water remaining c;
      q ← bq_append (ouput_buffer_ c) (drop written first) len;
      enable_writting_if_not (set_output q c)
    else Ok c.

Definition StartReadInLoop c : res (TcpConnection Q) :=
  _ ← AssertInLoopThread c;
  if (negb (is_reading c) || negb (chan_reading (channel_ c)))
     && bool_decide (state_ c ≠ kConnecting ∧ state_ c ≠ kDisConnected)
  then c ← on_channel chan_enable_reading c; Ok (set_is_reading true c)
  else Ok c.

Definition StopReadInLoop c : res (TcpConnection Q) :=
  _ ← AssertInLoopThread c;
  if (is_reading c || chan_reading (channel_ c)) && bool_decide (state_ c ≠ kDisConnected)
  then c ← on_channel chan_disable_reading c; Ok (set_is_reading false c)
  else Ok c.

(** For [TcpServer] and [TcpClient]. *)
Definition EstablishConnection c : res (TcpConnection Q) :=
  _ ← AssertInLoopThread c;
  _ ← assert (close_callback_ c);
  _ ← assert (connection_callback_ c);
  _ ← assert (bool_decide (state_ c = kConnecting));
  c ← on_channel chan_enable_reading (SetState kConnected c);
  call_back EvConnection c.

Definition DestroyConnection c : res (TcpConnection Q) :=
  _ ← AssertInLoopThread c;
  c ← (if decide (state_ c ≠ kDisConnected)
       then on_channel chan_disable_all (SetState kDisConnected c) else Ok c);
  on_channel chan_remove c.

(** A queued task runs; the copied string keeps its terminating NUL. *)
Definition run_functor (f : functor) c : res (TcpConnection Q) :=
  match f with
  | FForceCloseInLoop => ForceCloseInLoop c
  | FShutDownInLoop => ShutDownInLoop c
  | FSendInLoop message => SendInLoop (message ++ [nul]) (length message) c
  | FStartReadInLoop => StartReadInLoop c
  | FStopReadInLoop => StopReadInLoop c
  | FSetCloseCallbackInLoop => _ ← AssertInLoopThread c; Ok (set_close_callback true c)
  | FDestroyConnection => DestroyConnection c
  end.

(** [loop_->RunInLoop] of a member function. *)
Definition RunInLoop (f : functor) c : res (TcpConnection Q) :=
  if in_loop_thread c then run_functor f c else Ok (QueueInLoop f c).

Definition ForceClose c : res (TcpConnection Q) :=
  if decide (state_ c = kConnected ∨ state_ c = kDisConnecting)
  then RunInLoop FForceCloseInLoop c else Ok c.

Definition ForceCloseWithDelay c : TcpConnection Q :=
  if decide (state_ c = kConnected ∨ state_ c = kDisConnecting)
  then set_delayed (S (delayed_ c)) c else c.

Definition ShutDown c : res (TcpConnection Q) :=
  if decide (state_ c = kConnected)
  then RunInLoop FShutDownInLoop (SetState kDisConnecting c) else Ok c.

Definition StartRead : TcpConnection Q → res (TcpConnection Q) := RunInLoop FStartReadInLoop.
Definition StopRead : TcpConnection Q → res (TcpConnection Q) := RunInLoop FStopReadInLoop.

(** [Send(StringProxy)] of the [len] bytes at [first]. *)
Definition Send (first : bytes) (len : nat) c : res (TcpConnection Q) :=
  if decide (state_ c = kConnected) then
    if in_loop_thread c then SendInLoop first len c
    else message ← read_mem first len; Ok (QueueInLoop (FSendInLoop message) c)
  else Ok c.

(** [Send(Buffer &)]. *)
Definition Send_buffer (buf : Q) c : res (TcpConnection Q) :=
  if decide (state_ c = kConnected) then
    if in_loop_thread c then SendInLoop_buffer buf c
    else message ← bq_peek_all buf; Ok (QueueInLoop (FSendInLoop message) c)
  else Ok c.

Definition SetCloseCallbackAndWait c : TcpConnection Q :=
  if in_loop_thread c then set_close_callback true c
  else QueueInLoop FSetCloseCallbackInLoop c.

(** The destructor. *)
Definition TcpConnection_destroy c : res (TcpConnection Q) :=
  if decide (state_ c ≠ kDisConnected) then RunInLoop FDestroyConnection c else Ok c.

(** *** Events *)

Definition HandleRead (received_time : Z) c : res (TcpConnection Q) :=
  _ ← AssertInLoopThread c;
  '(n, _, q) ← bq_readfd (sys_readv (calls c)) (input_buffer_ c);
  let c := set_input q (tick c) in
  if decide (n < 0)%Z then Ok c
  else if decide (n = 0%Z) then HandleClose c
  else if message_callback_ c then call_back (EvMessage received_time) c else Ok c.

Definition HandleWrite c : res (TcpConnection Q) :=
  _ ← AssertInLoopThread c;
  if chan_writting (channel_ c) then
    '(n, _, out, q) ← bq_writefd (sys_writev (calls c)) (ouput_buffer_ c);
    let c := set_sent (sent c ++ out) (set_output q (tick c)) in
    if decide (n < 0)%Z then Ok c
    else if decide (bq_readable (ouput_buffer_ c) = 0) then
      c ← on_channel chan_disable_writting c;
      c ← (if write_complete_callback_ c then call_back EvWriteComplete c else Ok c);
      if decide (state_ c = kDisConnecting) then ShutDownInLoop c else Ok c
    else Ok c
  else Ok c.

(** It only reads and logs the error of the socket. *)
Definition HandleError c : res (TcpConnection Q) := Ok c.

(** What the constructor gives to the channel. *)
Definition callbacks : Callbacks (TcpConnection Q) :=
  {| Poller.read_callback_ := Some HandleRead; Poller.write_callback_ := Some HandleWrite;
     Poller.error_callback_ := Some HandleError; Poller.close_callback_ := Some HandleClose |}.

Definition HandleEvent (revents received_time : Z) c : res (TcpConnection Q) :=
  HandleEventWithGuard (λ _ c, c) revents callbacks received_time c.

(** The loop runs the first queued task. *)
Definition RunFunctor c : res (TcpConnection Q) :=
  match functors_ c with
  | [] => Ok c
  | f :: fs => run_functor f (set_functors fs c)
  end.

(** A [ForceCloseInLoop] timer expires. *)
Definition RunDelayed c : res (TcpConnection Q) :=
  match delayed_ c with
  | 0 => Ok c
  | S n => ForceCloseInLoop (set_delayed n c)
  end.
End connection.

(** ** The invariant of a connection *)

Section correctness.
Context {Q : Type} `{ByteQueueLaws Q}.
Implicit Types c : TcpConnection Q.

Definition open c : Prop := state_ c = kConnected ∨ state_ c = kDisConnecting.

(** Everything accepted for sending: what the socket took, then what waits. *)
Definition stream c : bytes := sent c ++ bq_content (ouput_buffer_ c).

Definition closes (l : list cb_event) : nat := length (filter (λ e, e = EvClose) l).

Record conn_wf c : Prop := {
  cw_input : bq_wf (input_buffer_ c);
  cw_output : bq_wf (ouput_buffer_ c);
  (** an open connection is in the poll set, a closed one monitors nothing *)
  cw_state : match state_ c with
             | kConnecting => False
             | kConnected | kDisConnecting => a_status (channel_ c) = Registered
             | kDisConnected => a_events (channel_ c) = kNoneEvent
             end;
  (** pending data waits for the socket to become writable *)
  cw_pending : open c → bq_content (ouput_buffer_ c) ≠ [] → chan_writting (channel_ c) = true;
  (** the close callback is called once, when the connection is closed *)
  cw_close : closes (trace c) ≤ 1 ∧ (open c → closes (trace c) = 0)
}.

(** A half-close asked for was done or will be. *)
Definition half_ok c : Prop :=
  state_ c = kDisConnecting →
  wr_shutdown c = true ∨ chan_writting (channel_ c) = true ∨ FShutDownInLoop ∈ functors_ c.

(** What an operation, the callbacks it runs included, does to a connection:
    the stream and the trace only grow, and a closed connection stays closed
    and silent. *)
Record extends c c' : Prop := {
  ex_stream : ∃ d, stream c' = stream c ++ d ∧ (state_ c = kDisConnected → d = []);
  ex_sent : ∃ d, sent c' = sent c ++ d;
  ex_trace : ∃ l, trace c' = trace c ++ l ∧ (state_ c = kDisConnected → EvClose ∉ l);
  ex_closed : state_ c = kDisConnected → state_ c' = kDisConnected;
  ex_half : state_ c = kDisConnecting → state_ c' = kDisConnecting ∨ state_ c' = kDisConnected;
  ex_thread : in_loop_thread c' = in_loop_thread c;
  ex_functors : FDestroyConnection ∈ functors_ c' → FDestroyConnection ∈ functors_ c
}.

Lemma extends_same c c' :
  state_ c' = state_ c → sent c' = sent c → bq_content (ouput_buffer_ c') = bq_content (ouput_buffer_ c) →
  trace c' = trace c → in_loop_thread c' = in_loop_thread c →
  (FDestroyConnection ∈ functors_ c' → FDestroyConnection ∈ functors_ c) → extends c c'.
Proof.
  intros E1 E3 E4 E5 E6 E7. split.
  - exists []. unfold stream. by rewrite E3, E4, app_nil_r.
  - exists []. by rewrite E3, app_nil_r.
  - exists []. rewrite E5, app_nil_r. split; [done|]. intros _. apply not_elem_of_nil.
  - intros Hs. rewrite E1. auto.
  - intros Hs. rewrite E1. auto.
  - done.
  - done.
Qed.

#[export] Instance extends_preorder : PreOrder extends.
Proof.
  split; [intros c; by apply extends_same|].
  intros c1 c2 c3 [(d1 & S1 & N1) (e1 & T1) (l1 & L1 & M1) C1 H1 E1 F1]
    [(d2 & S2 & N2) (e2 & T2) (l2 & L2 & M2) C2 H2 E2 F2]. split.
  - exists (d1 ++ d2). rewrite S2, S1, app_assoc. split; [done|].
    intros Hs. rewrite N1, N2; [done|by apply C1|done].
  - exists (e1 ++ e2). by rewrite T2, T1, app_assoc.
  - exists (l1 ++ l2). rewrite L2, L1, app_assoc. split; [done|]. intros Hs.
    rewrite not_elem_of_app. split; [by apply M1|]. by apply M2, C1.
  - intros Hs. by apply C2, C1.
  - intros Hs. destruct (H1 Hs) as [Hs2|Hs2]; [by apply H2|]. right. by apply C2.
  - congruence.
  - auto.
Qed.

(** The good outcome of an operation. *)
Definition sound c (r : res (TcpConnection Q)) : Prop :=
  ∃ c', r = Ok c' ∧ conn_wf c' ∧ extends c c' ∧ (half_ok c → half_ok c').

Lemma sound_ok c c' : conn_wf c' → extends c c' → (half_ok c → half_ok c') → sound c (Ok c').
Proof. intros. by exists c'. Qed.

Lemma sound_bind c r k :
  sound c r → (∀ c', conn_wf c' → extends c c' → sound c' (k c')) → sound c (r ≫= k).
Proof.
  intros (c1 & -> & Hw1 & He1 & Hh1) Hk. destruct (Hk c1 Hw1 He1) as (c2 & E & Hw2 & He2 & Hh2).
  exists c2. split_and!; [done|done|by etransitivity|auto].
Qed.

(** The contract of the callbacks: they may call the connection back, but the
    high water callback neither sends on it nor closes it, and only the close
    callback, which runs once the connection is closed and still in the poll
    set, may take it out of there. *)
Definition callbacks_ok (invoke : cb_event → TcpConnection Q → res (TcpConnection Q)) : Prop :=
  ∀ ev c, conn_wf c → in_loop_thread c = true →
    (ev = EvClose → state_ c = kDisConnected ∧ a_status (channel_ c) = Registered) →
    ∃ c', invoke ev c = Ok c' ∧ conn_wf c' ∧ extends c c' ∧ (half_ok c → half_ok c') ∧
      match ev with
      | EvHighWater _ => state_ c' = state_ c ∧ channel_ c' = channel_ c ∧ sent c' = sent c ∧
                         ouput_buffer_ c' = ouput_buffer_ c
      | EvClose => True
      | _ => state_ c = kDisConnected → channel_ c' = channel_ c
      end.

(** The kernel takes a direct write whole or not at all.  [write(2)] does not
    promise it: the lemmas that use this are carried to any kernel, up to the
    first short direct write, in the section below. *)
Definition writes_whole (sys_write : nat → bytes → writev_result) : Prop :=
  ∀ k d n, sys_write k d = WritevN n → n = 0 ∨ n = length d.

Variable sys_write : nat → bytes → writev_result.
Variable sys_readv : nat → readv_fn.
Variable sys_writev : nat → writev_fn.
Variable invoke : cb_event → TcpConnection Q → res (TcpConnection Q).
Hypothesis write_whole : writes_whole sys_write.
Hypothesis readv_law : ∀ k, readv_ok (sys_readv k).
Hypothesis writev_law : ∀ k, writev_ok (sys_writev k).
Hypothesis invoke_law : callbacks_ok invoke.

Lemma open_dec c : {open c} + {¬ open c}.
Proof. unfold open. destruct (state_ c); (by left; auto) || (right; intros [|]; done). Qed.

Lemma conn_wf_cases c : conn_wf c → open c ∨ state_ c = kDisConnected.
Proof. intros [_ _ Hs _ _]. unfold open. destruct (state_ c); auto; done. Qed.

Lemma open_registered c : conn_wf c → open c → a_status (channel_ c) = Registered.
Proof. intros [_ _ Hs _ _] [Ho|Ho]; by rewrite Ho in Hs. Qed.

Lemma closed_not_open c : state_ c = kDisConnected → ¬ open c.
Proof. intros E [?|?]; congruence. Qed.

Lemma chan_update_registered f x :
  a_status x = Registered → chan_update f x = Ok (mkAbs (a_fd x) (f (a_events x)) Registered).
Proof. unfold chan_update. by intros ->. Qed.

Lemma closes_snoc l ev : closes (l ++ [ev]) = closes l + if decide (ev = EvClose) then 1 else 0.
Proof. unfold closes. rewrite filter_app, length_app. cbn. by destruct (decide _). Qed.

Lemma closes_silent l l' : EvClose ∉ l' → closes (l ++ l') = closes l.
Proof.
  intros Hn. unfold closes. rewrite filter_app, length_app.
  destruct (filter _ l') as [|x k] eqn:Ef; [done|]. exfalso. apply Hn.
  assert (x ∈ filter (λ e, e = EvClose) l') as Hx by (rewrite Ef; left).
  apply list_elem_of_filter in Hx as [-> ?]. done.
Qed.

(** A change of the fields the invariant does not speak about. *)
Lemma conn_wf_same c c' :
  conn_wf c → input_buffer_ c' = input_buffer_ c → ouput_buffer_ c' = ouput_buffer_ c →
  state_ c' = state_ c → channel_ c' = channel_ c → trace c' = trace c → conn_wf c'.
Proof.
  intros [] E1 E2 E3 E4 E5. unfold open in *.
  split; unfold open; rewrite ?E1, ?E2, ?E3, ?E4, ?E5; done.
Qed.

Lemma conn_wf_trace c ev :
  conn_wf c → ev ≠ EvClose ∨ (¬ open c ∧ closes (trace c) = 0) →
  conn_wf (set_trace (trace c ++ [ev]) c).
Proof.
  intros [? ? ? ? [Hle Ho]] Hev. split; try done. cbn [trace set_trace]. rewrite closes_snoc.
  destruct (decide (ev = EvClose)) as [->|]; [|by rewrite Nat.add_0_r].
  destruct Hev as [?|[Hno E0]]; [done|]. split; [lia|]. by intros.
Qed.

(** An open connection changes what it waits for. *)
Lemma conn_wf_events c f :
  conn_wf c → open c →
  (bq_content (ouput_buffer_ c) ≠ [] →
   chan_writting (mkAbs (a_fd (channel_ c)) (f (a_events (channel_ c))) Registered) = true) →
  conn_wf (set_channel (mkAbs (a_fd (channel_ c)) (f (a_events (channel_ c))) Registered) c).
Proof.
  intros [? ? Hs ? ?] Ho Hw. split; try done. cbn [state_ set_channel channel_].
  destruct Ho as [E|E]; by rewrite E.
Qed.

Lemma call_back_open ev c :
  conn_wf c → in_loop_thread c = true → ev ≠ EvClose →
  ∃ c', call_back invoke ev c = Ok c' ∧ conn_wf c' ∧ extends c c' ∧ (half_ok c → half_ok c') ∧
    (state_ c = kDisConnected → channel_ c' = channel_ c).
Proof.
  intros Hw Ht Hev. unfold call_back.
  destruct (invoke_law ev (set_trace (trace c ++ [ev]) c)) as (c' & E & Hw' & He & Hh & Hm);
    [apply conn_wf_trace; auto|done|done|].
  exists c'. split_and!; [done|done| |done|by destruct ev; tauto]. etransitivity; [|exact He].
  split; cbn; try done; [exists []; by rewrite app_nil_r|exists []; by rewrite app_nil_r| |auto].
  exists [ev]. split; [done|]. intros _. rewrite list_elem_of_singleton. congruence.
Qed.

Lemma call_back_sound ev c :
  conn_wf c → in_loop_thread c = true → ev ≠ EvClose → sound c (call_back invoke ev c).
Proof.
  intros Hw Ht Hev. destruct (call_back_open ev c Hw Ht Hev) as (c' & ? & ? & ? & ? & _).
  by exists c'.
Qed.

(** *** Closing *)

Lemma HandleClose_sound c :
  conn_wf c → in_loop_thread c = true → open c →
  ∃ c', HandleClose invoke c = Ok c' ∧ conn_wf c' ∧ extends c c' ∧ state_ c' = kDisConnected ∧
    closes (trace c') = 1.
Proof.
  intros Hw Ht Ho. unfold HandleClose, AssertInLoopThread.
  rewrite bool_decide_true by done. cbn [assert mbind res_bind]. rewrite Ht.
  cbn [assert mbind res_bind]. unfold on_channel, chan_disable_all.
  cbn [channel_ SetState set_channel].
  rewrite chan_update_registered by by apply open_registered. cbn [mbind res_bind].
  set (c1 := set_channel _ _).
  assert (conn_wf c1) as Hw1.
  { destruct Hw as [? ? ? ? [Hle _]]. split; try done; [by intros [?|?]|].
    split; [exact Hle|]. by intros [?|?]. }
  assert (extends c c1) as He1.
  { assert (state_ c ≠ kDisConnected) as Hn by (intros E; by apply closed_not_open in E).
    split; cbn; try done; [exists []; by rewrite app_nil_r|exists []; by rewrite app_nil_r| |by right].
    exists []. by rewrite app_nil_r. }
  destruct (call_back_open EvConnection c1 Hw1 Ht) as (c2 & E2 & Hw2 & He2 & _ & Hch2); [done|].
  rewrite E2. cbn [mbind res_bind]. pose proof (ex_closed _ _ He2 eq_refl) as Hs2.
  specialize (Hch2 eq_refl).
  assert (closes (trace c2) = 0) as Hz.
  { destruct (ex_trace _ _ He2) as (l & El & Hl). rewrite El, closes_silent by by apply Hl.
    by apply (cw_close _ Hw). }
  unfold call_back. set (c3 := set_trace (trace c2 ++ [EvClose]) c2).
  assert (conn_wf c3) as Hw3.
  { apply conn_wf_trace; [done|]. right. split; [by apply closed_not_open|done]. }
  assert (extends c c2) as He02 by (by etransitivity).
  assert (extends c c3) as He3.
  { destruct He02 as [? ? (l & El & Hl) Hc ? ? ?]. split; try done.
    exists (l ++ [EvClose]). cbn. rewrite El, app_assoc. split; [done|].
    intros E. by apply closed_not_open in E. }
  destruct (invoke_law EvClose c3) as (c4 & E4 & Hw4 & He4 & _ & _); [done| |by cbn; rewrite Hch2|].
  { by rewrite (ex_thread _ _ He3). }
  exists c4. split; [done|]. pose proof (ex_closed _ _ He4 Hs2) as Hs4.
  split_and!; [done|by etransitivity|done|].
  destruct (ex_trace _ _ He4) as (l & El & Hl). rewrite El, closes_silent by by apply Hl.
  cbn [c3 trace set_trace]. by rewrite closes_snoc, Hz.
Qed.

Lemma ForceCloseInLoop_sound c :
  conn_wf c → in_loop_thread c = true → sound c (ForceCloseInLoop invoke c).
Proof.
  intros Hw Ht. unfold ForceCloseInLoop, AssertInLoopThread. rewrite Ht. cbn [mbind res_bind].
  destruct (decide _) as [Ho|_]; [|by apply sound_ok].
  destruct (HandleClose_sound c Hw Ht Ho) as (c' & E & Hw' & He & Hs & _).
  exists c'. split_and!; try done. intros _ Hd. congruence.
Qed.

Lemma ShutDownInLoop_sound c :
  conn_wf c → in_loop_thread c = true →
  ∃ c', ShutDownInLoop c = Ok c' ∧ conn_wf c' ∧ extends c c' ∧ half_ok c' ∧ stream c' = stream c.
Proof.
  intros Hw Ht. unfold ShutDownInLoop, AssertInLoopThread. rewrite Ht. cbn [mbind res_bind].
  eexists. split; [done|]. destruct (chan_writting (channel_ c)) eqn:E; cbn [negb].
  - split_and!; try done. intros _. auto.
  - split_and!; [by apply (conn_wf_same c)|by apply extends_same| |done]. intros _. by left.
Qed.

(** *** Sending *)

Lemma high_water_sound n c :
  conn_wf c → in_loop_thread c = true →
  ∃ c', high_water invoke n c = Ok c' ∧ conn_wf c' ∧ extends c c' ∧ (half_ok c → half_ok c') ∧
    state_ c' = state_ c ∧ channel_ c' = channel_ c ∧ sent c' = sent c ∧
    ouput_buffer_ c' = ouput_buffer_ c.
Proof.
  intros Hw Ht. unfold high_water. destruct (decide _) as [_|_]; [|by exists c].
  unfold call_back. set (ev := EvHighWater _).
  destruct (invoke_law ev (set_trace (trace c ++ [ev]) c)) as (c' & E & Hw' & He & Hh & Hs);
    [apply conn_wf_trace; auto|done|done|].
  exists c'. split_and!; try done; [|apply Hs..]. etransitivity; [|exact He].
  split; cbn; try done; [exists []; by rewrite app_nil_r|exists []; by rewrite app_nil_r| |auto].
  exists [ev]. split; [done|]. intros _. rewrite list_elem_of_singleton. done.
Qed.

Lemma extends_stream c c' d :
  open c → stream c' = stream c ++ d → (∃ e, sent c' = sent c ++ e) → state_ c' = state_ c →
  trace c' = trace c → in_loop_thread c' = in_loop_thread c → functors_ c' = functors_ c →
  extends c c'.
Proof.
  intros Ho E1 E2 E3 E4 E5 E6. split; [|done| | | |done|by rewrite E6].
  - exists d. split; [done|]. intros E. by apply closed_not_open in E.
  - exists []. rewrite app_nil_r. split; [done|]. intros E. by apply closed_not_open in E.
  - intros E. by apply closed_not_open in E.
  - rewrite E3. auto.
Qed.

(** Appending to the output of an open connection and waiting for writing. *)
Lemma append_output_sound c q d :
  conn_wf c → open c → bq_wf q → bq_content q = bq_content (ouput_buffer_ c) ++ d →
  ∃ c', enable_writting_if_not (set_output q c) = Ok c' ∧ conn_wf c' ∧ extends c c' ∧
    (half_ok c → half_ok c') ∧ stream c' = stream c ++ d ∧ sent c' = sent c.
Proof.
  intros Hw Ho Hq Hc. assert (a_status (channel_ c) = Registered) as Hr by by apply open_registered.
  assert (state_ c ≠ kDisConnected) as Hnd by (intros E; by apply closed_not_open in E).
  assert (∀ c', state_ c' = state_ c → sent c' = sent c → ouput_buffer_ c' = q → trace c' = trace c →
    in_loop_thread c' = in_loop_thread c → functors_ c' = functors_ c →
    extends c c' ∧ stream c' = stream c ++ d) as He.
  { intros c' E1 E2 E3 E4 E5 E6.
    assert (stream c' = stream c ++ d) as Es by (unfold stream; by rewrite E2, E3, Hc, app_assoc).
    split; [|done]. apply (extends_stream c c' d); try done. exists []. by rewrite app_nil_r. }
  unfold enable_writting_if_not, on_channel, chan_enable_writting.
  destruct (chan_writting (channel_ (set_output q c))) eqn:Ew; cbn [negb].
  - exists (set_output q c). destruct Hw as [? ? ? ? ?], (He (set_output q c)); done.
  - rewrite chan_update_registered by done. cbn [mbind res_bind]. eexists. split; [reflexivity|].
    set (c' := set_channel _ _). destruct (He c') as [He' Hs']; [done..|]. destruct Hw as [? ? Hs ? ?].
    split; [|split_and!; try done; intros _ _; right; left; apply chan_writting_updates].
    split; try done; cbn [state_ set_channel set_output channel_ c'].
    + destruct Ho as [E|E]; by rewrite E.
    + intros _ _. apply chan_writting_updates.
Qed.

(** What sending does: the bytes follow the stream in order, callbacks may
    add more behind them; a closed connection drops them. *)
Definition sends c (d : bytes) (r : res (TcpConnection Q)) : Prop :=
  sound c r ∧ ∀ c', r = Ok c' → open c → ∃ d', stream c' = stream c ++ d ++ d'.

Lemma SendInLoop_buffer_sends buf c :
  conn_wf c → in_loop_thread c = true → bq_wf buf →
  sends c (bq_content buf) (SendInLoop_buffer invoke buf c).
Proof.
  intros Hw Ht Hb. unfold sends, SendInLoop_buffer, AssertInLoopThread. rewrite Ht. cbn [mbind res_bind].
  destruct (decide _) as [Hd|Hd]; [split; [by apply sound_ok|intros c' _ Ho; by apply closed_not_open in Hd]|].
  assert (open c) as Ho by (destruct (conn_wf_cases c Hw); done).
  destruct (high_water_sound (bq_readable buf) c Hw Ht)
    as (c1 & -> & Hw1 & He1 & Hh1 & Es & Ec & Est & Eo). cbn [mbind res_bind].
  destruct (bq_append_queue_law (ouput_buffer_ c1) buf) as (q & -> & Hq & Hqc); [apply Hw1|done|].
  cbn [mbind res_bind].
  destruct (append_output_sound c1 q (bq_content buf) Hw1) as (c2 & -> & Hw2 & He2 & Hh2 & Hst & _);
    [unfold open; by rewrite Es|done|done|].
  split; [exists c2; split_and!; [done|done|by etransitivity|auto]|].
  intros c' Hc' _. injection Hc' as <-. exists []. rewrite Hst, app_nil_r. unfold stream.
  by rewrite Est, Eo.
Qed.

(** The direct write: all or nothing under [writes_whole]. *)
Lemma write_directly_sound first len c :
  conn_wf c → in_loop_thread c = true → len ≤ length first →
  bq_content (ouput_buffer_ c) = [] → open c →
  ∃ written remaining c', write_directly sys_write invoke first len c = Ok (written, remaining, c') ∧
    conn_wf c' ∧ extends c c' ∧ (half_ok c → half_ok c') ∧
    ((written = 0 ∧ remaining = len ∧ stream c' = stream c ∧ state_ c' = state_ c) ∨
     (written = len ∧ remaining = 0 ∧ ∃ d', stream c' = stream c ++ take len first ++ d')).
Proof.
  intros Hw Ht Hl He Ho. unfold write_directly, read_mem. rewrite decide_True by done.
  cbn [mbind res_bind].
  assert (conn_wf (tick c) ∧ extends c (tick c)) as [Hwt Het]
    by (split; [by apply (conn_wf_same c)|by apply extends_same]).
  destruct (sys_write (calls c) (take len first)) as [e|n] eqn:Ew.
  { exists 0, len, (tick c). split_and!; try done. by left. }
  destruct (decide (0 < n)) as [Hn|Hn].
  2: { exists 0, len, (tick c). split_and!; try done. by left. }
  destruct (write_whole _ _ _ Ew) as [->|En]; [lia|].
  assert (n = len) as -> by (rewrite En, length_take; lia). clear En.
  rewrite take_take, Nat.min_id, Nat.sub_diag.
  set (c1 := set_sent _ (tick c)).
  assert (conn_wf c1) as Hw1 by (by apply (conn_wf_same c)).
  assert (stream c1 = stream c ++ take len first) as Hs1.
  { unfold stream. cbn. by rewrite He, !app_nil_r. }
  assert (extends c c1) as He1.
  { apply (extends_stream c c1 (take len first)); try done. by eexists. }
  destruct (decide _) as [_|_].
  - destruct (call_back_sound EvWriteComplete c1 Hw1 Ht) as (c2 & E2 & Hw2 & He2 & Hh2); [done|].
    rewrite E2. cbn [mbind res_bind]. exists len, 0, c2. split; [done|].
    split_and!; [done|by etransitivity|by intros ?%Hh2|]. right. split_and!; try done.
    destruct (ex_stream _ _ He2) as (d' & Ed & _). exists d'. by rewrite Ed, Hs1, app_assoc.
  - exists len, 0, c1. split_and!; try done. right. split_and!; try done.
    exists []. by rewrite app_nil_r.
Qed.

Lemma SendInLoop_sends first len c :
  conn_wf c → in_loop_thread c = true → len ≤ length first →
  sends c (take len first) (SendInLoop sys_write invoke first len c).
Proof.
  intros Hw Ht Hl. unfold sends, SendInLoop, AssertInLoopThread. rewrite Ht. cbn [mbind res_bind].
  destruct (decide _) as [Hd|Hd]; [split; [by apply sound_ok|intros c' _ Ho; by apply closed_not_open in Hd]|].
  assert (open c) as Ho by (destruct (conn_wf_cases c Hw); done).
  assert (∃ written remaining c1,
    (if negb (chan_writting (channel_ c)) && bool_decide (bq_readable (ouput_buffer_ c) = 0)
     then write_directly sys_write invoke first len c else Ok (0, len, c)) = Ok (written, remaining, c1) ∧
    conn_wf c1 ∧ extends c c1 ∧ (half_ok c → half_ok c1) ∧
    ((written = 0 ∧ remaining = len ∧ stream c1 = stream c ∧ state_ c1 = state_ c) ∨
     (written = len ∧ remaining = 0 ∧ ∃ d', stream c1 = stream c ++ take len first ++ d')))
    as (written & remaining & c1 & -> & Hw1 & He1 & Hh1 & Hcase).
  { destruct (negb _ && _) eqn:Eg; [|exists 0, len, c; split_and!; try done; by left].
    apply andb_true_iff in Eg as [_ Eg]. apply bool_decide_eq_true in Eg.
    apply write_directly_sound; try done. rewrite bq_readable_law in Eg by apply Hw.
    by apply nil_length_inv. }
  cbn [mbind res_bind].
  destruct Hcase as [(-> & -> & Hst & Es)|(-> & -> & d' & Hst)].
  - destruct (decide (0 < len)) as [Hlen|Hlen].
    + destruct (high_water_sound len c1 Hw1) as (c2 & -> & Hw2 & He2 & Hh2 & Es2 & Ec2 & Est2 & Eo2);
        [by rewrite (ex_thread _ _ He1)|]. cbn [mbind res_bind]. rewrite drop_0.
      destruct (bq_append_law (ouput_buffer_ c2) first len) as (q & -> & Hq & Hqc); [apply Hw2|done|].
      cbn [mbind res_bind].
      destruct (append_output_sound c2 q (take len first) Hw2) as (c3 & -> & Hw3 & He3 & Hh3 & Hst3 & _);
        [unfold open; by rewrite Es2, Es|done|done|].
      split; [exists c3; split_and!; [done|done|by do 2 (etransitivity; [eassumption|])|auto]|].
      intros c' Hc' _. injection Hc' as <-. exists []. rewrite Hst3, app_nil_r, <- Hst. unfold stream.
      by rewrite Est2, Eo2.
    + split; [by exists c1|]. intros c' Hc' _. injection Hc' as <-. exists [].
      assert (len = 0) as -> by lia. by rewrite Hst, app_nil_r.
  - destruct (decide (0 < 0)) as [?|_]; [lia|]. split; [by exists c1|].
    intros c' Hc' _. injection Hc' as <-. by exists d'.
Qed.

(** *** Reading, writing and events *)

Lemma on_events_sound c f b :
  conn_wf c → open c →
  (∀ fd e s, chan_writting (mkAbs fd (f e) s) = chan_writting (mkAbs fd e s)) →
  sound c (x ← on_channel (chan_update f) c; Ok (set_is_reading b x)).
Proof.
  intros Hw Ho Hf. assert (a_status (channel_ c) = Registered) as Hr by by apply open_registered.
  unfold on_channel. rewrite chan_update_registered by done. cbn [mbind res_bind].
  assert (chan_writting (mkAbs (a_fd (channel_ c)) (f (a_events (channel_ c))) Registered)
          = chan_writting (channel_ c)) as Ew by (rewrite Hf, <- Hr; by destruct (channel_ c)).
  apply sound_ok.
  - eapply (conn_wf_same (set_channel _ c)); [|done..]. apply conn_wf_events; [done|done|].
    rewrite Ew. by apply (cw_pending c).
  - by apply extends_same.
  - intros Hh Hs. destruct (Hh Hs) as [?|[Hwr|?]]; [by left| |by right; right].
    right. left. cbn. by rewrite Ew.
Qed.

Lemma StartReadInLoop_sound c :
  conn_wf c → in_loop_thread c = true → sound c (StartReadInLoop c).
Proof.
  intros Hw Ht. unfold StartReadInLoop, AssertInLoopThread. rewrite Ht. cbn [mbind res_bind].
  destruct (_ && _) eqn:E; [|by apply sound_ok]. apply andb_true_iff in E as [_ E].
  apply bool_decide_eq_true in E. apply on_events_sound; [done| |].
  - destruct (conn_wf_cases c Hw); [done|tauto].
  - intros. apply chan_writting_updates.
Qed.

Lemma StopReadInLoop_sound c :
  conn_wf c → in_loop_thread c = true → sound c (StopReadInLoop c).
Proof.
  intros Hw Ht. unfold StopReadInLoop, AssertInLoopThread. rewrite Ht. cbn [mbind res_bind].
  destruct (_ && _) eqn:E; [|by apply sound_ok]. apply andb_true_iff in E as [_ E].
  apply bool_decide_eq_true in E. apply on_events_sound; [done| |].
  - destruct (conn_wf_cases c Hw); [done|tauto].
  - intros. apply chan_writting_updates.
Qed.

Lemma HandleRead_sound t c :
  conn_wf c → in_loop_thread c = true → open c →
  sound c (HandleRead sys_readv invoke t c).
Proof.
  intros Hw Ht Ho. unfold HandleRead, AssertInLoopThread. rewrite Ht. cbn [mbind res_bind].
  destruct (bq_readfd_law (sys_readv (calls c)) (input_buffer_ c) (cw_input c Hw) (readv_law _))
    as (n & err & q & -> & Hq & _). cbn [mbind res_bind].
  set (c1 := set_input q (tick c)).
  assert (conn_wf c1) as Hw1 by (destruct Hw; by split).
  assert (extends c c1) as He1 by by apply extends_same.
  destruct (decide (n < 0)%Z); [by apply sound_ok|].
  destruct (decide (n = 0%Z)).
  - destruct (HandleClose_sound c1 Hw1 Ht Ho) as (c2 & -> & Hw2 & He2 & Hs2 & _).
    exists c2. split_and!; [done|done|by etransitivity|]. intros _ Hd. congruence.
  - destruct (message_callback_ c1); [|by apply sound_ok].
    destruct (call_back_sound (EvMessage t) c1 Hw1 Ht) as (c2 & -> & Hw2 & He2 & Hh2); [done|].
    exists c2. split_and!; [done|done|by etransitivity|auto].
Qed.

Lemma writting_open c : conn_wf c → chan_writting (channel_ c) = true → open c.
Proof.
  intros Hw Hwr. destruct (conn_wf_cases c Hw) as [|Hs]; [done|].
  pose proof (cw_state c Hw) as He. rewrite Hs in He.
  unfold chan_writting in Hwr. by rewrite He in Hwr.
Qed.

(** What the socket took leaves the buffer: the stream is unchanged. *)
Lemma write_outcome_stream c n err out q :
  write_outcome (bq_content (ouput_buffer_ c)) n err out (bq_content q) →
  out ++ bq_content q = bq_content (ouput_buffer_ c).
Proof. inversion 1; subst; [done|apply take_drop]. Qed.

Lemma HandleWrite_sound c :
  conn_wf c → in_loop_thread c = true → sound c (HandleWrite sys_writev invoke c).
Proof.
  intros Hw Ht. unfold HandleWrite, AssertInLoopThread. rewrite Ht. cbn [mbind res_bind].
  destruct (chan_writting (channel_ c)) eqn:Ew; [|by apply sound_ok].
  pose proof (writting_open c Hw Ew) as Ho.
  destruct (bq_writefd_law (sys_writev (calls c)) (ouput_buffer_ c) (cw_output c Hw) (writev_law _))
    as (n & err & out & q & -> & Hq & Hout). cbn [mbind res_bind].
  apply write_outcome_stream in Hout.
  set (c1 := set_sent _ _).
  assert (conn_wf c1) as Hw1 by (destruct Hw; by split).
  assert (extends c c1) as He1.
  { apply (extends_stream c c1 []); try done; [|by exists out].
    unfold stream. cbn. by rewrite app_nil_r, <- app_assoc, Hout. }
  destruct (decide (n < 0)%Z); [by apply sound_ok|].
  destruct (decide (bq_readable (ouput_buffer_ c1) = 0)) as [Hz|]; [|by apply sound_ok].
  rewrite bq_readable_law in Hz by done. apply nil_length_inv in Hz.
  unfold on_channel, chan_disable_writting.
  rewrite chan_update_registered by by apply open_registered. cbn [mbind res_bind].
  set (c2 := set_channel _ c1).
  assert (conn_wf c2) as Hw2 by (apply (conn_wf_events c1 (λ e, Z.land e (Z.lnot kWriteEvent))); [done|done|]; by intros []).
  assert (extends c c2) as He2.
  { etransitivity; [exact He1|]. by apply extends_same. }
  assert (∃ c3, (if write_complete_callback_ c2 then call_back invoke EvWriteComplete c2 else Ok c2) = Ok c3
    ∧ conn_wf c3 ∧ extends c2 c3) as (c3 & E3 & Hw3 & He3).
  { destruct (write_complete_callback_ c2); [|by exists c2].
    destruct (call_back_sound EvWriteComplete c2 Hw2 Ht) as (c3 & -> & ? & ? & _); [done|]. by exists c3. }
  rewrite E3. cbn [mbind res_bind].
  assert (extends c c3) as He by by etransitivity.
  destruct (decide (state_ c3 = kDisConnecting)) as [Hd|Hd].
  - destruct (ShutDownInLoop_sound c3 Hw3) as (c4 & -> & Hw4 & He4 & Hh4 & _);
      [by rewrite (ex_thread _ _ He)|].
    exists c4. split_and!; [done|done|by etransitivity|done].
  - exists c3. split_and!; try done. by intros _ ?.
Qed.

(** The masks [epoll] delivers: a hang-up without readable data comes alone
    or with an error. *)
Definition mask_ok (r : Z) : Prop :=
  has r POLLHUP && negb (has r POLLIN) = true →
  has r (Z.lor (Z.lor POLLIN POLLPRI) POLLRDHUP) = false ∧ has r POLLOUT = false.

Lemma HandleEvent_sound r t c :
  conn_wf c → in_loop_thread c = true → open c → mask_ok r →
  sound c (HandleEvent sys_readv sys_writev invoke r t c).
Proof.
  intros Hw Ht Ho Hm. unfold HandleEvent, HandleEventWithGuard, callbacks. cbn [Poller.read_callback_
    Poller.write_callback_ Poller.error_callback_ Poller.close_callback_ call fmap option_fmap option_map].
  assert ((if has r (Z.lor POLLERR POLLNVAL) then HandleError c else Ok c) = Ok c) as ->
    by (by destruct (has _ _)).
  cbn [mbind res_bind]. destruct (has r POLLHUP && negb (has r POLLIN)) eqn:Eh.
  - destruct (Hm Eh) as [-> ->]. cbn [mbind res_bind].
    destruct (HandleClose_sound c Hw Ht Ho) as (c' & -> & Hw' & He & Hs & _).
    exists c'. split_and!; try done. intros _ Hd. congruence.
  - clear Eh Hm. apply sound_bind.
    { destruct (has r _); [by apply HandleRead_sound|by apply sound_ok]. }
    intros c1 Hw1 He1. assert (in_loop_thread c1 = true) as Ht1 by (by rewrite (ex_thread _ _ He1)).
    apply sound_bind.
    { destruct (has r POLLOUT); [by apply HandleWrite_sound|by apply sound_ok]. }
    intros c2 Hw2 He2. cbn [mbind res_bind]. by apply sound_ok.
Qed.

(** *** Whole runs *)

Inductive conn_op :=
  | OpSend (in_loop : bool) (first : bytes) (len : nat)
  | OpSendBuffer (in_loop : bool) (buf : Q)
  | OpShutDown (in_loop : bool)
  | OpForceClose (in_loop : bool)
  | OpForceCloseWithDelay
  | OpStartRead (in_loop : bool)
  | OpStopRead (in_loop : bool)
  | OpRunFunctor
  | OpRunDelayed
  | OpEvent (revents received_time : Z)
  | OpDestroy.

(** Run [f] in the loop thread or in another one. *)
Definition in_thread (b : bool) (f : TcpConnection Q → res (TcpConnection Q)) c : res (TcpConnection Q) :=
  c ← f (set_thread b c); Ok (set_thread true c).

Definition run_op (o : conn_op) c : res (TcpConnection Q) :=
  match o with
  | OpSend b first len => in_thread b (Send sys_write invoke first len) c
  | OpSendBuffer b buf => in_thread b (Send_buffer invoke buf) c
  | OpShutDown b => in_thread b (ShutDown sys_write invoke) c
  | OpForceClose b => in_thread b (ForceClose sys_write invoke) c
  | OpForceCloseWithDelay => Ok (ForceCloseWithDelay c)
  | OpStartRead b => in_thread b (StartRead sys_write invoke) c
  | OpStopRead b => in_thread b (StopRead sys_write invoke) c
  | OpRunFunctor => RunFunctor sys_write invoke c
  | OpRunDelayed => RunDelayed invoke c
  | OpEvent revents t => HandleEvent sys_readv sys_writev invoke revents t c
  | OpDestroy => DestroyConnection c
  end.

Fixpoint run_ops (ops : list conn_op) c : res (TcpConnection Q) :=
  match ops with [] => Ok c | o :: ops => c ← run_op o c; run_ops ops c end.

(** The preconditions: real memory to send, events only for an open
    connection, one destruction. *)
Definition legal (o : conn_op) c : Prop :=
  match o with
  | OpSend _ first len => len ≤ length first
  | OpSendBuffer _ buf => bq_wf buf
  | OpEvent r _ => open c ∧ mask_ok r
  | OpDestroy => a_status (channel_ c) = Registered
  | _ => True
  end.

Fixpoint legal_run (ops : list conn_op) c : Prop :=
  match ops with
  | [] => True
  | o :: ops => legal o c ∧ ∀ c', run_op o c = Ok c' → legal_run ops c'
  end.

Record conn_ok c : Prop := {
  co_wf : conn_wf c;
  co_half : half_ok c;
  co_thread : in_loop_thread c = true;
  co_functors : FDestroyConnection ∉ functors_ c
}.

(** What survives everything: the stream grows, the close callback ran at
    most once. *)
Definition grows c c' : Prop :=
  (∃ d, stream c' = stream c ++ d) ∧ (∃ d, sent c' = sent c ++ d) ∧ (∃ l, trace c' = trace c ++ l).

Lemma extends_grows c c' : extends c c' → grows c c'.
Proof. intros [(d & Hd & _) He (l & Hl & _) _ _ _ _]. split; [by exists d|]. split; [done|by exists l]. Qed.

Lemma sound_conn_ok c r :
  conn_ok c → sound c r → ∃ c', r = Ok c' ∧ conn_ok c' ∧ grows c c'.
Proof.
  intros [Hw Hh Ht Hf] (c' & -> & Hw' & He & Hh'). exists c'. split; [done|].
  split; [|by apply extends_grows]. split; [done|auto|by rewrite (ex_thread _ _ He)|].
  intros Hin. by apply Hf, (ex_functors _ _ He).
Qed.

Lemma run_functor_sound f c :
  conn_wf c → in_loop_thread c = true → f ≠ FDestroyConnection →
  sound c (run_functor sys_write invoke f c) ∧
  (f = FShutDownInLoop → ∀ c', run_functor sys_write invoke f c = Ok c' → half_ok c').
Proof.
  intros Hw Ht Hf. destruct f; cbn [run_functor]; try (split; [|done]).
  - by apply ForceCloseInLoop_sound.
  - destruct (ShutDownInLoop_sound c Hw Ht) as (c' & -> & ? & ? & ? & _).
    split; [by apply sound_ok|]. intros _ c2 E. by injection E as <-.
  - apply SendInLoop_sends; [done|done|]. rewrite length_app. lia.
  - by apply StartReadInLoop_sound.
  - by apply StopReadInLoop_sound.
  - unfold AssertInLoopThread. rewrite Ht. cbn [mbind res_bind]. apply sound_ok; [|by apply extends_same|done].
    by apply (conn_wf_same c).
  - done.
Qed.

Lemma RunFunctor_ok c :
  conn_ok c → ∃ c', RunFunctor sys_write invoke c = Ok c' ∧ conn_ok c' ∧ grows c c'.
Proof.
  intros [Hw Hh Ht Hf]. unfold RunFunctor. destruct (functors_ c) as [|f fs] eqn:Ef.
  { exists c. split; [done|]. split; [split; [done..|by rewrite Ef]|]. by apply extends_grows. }
  rewrite not_elem_of_cons in Hf. destruct Hf as [Hne Hf]. set (c0 := set_functors fs c).
  assert (conn_wf c0) as Hw0 by by apply (conn_wf_same c).
  destruct (run_functor_sound f c0 Hw0 Ht) as [(c' & E & Hw' & He & Hh') Hsh]; [congruence|].
  exists c'. split; [done|]. split.
  - split; [done| |by rewrite (ex_thread _ _ He)|].
    + destruct (decide (f = FShutDownInLoop)) as [->|Hn]; [by apply Hsh|]. apply Hh'.
      intros Hs. destruct (Hh Hs) as [?|[?|Hin]]; [by left|by right; left|].
      right. right. rewrite Ef in Hin. apply elem_of_cons in Hin as [|]; [congruence|done].
    + intros Hin. by apply Hf, (ex_functors _ _ He).
  - destruct (extends_grows _ _ He) as (? & ? & ?). done.
Qed.

(** Off the loop thread an operation at most queues a task. *)
Lemma queue_ok c f :
  conn_ok c → f ≠ FDestroyConnection →
  conn_ok (set_thread true (QueueInLoop f (set_thread false c))) ∧
  grows c (set_thread true (QueueInLoop f (set_thread false c))).
Proof.
  intros [Hw Hh Ht Hf] Hne. split; [split|].
  - by apply (conn_wf_same c).
  - intros Hs. destruct (Hh Hs) as [?|[?|?]]; [by left|by right; left|].
    right. right. apply elem_of_app. by left.
  - done.
  - cbn. rewrite not_elem_of_app, list_elem_of_singleton. by split; [|congruence].
  - split_and!; exists []; by rewrite app_nil_r.
Qed.

Lemma set_thread_id c : in_loop_thread c = true → set_thread true c = c.
Proof. intros E. destruct c. cbn in *. by subst. Qed.

(** An operation that is sound in the loop thread, and otherwise queues a
    task or does nothing. *)
Lemma in_thread_ok b (f : TcpConnection Q → res (TcpConnection Q)) c :
  conn_ok c → (b = true → sound c (f c)) →
  (b = false → f (set_thread false c) = Ok (set_thread false c) ∨
     ∃ g, g ≠ FDestroyConnection ∧ f (set_thread false c) = Ok (QueueInLoop g (set_thread false c))) →
  ∃ c', in_thread b f c = Ok c' ∧ conn_ok c' ∧ grows c c'.
Proof.
  intros Hc Hin Hout. pose proof (co_thread c Hc) as Ht. unfold in_thread. destruct b.
  - rewrite set_thread_id by done.
    destruct (sound_conn_ok c (f c) Hc (Hin eq_refl)) as (c' & -> & Hc' & Hg). cbn [mbind res_bind].
    exists c'. by rewrite set_thread_id by apply Hc'.
  - destruct (Hout eq_refl) as [->|(g & Hg & ->)]; cbn [mbind res_bind];
      (eexists; split; [reflexivity|]); [|by apply queue_ok].
    change (set_thread true (set_thread false c)) with (set_thread true c).
    rewrite set_thread_id by done. split; [done|]. by apply extends_grows.
Qed.

Lemma half_closing_wf c : conn_wf c → state_ c = kConnected → conn_wf (SetState kDisConnecting c).
Proof.
  intros [? ? Hs Hp [? Hz]] E. rewrite E in Hs.
  split; try done; cbn; [intros _; apply Hp; by left|]. split; [done|]. intros _. apply Hz. by left.
Qed.

Lemma half_closing_extends c : state_ c = kConnected → extends c (SetState kDisConnecting c).
Proof.
  intros E. split; cbn; try done; try congruence;
    exists []; rewrite app_nil_r; first [done | split; [done|congruence]].
Qed.

Lemma ShutDown_sound c :
  conn_wf c → in_loop_thread c = true → sound c (ShutDown sys_write invoke c).
Proof.
  intros Hw Ht. unfold ShutDown, RunInLoop. destruct (decide _) as [E|]; [|by apply sound_ok].
  cbn [in_loop_thread SetState run_functor]. rewrite Ht.
  destruct (ShutDownInLoop_sound (SetState kDisConnecting c)) as (c' & -> & Hw' & He & Hh & _);
    [by apply half_closing_wf|done|].
  exists c'. split_and!; try done. etransitivity; [by apply half_closing_extends|done].
Qed.

Lemma ShutDown_queued_ok c :
  conn_ok c → ∃ c', in_thread false (ShutDown sys_write invoke) c = Ok c' ∧ conn_ok c' ∧ grows c c'.
Proof.
  intros Hc. unfold in_thread, ShutDown, RunInLoop. cbn [state_ set_thread].
  destruct (decide _) as [E|].
  2: { cbn [mbind res_bind]. eexists. split; [reflexivity|].
       change (set_thread true (set_thread false c)) with (set_thread true c).
       rewrite set_thread_id by apply Hc. split; [done|]. by apply extends_grows. }
  eexists. split; [reflexivity|]. destruct Hc as [Hw _ Ht Hf]. split.
  - split.
    + apply (conn_wf_same (SetState kDisConnecting c)); try done. by apply half_closing_wf.
    + intros _. right. right. apply elem_of_app. right. left.
    + done.
    + cbn. rewrite not_elem_of_app, list_elem_of_singleton. by split.
  - split_and!; exists []; by rewrite app_nil_r.
Qed.

Lemma run_in_loop_queued f c :
  RunInLoop sys_write invoke f (set_thread false c) = Ok (QueueInLoop f (set_thread false c)).
Proof. done. Qed.

Lemma DestroyConnection_ok c :
  conn_ok c → a_status (channel_ c) = Registered →
  ∃ c', DestroyConnection c = Ok c' ∧ conn_ok c' ∧ grows c c' ∧ a_status (channel_ c') = Removed.
Proof.
  intros [Hw _ Ht Hf] Hr. unfold DestroyConnection, AssertInLoopThread. rewrite Ht. cbn [mbind res_bind].
  assert (∃ c1, (if decide (state_ c ≠ kDisConnected)
    then on_channel chan_disable_all (SetState kDisConnected c) else Ok c) = Ok c1 ∧
    state_ c1 = kDisConnected ∧ a_events (channel_ c1) = kNoneEvent ∧
    a_status (channel_ c1) = Registered ∧ input_buffer_ c1 = input_buffer_ c ∧
    ouput_buffer_ c1 = ouput_buffer_ c ∧ sent c1 = sent c ∧ trace c1 = trace c ∧
    in_loop_thread c1 = true ∧ functors_ c1 = functors_ c)
    as (c1 & -> & Es & Ee & Er & E1 & E2 & E3 & E4 & E5 & E6).
  { destruct (decide _) as [Hn|Hn].
    - unfold on_channel, chan_disable_all. cbn [channel_ SetState].
      rewrite chan_update_registered by done. cbn [mbind res_bind]. eexists. split; [reflexivity|].
      by split_and!.
    - assert (state_ c = kDisConnected) as Es by (by apply dec_stable).
      exists c. split_and!; try done. pose proof (cw_state c Hw) as H1. by rewrite Es in H1. }
  cbn [mbind res_bind]. unfold on_channel, chan_remove. rewrite bool_decide_true by done.
  cbn [mbind res_bind]. eexists. split; [reflexivity|]. split; [|split].
  - destruct Hw as [? ? ? ? [Hle _]]. split; [split|..]; cbn; try (by rewrite ?E1, ?E2, ?E6).
    + by rewrite Es.
    + intros [Ho|Ho]; cbn in Ho; congruence.
    + rewrite E4. split; [done|]. intros [Ho|Ho]; cbn in Ho; congruence.
    + intros Ho. cbn in Ho. congruence.
  - unfold grows, stream. cbn. rewrite E2, E3, E4. split_and!; exists []; by rewrite app_nil_r.
  - done.
Qed.

Lemma run_op_ok o c :
  conn_ok c → legal o c → ∃ c', run_op o c = Ok c' ∧ conn_ok c' ∧ grows c c'.
Proof.
  intros Hc Hl. destruct (Hc) as [Hw Hh Ht Hf].
  assert (∀ f, f ≠ FDestroyConnection → sound c (run_functor sys_write invoke f c) → ∀ b,
    ∃ c', in_thread b (RunInLoop sys_write invoke f) c = Ok c' ∧ conn_ok c' ∧ grows c c') as Hrun.
  { intros f Hne Hs b. apply in_thread_ok; [done| |].
    - intros _. unfold RunInLoop. by rewrite Ht.
    - intros _. right. by exists f. }
  destruct o as [b first len|b buf|b|b| |b|b| | |r t|]; cbn [run_op legal] in *.
  - apply in_thread_ok; [done| |]; intros ->; unfold Send.
    + destruct (decide _); [|by apply sound_ok]. rewrite Ht. by apply SendInLoop_sends.
    + cbn [state_ set_thread in_loop_thread]. destruct (decide _); [|by left]. right.
      unfold read_mem. rewrite decide_True by done. eexists. by split; [|reflexivity].
  - apply in_thread_ok; [done| |]; intros ->; unfold Send_buffer.
    + destruct (decide _); [|by apply sound_ok]. rewrite Ht. by apply SendInLoop_buffer_sends.
    + cbn [state_ set_thread in_loop_thread]. destruct (decide _); [|by left]. right.
      rewrite bq_peek_all_law by done. eexists. by split; [|reflexivity].
  - destruct b; [|by apply ShutDown_queued_ok]. apply in_thread_ok; [done| |done].
    intros _. by apply ShutDown_sound.
  - apply in_thread_ok; [done| |]; intros ->; unfold ForceClose.
    + destruct (decide _); [|by apply sound_ok]. unfold RunInLoop. rewrite Ht.
      by apply ForceCloseInLoop_sound.
    + cbn [state_ set_thread]. destruct (decide _); [|by left]. right. by exists FForceCloseInLoop.
  - unfold ForceCloseWithDelay. eexists. split; [reflexivity|].
    destruct (decide _); [|split; [done|by apply extends_grows]].
    split; [by split; try done; apply (conn_wf_same c)|].
    split_and!; exists []; by rewrite app_nil_r.
  - apply Hrun; [done|]. by apply StartReadInLoop_sound.
  - apply Hrun; [done|]. by apply StopReadInLoop_sound.
  - by apply RunFunctor_ok.
  - unfold RunDelayed. destruct (delayed_ c) as [|n]; [exists c; split_and!; try done; by apply extends_grows|].
    destruct (sound_conn_ok (set_delayed n c) (ForceCloseInLoop invoke (set_delayed n c)))
      as (c' & E & Hc' & Hg); [split; try done; by apply (conn_wf_same c)|by apply ForceCloseInLoop_sound; [apply (conn_wf_same c)|]|].
    exists c'. split_and!; done.
  - destruct Hl as [Ho Hm]. apply sound_conn_ok; [done|]. by apply HandleEvent_sound.
  - destruct (DestroyConnection_ok c Hc Hl) as (c' & ? & ? & ? & _). eauto.
Qed.

Lemma grows_trans c1 c2 c3 : grows c1 c2 → grows c2 c3 → grows c1 c3.
Proof.
  intros ((d1 & D1) & (e1 & E1) & (l1 & L1)) ((d2 & D2) & (e2 & E2) & (l2 & L2)).
  split_and!; [exists (d1 ++ d2)|exists (e1 ++ e2)|exists (l1 ++ l2)];
    by rewrite ?D2, ?D1, ?E2, ?E1, ?L2, ?L1, app_assoc.
Qed.

Lemma run_ops_ok ops : ∀ c,
  conn_ok c → legal_run ops c → ∃ c', run_ops ops c = Ok c' ∧ conn_ok c' ∧ grows c c'.
Proof.
  induction ops as [|o ops IH]; intros c Hc Hl; [exists c; split_and!; try done; by apply extends_grows|].
  destruct Hl as [Hl Hls]. destruct (run_op_ok o c Hc Hl) as (c1 & E & Hc1 & Hg1).
  destruct (IH c1 Hc1 (Hls c1 E)) as (c2 & E2 & Hc2 & Hg2).
  exists c2. cbn [run_ops]. rewrite E. cbn [mbind res_bind]. split_and!; try done.
  by eapply grows_trans.
Qed.

(** Establishing a new connection. *)
Lemma EstablishConnection_ok fd m w h :
  ∃ c, EstablishConnection invoke (TcpConnection_new fd m w h) = Ok c ∧ conn_ok c.
Proof.
  unfold EstablishConnection, on_channel, chan_enable_reading, chan_update.
  cbn [AssertInLoopThread TcpConnection_new in_loop_thread mbind res_bind assert close_callback_
    connection_callback_ state_ SetState channel_ a_status].
  rewrite bool_decide_true by done. cbn [assert mbind res_bind a_status a_fd a_events].
  set (c1 := set_channel _ _). destruct bq_new_law as [Hn Hc].
  assert (conn_wf c1) as Hw1.
  { split; try done. split; [unfold closes; cbn; lia|done]. }
  destruct (call_back_sound EvConnection c1 Hw1) as (c & E & Hw & He & Hh); [done|done|].
  exists c. split; [done|]. split; [done|by apply Hh|by rewrite (ex_thread _ _ He)|].
  intros Hin. apply (ex_functors _ _ He) in Hin. by apply not_elem_of_nil in Hin.
Qed.

(** *** The theorems *)

(** A run, when no direct write is short. *)
Lemma connection_runs_whole fd m w h :
  ∃ c0, EstablishConnection invoke (TcpConnection_new fd m w h) = Ok c0 ∧ conn_ok c0 ∧
    ∀ ops, legal_run ops c0 → ∃ c, run_ops ops c0 = Ok c ∧ conn_ok c ∧ grows c0 c.
Proof.
  destruct (EstablishConnection_ok fd m w h) as (c0 & E & Hc). exists c0.
  split_and!; [done|done|]. intros ops. by apply run_ops_ok.
Qed.

(** Closing an open connection. *)
Lemma close_is_final c :
  conn_ok c → open c →
  ∃ c', HandleClose invoke c = Ok c' ∧ conn_wf c' ∧ state_ c' = kDisConnected ∧
    a_events (channel_ c') = kNoneEvent ∧ closes (trace c') = 1 ∧
    ForceCloseInLoop invoke c' = Ok c' ∧ ForceClose sys_write invoke c' = Ok c' ∧
    ShutDown sys_write invoke c' = Ok c' ∧
    (∀ first len, Send sys_write invoke first len c' = Ok c' ∧
       SendInLoop sys_write invoke first len c' = Ok c').
Proof.
  intros [Hw _ Ht _] Ho. destruct (HandleClose_sound c Hw Ht Ho) as (c' & E & Hw' & He & Hs & Hc).
  exists c'. pose proof (cw_state c' Hw') as Hn. rewrite Hs in Hn.
  assert (in_loop_thread c' = true) as Ht' by (by rewrite (ex_thread _ _ He)).
  unfold ForceCloseInLoop, ForceClose, ShutDown, Send, SendInLoop, AssertInLoopThread.
  rewrite Hs, Ht'. split_and!; try done.
Qed.

(** Half-closing. *)
Lemma half_close_after_data c :
  conn_ok c →
  (∀ c', wr_shutdown c = false → ShutDownInLoop c = Ok c' → wr_shutdown c' = true → open c →
     sent c' = stream c') ∧
  (state_ c = kDisConnecting → wr_shutdown c = false → FShutDownInLoop ∉ functors_ c →
     chan_writting (channel_ c) = true) ∧
  (∀ c', state_ c = kDisConnecting → HandleWrite sys_writev invoke c = Ok c' →
     state_ c' = kDisConnecting → FShutDownInLoop ∉ functors_ c' →
     chan_writting (channel_ c') = false → wr_shutdown c' = true ∧ sent c' = stream c').
Proof.
  intros [Hw Hh Ht Hf].
  assert (∀ c, conn_wf c → open c → chan_writting (channel_ c) = false → sent c = stream c) as Hall.
  { intros x Hx Hxo Hxw. unfold stream. destruct (bq_content (ouput_buffer_ x)) eqn:E; [by rewrite app_nil_r|].
    rewrite (cw_pending x Hx Hxo) in Hxw; [done|]. by rewrite E. }
  split_and!.
  - intros c' H1 H2 H3 Ho. unfold ShutDownInLoop, AssertInLoopThread in H2. rewrite Ht in H2.
    cbn [mbind res_bind] in H2. injection H2 as <-.
    destruct (chan_writting (channel_ c)) eqn:Ew; cbn [negb] in *; [congruence|].
    unfold stream. cbn. by apply (Hall c).
  - intros Hs Hn Hq. destruct (Hh Hs) as [?|[?|?]]; [congruence|done|done].
  - intros c' Hs E Hs' Hq' Hw'.
    destruct (HandleWrite_sound c Hw Ht) as (c2 & E2 & Hw2 & _ & Hh2). rewrite E in E2. injection E2 as <-.
    split; [|by apply Hall; [|right|]].
    destruct (Hh2 Hh Hs') as [?|[?|?]]; [done|congruence|done].
Qed.

(** C18: closing an open connection disables its events, runs the close
    callback exactly once and leaves it closed: closing again, a late
    half-close of the output and a late send change nothing.  The output is
    half-closed only when everything accepted was taken by the socket, and
    while a half-close is due without being queued, the channel waits for the
    writes that will do it. *)
Theorem connection_closing c :
  conn_ok c →
  (open c →
   ∃ c', HandleClose invoke c = Ok c' ∧ conn_wf c' ∧ state_ c' = kDisConnected ∧
     a_events (channel_ c') = kNoneEvent ∧ closes (trace c') = 1 ∧
     ForceCloseInLoop invoke c' = Ok c' ∧ ForceClose sys_write invoke c' = Ok c' ∧
     ShutDown sys_write invoke c' = Ok c' ∧
     (∀ first len, Send sys_write invoke first len c' = Ok c' ∧
        SendInLoop sys_write invoke first len c' = Ok c')) ∧
  (∀ c', wr_shutdown c = false → ShutDownInLoop c = Ok c' → wr_shutdown c' = true → open c →
     sent c' = stream c') ∧
  (state_ c = kDisConnecting → wr_shutdown c = false → FShutDownInLoop ∉ functors_ c →
     chan_writting (channel_ c) = true) ∧
  (∀ c', state_ c = kDisConnecting → HandleWrite sys_writev invoke c = Ok c' →
     state_ c' = kDisConnecting → FShutDownInLoop ∉ functors_ c' →
     chan_writting (channel_ c') = false → wr_shutdown c' = true ∧ sent c' = stream c').
Proof. intros Hc. split; [by apply close_is_final|by apply half_close_after_data]. Qed.
End correctness.

(** ** Short direct writes

    [write(2)] may take a part of what [SendInLoop] gives it, and then the code
    goes wrong ([short_write_overreads]).  The theorems below hold up to the
    first operation of a run that does such a write. *)
Section short.
Context {Q : Type} `{ByteQueueLaws Q}.
Variable sys_write : nat → bytes → writev_result.
Variable sys_readv : nat → readv_fn.
Variable sys_writev : nat → writev_fn.
Variable invoke : cb_event → TcpConnection Q → res (TcpConnection Q).
Implicit Types c : TcpConnection Q.

(** [SendInLoop] writes directly, and the socket takes some of the bytes, but
    not all. *)
Definition takes_part (first : bytes) (len : nat) c : bool :=
  bool_decide (state_ c ≠ kDisConnected) && negb (chan_writting (channel_ c)) && bool_decide (bq_readable (ouput_buffer_ c) = 0) &&
  match sys_write (calls c) (take len first) with WritevN n => bool_decide (0 < n < len) | WritevErr _ => false end.

(** The operation is a send, or runs the functor of one, whose direct write is
    short. *)
Definition op_takes_part (o : conn_op (Q := Q)) c : bool :=
  match o with
  | OpSend true first len => bool_decide (state_ c = kConnected) && takes_part first len c
  | OpRunFunctor => match functors_ c with FSendInLoop m :: _ => takes_part (m ++ [nul]) (length m) c | _ => false end
  | _ => false
  end.

(** The same kernel, but for its short writes, which take nothing instead. *)
Definition made_whole (k : nat) (d : bytes) : writev_result :=
  match sys_write k d with
  | WritevN n => WritevN (if decide (n = length d) then n else 0)
  | WritevErr e => WritevErr e
  end.

Lemma made_whole_whole : writes_whole made_whole.
Proof. intros k d n. unfold made_whole. destruct (sys_write k d) as [e|m]; [done|]. intros [= <-]. destruct (decide _) as [->|]; auto. Qed.

Hypothesis write_law : ∀ k, writev_ok (sys_write k).

Lemma write_directly_made_whole first len c :
  len ≤ length first →
  (∀ n, sys_write (calls c) (take len first) = WritevN n → ¬ 0 < n < len) →
  write_directly sys_write invoke first len c = write_directly made_whole invoke first len c.
Proof.
  intros Hl Hn. unfold write_directly, read_mem. rewrite decide_True by done. cbn [mbind res_bind]. unfold made_whole.
  destruct (sys_write (calls c) (take len first)) as [e|n] eqn:E; [done|]. specialize (Hn n eq_refl).
  apply write_law in E. rewrite length_take in *. destruct (decide (n = _)) as [->|Hne]; [done|].
  by rewrite !decide_False by lia.
Qed.

Lemma SendInLoop_made_whole first len c :
  len ≤ length first → takes_part first len c = false →
  SendInLoop sys_write invoke first len c = SendInLoop made_whole invoke first len c.
Proof.
  intros Hl Ht. unfold SendInLoop. destruct (AssertInLoopThread c); cbn [mbind res_bind]; [|done].
  destruct (decide _) as [|Hs]; [done|]. unfold takes_part in Ht. rewrite bool_decide_true in Ht by done. cbn [andb] in Ht.
  destruct (negb (chan_writting (channel_ c)) && bool_decide (bq_readable (ouput_buffer_ c) = 0)) eqn:Eg; [|done]. cbn [andb] in Ht.
  rewrite write_directly_made_whole; [done|done|]. intros n En. rewrite En in Ht. by apply bool_decide_eq_false in Ht.
Qed.

Lemma run_op_made_whole o c :
  legal o c → op_takes_part o c = false →
  run_op sys_write sys_readv sys_writev invoke o c = run_op made_whole sys_readv sys_writev invoke o c.
Proof.
  intros Hl Ht. destruct o as [[] first len|b buf|[]|[]| |[]|[]| | |r t|]; try done; cbn [run_op op_takes_part legal] in *.
  - unfold in_thread, Send. cbn [state_ set_thread in_loop_thread]. destruct (decide (state_ c = kConnected)) as [Hs|]; [|done].
    rewrite bool_decide_true in Ht by done. by rewrite SendInLoop_made_whole.
  - unfold RunFunctor. destruct (functors_ c) as [|[| |m| | | |] fs]; try done. cbn [run_functor].
    apply SendInLoop_made_whole; [rewrite length_app; cbn [length]; lia|exact Ht].
Qed.

(** What holds of runs without short writes holds of every run up to its first
    short write. *)
Lemma run_ops_upto (P : list (conn_op (Q := Q)) → TcpConnection Q → Prop) ops c :
  (∀ dn, agree (run_op sys_write sys_readv sys_writev invoke) (run_op made_whole sys_readv sys_writev invoke) dn c →
     legal_run made_whole sys_readv sys_writev invoke dn c →
     ∃ c', run_ops made_whole sys_readv sys_writev invoke dn c = Ok c' ∧ P dn c') →
  legal_run sys_write sys_readv sys_writev invoke ops c →
  ∃ done rest c', ops = done ++ rest ∧ run_ops sys_write sys_readv sys_writev invoke done c = Ok c' ∧ P done c' ∧
    (rest = [] ∨ ∃ o rest', rest = o :: rest' ∧ op_takes_part o c' = true).
Proof.
  apply (run_upto (run_op sys_write sys_readv sys_writev invoke) (run_op made_whole sys_readv sys_writev invoke) legal legal op_takes_part
    (run_ops sys_write sys_readv sys_writev invoke) (run_ops made_whole sys_readv sys_writev invoke)
    (legal_run sys_write sys_readv sys_writev invoke) (legal_run made_whole sys_readv sys_writev invoke)); try done.
  intros o c1 Hl Ht. split; [done|by apply run_op_made_whole].
Qed.

Hypothesis readv_law : ∀ k, readv_ok (sys_readv k).
Hypothesis writev_law : ∀ k, writev_ok (sys_writev k).
Hypothesis invoke_law : callbacks_ok invoke.

(** C2: from its establishment on, a connection runs any legal sequence of
    calls (from its loop or from other threads), of queued tasks, timers and
    socket events without any assertion failing; the connection stays in the
    poll set until it is destroyed, pending data keeps write events enabled, a
    requested half-close is done or due, the close callback runs at most once,
    and what was accepted and sent only grows.  All this holds to the end of
    the sequence, or until an operation writes directly and the socket takes
    only a part, where the code goes wrong ([short_write_overreads]).  The
    callbacks keep [callbacks_ok]: they return with the connection well formed
    and what was accepted extended, which a callback that itself makes such a
    short write does not. *)
Theorem connection_runs fd m w h ops :
  ∃ c0, EstablishConnection invoke (TcpConnection_new fd m w h) = Ok c0 ∧ conn_ok c0 ∧
    (legal_run sys_write sys_readv sys_writev invoke ops c0 →
     ∃ done rest c, ops = done ++ rest ∧ run_ops sys_write sys_readv sys_writev invoke done c0 = Ok c ∧ (conn_ok c ∧ grows c0 c) ∧
       (rest = [] ∨ ∃ o rest', rest = o :: rest' ∧ op_takes_part o c = true)).
Proof.
  destruct (connection_runs_whole made_whole sys_readv sys_writev invoke made_whole_whole readv_law writev_law invoke_law fd m w h)
    as (c0 & E & Hc & Hr).
  exists c0. split_and!; [done|done|]. apply (run_ops_upto (λ _ c, conn_ok c ∧ grows c0 c)). intros dn _. apply Hr.
Qed.

End short.

(** ** Where the code goes wrong *)

Section defects.
Context {Q : Type} `{ByteQueueLaws Q}.
Variable invoke : cb_event → TcpConnection Q → res (TcpConnection Q).
Implicit Types c : TcpConnection Q.

(** C20: when the socket takes only part of a direct write, [SendInLoop] queues
    [len] bytes from the first one not taken instead of the remaining ones:
    it reads past the end of the message, and if there is readable memory
    behind it, as many bytes as were written follow the message into the
    stream. *)
Theorem short_write_overreads sys_write first len n c :
  conn_wf c → in_loop_thread c = true → open c → chan_writting (channel_ c) = false →
  high_water_callback_ c = false → len ≤ length first →
  sys_write (calls c) (take len first) = WritevN n → 0 < n < len →
  (length first < n + len → SendInLoop sys_write invoke first len c = Fault OutOfBounds) ∧
  (n + len ≤ length first → ∃ c', SendInLoop sys_write invoke first len c = Ok c' ∧
     stream c' = stream c ++ take (n + len) first).
Proof.
  intros Hw Ht Ho Hwr Hh Hl Hsys Hn.
  assert (bq_content (ouput_buffer_ c) = []) as Hout.
  { destruct (bq_content (ouput_buffer_ c)) eqn:E; [done|].
    rewrite (cw_pending c Hw Ho) in Hwr; [done|]. by rewrite E. }
  assert (SendInLoop sys_write invoke first len c =
    (q ← bq_append (ouput_buffer_ c) (drop n first) len;
     enable_writting_if_not (set_output q (set_sent (sent c ++ take n first) (tick c))))) as ->.
  { unfold SendInLoop, AssertInLoopThread. rewrite Ht. cbn [mbind res_bind].
    rewrite decide_False by (intros E; by apply closed_not_open in E).
    rewrite Hwr, bq_readable_law, Hout by apply Hw. cbn [negb andb length bool_decide].
    unfold write_directly, read_mem. rewrite bool_decide_true, decide_True by done.
    cbn [mbind res_bind]. rewrite Hsys, decide_True by lia. rewrite decide_False by lia.
    cbn [mbind res_bind]. rewrite decide_True by lia.
    unfold high_water. cbn [high_water_callback_ set_sent tick set_calls]. rewrite decide_False by (intros (_ & _ & E); congruence).
    cbn [mbind res_bind]. rewrite take_take, Nat.min_l by lia. done. }
  split.
  - intros Hlt. rewrite bq_overread_law; [done|apply Hw|rewrite length_drop; lia].
  - intros Hge. destruct (bq_append_law (ouput_buffer_ c) (drop n first) len) as (q & -> & Hq & Hqc);
      [apply Hw|rewrite length_drop; lia|]. cbn [mbind res_bind].
    unfold enable_writting_if_not, on_channel, chan_enable_writting.
    cbn [channel_ set_output set_sent tick set_calls]. rewrite Hwr. cbn [negb].
    rewrite chan_update_registered by by apply open_registered. cbn [mbind res_bind].
    eexists. split; [reflexivity|]. unfold stream. cbn.
    rewrite Hqc, Hout, !app_nil_r, <- app_assoc. cbn. by rewrite take_take_drop.
Qed.

(** A high water callback that closes the connection: the send goes on, and
    asks for write events on the closed channel, so that the destruction of
    the connection fails an assertion. *)
Lemma high_water_close_breaks buf c c1 :
  in_loop_thread c = true → open c → conn_wf c1 → bq_wf buf →
  high_water invoke (bq_readable buf) c = Ok c1 → in_loop_thread c1 = true →
  state_ c1 = kDisConnected → a_status (channel_ c1) = Registered →
  ∃ c2, SendInLoop_buffer invoke buf c = Ok c2 ∧ DestroyConnection c2 = Fault AssertFail.
Proof.
  intros Ht Ho Hw1 Hb Hh Ht1 Hs1 Hr1. unfold SendInLoop_buffer, AssertInLoopThread. rewrite Ht.
  cbn [mbind res_bind]. rewrite decide_False by (intros E; by apply closed_not_open in E).
  rewrite Hh. cbn [mbind res_bind].
  destruct (bq_append_queue_law (ouput_buffer_ c1) buf) as (q & -> & _); [apply Hw1|done|].
  pose proof (cw_state c1 Hw1) as He. rewrite Hs1 in He.
  cbn [mbind res_bind]. unfold enable_writting_if_not, on_channel, chan_enable_writting.
  cbn [channel_ set_output]. unfold chan_writting. rewrite He.
  change (negb (has kNoneEvent kWriteEvent)) with true. cbn iota.
  rewrite chan_update_registered by done. cbn [mbind res_bind]. eexists. split; [reflexivity|].
  unfold DestroyConnection, AssertInLoopThread. cbn [in_loop_thread set_channel set_output]. rewrite Ht1.
  cbn [mbind res_bind state_]. cbn [state_ set_channel set_output]. rewrite Hs1, decide_False by auto.
  cbn [mbind res_bind]. unfold on_channel, chan_remove. cbn [channel_ set_channel a_status a_events].
  rewrite bool_decide_false; [done|]. rewrite He. by intros [_ ?].
Qed.
End defects.

(** ** Runs of the model *)

(** A user whose message callback echoes what was received; other callbacks
    do nothing. *)
Definition silent {Q} (_ : cb_event) (c : TcpConnection Q) : res (TcpConnection Q) := Ok c.

Definition echo {Q} `{ByteQueue Q} (sys_write : nat → bytes → writev_result) (ev : cb_event)
    (c : TcpConnection Q) : res (TcpConnection Q) :=
  match ev with
  | EvMessage _ =>
      d ← bq_peek_all (input_buffer_ c);
      q ← bq_retrive (input_buffer_ c) (length d);
      SendInLoop sys_write silent d (length d) (set_input q c)
  | _ => Ok c
  end.

Lemma silent_ok {Q} `{ByteQueueLaws Q} : callbacks_ok (silent (Q := Q)).
Proof. intros ev c Hw _ _. exists c. split_and!; try done. by destruct ev. Qed.

Lemma echo_ok {Q} `{ByteQueueLaws Q} sys_write :
  writes_whole sys_write → callbacks_ok (echo (Q := Q) sys_write).
Proof.
  intros Hsys ev c Hw Ht _. destruct ev as [|t| | |n]; try (exists c; by split_and!).
  cbn [echo]. rewrite bq_peek_all_law by apply Hw. cbn [mbind res_bind].
  destruct (bq_retrive_law (input_buffer_ c) (length (bq_content (input_buffer_ c))))
    as (q & -> & Hq & _); [apply Hw|done|]. cbn [mbind res_bind].
  assert (conn_wf (set_input q c)) as Hw1 by (destruct Hw; by split).
  destruct (SendInLoop_sends sys_write silent Hsys silent_ok (bq_content (input_buffer_ c))
    (length (bq_content (input_buffer_ c))) (set_input q c) Hw1 Ht) as [(c' & E & Hw' & He & Hh) _]; [done|].
  exists c'. split_and!; try done; [etransitivity; [|exact He]; by apply extends_same|].
  intros Hs. unfold SendInLoop, AssertInLoopThread in E. cbn [in_loop_thread set_input] in E.
  rewrite Ht in E. cbn [mbind res_bind] in E. rewrite decide_True in E by done. by injection E as <-.
Qed.

(** A kernel that takes every second direct write, delivers a greeting and
    then the end of the stream, and takes everything later. *)
Definition peer_write (k : nat) (d : bytes) : writev_result :=
  if Nat.even k then WritevErr 11 else WritevN (length d).
Definition peer_readv (k : nat) : readv_fn :=
  λ lens, ReadvData (if decide (k = 0) then take (sum_list lens) (B "hello") else []).
Definition peer_writev (k : nat) : writev_fn := λ d, WritevN (length d).

Lemma peer_write_whole : writes_whole peer_write.
Proof. intros k d n. unfold peer_write. destruct (Nat.even k); [done|]. intros E. injection E as <-. by right. Qed.
Lemma peer_write_law k : writev_ok (peer_write k).
Proof. intros d n E. apply peer_write_whole in E as [-> | ->]; lia. Qed.
Lemma peer_writev_law k : writev_ok (peer_writev k).
Proof. intros d n E. by injection E as <-. Qed.
Lemma peer_readv_law k : readv_ok (peer_readv k).
Proof.
  intros lens d E. injection E as <-. case_decide; [rewrite length_take; lia|apply Nat.le_0_l].
Qed.

Definition peer_echo : cb_event → TcpConnection bytes → res (TcpConnection bytes) :=
  echo peer_write.
Definition peer_echo_ok : callbacks_ok peer_echo := echo_ok peer_write peer_write_whole.

(** The connection of file descriptor 7, after its establishment. *)
Definition demo_conn : TcpConnection bytes :=
  set_channel (mkAbs 7 kReadEvent Registered)
    (set_trace [EvConnection] (SetState kConnected (TcpConnection_new 7 true true false))).

Lemma demo_conn_eq : EstablishConnection peer_echo (TcpConnection_new 7 true true false) = Ok demo_conn.
Proof. reflexivity. Qed.

(** The greeting is echoed directly; another thread sends, the data waits for
    the socket, both sides close. *)
Definition demo_ops : list (conn_op (Q := bytes)) :=
  [OpEvent POLLIN 5; OpSend false (B "bye") 3; OpRunFunctor; OpShutDown true; OpEvent POLLOUT 6;
   OpEvent POLLIN 7; OpDestroy].

Abbreviation demo_run := (run_ops peer_write peer_readv peer_writev peer_echo).

Lemma demo_legal : legal_run peer_write peer_readv peer_writev peer_echo demo_ops demo_conn.
Proof.
  assert (∀ r, has r POLLHUP = false → mask_ok r) as Hm by (intros r Hr; unfold mask_ok; by rewrite Hr).
  repeat match goal with
  | |- legal_run _ _ _ _ [] _ => exact I
  | |- legal_run _ _ _ _ _ _ => split
  | |- legal _ _ _ => first [exact I | vm_compute; lia | split; [vm_compute; tauto|by apply Hm] | reflexivity]
  | |- ∀ _, _ => intros ? E; vm_compute in E; injection E as <-
  | |- legal _ _ => first [exact I | split; [vm_compute; tauto|by apply Hm] | reflexivity | cbn; lia]
  end.
Qed.

(** What comes of it. *)
Definition demo_end (c : TcpConnection bytes) : Prop :=
  sent c = B "hellobye" ∧
  trace c = [EvConnection; EvMessage 5; EvWriteComplete; EvWriteComplete; EvConnection; EvClose] ∧
  wr_shutdown c = true ∧ a_status (channel_ c) = Removed.

Lemma connection_runs_witness :
  (∀ k, writev_ok (peer_write k)) ∧ legal_run peer_write peer_readv peer_writev peer_echo demo_ops demo_conn ∧
  (∃ done rest c, demo_ops = done ++ rest ∧ demo_run done demo_conn = Ok c ∧ conn_ok c ∧
     (rest = [] ∨ ∃ o rest', rest = o :: rest' ∧ op_takes_part peer_write o c = true)) ∧
  ∃ c, demo_run demo_ops demo_conn = Ok c ∧ demo_end c.
Proof.
  split; [exact peer_write_law|]. split; [exact demo_legal|]. split.
  - destruct (connection_runs peer_write peer_readv peer_writev peer_echo peer_write_law peer_readv_law
      peer_writev_law peer_echo_ok 7 true true false demo_ops) as (c0 & E0 & _ & Hr).
    assert (c0 = demo_conn) as -> by (rewrite demo_conn_eq in E0; by injection E0).
    destruct (Hr demo_legal) as (dn & rest & c & E1 & E2 & [Hc _] & E3). exists dn, rest, c. done.
  - eexists. split; [vm_compute; reflexivity|]. repeat split; reflexivity.
Defined.

Lemma demo_conn_ok : conn_ok demo_conn.
Proof.
  destruct (EstablishConnection_ok peer_echo peer_echo_ok 7 true true false) as (c & E & Hc).
  rewrite demo_conn_eq in E. by injection E as <-.
Qed.


Lemma connection_closing_witness :
  (∃ c', HandleClose peer_echo demo_conn = Ok c' ∧ state_ c' = kDisConnected ∧ closes (trace c') = 1 ∧
     ForceCloseInLoop peer_echo c' = Ok c') ∧
  ∃ c, demo_run [OpSend true (B "bye") 3; OpShutDown true] demo_conn = Ok c ∧
    state_ c = kDisConnecting ∧ wr_shutdown c = false ∧ chan_writting (channel_ c) = true ∧
    ∃ c', HandleWrite peer_writev peer_echo c = Ok c' ∧ wr_shutdown c' = true ∧ sent c' = stream c'.
Proof.
  split.
  { destruct (connection_closing peer_write peer_writev peer_echo peer_writev_law peer_echo_ok demo_conn demo_conn_ok)
      as [Hclose _]. destruct (Hclose (or_introl eq_refl)) as (c' & E & _ & Hs & _ & Hc & Hf & _).
    exists c'. split; [exact E|]. split; [exact Hs|]. split; [exact Hc|exact Hf]. }
  destruct (demo_run [OpSend true (B "bye") 3; OpShutDown true] demo_conn) as [c|f] eqn:E;
    [|vm_compute in E; discriminate].
  destruct (run_ops_ok peer_write peer_readv peer_writev peer_echo peer_write_whole peer_readv_law
    peer_writev_law peer_echo_ok [OpSend true (B "bye") 3; OpShutDown true] demo_conn demo_conn_ok)
    as (c2 & E2 & Hc & _).
  { split; [cbn; lia|]. intros ? _. split; [exact I|]. intros ? _. exact I. }
  assert (c2 = c) as -> by (rewrite E in E2; by injection E2).
  destruct (connection_closing peer_write peer_writev peer_echo peer_writev_law peer_echo_ok c Hc) as (_ & _ & H2 & H3).
  exists c. vm_compute in E. injection E as <-. split; [reflexivity|]. split; [reflexivity|].
  split; [reflexivity|]. split; [apply H2; [reflexivity|reflexivity|by apply not_elem_of_nil]|].
  destruct (HandleWrite peer_writev peer_echo _) as [c'|f] eqn:E'; [|vm_compute in E'; discriminate].
  exists c'. split; [reflexivity|]. apply (H3 c'); [reflexivity|reflexivity|..];
    vm_compute in E'; injection E' as <-; [reflexivity|by apply not_elem_of_nil|reflexivity].
Defined.

(** Two of three bytes are taken: with nothing readable behind the message
    the send is undefined, with two more bytes there they are sent too. *)
Definition short_write (k : nat) (d : bytes) : writev_result := WritevN (Nat.min 2 (length d)).

Lemma short_write_overreads_witness :
  SendInLoop short_write peer_echo (B "abc") 3 demo_conn = Fault OutOfBounds ∧
  ∃ c', SendInLoop short_write peer_echo (B "abcXY") 3 demo_conn = Ok c' ∧
    stream c' = stream demo_conn ++ B "abcXY".
Proof.
  split.
  - apply (short_write_overreads peer_echo short_write (B "abc") 3 2 demo_conn (co_wf _ demo_conn_ok)
      eq_refl (or_introl eq_refl)); try reflexivity; cbn; lia.
  - apply (short_write_overreads peer_echo short_write (B "abcXY") 3 2 demo_conn (co_wf _ demo_conn_ok)
      eq_refl (or_introl eq_refl)); try reflexivity; cbn; lia.
Defined.

(** A read event delivered after the connection was closed in the same
    iteration of the loop (by another connection's callback) finds the end of
    the stream and fails the assertion of [HandleClose]. *)
Lemma stale_event_fails :
  ∃ c, demo_run [OpForceClose true] (tick demo_conn) = Ok c ∧
    demo_run [OpEvent POLLIN 1] c = Fault AssertFail.
Proof. eexists. split; vm_compute; reflexivity. Qed.
