(* ===== verification/SendOrder.v ===== *)
(** Sending from other threads: what [TcpConnection::Send] of
    [net/tcp_connection.cc] queues in the loop reaches the socket in the order
    of the calls, whatever else happens to the connection. *)

From S2P Require Import Prelude ChainBuffer ByteQueue Poller TcpConnection.

Section order.
Context {Q : Type} `{ByteQueueLaws Q}.
Implicit Types c : TcpConnection Q.

(** The bytes a queued functor will send. *)
Definition payload (f : functor) : bytes := match f with FSendInLoop message => message | _ => [] end.

(** All that was accepted and not yet dropped: what the socket took, what the
    output buffer holds, what is queued. *)
Definition accepted c : bytes := stream c ++ concat (payload <$> functors_ c).

(** A callback that does not send and queues nothing. *)
Definition keeps c c' : Prop := stream c' = stream c ∧ functors_ c' = functors_ c.

#[export] Instance keeps_preorder : PreOrder keeps.
Proof. split; [done|]. intros c1 c2 c3 [E1 F1] [E2 F2]. split; congruence. Qed.

Definition quiet (invoke : cb_event → TcpConnection Q → res (TcpConnection Q)) : Prop :=
  ∀ ev c c', invoke ev c = Ok c' → keeps c c'.

Lemma keeps_bind {A} (m : res A) (k : A → res (TcpConnection Q)) c c' :
  m ≫= k = Ok c' → (∀ a, m = Ok a → k a = Ok c' → keeps c c') → keeps c c'.
Proof. destruct m as [a|]; [|done]. intros E Hk. by apply (Hk a). Qed.

Variable sys_write : nat → bytes → writev_result.
Variable sys_readv : nat → readv_fn.
Variable sys_writev : nat → writev_fn.
Variable invoke : cb_event → TcpConnection Q → res (TcpConnection Q).
Hypothesis write_whole : writes_whole sys_write.
Hypothesis readv_law : ∀ k, readv_ok (sys_readv k).
Hypothesis writev_law : ∀ k, writev_ok (sys_writev k).
Hypothesis invoke_law : callbacks_ok invoke.
Hypothesis invoke_quiet : quiet invoke.

Lemma call_back_keeps ev c c' : call_back invoke ev c = Ok c' → keeps c c'.
Proof. intros E. by apply invoke_quiet in E. Qed.

Lemma on_channel_keeps f c c' : on_channel f c = Ok c' → keeps c c'.
Proof. intros E. apply (keeps_bind _ _ _ _ E). by intros x _ [= <-]. Qed.

Lemma AssertInLoopThread_keeps c c' (k : unit → res (TcpConnection Q)) :
  AssertInLoopThread c ≫= k = Ok c' → (k () = Ok c' → keeps c c') → keeps c c'.
Proof. intros E Hk. apply (keeps_bind _ _ _ _ E). intros [] _. apply Hk. Qed.

Lemma HandleClose_keeps c c' : HandleClose invoke c = Ok c' → keeps c c'.
Proof.
  unfold HandleClose. intros E. apply (keeps_bind _ _ _ _ E). intros _ _ E1. apply (AssertInLoopThread_keeps _ _ _ E1).
  intros E2. apply (keeps_bind _ _ _ _ E2). intros c1 H1 E3. apply on_channel_keeps in H1. etransitivity; [exact H1|].
  apply (keeps_bind _ _ _ _ E3). intros c2 H2 E4. etransitivity; [by eapply call_back_keeps|by eapply call_back_keeps].
Qed.

Lemma ForceCloseInLoop_keeps c c' : ForceCloseInLoop invoke c = Ok c' → keeps c c'.
Proof.
  unfold ForceCloseInLoop. intros E. apply (AssertInLoopThread_keeps _ _ _ E). destruct (decide _); [apply HandleClose_keeps|by intros [= <-]].
Qed.

Lemma ShutDownInLoop_keeps c c' : ShutDownInLoop c = Ok c' → keeps c c'.
Proof. unfold ShutDownInLoop. intros E. apply (AssertInLoopThread_keeps _ _ _ E). intros [= <-]. by destruct (negb _). Qed.

Lemma reading_keeps f (v : bool) c c' : (x ← on_channel f c; Ok (set_is_reading v x)) = Ok c' → keeps c c'.
Proof. intros E. apply (keeps_bind _ _ _ _ E). intros x Hx [= <-]. by apply on_channel_keeps in Hx. Qed.

Lemma StartReadInLoop_keeps c c' : StartReadInLoop c = Ok c' → keeps c c'.
Proof. unfold StartReadInLoop. intros E. apply (AssertInLoopThread_keeps _ _ _ E). destruct (_ && _); [apply reading_keeps|by intros [= <-]]. Qed.

Lemma StopReadInLoop_keeps c c' : StopReadInLoop c = Ok c' → keeps c c'.
Proof. unfold StopReadInLoop. intros E. apply (AssertInLoopThread_keeps _ _ _ E). destruct (_ && _); [apply reading_keeps|by intros [= <-]]. Qed.

Lemma DestroyConnection_keeps c c' : DestroyConnection c = Ok c' → keeps c c'.
Proof.
  unfold DestroyConnection. intros E. apply (AssertInLoopThread_keeps _ _ _ E). intros E1. apply (keeps_bind _ _ _ _ E1).
  intros c1 H1 E2. apply on_channel_keeps in E2. etransitivity; [|exact E2].
  destruct (decide _); [by apply on_channel_keeps in H1|by injection H1 as <-].
Qed.

Lemma HandleRead_keeps t c c' : HandleRead sys_readv invoke t c = Ok c' → keeps c c'.
Proof.
  unfold HandleRead. intros E. apply (AssertInLoopThread_keeps _ _ _ E). intros E1. apply (keeps_bind _ _ _ _ E1).
  intros [[n err] q] _ E2. assert (keeps c (set_input q (tick c))) as H1 by done. etransitivity; [exact H1|].
  destruct (decide _); [by injection E2 as <-|]. destruct (decide _); [by apply HandleClose_keeps|].
  destruct (message_callback_ _); [by eapply call_back_keeps|by injection E2 as <-].
Qed.

(** Writing moves bytes from the buffer to the socket. *)
Lemma HandleWrite_keeps c c' : conn_wf c → HandleWrite sys_writev invoke c = Ok c' → keeps c c'.
Proof.
  intros Hw. unfold HandleWrite. intros E. apply (AssertInLoopThread_keeps _ _ _ E). clear E. destruct (chan_writting _); [|by intros [= <-]].
  destruct (bq_writefd_law (sys_writev (calls c)) (ouput_buffer_ c) (cw_output c Hw) (writev_law _)) as (n & err & out & q & -> & Hq & Hout).
  cbn [mbind res_bind]. apply write_outcome_stream in Hout. set (c1 := set_sent _ _). intros E.
  assert (keeps c c1) as H1 by (split; [unfold stream; cbn; by rewrite <- app_assoc, Hout|done]). etransitivity; [exact H1|].
  destruct (decide _); [by injection E as <-|]. destruct (decide _); [|by injection E as <-].
  apply (keeps_bind _ _ _ _ E). intros c2 H2 E2. apply on_channel_keeps in H2. etransitivity; [exact H2|].
  apply (keeps_bind _ _ _ _ E2). intros c3 H3 E3. etransitivity; [|instantiate (1 := c3)].
  - destruct (write_complete_callback_ _); [by eapply call_back_keeps|by injection H3 as <-].
  - destruct (decide _); [by apply ShutDownInLoop_keeps|by injection E3 as <-].
Qed.

Lemma HandleEvent_keeps r t c c' :
  conn_wf c → in_loop_thread c = true → open c → mask_ok r → HandleEvent sys_readv sys_writev invoke r t c = Ok c' → keeps c c'.
Proof.
  intros Hw Ht Ho Hm. unfold HandleEvent, HandleEventWithGuard, callbacks. cbn [Poller.read_callback_
    Poller.write_callback_ Poller.error_callback_ Poller.close_callback_ call fmap option_fmap option_map].
  assert ((if has r (Z.lor POLLERR POLLNVAL) then HandleError c else Ok c) = Ok c) as -> by (by destruct (has _ _)).
  cbn [mbind res_bind]. destruct (has r POLLHUP && negb (has r POLLIN)) eqn:Eh.
  - destruct (Hm Eh) as [-> ->]. cbn [mbind res_bind]. intros E. apply (HandleClose_keeps c). by destruct (HandleClose _ c).
  - clear Eh Hm. intros E. apply (keeps_bind _ _ _ _ E). intros c1 H1 E1.
    assert (conn_wf c1) as Hw1.
    { clear E E1; destruct (has r (Z.lor (Z.lor POLLIN POLLPRI) POLLRDHUP)); [|by injection H1 as <-].
      destruct (HandleRead_sound sys_readv invoke readv_law invoke_law t c Hw Ht Ho) as (c2 & E2 & ? & _). rewrite H1 in E2. by injection E2 as <-. }
    etransitivity; [|instantiate (1 := c1)].
    + clear E1 E; destruct (has r (Z.lor (Z.lor POLLIN POLLPRI) POLLRDHUP)); [by eapply HandleRead_keeps|by injection H1 as <-].
    + apply (keeps_bind _ _ _ _ E1). intros c2 H2 [= <-]. destruct (has r POLLOUT); [by apply HandleWrite_keeps|by injection H2 as <-].
Qed.

(** ** Sending in the loop *)

(** [c'] has the bytes behind those of [c]. *)
Definition follows (d : bytes) c c' : Prop := stream c' = stream c ++ d ∧ functors_ c' = functors_ c.

Lemma keeps_follows d c1 c2 c3 : keeps c1 c2 → follows d c2 c3 → follows d c1 c3.
Proof. intros [E F] [E' F']. split; congruence. Qed.

Lemma follows_keeps d c1 c2 c3 : follows d c1 c2 → keeps c2 c3 → follows d c1 c3.
Proof. intros [E F] [E' F']. split; congruence. Qed.

Lemma high_water_keeps n c c' : high_water invoke n c = Ok c' → keeps c c'.
Proof. unfold high_water. destruct (decide _); [apply call_back_keeps|by intros [= <-]]. Qed.

Lemma enable_writting_keeps c c' : enable_writting_if_not c = Ok c' → keeps c c'.
Proof. unfold enable_writting_if_not. destruct (negb _); [apply on_channel_keeps|by intros [= <-]]. Qed.

Lemma SendInLoop_follows first len c c' :
  conn_wf c → in_loop_thread c = true → open c → len ≤ length first →
  SendInLoop sys_write invoke first len c = Ok c' → follows (take len first) c c'.
Proof.
  intros Hw Ht Ho Hl. unfold SendInLoop, AssertInLoopThread. rewrite Ht. cbn [mbind res_bind].
  destruct (decide _) as [Hd|_]; [by apply closed_not_open in Hd|].
  destruct (if negb _ && _ then _ else _) as [[[w r] c1]|] eqn:E1; cbn [mbind res_bind]; [|done]. intros E.
  assert ((w = 0 ∧ r = len ∧ keeps c c1 ∧ conn_wf c1 ∧ in_loop_thread c1 = true) ∨ (r = 0 ∧ follows (take len first) c c1)) as Hcase.
  { destruct (negb _ && _) eqn:Eg; [|injection E1 as <- <- <-; by left].
    apply andb_true_iff in Eg as [_ Eg%bool_decide_eq_true]. rewrite bq_readable_law in Eg by apply Hw. apply nil_length_inv in Eg.
    unfold write_directly, read_mem in E1. rewrite decide_True in E1 by done. cbn [mbind res_bind] in E1.
    assert (keeps c (tick c) ∧ conn_wf (tick c) ∧ in_loop_thread (tick c) = true) as Htick by (split; [done|split; [by apply (conn_wf_same c)|done]]).
    destruct (sys_write (calls c) (take len first)) as [e|n] eqn:Ew; [injection E1 as <- <- <-; by left|].
    destruct (decide (0 < n)) as [Hn|]; [|injection E1 as <- <- <-; by left]. right.
    destruct (write_whole _ _ _ Ew) as [->|En]; [lia|]. rewrite length_take in En. assert (n = len) as -> by lia.
    rewrite Nat.sub_diag in E1. destruct (if decide _ then _ else _) as [c2|] eqn:E2; [|done]. cbn [mbind res_bind] in E1.
    injection E1 as <- <- <-. split; [done|]. apply (follows_keeps _ _ (set_sent (sent c ++ take len (take len first)) (tick c))).
    - split; [|done]. unfold stream. cbn. by rewrite Eg, !app_nil_r, take_take, Nat.min_id.
    - destruct (decide _); [by eapply call_back_keeps|by injection E2 as <-]. }
  destruct Hcase as [(-> & -> & Hk & Hw1 & Ht1)|(-> & Hf)]; [|destruct (decide _); [lia|by injection E as <-]].
  destruct (decide _) as [Hpos|Hz].
  - destruct (high_water invoke len c1) as [c2|] eqn:E2; [|done]. cbn [mbind res_bind] in E.
    destruct (high_water_sound invoke invoke_law len c1 Hw1 Ht1) as (c2' & E2' & Hw2 & _). rewrite E2 in E2'. injection E2' as <-.
    rewrite drop_0 in E. destruct (bq_append_law (ouput_buffer_ c2) first len) as (q & Eq & _ & Hq); [apply Hw2|done|].
    rewrite Eq in E. cbn [mbind res_bind] in E. apply enable_writting_keeps in E.
    apply (keeps_follows _ _ c1); [done|]. apply (keeps_follows _ _ c2); [by eapply high_water_keeps|].
    apply (follows_keeps _ _ (set_output q c2)); [|done]. split; [|done]. unfold stream. cbn. by rewrite Hq, app_assoc.
  - injection E as <-. assert (len = 0) as -> by lia. destruct Hk as [Es Ef]. split; [|done]. by rewrite Es, app_nil_r.
Qed.

Lemma SendInLoop_closed first len c c' :
  state_ c = kDisConnected → SendInLoop sys_write invoke first len c = Ok c' → keeps c c'.
Proof.
  intros Hs. unfold SendInLoop. intros E. apply (AssertInLoopThread_keeps _ _ _ E). rewrite decide_True by done. by intros [= <-].
Qed.

(** A functor runs: it sends what it holds, if the connection is still
    open. *)
Lemma run_functor_follows f c c' :
  conn_wf c → in_loop_thread c = true → run_functor sys_write invoke f c = Ok c' →
  follows (if decide (state_ c = kDisConnected) then [] else payload f) c c'.
Proof.
  intros Hw Ht E. assert (keeps c c' → follows [] c c') as Hk by (intros [Es Ef]; split; [by rewrite app_nil_r|done]).
  destruct f; cbn [payload run_functor] in *;
    try (assert (keeps c c') as Hkk; [|destruct (decide _); by apply Hk]).
  - by apply ForceCloseInLoop_keeps.
  - by apply ShutDownInLoop_keeps.
  - destruct (decide _) as [Hs|Hs]; [by eapply Hk, SendInLoop_closed|].
    apply SendInLoop_follows in E; [|done|done|by destruct (conn_wf_cases c Hw)|rewrite length_app; lia]. by rewrite take_app_length in E.
  - by apply StartReadInLoop_keeps.
  - by apply StopReadInLoop_keeps.
  - apply (AssertInLoopThread_keeps _ _ _ E). by intros [= <-].
  - by apply DestroyConnection_keeps.
Qed.

(** ** Whole runs *)

(** What an operation of another thread sends, if the connection is up; the
    code in the loop does not send by itself. *)
Definition sends_of (o : conn_op (Q := Q)) : bytes :=
  match o with
  | OpSend false first len => take len first
  | OpSendBuffer false buf => bq_content buf
  | _ => []
  end.

Definition remote (o : conn_op (Q := Q)) : Prop := match o with OpSend b _ _ | OpSendBuffer b _ => b = false | _ => True end.

Definition sent_by (o : conn_op (Q := Q)) c : bytes := if decide (state_ c = kConnected) then sends_of o else [].

Abbreviation run := (run_op sys_write sys_readv sys_writev invoke).

(** In the loop [f] keeps the output; elsewhere it queues functors that hold
    [d]. *)
Lemma in_thread_accepted (b : bool) (f : TcpConnection Q → res (TcpConnection Q)) d c c' :
  in_loop_thread c = true → (b = true → d = [] ∧ ∀ c1, f c = Ok c1 → keeps c c1) →
  (b = false → ∀ c1, f (set_thread false c) = Ok c1 →
     stream c1 = stream c ∧ ∃ fs, functors_ c1 = functors_ c ++ fs ∧ concat (payload <$> fs) = d) →
  in_thread b f c = Ok c' → stream c' = stream c ∧ ∃ fs, functors_ c' = functors_ c ++ fs ∧ concat (payload <$> fs) = d.
Proof.
  intros Ht H1 H2 E. unfold in_thread in E. destruct b.
  - rewrite set_thread_id in E by done. destruct (f c) as [c1|] eqn:E1; [|done]. injection E as <-.
    destruct (H1 eq_refl) as [-> Hk]. destruct (Hk c1 eq_refl) as [Es Ef]. split; [done|]. exists []. by rewrite app_nil_r.
  - destruct (f (set_thread false c)) as [c1|] eqn:E1; [|done]. injection E as <-. exact (H2 eq_refl c1 eq_refl).
Qed.

Lemma run_in_loop_accepted b f c c' :
  in_loop_thread c = true → payload f = [] → (∀ c1, run_functor sys_write invoke f c = Ok c1 → keeps c c1) →
  in_thread b (RunInLoop sys_write invoke f) c = Ok c' →
  stream c' = stream c ∧ ∃ fs, functors_ c' = functors_ c ++ fs ∧ concat (payload <$> fs) = [].
Proof.
  intros Ht Hf Hk. apply in_thread_accepted; [done| |]; intros ->; unfold RunInLoop.
  - rewrite Ht. by split.
  - intros c1 [= <-]. split; [done|]. exists [f]. split; [done|]. cbn. by rewrite Hf.
Qed.

(** Every operation but the functor that runs leaves the stream and queues
    what it sends. *)
Lemma run_op_accepted o c c' :
  conn_ok c → legal o c → remote o → o ≠ OpRunFunctor → run o c = Ok c' →
  stream c' = stream c ∧ ∃ fs, functors_ c' = functors_ c ++ fs ∧ concat (payload <$> fs) = sent_by o c.
Proof.
  intros [Hw _ Ht _] Hl Hr Hne E. unfold sent_by.
  assert (keeps c c' → stream c' = stream c ∧ ∃ fs, functors_ c' = functors_ c ++ fs ∧ concat (payload <$> fs) = []) as Hkeep.
  { intros [Es Ef]. split; [done|]. exists []. by rewrite app_nil_r. }
  assert (∀ f : functor, payload f = [] → stream c' = stream c ∧ functors_ c' = functors_ c ++ [f] →
    stream c' = stream c ∧ ∃ fs, functors_ c' = functors_ c ++ fs ∧ concat (payload <$> fs) = []) as Hqueue.
  { intros f Hf [Es Ef]. split; [done|]. exists [f]. split; [done|]. cbn. by rewrite Hf. }
  assert (∀ d : bytes, d = [] → (if decide (state_ c = kConnected) then d else []) = []) as Hd by (intros d ->; by destruct (decide (state_ c = kConnected))).
  destruct o as [b first len|b buf|b|b| |b|b| | |r t|]; cbn [run_op sends_of remote legal] in *; try subst b;
    rewrite ?Hd by done; try done.
  - unfold in_thread, Send in E. cbn [state_ set_thread in_loop_thread] in E. destruct (decide (state_ c = kConnected)).
    + unfold read_mem in E. rewrite decide_True in E by done. injection E as <-. split; [done|].
      exists [FSendInLoop (take len first)]. split; [done|]. cbn. by rewrite app_nil_r.
    + injection E as <-. by apply Hkeep.
  - unfold in_thread, Send_buffer in E. cbn [state_ set_thread in_loop_thread] in E. destruct (decide (state_ c = kConnected)).
    + rewrite bq_peek_all_law in E by done. injection E as <-. split; [done|].
      exists [FSendInLoop (bq_content buf)]. split; [done|]. cbn. by rewrite app_nil_r.
    + injection E as <-. by apply Hkeep.
  - unfold in_thread, ShutDown, RunInLoop in E. destruct b; cbn [state_ set_thread in_loop_thread SetState run_functor] in E;
      (destruct (decide _); [|injection E as <-; by apply Hkeep]).
    + destruct (ShutDownInLoop _) as [c1|] eqn:E1; [|done]. injection E as <-. apply ShutDownInLoop_keeps in E1 as [Es Ef].
      apply Hkeep. exact (conj Es Ef).
    + injection E as <-. by apply (Hqueue FShutDownInLoop).
  - unfold in_thread, ForceClose, RunInLoop in E. destruct b; cbn [state_ set_thread in_loop_thread run_functor] in E;
      (destruct (decide _); [|injection E as <-; by apply Hkeep]).
    + destruct (ForceCloseInLoop _ _) as [c1|] eqn:E1; [|done]. injection E as <-. apply ForceCloseInLoop_keeps in E1 as [Es Ef].
      apply Hkeep. exact (conj Es Ef).
    + injection E as <-. by apply (Hqueue FForceCloseInLoop).
  - unfold ForceCloseWithDelay in E. injection E as <-. apply Hkeep. by destruct (decide _).
  - by eapply (run_in_loop_accepted b FStartReadInLoop); [done|done|apply StartReadInLoop_keeps|].
  - by eapply (run_in_loop_accepted b FStopReadInLoop); [done|done|apply StopReadInLoop_keeps|].
  - unfold RunDelayed in E. destruct (delayed_ c) as [|n]; [injection E as <-; by apply Hkeep|].
    apply ForceCloseInLoop_keeps in E as [Es Ef]. apply Hkeep. by split; [rewrite Es|rewrite Ef].
  - destruct Hl as [Ho Hm]. apply Hkeep. by eapply HandleEvent_keeps.
  - by apply Hkeep, DestroyConnection_keeps.
Qed.

(** A closed connection stays closed. *)
Lemma run_op_stays_closed o c c' : conn_ok c → legal o c → run o c = Ok c' → ¬ open c → ¬ open c'.
Proof.
  intros [Hw _ Ht Hf] Hl E Ho. destruct (conn_wf_cases c Hw) as [|Hs]; [done|].
  assert (state_ c' = kDisConnected → ¬ open c') as Hclosed by (intros Hs'; by apply closed_not_open). apply Hclosed. clear Hclosed.
  assert (∀ b f c', f ≠ FDestroyConnection → in_thread b (RunInLoop sys_write invoke f) c = Ok c' → state_ c' = kDisConnected) as Hrun.
  { clear c' E. intros b f c' Hne E. unfold in_thread, RunInLoop in E. destruct b; cbn [in_loop_thread set_thread] in E.
    - rewrite set_thread_id in E by done.
      destruct (run_functor_sound sys_write invoke write_whole invoke_law f c Hw Ht Hne) as [(c1 & E1 & _ & He & _) _].
      rewrite E1 in E. injection E as <-. by apply (ex_closed _ _ He).
    - by injection E as <-. }
  destruct o as [b first len|b buf|b|b| |b|b| | |r t|]; cbn [run_op legal] in *.
  - unfold in_thread, Send in E. cbn [state_ set_thread] in E. rewrite Hs in E. by injection E as <-.
  - unfold in_thread, Send_buffer in E. cbn [state_ set_thread] in E. rewrite Hs in E. by injection E as <-.
  - unfold in_thread, ShutDown in E. cbn [state_ set_thread] in E. rewrite Hs in E. by injection E as <-.
  - unfold in_thread, ForceClose in E. cbn [state_ set_thread] in E. rewrite Hs in E. by injection E as <-.
  - unfold ForceCloseWithDelay in E. rewrite Hs in E. by injection E as <-.
  - by apply (Hrun b FStartReadInLoop).
  - by apply (Hrun b FStopReadInLoop).
  - unfold RunFunctor in E. destruct (functors_ c) as [|f fs]; [by injection E as <-|].
    apply not_elem_of_cons in Hf as [Hne _].
    destruct (run_functor_sound sys_write invoke write_whole invoke_law f (set_functors fs c)) as [(c1 & E1 & _ & He & _) _];
      [by apply (conn_wf_same c)|done|by apply not_eq_sym|]. rewrite E1 in E. injection E as <-. by apply (ex_closed _ _ He).
  - unfold RunDelayed, ForceCloseInLoop, AssertInLoopThread in E. destruct (delayed_ c); [by injection E as <-|].
    cbn [in_loop_thread set_delayed state_] in E. rewrite Ht in E. cbn [mbind res_bind] in E. rewrite Hs in E. by injection E as <-.
  - by destruct Hl.
  - unfold DestroyConnection, AssertInLoopThread in E. rewrite Ht in E. cbn [mbind res_bind] in E.
    rewrite decide_False in E by auto. cbn [mbind res_bind] in E. unfold on_channel in E.
    destruct (chan_remove _); [|done]. by injection E as <-.
Qed.

(** What the connection owes [total]: while it is open, nothing is missing; a
    closed one may have dropped the end. *)
Definition owes (total : bytes) c : Prop :=
  (open c → accepted c = total) ∧ (¬ open c → stream c `prefix_of` total).

Lemma run_op_owes o c c' total :
  conn_ok c → legal o c → remote o → run o c = Ok c' → (¬ open c → ¬ open c') →
  owes total c → owes (total ++ sent_by o c) c'.
Proof.
  intros Hc Hl Hr E Hclosed [Ho Hn]. assert (o = OpRunFunctor ∨ o ≠ OpRunFunctor) as [->|Hne] by (destruct o; first [by left|by right]).
  - assert (sent_by OpRunFunctor c = []) as -> by (unfold sent_by; by destruct (decide _)). rewrite app_nil_r.
    cbn [run_op] in E. unfold RunFunctor in E. destruct (functors_ c) as [|f fs] eqn:Ef; [injection E as <-; by split|].
    apply run_functor_follows in E as [Es Ef']; [|by apply (conn_wf_same c); [apply Hc|..]|apply Hc]. cbn [state_ set_functors functors_] in *.
    change (stream (set_functors fs c)) with (stream c) in Es.
    destruct (open_dec c) as [Hop|Hop].
    + rewrite decide_False in Es by (intros Hs; by apply closed_not_open in Hs). specialize (Ho Hop).
      unfold owes, accepted in *. rewrite Ef in Ho. cbn [fmap list_fmap concat] in Ho. rewrite app_assoc, <- Es in Ho.
      split; [by rewrite Ef'|]. intros _. rewrite <- Ho. by apply prefix_app_r.
    + destruct (conn_wf_cases c (co_wf c Hc)) as [|Hs]; [done|]. rewrite decide_True in Es by done. rewrite app_nil_r in Es.
      split; [by intros Hop'; destruct (Hclosed Hop)|]. intros _. rewrite Es. by apply Hn.
  - destruct (run_op_accepted o c c' Hc Hl Hr Hne E) as (Es & fs & Ef & Ec).
    destruct (open_dec c) as [Hop|Hop].
    + specialize (Ho Hop). unfold owes, accepted in *. split.
      * intros _. rewrite Es, Ef, fmap_app, concat_app, Ec, <- Ho. by rewrite !app_assoc.
      * intros _. rewrite Es, <- Ho, <- app_assoc. by apply prefix_app_r.
    + split; [by intros Hop'; destruct (Hclosed Hop)|]. intros _. rewrite Es. by apply prefix_app_r, Hn.
Qed.

(** The bytes of the calls of [Send] that found the connection up. *)
Fixpoint sends (ops : list (conn_op (Q := Q))) c : bytes :=
  match ops with
  | [] => []
  | o :: ops => sent_by o c ++ match run o c with Ok c' => sends ops c' | Fault _ => [] end
  end.

(** A whole run pays what it owes and owes what its calls send. *)
Lemma run_ops_owes ops : ∀ c total,
  conn_ok c → legal_run sys_write sys_readv sys_writev invoke ops c → Forall remote ops → owes total c →
  ∃ c', run_ops sys_write sys_readv sys_writev invoke ops c = Ok c' ∧ owes (total ++ sends ops c) c'.
Proof.
  induction ops as [|o ops IH]; intros c total Hc Hl Hr Ho.
  - exists c. cbn. by rewrite app_nil_r.
  - destruct Hl as [Hl Hls]. apply Forall_cons in Hr as [Hr Hrs].
    destruct (run_op_ok sys_write sys_readv sys_writev invoke write_whole readv_law writev_law invoke_law o c Hc Hl) as (c1 & E & Hc1 & _).
    cbn [run_ops sends]. rewrite E. cbn [mbind res_bind]. rewrite app_assoc. apply IH; [done|by apply Hls|done|].
    eapply run_op_owes; try done. by eapply run_op_stays_closed.
Qed.

(** What the socket took is a beginning of what was sent, and nothing is
    missing while the connection is open. *)
Lemma remote_sends_whole ops c :
  conn_ok c → accepted c = [] → legal_run sys_write sys_readv sys_writev invoke ops c → Forall remote ops →
  ∃ c', run_ops sys_write sys_readv sys_writev invoke ops c = Ok c' ∧
    sent c' `prefix_of` sends ops c ∧
    (open c' → sent c' ++ bq_content (ouput_buffer_ c') ++ concat (payload <$> functors_ c') = sends ops c).
Proof.
  intros Hc Ha Hl Hr. destruct (run_ops_owes ops c [] Hc Hl Hr) as (c' & E & Ho & Hn).
  { split; [done|]. intros _. unfold accepted in Ha. apply app_nil in Ha as [-> _]. apply prefix_nil. }
  exists c'. rewrite app_nil_l in Ho, Hn. split; [done|]. unfold accepted, stream in *. destruct (open_dec c') as [Hop|Hop].
  - rewrite <- (Ho Hop), <- app_assoc. split; [by apply prefix_app_r|done].
  - split; [|done]. etransitivity; [|by apply Hn]. by apply prefix_app_r.
Qed.
End order.

(** ** Up to the first short direct write *)

Section upto.
Context {Q : Type} `{ByteQueueLaws Q}.
Variable sys_write : nat → bytes → writev_result.
Variable sys_readv : nat → readv_fn.
Variable sys_writev : nat → writev_fn.
Variable invoke : cb_event → TcpConnection Q → res (TcpConnection Q).
Implicit Types c : TcpConnection Q.

(** The calls that find the connection up are the same in two runs that
    agree. *)
Lemma sends_agree ops : ∀ c,
  agree (run_op sys_write sys_readv sys_writev invoke) (run_op (made_whole sys_write) sys_readv sys_writev invoke) ops c →
  sends sys_write sys_readv sys_writev invoke ops c = sends (made_whole sys_write) sys_readv sys_writev invoke ops c.
Proof.
  induction ops as [|o ops IH]; intros c Ha; [done|]. destruct Ha as [He Ha]. cbn [sends]. rewrite <- He. f_equal.
  destruct (run_op sys_write _ _ _ o c) as [c'|]; [by apply IH, Ha|done].
Qed.

Hypothesis write_law : ∀ k, writev_ok (sys_write k).
Hypothesis readv_law : ∀ k, readv_ok (sys_readv k).
Hypothesis writev_law : ∀ k, writev_ok (sys_writev k).
Hypothesis invoke_law : callbacks_ok invoke.
Hypothesis invoke_quiet : quiet invoke.

(** C6: the messages that other threads send reach the socket in the order of
    the calls: through any sequence of their calls, queued tasks, timers and
    socket events, what the socket took is a beginning of the messages of the
    calls that found the connection up; as long as the connection is open
    nothing is missing: what is not yet taken waits in the output buffer and
    then in the queue of the loop.  In these runs only other threads send
    ([remote]) and the callbacks neither send nor queue anything ([quiet]); and
    the claim goes to the first queued send whose direct write is short, where
    [short_write_overreads] takes over. *)
Theorem remote_sends_in_order ops c :
  conn_ok c → accepted c = [] → legal_run sys_write sys_readv sys_writev invoke ops c → Forall remote ops →
  ∃ done rest c', ops = done ++ rest ∧ run_ops sys_write sys_readv sys_writev invoke done c = Ok c' ∧
    (sent c' `prefix_of` sends sys_write sys_readv sys_writev invoke done c ∧
     (open c' → sent c' ++ bq_content (ouput_buffer_ c') ++ concat (payload <$> functors_ c') =
        sends sys_write sys_readv sys_writev invoke done c)) ∧
    (rest = [] ∨ ∃ o rest', rest = o :: rest' ∧ op_takes_part sys_write o c' = true).
Proof.
  intros Hc Ha Hl Hr.
  destruct (run_ops_upto sys_write sys_readv sys_writev invoke write_law (λ dn c', Forall remote dn →
    sent c' `prefix_of` sends sys_write sys_readv sys_writev invoke dn c ∧
    (open c' → sent c' ++ bq_content (ouput_buffer_ c') ++ concat (payload <$> functors_ c') =
       sends sys_write sys_readv sys_writev invoke dn c)) ops c) as (dn & rest & c' & -> & E & HP & Hrest); [|done|].
  - intros dn Ha' Hl'.
    destruct (run_ops_ok (made_whole sys_write) sys_readv sys_writev invoke (made_whole_whole sys_write) readv_law writev_law invoke_law
      dn c Hc Hl') as (c' & E & _). exists c'. split; [done|]. intros Hr'. rewrite (sends_agree dn c Ha').
    destruct (remote_sends_whole (made_whole sys_write) sys_readv sys_writev invoke (made_whole_whole sys_write) readv_law writev_law
      invoke_law invoke_quiet dn c Hc Ha Hl' Hr') as (c2 & E2 & HP). rewrite E in E2. by injection E2 as <-.
  - apply Forall_app in Hr as [Hr _]. exists dn, rest, c'. split_and!; [done|done|by apply HP|by apply HP|done].
Qed.
End upto.

(** ** A run *)

Lemma silent_quiet {Q} `{ByteQueueLaws Q} : quiet (silent (Q := Q)).
Proof. by intros ev c c' [= <-]. Qed.

(** Three messages of other threads; the first is taken at once or waits,
    the third is still queued at the end. *)
Definition senders : list (conn_op (Q := bytes)) :=
  [OpSend false (B "one") 3; OpSend false (B "two, ") 3; OpRunFunctor; OpStopRead false; OpEvent POLLOUT 6;
   OpRunFunctor; OpSend false (B "six") 3].

Lemma senders_legal : legal_run peer_write peer_readv peer_writev silent senders demo_conn.
Proof.
  assert (∀ r, has r POLLHUP = false → mask_ok r) as Hm by (intros r Hr; unfold mask_ok; by rewrite Hr).
  repeat match goal with
  | |- legal_run _ _ _ _ [] _ => exact I
  | |- legal_run _ _ _ _ _ _ => split
  | |- legal _ _ => first [exact I | split; [vm_compute; tauto|by apply Hm] | cbn; lia]
  | |- ∀ _, _ => intros ? E; vm_compute in E; injection E as <-
  end.
Qed.

Lemma remote_sends_in_order_witness :
  (∃ done rest c', senders = done ++ rest ∧ run_ops peer_write peer_readv peer_writev silent done demo_conn = Ok c' ∧
    sent c' `prefix_of` sends peer_write peer_readv peer_writev silent done demo_conn ∧
    (rest = [] ∨ ∃ o rest', rest = o :: rest' ∧ op_takes_part peer_write o c' = true)) ∧
  ∃ c', run_ops peer_write peer_readv peer_writev silent senders demo_conn = Ok c' ∧
    sent c' ++ bq_content (ouput_buffer_ c') ++ concat (payload <$> functors_ c') = B "onetwosix" ∧
    functors_ c' = [FStopReadInLoop; FSendInLoop (B "six")].
Proof.
  split.
  - destruct (remote_sends_in_order peer_write peer_readv peer_writev silent peer_write_law peer_readv_law peer_writev_law
      silent_ok silent_quiet senders demo_conn demo_conn_ok eq_refl senders_legal ltac:(by repeat constructor))
      as (dn & rest & c' & H1 & H2 & [H3 _] & H4). exists dn, rest, c'. done.
  - eexists. split; [vm_compute; reflexivity|]. split; reflexivity.
Defined.
