(* ===== verification/EventLoop.v ===== *)
(** The event loop: [muzi/net/event_loop.h] and [event_loop.cc].  The loop
    thread, the threads that queue tasks and the one that quits the loop
    interleave: each atomic step is a labelled transition.  What a task or a
    channel's handler asks of the loop is a parameter. *)

From S2P Require Import Prelude Timestamp TimerQueue.

(** ** State *)

(** A functor in [functors_]; [RunAndNotify] also counts a latch down. *)
Inductive task :=
  | Task (cb : Z)
  | RunAndNotify (cb : Z) (latch : nat).
#[export] Instance task_eq_dec : EqDecision task.
Proof. solve_decision. Defined.

(** What a task or a handler asks of its own loop. *)
Inductive loop_call :=
  | CallQueueInLoop (t : task)
  | CallQuit.

(** The loop thread: before [Loop], at the test of [quit_], in [Poll], handling
    the active channels, before the swap of [functors_], running the swapped
    ones, after the [while], before [NotifyAll], after [Loop]. *)
Inductive loop_pc :=
  | LStart
  | LCheck
  | LPoll
  | LHandle (active_channels : list Z)
  | LExec
  | LRun (cur_functors : list task)
  | LExit
  | LNotify
  | LDone.

(** A thread in [Quit]: not there, before [WakeUp], before the lock, holding
    the lock having seen [looping_], waiting, returned. *)
Inductive quit_pc := QNone | QWakeUp | QLock | QChecked | QWaiting | QDone.
#[export] Instance quit_pc_eq_dec : EqDecision quit_pc.
Proof. solve_decision. Defined.

Record EventLoop := mkLoop {
  pc : loop_pc   (** where the loop thread is *);
  looping_ : bool;
  quit_ : bool;
  iteration_ : nat;
  wakeup_fd_count : nat   (** the counter of [wakeup_fd_] *);
  calling_functors_ : bool;
  functors_ : list task;
  queued : list task   (** all tasks queued so far *);
  executed : list task   (** all queued tasks run so far *);
  down : list nat   (** latches counted down *);
  wakers : nat   (** threads between queueing and [WakeUp] *);
  quitter : quit_pc   (** the thread in [Quit] *);
  own : list task   (** tasks the loop thread queued before [Loop] *)
}.

Definition set_pc (v : loop_pc) s : EventLoop :=
  mkLoop v (looping_ s) (quit_ s) (iteration_ s) (wakeup_fd_count s) (calling_functors_ s)
    (functors_ s) (queued s) (executed s) (down s) (wakers s) (quitter s) (own s).
Definition set_looping (v : bool) s : EventLoop :=
  mkLoop (pc s) v (quit_ s) (iteration_ s) (wakeup_fd_count s) (calling_functors_ s)
    (functors_ s) (queued s) (executed s) (down s) (wakers s) (quitter s) (own s).
Definition set_quit (v : bool) s : EventLoop :=
  mkLoop (pc s) (looping_ s) v (iteration_ s) (wakeup_fd_count s) (calling_functors_ s)
    (functors_ s) (queued s) (executed s) (down s) (wakers s) (quitter s) (own s).
Definition set_iteration (v : nat) s : EventLoop :=
  mkLoop (pc s) (looping_ s) (quit_ s) v (wakeup_fd_count s) (calling_functors_ s) (functors_ s)
    (queued s) (executed s) (down s) (wakers s) (quitter s) (own s).
Definition set_count (v : nat) s : EventLoop :=
  mkLoop (pc s) (looping_ s) (quit_ s) (iteration_ s) v (calling_functors_ s) (functors_ s)
    (queued s) (executed s) (down s) (wakers s) (quitter s) (own s).
Definition set_calling (v : bool) s : EventLoop :=
  mkLoop (pc s) (looping_ s) (quit_ s) (iteration_ s) (wakeup_fd_count s) v (functors_ s)
    (queued s) (executed s) (down s) (wakers s) (quitter s) (own s).
Definition set_functors (v : list task) s : EventLoop :=
  mkLoop (pc s) (looping_ s) (quit_ s) (iteration_ s) (wakeup_fd_count s) (calling_functors_ s)
    v (queued s) (executed s) (down s) (wakers s) (quitter s) (own s).
Definition set_queued (v : list task) s : EventLoop :=
  mkLoop (pc s) (looping_ s) (quit_ s) (iteration_ s) (wakeup_fd_count s) (calling_functors_ s)
    (functors_ s) v (executed s) (down s) (wakers s) (quitter s) (own s).
Definition set_executed (v : list task) s : EventLoop :=
  mkLoop (pc s) (looping_ s) (quit_ s) (iteration_ s) (wakeup_fd_count s) (calling_functors_ s)
    (functors_ s) (queued s) v (down s) (wakers s) (quitter s) (own s).
Definition set_down (v : list nat) s : EventLoop :=
  mkLoop (pc s) (looping_ s) (quit_ s) (iteration_ s) (wakeup_fd_count s) (calling_functors_ s)
    (functors_ s) (queued s) (executed s) v (wakers s) (quitter s) (own s).
Definition set_wakers (v : nat) s : EventLoop :=
  mkLoop (pc s) (looping_ s) (quit_ s) (iteration_ s) (wakeup_fd_count s) (calling_functors_ s)
    (functors_ s) (queued s) (executed s) (down s) v (quitter s) (own s).
Definition set_quitter (v : quit_pc) s : EventLoop :=
  mkLoop (pc s) (looping_ s) (quit_ s) (iteration_ s) (wakeup_fd_count s) (calling_functors_ s)
    (functors_ s) (queued s) (executed s) (down s) (wakers s) v (own s).

Definition set_own (v : list task) s : EventLoop :=
  mkLoop (pc s) (looping_ s) (quit_ s) (iteration_ s) (wakeup_fd_count s) (calling_functors_ s)
    (functors_ s) (queued s) (executed s) (down s) (wakers s) (quitter s) v.

Definition EventLoop_new : EventLoop :=
  mkLoop LStart false false 0 0 false [] [] [] [] 0 QNone [].

Section loop.
(** The wakeup channel; the calls a callback and a channel's handler make. *)
Variable wakeup_channel : Z.
Variable body : Z → list loop_call.
Variable handler : Z → list loop_call.

(** ** Operations *)

Definition WakeUp (s : EventLoop) : EventLoop := set_count (S (wakeup_fd_count s)) s.
Definition HandleWakeupRead (s : EventLoop) : EventLoop := set_count 0 s.

(** The critical section of [QueueInLoop]. *)
Definition push_functor (t : task) (s : EventLoop) : EventLoop :=
  set_queued (queued s ++ [t]) (set_functors (functors_ s ++ [t]) s).

(** [QueueInLoop] in the loop thread. *)
Definition QueueInLoop (t : task) (s : EventLoop) : EventLoop :=
  let s := push_functor t s in
  if calling_functors_ s then WakeUp s else s.

(** [Quit] in the loop thread. *)
Definition Quit (s : EventLoop) : EventLoop :=
  if negb (looping_ s) then s else if quit_ s then s else set_quit true s.

Definition run_call (s : EventLoop) (c : loop_call) : EventLoop :=
  match c with CallQueueInLoop t => QueueInLoop t s | CallQuit => Quit s end.

Definition run_task (t : task) (s : EventLoop) : EventLoop :=
  match t with
  | Task cb => foldl run_call s (body cb)
  | RunAndNotify cb latch =>
      let s := foldl run_call s (body cb) in set_down (down s ++ [latch]) s
  end.

(** [RunInLoop]: at once in the loop thread, queued from another one; and
    whether [RunAndWait], which waits for its latch, can return. *)
Definition RunInLoop (in_loop : bool) (t : task) (s : EventLoop) : EventLoop :=
  if in_loop then run_task t s else push_functor t s.
Definition RunAndWait (in_loop : bool) (cb : Z) (latch : nat) (s : EventLoop) : EventLoop :=
  RunInLoop in_loop (RunAndNotify cb latch) s.
Definition RunAndWait_returns (latch : nat) (s : EventLoop) : bool := bool_decide (latch ∈ down s).

Definition HandleEvent (ch : Z) (s : EventLoop) : EventLoop :=
  if (ch =? wakeup_channel)%Z then HandleWakeupRead s else foldl run_call s (handler ch).

(** ** Steps *)

Inductive label :=
  (** the loop thread; before or after [Loop], its own calls *)
  | LoopStep
  | OwnCall (c : loop_call)
  | PollReturns (active : list Z)
  (** another thread: [QueueInLoop] up to [WakeUp], then [WakeUp] *)
  | OtherQueue (t : task)
  | OtherWakeUp
  (** another thread in [Quit] *)
  | QuitCall
  | QuitStep.

(** [lock_] is held between the test of [looping_] and the wait. *)
Definition lock_free (s : EventLoop) : bool := negb (bool_decide (quitter s = QChecked)).

(** The loop's own thread calls [QueueInLoop] or [Quit] outside [Loop]. *)
Definition own_call (c : loop_call) (s : EventLoop) : option EventLoop :=
  if lock_free s then
    match pc s with
    | LStart => Some (set_own (own s ++ match c with CallQueueInLoop t => [t] | CallQuit => [] end) (run_call s c))
    | LDone => Some (run_call s c)
    | _ => None
    end
  else None.

(** One step of [Loop] and [ExecuteFunctors], [Poll] apart. *)
Definition loop_step (s : EventLoop) : option EventLoop :=
  match pc s with
  | LStart =>
      if looping_ s || quit_ s then None else Some (set_pc LCheck (set_looping true s))
  | LCheck => Some (set_pc (if quit_ s then LExit else LPoll) s)
  | LPoll => None
  | LHandle (ch :: chs) => Some (set_pc (LHandle chs) (HandleEvent ch s))
  | LHandle [] => Some (set_pc LExec (set_calling true s))
  | LExec =>
      if lock_free s then Some (set_pc (LRun (functors_ s)) (set_functors [] s)) else None
  | LRun (t :: ts) =>
      Some (set_pc (LRun ts) (run_task t (set_executed (executed s ++ [t]) s)))
  | LRun [] => Some (set_pc LCheck (set_calling false s))
  | LExit => Some (set_pc LNotify (set_looping false s))
  | LNotify =>
      Some (set_pc LDone (if bool_decide (quitter s = QWaiting) then set_quitter QLock s else s))
  | LDone => None
  end.

(** [Poll] returns the ready channels, the wakeup channel among them exactly
    when its counter is not zero; on a timeout none. *)
Definition poll_step (active : list Z) (s : EventLoop) : option EventLoop :=
  match pc s with
  | LPoll =>
      if bool_decide (wakeup_channel ∈ active ↔ wakeup_fd_count s ≠ 0)
      then Some (set_pc (LHandle active) (set_iteration (S (iteration_ s)) s)) else None
  | _ => None
  end.

(** [Quit] from another thread, up to the compare-and-exchange, and on. *)
Definition quit_call (s : EventLoop) : option EventLoop :=
  if bool_decide (quitter s = QNone) then
    if negb (looping_ s) then Some s
    else if quit_ s then Some s
    else Some (set_quitter QWakeUp (set_quit true s))
  else None.

Definition quit_step (s : EventLoop) : option EventLoop :=
  match quitter s with
  | QWakeUp => Some (set_quitter QLock (WakeUp s))
  | QLock => Some (set_quitter (if looping_ s then QChecked else QDone) s)
  | QChecked => Some (set_quitter QWaiting s)
  | QNone | QWaiting | QDone => None
  end.

Definition step (l : label) (s : EventLoop) : option EventLoop :=
  match l with
  | LoopStep => loop_step s
  | OwnCall c => own_call c s
  | PollReturns active => poll_step active s
  | OtherQueue t =>
      if lock_free s then Some (set_wakers (S (wakers s)) (RunInLoop false t s)) else None
  | OtherWakeUp =>
      match wakers s with S n => Some (set_wakers n (WakeUp s)) | O => None end
  | QuitCall => quit_call s
  | QuitStep => quit_step s
  end.

Fixpoint run (ls : list label) (s : EventLoop) : option EventLoop :=
  match ls with [] => Some s | l :: ls => s ← step l s; run ls s end.

Inductive reachable : EventLoop → Prop :=
  | reach_new : reachable EventLoop_new
  | reach_step l s s' : reachable s → step l s = Some s' → reachable s'.
End loop.

(** ** Timers *)

Section timers.
Variable clock : nat → Z.
Variable alloc : list Z → Z.

(** [RunAt], [RunAfter], [RunEvery] and [CancelTimer]: the callback runs from
    the timer queue; a delay counts from the time read. *)
Definition RunAt (in_loop : bool) (when cb : Z) (q : TimerQueue) : res (Z * TimerQueue) :=
  AddTimer clock alloc in_loop cb when (double_of_Z 0) q.
Definition RunAfter (in_loop : bool) (delay : double) (cb : Z) (q : TimerQueue) :
    res (Z * TimerQueue) :=
  let '(now, q) := Now clock q in
  when ← AddTime now delay;
  AddTimer clock alloc in_loop cb when (double_of_Z 0) q.
Definition RunEvery (in_loop : bool) (when cb : Z) (interval : double) (q : TimerQueue) :
    res (Z * TimerQueue) :=
  AddTimer clock alloc in_loop cb when interval q.
Definition CancelTimer (in_loop : bool) (id : Z) (q : TimerQueue) : res TimerQueue :=
  Cancel in_loop id q.
End timers.

(** ** The invariant *)

Section invariant.
Variable wakeup_channel : Z.
Variable body : Z → list loop_call.
Variable handler : Z → list loop_call.
Implicit Types s : EventLoop.

Abbreviation lstep := (step wakeup_channel body handler).
Abbreviation lrun := (run wakeup_channel body handler).
Abbreviation lreachable := (reachable wakeup_channel body handler).

(** The tasks swapped out of [functors_] that have not run. *)
Definition current s : list task := match pc s with LRun ts => ts | _ => [] end.

(** Whether the loop thread is in [ExecuteFunctors]. *)
Definition executing s : bool := match pc s with LExec | LRun _ => true | _ => false end.

(** Between the start and the end of [Loop]. *)
Definition in_loop_body s : bool :=
  match pc s with LStart | LNotify | LDone => false | _ => true end.

(** Tasks pushed now are not seen before the next [Poll] returns. *)
Definition before_poll s : bool :=
  match pc s with LHandle _ | LExec | LDone => false | _ => true end.

(** In an iteration of the loop, past [Poll]. *)
Definition polled s : bool := match pc s with LHandle _ | LExec | LRun _ => true | _ => false end.

(** The poller is awake or will be. *)
Definition woken s : Prop := wakeup_fd_count s ≠ 0 ∨ wakers s ≠ 0.

Record loop_inv s : Prop := {
  li_order : executed s ++ current s ++ functors_ s = queued s;
  li_wake : before_poll s = true → functors_ s ≠ [] → woken s ∨ (iteration_ s = 0 ∧ functors_ s = own s);
  li_quit : pc s = LPoll → quit_ s = true → wakeup_fd_count s ≠ 0 ∨ quitter s = QWakeUp;
  li_start : pc s = LStart → iteration_ s = 0 ∧ (woken s ∨ functors_ s = own s);
  li_polled : polled s = true → iteration_ s ≠ 0;
  li_calling : calling_functors_ s = executing s;
  li_looping : looping_ s = in_loop_body s;
  li_latch l : l ∈ down s ↔ ∃ cb, RunAndNotify cb l ∈ executed s
}.

(** What running calls of the loop thread changes: tasks are queued, and
    while functors run each of them wakes the poller. *)
Record called s s' : Prop := {
  cl_pc : pc s' = pc s;
  cl_same : looping_ s' = looping_ s ∧ calling_functors_ s' = calling_functors_ s ∧
    executed s' = executed s ∧ wakers s' = wakers s ∧ quitter s' = quitter s ∧
    iteration_ s' = iteration_ s ∧ down s' = down s ∧ own s' = own s;
  cl_queue : ∃ ts, functors_ s' = functors_ s ++ ts ∧ queued s' = queued s ++ ts ∧
    wakeup_fd_count s' = wakeup_fd_count s + (if calling_functors_ s then length ts else 0)
}.

Lemma run_call_called s c : called s (run_call s c).
Proof.
  destruct c as [t|]; cbn [run_call].
  - unfold QueueInLoop, push_functor, WakeUp. cbn.
    destruct (calling_functors_ s) eqn:E; split; cbn; try done; exists [t]; cbn;
      rewrite ?E; split_and!; try done; lia.
  - unfold Quit. destruct (negb (looping_ s)), (quit_ s); split; cbn; try done;
      exists []; rewrite !app_nil_r; cbn; split_and!; try done; destruct (calling_functors_ s); lia.
Qed.

Lemma called_trans s1 s2 s3 : called s1 s2 → called s2 s3 → called s1 s3.
Proof.
  intros [P1 (A1 & B1 & C1 & D1 & E1 & F1 & G1 & H1) (t1 & Q1 & R1 & S1)]
    [P2 (A2 & B2 & C2 & D2 & E2 & F2 & G2 & H2) (t2 & Q2 & R2 & S2)].
  split; [congruence|split_and!; congruence|]. exists (t1 ++ t2).
  rewrite Q2, Q1, R2, R1, !app_assoc. split_and!; try done.
  rewrite S2, S1, B1, length_app. destruct (calling_functors_ s1); lia.
Qed.

Lemma run_calls_called cs s : called s (foldl run_call s cs).
Proof.
  revert s. induction cs as [|c cs IH]; intros s; cbn [foldl].
  - split; cbn; try done. exists []. rewrite !app_nil_r. cbn. split_and!; try done.
    destruct (calling_functors_ s); lia.
  - eapply called_trans; [apply run_call_called|apply IH].
Qed.

Lemma EventLoop_new_inv : loop_inv EventLoop_new.
Proof.
  split; try done; [by intros _; split; [|right]|]. intros l. split; [by intros ?%not_elem_of_nil|by intros (cb & ?%not_elem_of_nil)].
Qed.

(** Split the invariant, read the fields of the new state. *)
Ltac loop_fields :=
  split; unfold current, executing, in_loop_body, before_poll, polled, woken; cbn in *; try done.

(** A handler of an active channel runs. *)
Lemma handled_inv s chs cs :
  loop_inv s → (∃ ch, pc s = LHandle (ch :: chs)) →
  loop_inv (set_pc (LHandle chs) (foldl run_call s cs)).
Proof.
  intros [Ho Hw Hq Hs Hp Hc Hl Hd] (ch & E).
  destruct (run_calls_called cs s) as [P (A & B & C & D & F & G & I & _) (ts & Q & R & _)].
  unfold current, executing, in_loop_body, polled in *. rewrite E in *. cbn in *.
  split; cbn; unfold executing, in_loop_body, polled; cbn; try done; try congruence.
  - by rewrite C, Q, R, app_assoc, Ho.
  - intros _. rewrite G. by apply Hp.
  - intros l. by rewrite I, C.
Qed.

Definition task_cb (t : task) : Z := match t with Task cb | RunAndNotify cb _ => cb end.
Definition task_latch (t : task) : list nat :=
  match t with Task _ => [] | RunAndNotify _ l => [l] end.

Lemma run_task_eq t s :
  run_task body t s = set_down (down s ++ task_latch t) (foldl run_call s (body (task_cb t))).
Proof.
  destruct (run_calls_called (body (task_cb t)) s) as [_ (_ & _ & _ & _ & _ & _ & D & _) _].
  destruct t as [cb|cb l]; cbn in *; [|by rewrite D].
  rewrite app_nil_r, <- D. by destruct (foldl run_call s (body cb)).
Qed.

Lemma latch_snoc l ts t :
  (∃ cb, RunAndNotify cb l ∈ ts ++ [t]) ↔ (∃ cb, RunAndNotify cb l ∈ ts) ∨ l ∈ task_latch t.
Proof.
  split.
  - intros (cb & Hin). rewrite elem_of_app, list_elem_of_singleton in Hin.
    destruct Hin as [Hin|<-]; [by left; exists cb|right; left].
  - intros [(cb & Hin)|Hin]; [exists cb; apply elem_of_app; by left|].
    destruct t as [|cb l']; cbn in Hin; [by apply not_elem_of_nil in Hin|].
    apply list_elem_of_singleton in Hin as ->. exists cb. apply elem_of_app. right. left.
Qed.

(** A task runs. *)
Lemma task_inv s t ts :
  loop_inv s → pc s = LRun (t :: ts) →
  loop_inv (set_pc (LRun ts) (run_task body t (set_executed (executed s ++ [t]) s))).
Proof.
  intros [Ho Hw Hq Hs Hp Hc Hl Hd] E. rewrite run_task_eq.
  destruct (run_calls_called (body (task_cb t)) (set_executed (executed s ++ [t]) s))
    as [P (A & B & C & D & F & G & I & J) (us & Q & R & S)].
  unfold current, executing, in_loop_body, before_poll, polled, woken in *. rewrite E in *.
  cbn in *. loop_fields; try congruence.
  - rewrite C, Q, R, <- Ho, <- !app_assoc. cbn. by rewrite <- !app_assoc.
  - intros _ Hne. left. rewrite S, Hc, D. destruct us as [|u us]; [|left; cbn; lia].
    rewrite Q, app_nil_r in Hne. destruct (Hw eq_refl Hne) as [[?|?]|[? _]]; [left; lia|by right|]. by destruct Hp.
  - intros _. rewrite G. by apply Hp.
  - intros l. rewrite elem_of_app, Hd, C, latch_snoc. done.
Qed.

Lemma own_call_inv c s s' : loop_inv s → own_call c s = Some s' → loop_inv s'.
Proof.
  intros [Ho Hw Hq Hs Hp Hc Hl Hd] E. unfold own_call in E. destruct (lock_free s); [|done].
  unfold current, executing, in_loop_body, before_poll, polled, woken in *. destruct (pc s) eqn:Ep; try done; injection E as <-.
  - destruct (Hs eq_refl) as [Hi Hf]. destruct c as [t|]; cbn [run_call].
    + unfold QueueInLoop, push_functor. cbn [calling_functors_ set_queued set_functors]. rewrite Hc.
      unfold set_own, set_queued, set_functors. cbn. loop_fields; rewrite ?Ep; cbn; try done.
      * by rewrite <- Ho, <- !app_assoc.
      * intros _ _. destruct Hf as [?|Ef]; [by left|right; by rewrite Ef].
      * intros _. split; [done|]. destruct Hf as [?|Ef]; [by left|right; by rewrite Ef].
    + unfold Quit. rewrite Hl. cbn [negb]. rewrite app_nil_r. loop_fields; rewrite ?Ep; try done.
  - destruct c as [t|]; cbn [run_call].
    + unfold QueueInLoop, push_functor. cbn [calling_functors_ set_queued set_functors]. rewrite Hc.
      unfold set_queued, set_functors. cbn. loop_fields; rewrite ?Ep; cbn; try done.
      by rewrite <- Ho, <- !app_assoc.
    + unfold Quit. rewrite Hl. cbn [negb]. loop_fields; rewrite ?Ep; try done.
Qed.

Lemma step_inv l s s' : loop_inv s → lstep l s = Some s' → loop_inv s'.
Proof.
  intros Hi E. destruct l as [|c|active|t| | |]; cbn [step] in E; [|by eapply own_call_inv|..];
    pose proof Hi as [Ho Hw Hq Hs Hp Hc Hl Hd];
    unfold current, executing, in_loop_body, before_poll, polled, woken in *.
  - unfold loop_step in E. destruct (pc s) as [| | |[|ch chs]| |[|t ts]| | |] eqn:Ep; try done.
    + destruct (looping_ s || quit_ s) eqn:El; [done|]. injection E as <-. loop_fields.
    + injection E as <-. destruct (quit_ s) eqn:Eq; loop_fields; try congruence.
    + injection E as <-. loop_fields.
    + injection E as <-. unfold HandleEvent. destruct (ch =? wakeup_channel)%Z.
      * loop_fields.
      * apply handled_inv; [done|by eexists].
    + destruct (lock_free s); [|done]. injection E as <-. loop_fields. by rewrite app_nil_r.
    + injection E as <-. loop_fields.
    + injection E as <-. by apply task_inv.
    + injection E as <-. loop_fields.
    + injection E as <-. destruct (bool_decide _); loop_fields.
  - unfold poll_step in E. destruct (pc s) eqn:Ep; try done. destruct (bool_decide _); [|done].
    injection E as <-. loop_fields.
  - destruct (lock_free s); [|done]. injection E as <-. loop_fields.
    + rewrite <- Ho, !app_assoc. done.
    + intros _ _. left. by right.
    + intros Est. split; [by apply Hs|]. left. by right.
  - destruct (wakers s) as [|n] eqn:Ewk; [done|]. injection E as <-. loop_fields.
    + intros _ _. left. by left.
    + intros _ _. by left.
    + intros Est. split; [by apply Hs|]. left. by left.
  - unfold quit_call in E. destruct (bool_decide _); [|done]. destruct (negb (looping_ s)) eqn:El; [by injection E as <-|].
    destruct (quit_ s) eqn:Eq; [by injection E as <-|]. injection E as <-. loop_fields. by right.
  - unfold quit_step in E. destruct (quitter s) eqn:Eq; try done; injection E as <-; loop_fields.
    + intros _ _. left. by left.
    + intros _ _. by left.
    + intros Est. split; [by apply Hs|]. left. by left.
    + intros H1 H2. destruct (Hq H1 H2); [by left|congruence].
    + intros H1 H2. destruct (Hq H1 H2); [by left|congruence].
Qed.

Lemma reachable_inv s : lreachable s → loop_inv s.
Proof. induction 1; [apply EventLoop_new_inv|by eapply step_inv]. Qed.

(** *** The theorems *)

(** C10: whatever the interleaving of the loop thread (its own calls of
    [QueueInLoop] and [Quit] before and after [Loop] included), of threads that
    queue tasks and of one that quits: every task runs once and in the order of
    queueing, and a latch is down exactly when its task has run.  The poller
    does not sleep on work: when the loop is in [Poll] with a task queued or a
    quit asked for, the wakeup descriptor is readable or a thread is about to
    write it.  The one exception is the first [Poll] when all that is queued
    was queued by the loop's own thread before [Loop], for which [QueueInLoop]
    wakes nobody ([own_task_sleeps]). *)
Theorem loop_never_misses_work s :
  lreachable s →
  executed s ++ current s ++ functors_ s = queued s ∧
  (∀ l, RunAndWait_returns l s = true ↔ ∃ cb, RunAndNotify cb l ∈ executed s) ∧
  (pc s = LPoll → functors_ s ≠ [] ∨ quit_ s = true →
   wakeup_fd_count s ≠ 0 ∨ wakers s ≠ 0 ∨ quitter s = QWakeUp ∨
   (iteration_ s = 0 ∧ functors_ s = own s ∧ quit_ s = false)).
Proof.
  intros [Ho Hw Hq _ _ _ _ Hd]%reachable_inv. split_and!; [done| |].
  - intros l. unfold RunAndWait_returns. by rewrite bool_decide_eq_true, Hd.
  - intros Hp Hor. destruct (quit_ s) eqn:Eq; [destruct (Hq Hp eq_refl); auto|].
    destruct Hor as [Hf|]; [|done].
    destruct (Hw ltac:(unfold before_poll; by rewrite Hp) Hf) as [[?|?]|[? ?]]; auto 10.
Qed.

(** That case: a task that the loop's own thread queues before [Loop] waits
    for the first [Poll] to return, be it for its timeout, [kPollTimeMs]. *)
Lemma own_task_sleeps t :
  ∃ s, lrun [OwnCall (CallQueueInLoop t); LoopStep; LoopStep] EventLoop_new = Some s ∧ pc s = LPoll ∧
    functors_ s = [t] ∧ wakeup_fd_count s = 0 ∧ wakers s = 0 ∧ quitter s = QNone.
Proof. eexists. split; [reflexivity|]. done. Qed.

Lemma run_app ls ks s : lrun (ls ++ ks) s = (s' ← lrun ls s; lrun ks s').
Proof.
  revert s. induction ls as [|l ls IH]; intros s; [done|]. cbn [run app].
  destruct (lstep l s) as [s'|]; [apply IH|done].
Qed.

(** The swapped functors all run, whatever they queue. *)
Lemma run_current ts : ∀ s,
  pc s = LRun ts →
  ∃ s', lrun (replicate (length ts) LoopStep) s = Some s' ∧ pc s' = LRun [] ∧
    executed s' = executed s ++ ts.
Proof.
  induction ts as [|t ts IH]; intros s E; [exists s; by rewrite app_nil_r|].
  cbn [length replicate run step]. unfold loop_step. rewrite E. cbn [mbind option_bind].
  set (s1 := set_pc _ _).
  assert (executed s1 = executed s ++ [t]) as E1.
  { unfold s1. rewrite run_task_eq.
    by destruct (run_calls_called (body (task_cb t)) (set_executed (executed s ++ [t]) s))
      as [_ (_ & _ & C & _) _]. }
  destruct (IH s1 eq_refl) as (s' & Er & Ep & Ee). exists s'.
  rewrite Er, Ee, E1, <- app_assoc. done.
Qed.

Lemma run_step l ls s s1 (P : EventLoop → Prop) :
  lstep l s = Some s1 → (∃ s', lrun ls s1 = Some s' ∧ P s') → ∃ s', lrun (l :: ls) s = Some s' ∧ P s'.
Proof. intros E (s' & Er & Hp). exists s'. cbn [run]. rewrite E. done. Qed.

Lemma poll_wakeup s :
  pc s = LPoll → wakeup_fd_count s ≠ 0 →
  lstep (PollReturns [wakeup_channel]) s
  = Some (set_pc (LHandle [wakeup_channel]) (set_iteration (S (iteration_ s)) s)).
Proof.
  intros Hp Hw. cbn [step]. unfold poll_step. rewrite Hp, bool_decide_true; [done|].
  split; [done|left].
Qed.

Lemma handle_wakeup s chs :
  pc s = LHandle (wakeup_channel :: chs) →
  lstep LoopStep s = Some (set_pc (LHandle chs) (HandleWakeupRead s)).
Proof. intros Hp. cbn [step]. unfold loop_step, HandleEvent. by rewrite Hp, Z.eqb_refl. Qed.

Lemma exec_swap s :
  pc s = LExec → lock_free s = true →
  lstep LoopStep s = Some (set_pc (LRun (functors_ s)) (set_functors [] s)).
Proof. intros Hp Hl. cbn [step]. unfold loop_step. by rewrite Hp, Hl. Qed.

(** C21: when the loop thread sleeps in [Poll] and the wakeup descriptor is
    readable, [Poll] returns and one iteration of the loop runs every task
    queued so far, in order, and comes back to the test of [quit_]. *)
Theorem wakeup_runs_queued s :
  lreachable s → pc s = LPoll → wakeup_fd_count s ≠ 0 → lock_free s = true →
  ∃ s', lrun (PollReturns [wakeup_channel] :: replicate 3 LoopStep
              ++ replicate (length (functors_ s)) LoopStep ++ [LoopStep]) s = Some s' ∧
    executed s' = executed s ++ functors_ s ∧ pc s' = LCheck.
Proof.
  intros Hr Hp Hw Hl.
  eapply run_step; [by apply poll_wakeup|]. eapply run_step; [by apply handle_wakeup|].
  eapply run_step; [reflexivity|]. eapply run_step; [by apply exec_swap|].
  rewrite run_app. set (s1 := set_pc (LRun _) _).
  destruct (run_current (functors_ s) s1 eq_refl) as (s2 & E2 & Ep & Ee). rewrite E2.
  cbn [mbind option_bind run step]. unfold loop_step. rewrite Ep. cbn [mbind option_bind].
  eexists. split; [reflexivity|]. split; [exact Ee|reflexivity].
Qed.

Lemma done_step l s s' :
  pc s = LDone → lstep l s = Some s' → looping_ s = false →
  pc s' = LDone ∧ executed s' = executed s ∧ looping_ s' = false ∧
  (quitter s = QWaiting → quitter s' = QWaiting).
Proof.
  intros Hp E Hl. destruct l as [|c|active|t| | |]; cbn [step] in E.
  - unfold loop_step in E. by rewrite Hp in E.
  - unfold own_call in E. destruct (lock_free s); [|done]. rewrite Hp in E. injection E as <-.
    destruct (run_call_called s c) as [P (A & _ & C & _ & F & _) _]. rewrite P, A, C, F. by split_and!.
  - unfold poll_step in E. by rewrite Hp in E.
  - destruct (lock_free s); [|done]. injection E as <-. done.
  - destruct (wakers s); [done|]. injection E as <-. done.
  - unfold quit_call in E. destruct (bool_decide _); [|done]. rewrite Hl in E. injection E as <-. done.
  - unfold quit_step in E. destruct (quitter s) eqn:Eq; try done; injection E as <-; cbn; rewrite ?Hl; done.
Qed.

Lemma done_run ls : ∀ s s',
  pc s = LDone → lrun ls s = Some s' → looping_ s = false →
  pc s' = LDone ∧ executed s' = executed s ∧ (quitter s = QWaiting → quitter s' = QWaiting).
Proof.
  induction ls as [|l ls IH]; intros s s' Hp E Hl; [by injection E as <-|].
  cbn [run] in E. destruct (lstep l s) as [s1|] eqn:E1; [|done].
  destruct (done_step _ _ _ Hp E1 Hl) as (Hp1 & He1 & Hl1 & Hq1).
  destruct (IH s1 s' Hp1 E Hl1) as (Hp' & He' & Hq'). rewrite He', He1. auto.
Qed.

Lemma run_reachable ls : ∀ s s', lreachable s → lrun ls s = Some s' → lreachable s'.
Proof.
  induction ls as [|l ls IH]; intros s s' Hr E; [by injection E as <-|].
  cbn [run] in E. destruct (lstep l s) as [s1|] eqn:E1; [|done].
  eapply IH; [|exact E]. by eapply reach_step.
Qed.

(** [Quit] asked for, the loop leaves its [while] before the quitting thread
    waits: nobody will wake that thread. *)
Definition hang : list label :=
  [LoopStep; LoopStep; QuitCall; QuitStep; PollReturns [wakeup_channel]; LoopStep; LoopStep; LoopStep;
   LoopStep; LoopStep; QuitStep; LoopStep; LoopStep; QuitStep].

Ltac norm_state :=
  match goal with |- ∃ _, run _ _ _ _ ?s = _ ∧ _ => let x := eval cbv in s in change s with x end.

Lemma hang_run : ∃ s, lrun hang EventLoop_new = Some s ∧ pc s = LDone ∧ quitter s = QWaiting.
Proof.
  unfold hang. do 4 (eapply run_step; [reflexivity|]; norm_state).
  eapply run_step; [by apply poll_wakeup|]; norm_state.
  eapply run_step; [by apply handle_wakeup|]; norm_state.
  do 8 (eapply run_step; [reflexivity|]; norm_state). eexists. split; [reflexivity|]. done.
Qed.

(** Quitting from another thread can hang, and a loop that has ended
    strands its tasks.  [Loop] clears [looping_] and notifies without the
    lock, so both can fall between the test and the wait in [Quit]: the
    thread then waits for ever.  After [Loop], tasks still queued or queued
    later never run, so that a [RunAndWait] for them never returns. *)
Theorem quit_can_hang :
  (∃ s, lrun hang EventLoop_new = Some s ∧ lreachable s ∧ pc s = LDone ∧ quitter s = QWaiting) ∧
  (∀ s ls s', lreachable s → pc s = LDone → lrun ls s = Some s' →
     executed s' = executed s ∧ (quitter s = QWaiting → quitter s' = QWaiting)).
Proof.
  split.
  - destruct hang_run as (s & E & Hp & Hq). exists s. split_and!; try done.
    by apply (run_reachable hang EventLoop_new); [apply reach_new|].
  - intros s ls s' Hr Hp E. pose proof (li_looping s (reachable_inv s Hr)) as Hl.
    unfold in_loop_body in Hl. rewrite Hp in Hl. by destruct (done_run ls s s' Hp E Hl) as (_ & ? & ?).
Qed.

(** A [Quit] before [Loop] is forgotten. *)
Lemma early_quit_ignored : lstep QuitCall EventLoop_new = Some EventLoop_new.
Proof. done. Qed.
End invariant.

(** ** Timers through the loop *)

Section timer_calls.
Variable clock : nat → Z.
Variable alloc : list Z → Z.
Hypothesis alloc_fresh : ∀ l, alloc l ∉ l.
Local Open Scope Z_scope.

Lemma never_repeats : interval_ok (double_of_Z 0) ∧ dgt0 (double_of_Z 0) = false.
Proof. split; [intros E|]; vm_compute in *; congruence. Qed.

(** C35: [RunAfter] of a delay adds one timer, which does not repeat, due when
    the delay has passed since the time read; [RunEvery] adds a repeating
    one.  Both answer the identifier of the timer; [CancelTimer] of it undoes
    the addition. *)
Theorem run_after_schedules delay cb when interval q :
  tq_wf q → dgt0 delay = true → interval_ok delay → 0 < clock (ticks q) →
  0 < when → interval_ok interval →
  (∃ q', RunAfter clock alloc true delay cb q = Ok (s_num_created_ q, q') ∧ tq_wf q' ∧
     pending (alpha q') = <[s_num_created_ q := mkEntry cb (clock (ticks q) + usecs delay) (double_of_Z 0)]>
       (pending (alpha q))) ∧
  (∃ q' q'', RunEvery clock alloc true when cb interval q = Ok (s_num_created_ q, q') ∧ tq_wf q' ∧
     pending (alpha q') = <[s_num_created_ q := mkEntry cb when interval]> (pending (alpha q)) ∧
     CancelTimer true (s_num_created_ q) q' = Ok q'' ∧ pending (alpha q'') = pending (alpha q)).
Proof.
  intros Hw Hd Hok Hc Hwhen Hi. split.
  - unfold RunAfter, Now. set (q1 := set_armed _ _ q).
    assert (tq_wf q1) as Hw1 by (destruct Hw; by constructor).
    destruct (Hok Hd) as [Hk Hu]. unfold AddTime.
    assert (trunc64 (dmul delay (double_of_Z kMicrosecondsPerSecond)) = Ok (usecs delay)) as ->
      by (unfold usecs; by destruct (trunc64 _)).
    cbn [mbind res_bind].
    destruct (AddTimer_spec clock alloc alloc_fresh true cb (clock (ticks q) + usecs delay) (double_of_Z 0) q1)
      as (q' & E & Hw' & _ & _ & Ha); [done|split; [lia|apply never_repeats]|].
    exists q'. rewrite Ha. done.
  - destruct (AddTimer_spec clock alloc alloc_fresh true cb when interval q) as (q' & E & Hw' & _ & _ & Ha);
      [done|by split|].
    destruct (Cancel_spec true (s_num_created_ q) q' Hw') as (q'' & E'' & _ & _ & _ & Ha'').
    exists q', q''. unfold RunEvery, CancelTimer. split_and!; [done|done|by rewrite Ha|done|].
    rewrite Ha'', Ha. cbn. apply delete_insert_id. apply keyed_lookup_None.
    rewrite list_elem_of_fmap. intros (t & Et & Hin).
    pose proof (inv_ok _ _ _ _ (wf_inv q Hw)) as Hall. rewrite Forall_forall in Hall.
    destruct (Hall t) as ((_ & Hlt) & _); [apply elem_of_app; by left|]. lia.
Qed.
End timer_calls.

(** ** Runs of the model *)

(** Task 1 queues task 2; the handler of channel 9 queues a notified task;
    channel 4 is the wakeup channel. *)
Definition demo_body (cb : Z) : list loop_call := if (cb =? 1)%Z then [CallQueueInLoop (Task 2)] else [].
Definition demo_handler (ch : Z) : list loop_call := [CallQueueInLoop (RunAndNotify 3 7)].

Abbreviation demo_run := (run 4 demo_body demo_handler).

Definition demo_labels : list label :=
  [LoopStep; LoopStep; OtherQueue (Task 1); PollReturns [9%Z]; LoopStep; LoopStep; LoopStep; LoopStep;
   LoopStep; LoopStep; LoopStep; OtherQueue (Task 5)].

(** The loop sleeps in [Poll] again; tasks 2 and 5 wait, and the wakeup
    descriptor is readable because task 1 queued a task. *)
Lemma demo_labels_run :
  ∃ s, demo_run demo_labels EventLoop_new = Some s ∧ pc s = LPoll ∧
    executed s = [Task 1; RunAndNotify 3 7] ∧ functors_ s = [Task 2; Task 5] ∧
    wakeup_fd_count s = 1 ∧ lock_free s = true.
Proof. eexists. split; [vm_compute; reflexivity|]. repeat split. Qed.

Lemma loop_never_misses_work_witness :
  ∃ s, demo_run demo_labels EventLoop_new = Some s ∧ functors_ s = [Task 2; Task 5] ∧
    (wakeup_fd_count s ≠ 0 ∨ wakers s ≠ 0 ∨ quitter s = QWakeUp ∨
     (iteration_ s = 0 ∧ functors_ s = own s ∧ quit_ s = false)) ∧
    executed s ++ current s ++ functors_ s = queued s.
Proof.
  destruct demo_labels_run as (s & E & Hp & _ & Hf & _).
  destruct (loop_never_misses_work 4 demo_body demo_handler s) as (Ho & _ & Hw).
  { exact (run_reachable 4 demo_body demo_handler demo_labels _ s (reach_new _ _ _) E). }
  exists s. split; [exact E|]. split; [exact Hf|]. split; [|exact Ho].
  apply (Hw Hp). left. rewrite Hf. discriminate.
Defined.

Lemma wakeup_runs_queued_witness :
  ∃ s s', demo_run demo_labels EventLoop_new = Some s ∧
    demo_run (PollReturns [4%Z] :: replicate 3 LoopStep ++ replicate 2 LoopStep ++ [LoopStep]) s = Some s' ∧
    executed s' = [Task 1; RunAndNotify 3 7; Task 2; Task 5].
Proof.
  destruct demo_labels_run as (s & E & Hp & He & Hf & Hw & Hl).
  destruct (wakeup_runs_queued 4 demo_body demo_handler s) as (s' & E' & He' & _).
  - exact (run_reachable 4 demo_body demo_handler demo_labels _ s (reach_new _ _ _) E).
  - exact Hp.
  - rewrite Hw. discriminate.
  - exact Hl.
  - exists s, s'. split; [exact E|]. rewrite Hf in E', He'. rewrite He in He'. split; [exact E'|exact He'].
Defined.

Lemma quit_can_hang_witness :
  ∃ s s', demo_run (hang 4) EventLoop_new = Some s ∧ quitter s = QWaiting ∧
    demo_run [OtherQueue (Task 1); OtherWakeUp] s = Some s' ∧ executed s' = [] ∧ quitter s' = QWaiting.
Proof.
  destruct (quit_can_hang 4 demo_body demo_handler) as [(s & E & Hr & Hp & Hq) Hs].
  destruct (demo_run [OtherQueue (Task 1); OtherWakeUp] s) as [s'|] eqn:E'.
  - destruct (Hs s _ s' Hr Hp E') as [He Hq']. exists s, s'. split; [exact E|]. split; [exact Hq|].
    split; [exact E'|]. split; [|exact (Hq' Hq)]. rewrite He.
    vm_compute in E. injection E as <-. reflexivity.
  - exfalso. vm_compute in E. injection E as <-. vm_compute in E'. discriminate.
Defined.

Lemma run_after_schedules_witness :
  ∃ q', RunAfter demo_clock demo_alloc true demo_half 3 TimerQueue_new = Ok (0%Z, q') ∧
    (e_when <$> pending (alpha q') !! 0%Z) = Some 1500000%Z.
Proof.
  destruct (run_after_schedules demo_clock demo_alloc demo_alloc_fresh demo_half 3 1 demo_half TimerQueue_new)
    as [(q' & E & _ & Hp) _].
  - exact (proj1 TimerQueue_new_idle).
  - vm_compute. reflexivity.
  - exact demo_half_ok.
  - apply demo_clock_pos.
  - reflexivity.
  - exact demo_half_ok.
  - exists q'. split; [exact E|]. rewrite Hp. vm_compute. reflexivity.
Defined.
