(* ===== verification/TcpServer.v ===== *)
(** The server: [muzi/net/event_loop_thread_pool.h] and
    [event_loop_thread_pool.cc], [tcp_server.h] and [tcp_server.cc].  Loops
    are numbered; what one loop queues in another is a global list in queueing
    order, from which each loop takes its own tasks first in, first out.  A
    connection is reduced to its state, see [TcpConnection]. *)

From S2P Require Import Prelude Timestamp TimerQueue.
From stdpp Require Import pretty.

(** ** EventLoopThreadPool *)

(** [inited_] lists the loops the thread-init callback ran for. *)
Record EventLoopThreadPool := mkPool {
  base_loop_ : Z;
  thread_nums_ : nat;
  next_ : nat;
  pool_started_ : bool;
  event_loops_ : list Z;
  inited_ : list Z
}.

Definition EventLoopThreadPool_new (base_loop : Z) : EventLoopThreadPool :=
  mkPool base_loop 0 0 false [] [].

Definition SetThreadNum (num : nat) (p : EventLoopThreadPool) : EventLoopThreadPool :=
  mkPool (base_loop_ p) num (next_ p) (pool_started_ p) (event_loops_ p) (inited_ p).

(** [Start]; [start_loop i] is the loop of the [i]-th thread, and each thread
    calls the callback on its own loop. *)
Definition Pool_Start (start_loop : nat → Z) (callback : bool) (p : EventLoopThreadPool) :
    res EventLoopThreadPool :=
  _ ← assert (negb (pool_started_ p));
  let loops := start_loop <$> seq 0 (thread_nums_ p) in
  let calls := if callback then (if decide (thread_nums_ p = 0) then [base_loop_ p] else loops) else [] in
  Ok (mkPool (base_loop_ p) (thread_nums_ p) (next_ p) true (event_loops_ p ++ loops)
        (inited_ p ++ calls)).

Definition GetNextLoop (in_loop : bool) (p : EventLoopThreadPool) : res (Z * EventLoopThreadPool) :=
  _ ← AssertInLoopThread in_loop;
  _ ← assert (pool_started_ p);
  match event_loops_ p with
  | [] => Ok (base_loop_ p, p)
  | _ :: _ =>
      loop ← deref OutOfBounds (event_loops_ p !! next_ p);
      if decide (thread_nums_ p = 0) then Fault IntOverflow
      else Ok (loop, mkPool (base_loop_ p) (thread_nums_ p) ((next_ p + 1) mod thread_nums_ p)
                       (pool_started_ p) (event_loops_ p) (inited_ p))
  end.

Definition GetLoopForHash (in_loop : bool) (hashcode : nat) (p : EventLoopThreadPool) : res Z :=
  _ ← AssertInLoopThread in_loop;
  _ ← assert (pool_started_ p);
  match event_loops_ p with
  | [] => Ok (base_loop_ p)
  | _ :: _ => deref OutOfBounds (event_loops_ p !! (hashcode mod length (event_loops_ p)))
  end.

Definition GetAllLoops (in_loop : bool) (p : EventLoopThreadPool) : res (list Z) :=
  _ ← AssertInLoopThread in_loop;
  _ ← assert (pool_started_ p);
  Ok (match event_loops_ p with [] => [base_loop_ p] | _ :: _ => event_loops_ p end).

(** ** TcpServer *)

(** The state of a connection object; [Destroyed]: after
    [DestroyConnection]. *)
Inductive conn_state := Connecting | Connected | DisConnected | Destroyed.
#[export] Instance conn_state_eq_dec : EqDecision conn_state.
Proof. solve_decision. Defined.

Record Conn := mkServerConn { c_name : bytes; c_loop : Z; c_state : conn_state }.

(** What is queued in a loop: the functors bound to the [n]-th connection. *)
Inductive srv_task :=
  | TListen
  | TEstablish (id : nat)
  | TRemove (id : nat)
  | TDestroy (id : nat).
#[export] Instance srv_task_eq_dec : EqDecision srv_task.
Proof. solve_decision. Defined.

(** [conns] holds all connection objects, [connections_] the server's map,
    [alive] tells whether the server exists.  [conn_sequence_] is an [int] that
    only counts up; it does not wrap here (in the code the 2^31-th connection
    overflows it). *)
Record TcpServer := mkServer {
  name_ : bytes;
  loop_ : Z;
  listening_ : bool;
  started_ : bool;
  conn_sequence_ : nat;
  thread_pool_ : EventLoopThreadPool;
  connections_ : gmap bytes nat;
  conns : gmap nat Conn;
  srv_queue : list (Z * srv_task);
  alive : bool
}.

Definition TcpServer_new (loop : Z) (name : bytes) : TcpServer :=
  mkServer name loop false false 0 (EventLoopThreadPool_new loop) ∅ ∅ [] true.

Definition set_listening (b : bool) (s : TcpServer) : TcpServer :=
  mkServer (name_ s) (loop_ s) b (started_ s) (conn_sequence_ s) (thread_pool_ s) (connections_ s)
    (conns s) (srv_queue s) (alive s).
Definition set_started (b : bool) (p : EventLoopThreadPool) (s : TcpServer) : TcpServer :=
  mkServer (name_ s) (loop_ s) (listening_ s) b (conn_sequence_ s) p (connections_ s)
    (conns s) (srv_queue s) (alive s).
Definition set_sequence (n : nat) (p : EventLoopThreadPool) (s : TcpServer) : TcpServer :=
  mkServer (name_ s) (loop_ s) (listening_ s) (started_ s) n p (connections_ s)
    (conns s) (srv_queue s) (alive s).
Definition set_connections (m : gmap bytes nat) (s : TcpServer) : TcpServer :=
  mkServer (name_ s) (loop_ s) (listening_ s) (started_ s) (conn_sequence_ s) (thread_pool_ s) m
    (conns s) (srv_queue s) (alive s).
Definition set_conns (m : gmap nat Conn) (s : TcpServer) : TcpServer :=
  mkServer (name_ s) (loop_ s) (listening_ s) (started_ s) (conn_sequence_ s) (thread_pool_ s)
    (connections_ s) m (srv_queue s) (alive s).
Definition set_queue (q : list (Z * srv_task)) (s : TcpServer) : TcpServer :=
  mkServer (name_ s) (loop_ s) (listening_ s) (started_ s) (conn_sequence_ s) (thread_pool_ s)
    (connections_ s) (conns s) q (alive s).
Definition set_alive (b : bool) (s : TcpServer) : TcpServer :=
  mkServer (name_ s) (loop_ s) (listening_ s) (started_ s) (conn_sequence_ s) (thread_pool_ s)
    (connections_ s) (conns s) (srv_queue s) b.

Definition enqueue (loop : Z) (t : srv_task) (s : TcpServer) : TcpServer :=
  set_queue (srv_queue s ++ [(loop, t)]) s.

Definition conn_at (id : nat) (s : TcpServer) : res Conn := deref NullDeref (conns s !! id).
Definition set_state (id : nat) (st : conn_state) (s : TcpServer) : TcpServer :=
  set_conns (alter (λ c, mkServerConn (c_name c) (c_loop c) st) id (conns s)) s.

(** [TcpConnection::EstablishConnection] and [DestroyConnection], as far as
    the server is concerned; a second destruction fails in
    [Channel::Remove]. *)
Definition Establish (cur : Z) (id : nat) (s : TcpServer) : res TcpServer :=
  c ← conn_at id s;
  _ ← AssertInLoopThread (bool_decide (cur = c_loop c));
  _ ← assert (bool_decide (c_state c = Connecting));
  Ok (set_state id Connected s).

Definition Destroy (cur : Z) (id : nat) (s : TcpServer) : res TcpServer :=
  c ← conn_at id s;
  _ ← AssertInLoopThread (bool_decide (cur = c_loop c));
  _ ← assert (negb (bool_decide (c_state c = Destroyed)));
  Ok (set_state id Destroyed s).

(** [RunInLoop] of [DestroyConnection], from the loop [cur]. *)
Definition RunDestroy (cur io_loop : Z) (id : nat) (s : TcpServer) : res TcpServer :=
  if decide (cur = io_loop) then Destroy cur id s else Ok (enqueue io_loop (TDestroy id) s).

Definition conn_name (s : TcpServer) (id : nat) : bytes := name_ s ++ B "#" ++ digits (Z.of_nat id).

Definition NewConnection (cur : Z) (s : TcpServer) : res TcpServer :=
  _ ← AssertInLoopThread (bool_decide (cur = loop_ s));
  let id := conn_sequence_ s in
  let name := conn_name s id in
  '(io_loop, p) ← GetNextLoop (bool_decide (cur = base_loop_ (thread_pool_ s))) (thread_pool_ s);
  let s := set_sequence (S id) p s in
  let s := set_conns (<[id := mkServerConn name io_loop Connecting]> (conns s)) s in
  let s := set_connections (<[name := id]> (connections_ s)) s in
  if decide (cur = io_loop) then Establish cur id s else Ok (enqueue io_loop (TEstablish id) s).

Definition RemoveConnectionInLoop (cur : Z) (id : nat) (s : TcpServer) : res TcpServer :=
  _ ← (if alive s then Ok tt else Fault UseAfterFree);
  _ ← AssertInLoopThread (bool_decide (cur = loop_ s));
  c ← conn_at id s;
  _ ← assert (bool_decide (is_Some (connections_ s !! c_name c)));
  RunDestroy cur (c_loop c) id (set_connections (delete (c_name c) (connections_ s)) s).

(** The close callback of a connection, in its loop [cur]. *)
Definition RemoveConnection (cur : Z) (id : nat) (s : TcpServer) : res TcpServer :=
  _ ← (if alive s then Ok tt else Fault UseAfterFree);
  if decide (cur = loop_ s) then RemoveConnectionInLoop cur id s
  else Ok (enqueue (loop_ s) (TRemove id) s).

(** [TcpConnection::HandleClose] in the connection's loop. *)
Definition HandleClose (id : nat) (s : TcpServer) : res TcpServer :=
  c ← conn_at id s;
  _ ← assert (bool_decide (c_state c = Connected));
  RemoveConnection (c_loop c) id (set_state id DisConnected s).

Definition Listen (cur : Z) (s : TcpServer) : res TcpServer :=
  _ ← AssertInLoopThread (bool_decide (cur = loop_ s)); Ok (set_listening true s).

Definition Start (start_loop : nat → Z) (cur : Z) (callback : bool) (s : TcpServer) : res TcpServer :=
  if started_ s then Ok s
  else
    p ← Pool_Start start_loop callback (thread_pool_ s);
    _ ← assert (negb (listening_ s));
    let s := set_started true p s in
    if decide (cur = loop_ s) then Listen cur s else Ok (enqueue (loop_ s) TListen s).

(** The destructor, run by the thread of loop [cur], goes through the map. *)
Fixpoint destroy_all (cur : Z) (ids : list nat) (s : TcpServer) : res TcpServer :=
  match ids with
  | [] => Ok s
  | id :: ids => c ← conn_at id s; s ← RunDestroy cur (c_loop c) id s; destroy_all cur ids s
  end.

Definition TcpServer_destroy (cur : Z) (s : TcpServer) : res TcpServer :=
  s ← destroy_all cur (map_to_list (connections_ s)).*2 s; Ok (set_alive false (set_connections ∅ s)).

Definition run_srv_task (cur : Z) (t : srv_task) (s : TcpServer) : res TcpServer :=
  match t with
  | TListen => Listen cur s
  | TEstablish id => Establish cur id s
  | TRemove id => RemoveConnectionInLoop cur id s
  | TDestroy id => Destroy cur id s
  end.

(** Loop [cur] runs its first queued task. *)
Definition RunTask (cur : Z) (s : TcpServer) : res TcpServer :=
  match list_find (λ p, p.1 = cur) (srv_queue s) with
  | None => Ok s
  | Some (i, (_, t)) => run_srv_task cur t (set_queue (delete i (srv_queue s)) s)
  end.

Inductive srv_event :=
  | EvAccept
  | EvClose (id : nat)
  | EvRunTask (cur : Z).

Definition run_event (e : srv_event) (s : TcpServer) : res TcpServer :=
  match e with
  | EvAccept => NewConnection (loop_ s) s
  | EvClose id => HandleClose id s
  | EvRunTask cur => RunTask cur s
  end.

Fixpoint run_events (es : list srv_event) (s : TcpServer) : res TcpServer :=
  match es with [] => Ok s | e :: es => s ← run_event e s; run_events es s end.

(** ** The thread pool *)

(** The loop the [k]-th connection goes to. *)
Definition pick (p : EventLoopThreadPool) (k : nat) : Z :=
  default (base_loop_ p) (event_loops_ p !! (k mod length (event_loops_ p))).

Record pool_ok (k : nat) (p : EventLoopThreadPool) : Prop := {
  po_started : pool_started_ p = true;
  po_length : length (event_loops_ p) = thread_nums_ p;
  po_next : next_ p = match event_loops_ p with [] => 0 | l => k mod length l end
}.

Lemma GetNextLoop_spec k p :
  pool_ok k p →
  ∃ p', GetNextLoop true p = Ok (pick p k, p') ∧ pool_ok (S k) p' ∧
    event_loops_ p' = event_loops_ p ∧ base_loop_ p' = base_loop_ p.
Proof.
  intros [Hs Hl Hn]. unfold GetNextLoop, pick. rewrite Hs. cbn [AssertInLoopThread assert mbind res_bind].
  destruct (event_loops_ p) as [|x l] eqn:E; [exists p; split_and!; try done; split; by rewrite ?E|].
  rewrite Hn. set (i := k mod length (x :: l)).
  assert (i < length (x :: l)) as Hi by (apply Nat.mod_upper_bound; done).
  destruct (lookup_lt_is_Some_2 (x :: l) i Hi) as (y & Ey). rewrite Ey. cbn [deref mbind res_bind default].
  rewrite decide_False by (rewrite <- Hl; done).
  eexists. split; [reflexivity|]. split; [|done]. split; cbn [next_ event_loops_ pool_started_ thread_nums_]; try done.
  rewrite <- Hl. unfold i.
  rewrite Nat.Div0.add_mod_idemp_l. f_equal. lia.
Qed.

Lemma Pool_Start_spec start_loop cb base n :
  ∃ p, Pool_Start start_loop cb (SetThreadNum n (EventLoopThreadPool_new base)) = Ok p ∧ pool_ok 0 p ∧
    event_loops_ p = start_loop <$> seq 0 n ∧ base_loop_ p = base.
Proof.
  eexists. split; [reflexivity|]. split_and!; try done. split; [done| |].
  - cbn. by rewrite length_fmap, length_seq.
  - cbn [next_ event_loops_ SetThreadNum EventLoopThreadPool_new app].
    destruct (start_loop <$> _); [done|]. by rewrite Nat.Div0.mod_0_l.
Qed.

(** [k] calls of [GetNextLoop]. *)
Fixpoint next_loops (k : nat) (p : EventLoopThreadPool) : res (list Z) :=
  match k with
  | O => Ok []
  | S k => '(l, p) ← GetNextLoop true p; ls ← next_loops k p; Ok (l :: ls)
  end.

Lemma next_loops_spec n : ∀ k p,
  pool_ok k p → next_loops n p = Ok (pick p <$> seq k n).
Proof.
  induction n as [|n IH]; intros k p Hp; [done|]. cbn [next_loops seq fmap list_fmap].
  destruct (GetNextLoop_spec k p Hp) as (p' & -> & Hp' & El & Eb). cbn [mbind res_bind].
  rewrite (IH (S k) p' Hp'). cbn [mbind res_bind]. do 2 f_equal. apply list_fmap_ext.
  intros i x _. unfold pick. by rewrite El, Eb.
Qed.

(** A pool of [n] threads hands out its loops in turn, the base loop when
    it has no thread; the hash picks a fixed loop of the pool; nothing is
    read out of bounds. *)
Theorem pool_round_robin start_loop cb base n k h :
  ∃ p, Pool_Start start_loop cb (SetThreadNum n (EventLoopThreadPool_new base)) = Ok p ∧
    next_loops k p = Ok ((λ i, if decide (n = 0) then base else start_loop (i mod n)) <$> seq 0 k) ∧
    GetLoopForHash true h p = Ok (if decide (n = 0) then base else start_loop (h mod n)) ∧
    GetAllLoops true p = Ok (if decide (n = 0) then [base] else start_loop <$> seq 0 n).
Proof.
  destruct (Pool_Start_spec start_loop cb base n) as (p & E & Hp & El & Eb).
  assert (∀ i, pick p i = if decide (n = 0) then base else start_loop (i mod n)) as Hpick.
  { intros i. unfold pick. rewrite El, Eb, length_fmap, length_seq. destruct (decide (n = 0)) as [->|Hn]; [done|].
    rewrite list_lookup_fmap, lookup_seq_lt by by apply Nat.mod_upper_bound. done. }
  exists p. split; [done|]. split_and!.
  - rewrite (next_loops_spec k 0 p Hp). f_equal. apply list_fmap_ext. intros. apply Hpick.
  - rewrite <- Hpick. unfold GetLoopForHash, pick. rewrite (po_started 0 p Hp).
    cbn [AssertInLoopThread assert mbind res_bind]. destruct (event_loops_ p) as [|x l] eqn:E'; [done|].
    destruct (lookup_lt_is_Some_2 (x :: l) (h mod length (x :: l))) as (y & Ey); [by apply Nat.mod_upper_bound|].
    by rewrite Ey.
  - unfold GetAllLoops. rewrite (po_started 0 p Hp). cbn [AssertInLoopThread assert mbind res_bind].
    rewrite El, Eb. destruct n; done.
Qed.

(** ** The invariant of the server *)

Definition task_id (t : srv_task) : option nat :=
  match t with TListen => None | TEstablish id | TRemove id | TDestroy id => Some id end.

(** The tasks queued for a connection. *)
Definition tasks_for (id : nat) (q : list (Z * srv_task)) : list (Z * srv_task) :=
  filter (λ p, task_id p.2 = Some id) q.

Definition in_map (s : TcpServer) (id : nat) : Prop := connections_ s !! conn_name s id = Some id.
Definition not_in_map (s : TcpServer) (id : nat) : Prop := connections_ s !! conn_name s id = None.

(** Each connection goes to its loop in turn; between its creation and its
    destruction at most one task is queued for it, and it is in the map until
    its removal has run in the server's loop. *)
Record conn_inv (s : TcpServer) (id : nat) (c : Conn) : Prop := {
  ci_name : c_name c = conn_name s id;
  ci_loop : c_loop c = pick (thread_pool_ s) id;
  ci_state : match c_state c with
    | Connecting => tasks_for id (srv_queue s) = [(c_loop c, TEstablish id)] ∧
                    c_loop c ≠ loop_ s ∧ in_map s id
    | Connected => tasks_for id (srv_queue s) = [] ∧ in_map s id
    | DisConnected => c_loop c ≠ loop_ s ∧
        ((tasks_for id (srv_queue s) = [(loop_ s, TRemove id)] ∧ in_map s id) ∨
         (tasks_for id (srv_queue s) = [(c_loop c, TDestroy id)] ∧ not_in_map s id))
    | Destroyed => tasks_for id (srv_queue s) = [] ∧ not_in_map s id
    end
}.

Record srv_inv (s : TcpServer) : Prop := {
  si_alive : alive s = true;
  si_pool : pool_ok (conn_sequence_ s) (thread_pool_ s);
  si_base : base_loop_ (thread_pool_ s) = loop_ s;
  si_dom id : is_Some (conns s !! id) ↔ id < conn_sequence_ s;
  si_conn id c : conns s !! id = Some c → conn_inv s id c;
  si_tasks p : p ∈ srv_queue s → ∃ id, task_id p.2 = Some id ∧ id < conn_sequence_ s;
  si_keys n id : connections_ s !! n = Some id → n = conn_name s id ∧ id < conn_sequence_ s
}.

Lemma B_inj (x y : string) : B x = B y → x = y.
Proof.
  unfold B. intros E. rewrite <- (String.string_of_list_ascii_of_string x), E.
  apply String.string_of_list_ascii_of_string.
Qed.

Lemma conn_name_inj s i j : conn_name s i = conn_name s j → i = j.
Proof.
  unfold conn_name. intros E. apply app_inv_head in E. apply app_inv_head in E.
  apply B_inj, (inj pretty) in E. by apply Nat2Z.inj.
Qed.

Lemma tasks_for_app id q q' : tasks_for id (q ++ q') = tasks_for id q ++ tasks_for id q'.
Proof. apply filter_app. Qed.

Lemma tasks_for_one id p : tasks_for id [p] = if decide (task_id p.2 = Some id) then [p] else [].
Proof. done. Qed.

(** Taking a task out of the queue. *)
Lemma tasks_for_delete id q i p :
  q !! i = Some p →
  (task_id p.2 ≠ Some id → tasks_for id (delete i q) = tasks_for id q) ∧
  (∀ x, task_id p.2 = Some id → tasks_for id q = [x] → p = x ∧ tasks_for id (delete i q) = []).
Proof.
  intros Hi. pose proof (take_drop_middle q i p Hi) as E. rewrite delete_take_drop. split.
  - intros Hn. rewrite <- E at 3. unfold tasks_for. rewrite !filter_app. f_equal.
    by rewrite filter_cons_False.
  - intros x Hp Hx. rewrite <- E in Hx. unfold tasks_for in *. rewrite filter_app in *.
    rewrite filter_cons_True in Hx by done.
    destruct (filter _ (take i q)) as [|y l] eqn:Et; cbn in Hx.
    + injection Hx as -> Hx. by rewrite Hx.
    + injection Hx as _ Hx. by destruct l.
Qed.

(** A step that concerns one connection. *)
Lemma srv_inv_update s s' id c :
  srv_inv s → name_ s' = name_ s → loop_ s' = loop_ s → alive s' = true →
  conn_sequence_ s' = conn_sequence_ s → thread_pool_ s' = thread_pool_ s →
  id < conn_sequence_ s → conns s' = <[id := c]> (conns s) →
  (∀ j, j ≠ id → tasks_for j (srv_queue s') = tasks_for j (srv_queue s)) →
  (∀ n, n ≠ conn_name s id → connections_ s' !! n = connections_ s !! n) →
  (connections_ s' !! conn_name s id = Some id ∨ connections_ s' !! conn_name s id = None) →
  (∀ p, p ∈ srv_queue s' → task_id p.2 = Some id ∨ p ∈ srv_queue s) →
  conn_inv s' id c → srv_inv s'.
Proof.
  intros [? Hp Hb Hd Hc Ht Hk] En El Ea Es Ep Hid Ec Hq Hm Hm2 Hq2 Hi.
  assert (∀ j, conn_name s' j = conn_name s j) as Ecn by (intros j; unfold conn_name; by rewrite En).
  split; rewrite ?Es, ?Ep, ?El; try done.
  - intros j. rewrite Ec, <- Hd. destruct (decide (j = id)) as [->|].
    + rewrite lookup_insert_eq. split; [|by eauto]. intros _. by apply Hd.
    + by rewrite lookup_insert_ne.
  - intros j cj. rewrite Ec. destruct (decide (j = id)) as [->|Hne].
    + rewrite lookup_insert_eq. by intros [= <-].
    + rewrite lookup_insert_ne by done. intros Hj. destruct (Hc j cj Hj) as [H1 H2 H3].
      assert (conn_name s j ≠ conn_name s id) as Hnn by (intros E; by apply conn_name_inj in E).
      split; [by rewrite Ecn|by rewrite Ep|]. unfold in_map, not_in_map in *.
      rewrite Ecn, El, Hq, Hm; done.
  - intros p Hin. destruct (Hq2 p Hin) as [?|?]; [by exists id|by apply Ht].
  - intros n i Hn. destruct (decide (n = conn_name s id)) as [->|Hne].
    + destruct Hm2 as [Hm2|Hm2]; rewrite Hm2 in Hn; [|done]. injection Hn as <-. by rewrite Ecn.
    + rewrite Hm in Hn by done. rewrite Ecn. by apply Hk.
Qed.

Lemma set_state_conns id c st s :
  conns s !! id = Some c → conns (set_state id st s) = <[id := mkServerConn (c_name c) (c_loop c) st]> (conns s).
Proof. apply (alter_alt_Some (λ c, mkServerConn (c_name c) (c_loop c) st)). Qed.

(** A task of the queue and the connection it is for. *)
Lemma queued_conn s i p id :
  srv_inv s → srv_queue s !! i = Some p → task_id p.2 = Some id →
  ∃ c, conns s !! id = Some c ∧ conn_inv s id c ∧ tasks_for id (srv_queue s) ≠ [].
Proof.
  intros Hi Hl Ht. assert (p ∈ srv_queue s) as Hin by (by eapply list_elem_of_lookup_2).
  assert (id < conn_sequence_ s) as Hid.
  { destruct (si_tasks s Hi p Hin) as (id' & E & ?). rewrite Ht in E. by injection E as <-. }
  destruct (proj2 (si_dom s Hi id) Hid) as (c & Ec).
  exists c. split_and!; [done|by apply Hi|]. intros E.
  assert (p ∈ tasks_for id (srv_queue s)) as Hp by (by apply list_elem_of_filter).
  rewrite E in Hp. by apply not_elem_of_nil in Hp.
Qed.

Lemma elem_of_delete_queue (i : nat) (q : list (Z * srv_task)) p : p ∈ delete i q → p ∈ q.
Proof. apply list_elem_of_delete_inv. Qed.

(** The state a queued task finds its connection in. *)
Lemma Establish_task s i cur id :
  srv_inv s → srv_queue s !! i = Some (cur, TEstablish id) →
  ∃ s', Establish cur id (set_queue (delete i (srv_queue s)) s) = Ok s' ∧ srv_inv s'.
Proof.
  intros Hi Hl. destruct (queued_conn s i _ id Hi Hl eq_refl) as (c & Ec & [Cn Cl Cs] & Hne).
  destruct (tasks_for_delete id _ i _ Hl) as [_ Hdel].
  assert (c_state c = Connecting ∧ cur = c_loop c ∧ tasks_for id (delete i (srv_queue s)) = [] ∧ in_map s id)
    as (Es & -> & Ht & Hm).
  { destruct (c_state c); [|by destruct Cs| |by destruct Cs].
    - destruct Cs as (Eq & _ & Hm). destruct (Hdel _ eq_refl Eq) as [E ?]. injection E as ->. done.
    - destruct Cs as (_ & [[Eq _]|[Eq _]]); destruct (Hdel _ eq_refl Eq) as [E _]; done. }
  unfold Establish, conn_at. cbn [conns set_queue]. rewrite Ec. cbn [deref mbind res_bind].
  rewrite bool_decide_true by done. cbn [AssertInLoopThread mbind res_bind]. rewrite bool_decide_true by done.
  cbn [assert mbind res_bind]. eexists. split; [reflexivity|].
  eapply (srv_inv_update s _ id (mkServerConn (c_name c) (c_loop c) Connected)); try done.
  - apply Hi.
  - apply (si_dom s Hi id). by exists c.
  - exact (set_state_conns id c Connected s Ec).
  - intros j Hj. apply (tasks_for_delete j _ i _ Hl). cbn. congruence.
  - by left.
  - intros p Hin. right. exact (elem_of_delete_queue i _ p Hin).
Qed.

Lemma Destroy_task s i cur id :
  srv_inv s → srv_queue s !! i = Some (cur, TDestroy id) →
  ∃ s', Destroy cur id (set_queue (delete i (srv_queue s)) s) = Ok s' ∧ srv_inv s'.
Proof.
  intros Hi Hl. destruct (queued_conn s i _ id Hi Hl eq_refl) as (c & Ec & [Cn Cl Cs] & Hne).
  destruct (tasks_for_delete id _ i _ Hl) as [_ Hdel].
  assert (c_state c = DisConnected ∧ cur = c_loop c ∧ tasks_for id (delete i (srv_queue s)) = [] ∧ not_in_map s id)
    as (Es & -> & Ht & Hm).
  { destruct (c_state c); [|by destruct Cs| |by destruct Cs].
    - destruct Cs as (Eq & _ & Hm). destruct (Hdel _ eq_refl Eq) as [E ?]. done.
    - destruct Cs as (_ & [[Eq _]|[Eq Hm]]); destruct (Hdel _ eq_refl Eq) as [E ?]; [done|].
      injection E as ->. done. }
  unfold Destroy, conn_at. cbn [conns set_queue]. rewrite Ec. cbn [deref mbind res_bind].
  rewrite (bool_decide_true (c_loop c = c_loop c)) by done. cbn [AssertInLoopThread mbind res_bind].
  rewrite bool_decide_false by congruence. cbn [negb assert mbind res_bind].
  eexists. split; [reflexivity|].
  eapply (srv_inv_update s _ id (mkServerConn (c_name c) (c_loop c) Destroyed)); try done.
  - apply Hi.
  - apply (si_dom s Hi id). by exists c.
  - exact (set_state_conns id c Destroyed s Ec).
  - intros j Hj. apply (tasks_for_delete j _ i _ Hl). cbn. congruence.
  - by right.
  - intros p Hin. right. exact (elem_of_delete_queue i _ p Hin).
Qed.

(** The removal of a connection of another loop. *)
Lemma Remove_task s i cur id :
  srv_inv s → srv_queue s !! i = Some (cur, TRemove id) →
  ∃ s', RemoveConnectionInLoop cur id (set_queue (delete i (srv_queue s)) s) = Ok s' ∧ srv_inv s'.
Proof.
  intros Hi Hl. destruct (queued_conn s i _ id Hi Hl eq_refl) as (c & Ec & [Cn Cl Cs] & Hne).
  destruct (tasks_for_delete id _ i _ Hl) as [_ Hdel].
  assert (c_state c = DisConnected ∧ cur = loop_ s ∧ c_loop c ≠ loop_ s ∧
    tasks_for id (delete i (srv_queue s)) = [] ∧ in_map s id) as (Es & -> & Hcl & Ht & Hm).
  { destruct (c_state c); [|by destruct Cs| |by destruct Cs].
    - destruct Cs as (Eq & _ & Hm). destruct (Hdel _ eq_refl Eq) as [E ?]. done.
    - destruct Cs as (Hcl & [[Eq Hm]|[Eq _]]); destruct (Hdel _ eq_refl Eq) as [E ?]; [|done].
      injection E as ->. done. }
  unfold RemoveConnectionInLoop, conn_at. cbn [alive set_queue loop_ conns connections_].
  rewrite (si_alive s Hi), Ec. cbn [deref mbind res_bind]. rewrite (bool_decide_true (loop_ s = loop_ s)) by done.
  cbn [AssertInLoopThread mbind res_bind]. rewrite Cn, bool_decide_true by (by rewrite Hm).
  cbn [assert mbind res_bind]. unfold RunDestroy. rewrite decide_False by done.
  eexists. split; [reflexivity|].
  eapply (srv_inv_update s _ id c); try done;
    cbn [srv_queue enqueue set_queue set_connections connections_ conns alive name_ loop_ conn_sequence_ thread_pool_].
  - apply Hi.
  - apply (si_dom s Hi id). by exists c.
  - by rewrite insert_id.
  - intros j Hj. rewrite tasks_for_app, tasks_for_one, decide_False by (cbn; congruence).
    rewrite app_nil_r. apply (tasks_for_delete j _ i _ Hl). cbn. congruence.
  - intros n Hn. by rewrite lookup_delete_ne.
  - right. apply lookup_delete_eq.
  - intros p [Hin|Hin]%elem_of_app; [right; exact (elem_of_delete_queue i _ p Hin)|].
    apply list_elem_of_singleton in Hin as ->. by left.
  - split; [done|done|]. rewrite Es. split; [done|]. right. split; [|apply lookup_delete_eq].
    cbn [srv_queue enqueue set_queue set_connections].
    by rewrite tasks_for_app, Ht, tasks_for_one, decide_True.
Qed.

(** A connection closes in its loop. *)
Lemma HandleClose_inv s id c :
  srv_inv s → conns s !! id = Some c → c_state c = Connected →
  ∃ s', HandleClose id s = Ok s' ∧ srv_inv s' ∧ conn_sequence_ s' = conn_sequence_ s.
Proof.
  intros Hi Ec Es. destruct (si_conn s Hi id c Ec) as [Cn Cl Cs]. rewrite Es in Cs.
  destruct Cs as [Ht Hm]. assert (id < conn_sequence_ s) as Hid by (apply (si_dom s Hi id); by exists c).
  unfold HandleClose, conn_at. rewrite Ec. cbn [deref mbind res_bind]. rewrite bool_decide_true by done.
  cbn [assert mbind res_bind]. unfold RemoveConnection.
  pose proof (set_state_conns id c DisConnected s Ec) as Ec1.
  set (s1 := set_state id DisConnected s) in *.
  change (alive s1) with (alive s). change (loop_ s1) with (loop_ s). rewrite (si_alive s Hi).
  cbn [mbind res_bind]. destruct (decide (c_loop c = loop_ s)) as [El|Hne].
  - unfold RemoveConnectionInLoop, conn_at. change (alive s1) with (alive s). change (loop_ s1) with (loop_ s).
    rewrite (si_alive s Hi), Ec1, lookup_insert_eq. cbn [deref mbind res_bind c_name c_loop].
    rewrite (bool_decide_true (c_loop c = loop_ s)) by done. cbn [AssertInLoopThread mbind res_bind].
    change (connections_ s1) with (connections_ s). rewrite Cn.
    rewrite bool_decide_true by (unfold in_map in Hm; by rewrite Hm).
    cbn [assert mbind res_bind]. unfold RunDestroy, Destroy, conn_at. rewrite decide_True by done.
    cbn [conns set_connections]. rewrite Ec1, lookup_insert_eq. cbn [deref mbind res_bind c_loop c_state].
    rewrite (bool_decide_true (c_loop c = c_loop c)) by done. cbn [AssertInLoopThread mbind res_bind].
    rewrite bool_decide_false by done. cbn [negb assert mbind res_bind].
    eexists. split; [reflexivity|]. split; [|done].
    eapply (srv_inv_update s _ id (mkServerConn (c_name c) (c_loop c) Destroyed)); try done.
    + apply Hi.
    + rewrite (set_state_conns id (mkServerConn (c_name c) (c_loop c) DisConnected));
        cbn [conns set_connections]; rewrite Ec1; [by rewrite insert_insert_eq|apply lookup_insert_eq].
    + intros n Hn. cbn. by rewrite lookup_delete_ne.
    + right. apply lookup_delete_eq.
    + intros p Hin. by right.
    + split; [done|done|]. split; [done|]. apply lookup_delete_eq.
  - eexists. split; [reflexivity|]. split; [|done].
    eapply (srv_inv_update s _ id (mkServerConn (c_name c) (c_loop c) DisConnected)); try done.
    + apply Hi.
    + intros j Hj. unfold enqueue. cbn [srv_queue set_queue].
      rewrite tasks_for_app, tasks_for_one, decide_False by (cbn; congruence). by rewrite app_nil_r.
    + by left.
    + intros p [Hin|Hin]%elem_of_app; [by right|].
      apply list_elem_of_singleton in Hin as ->. by left.
    + split; [done|done|]. split; [done|]. left. split; [|done]. unfold enqueue. cbn [srv_queue set_queue].
      change (srv_queue s1) with (srv_queue s). by rewrite tasks_for_app, Ht, tasks_for_one, decide_True.
Qed.

Lemma tasks_for_fresh s : srv_inv s → tasks_for (conn_sequence_ s) (srv_queue s) = [].
Proof.
  intros Hi. destruct (tasks_for _ _) as [|p l] eqn:E; [done|].
  assert (p ∈ tasks_for (conn_sequence_ s) (srv_queue s)) as Hin by (rewrite E; left).
  apply list_elem_of_filter in Hin as [Ht Hin]. destruct (si_tasks s Hi p Hin) as (id & E' & ?).
  rewrite Ht in E'. injection E' as <-. lia.
Qed.

(** The fields a new connection changes, then its establishment. *)
Lemma srv_inv_new s s' p' c :
  srv_inv s → name_ s' = name_ s → loop_ s' = loop_ s → alive s' = true →
  conn_sequence_ s' = S (conn_sequence_ s) → thread_pool_ s' = p' →
  pool_ok (S (conn_sequence_ s)) p' → event_loops_ p' = event_loops_ (thread_pool_ s) →
  base_loop_ p' = base_loop_ (thread_pool_ s) →
  conns s' = <[conn_sequence_ s := c]> (conns s) →
  (∀ j, j ≠ conn_sequence_ s → tasks_for j (srv_queue s') = tasks_for j (srv_queue s)) →
  connections_ s' = <[conn_name s (conn_sequence_ s) := conn_sequence_ s]> (connections_ s) →
  (∀ p, p ∈ srv_queue s' → task_id p.2 = Some (conn_sequence_ s) ∨ p ∈ srv_queue s) →
  conn_inv s' (conn_sequence_ s) c → srv_inv s'.
Proof.
  intros [? Hp Hb Hd Hc Ht Hk] En El Ea Es Epl Hp' Eev Eb Ec Hq Hm Hq2 Hi.
  assert (∀ j, conn_name s' j = conn_name s j) as Ecn by (intros j; unfold conn_name; by rewrite En).
  assert (∀ j, pick p' j = pick (thread_pool_ s) j) as Epk by (intros j; unfold pick; by rewrite Eev, Eb).
  split; rewrite ?Es, ?Epl, ?El; try done; [by rewrite Eb| | | |].
  - intros j. rewrite Ec. destruct (decide (j = conn_sequence_ s)) as [->|].
    + rewrite lookup_insert_eq. split; [lia|by eauto].
    + rewrite lookup_insert_ne, Hd by done. lia.
  - intros j cj. rewrite Ec. destruct (decide (j = conn_sequence_ s)) as [->|Hne].
    + rewrite lookup_insert_eq. by intros [= <-].
    + rewrite lookup_insert_ne by done. intros Hj. destruct (Hc j cj Hj) as [H1 H2 H3].
      assert (conn_name s (conn_sequence_ s) ≠ conn_name s j) as Hnn
        by (intros E; apply conn_name_inj in E; by apply Hne).
      split; [by rewrite Ecn|by rewrite Epl, Epk|]. unfold in_map, not_in_map in *.
      rewrite Ecn, El, Hq, Hm, lookup_insert_ne; done.
  - intros p Hin. destruct (Hq2 p Hin) as [?|Hin']; [exists (conn_sequence_ s); split; [done|lia]|].
    destruct (Ht p Hin') as (i & ? & ?). exists i. split; [done|lia].
  - intros n i Hn. rewrite Hm in Hn. rewrite Ecn.
    destruct (decide (n = conn_name s (conn_sequence_ s))) as [->|Hne].
    + rewrite lookup_insert_eq in Hn. injection Hn as <-. split; [done|lia].
    + rewrite lookup_insert_ne in Hn by done. destruct (Hk n i Hn). split; [done|lia].
Qed.

Lemma NewConnection_inv s :
  srv_inv s → ∃ s', NewConnection (loop_ s) s = Ok s' ∧ srv_inv s' ∧
    conn_sequence_ s' = S (conn_sequence_ s).
Proof.
  intros Hi. unfold NewConnection. rewrite (bool_decide_true (loop_ s = loop_ s)) by done.
  cbn [AssertInLoopThread mbind res_bind].
  rewrite (bool_decide_true (loop_ s = base_loop_ _)) by (by rewrite (si_base s Hi)).
  destruct (GetNextLoop_spec _ _ (si_pool s Hi)) as (p' & -> & Hp' & Ev & Eb). cbn [mbind res_bind].
  set (id := conn_sequence_ s). set (l := pick (thread_pool_ s) id).
  assert (pick p' id = l) as Epk by (unfold l, pick; by rewrite Ev, Eb).
  destruct (decide (loop_ s = l)) as [El|Hne].
  - unfold Establish, conn_at. cbn [conns set_connections set_conns set_sequence].
    rewrite lookup_insert_eq. cbn [deref mbind res_bind c_loop c_state].
    rewrite (bool_decide_true (_ = l)) by done. cbn [AssertInLoopThread mbind res_bind].
    rewrite bool_decide_true by done. cbn [assert mbind res_bind].
    eexists. split; [reflexivity|]. split; [|done].
    eapply (srv_inv_new s _ p' (mkServerConn (conn_name s id) l Connected)); try done.
    + exact (si_alive s Hi).
    + match goal with |- conns (set_state _ _ ?s1) = _ =>
        rewrite (set_state_conns id (mkServerConn (conn_name s id) l Connecting) Connected s1) by apply lookup_insert_eq
      end.
      apply insert_insert_eq.
    + intros p Hin. by right.
    + split; [done|done|]. split; [exact (tasks_for_fresh s Hi)|]. apply lookup_insert_eq.
  - eexists. split; [reflexivity|]. split; [|done].
    eapply (srv_inv_new s _ p' (mkServerConn (conn_name s id) l Connecting)); try done.
    + exact (si_alive s Hi).
    + intros j Hj. unfold enqueue. cbn [srv_queue set_queue].
      rewrite tasks_for_app, tasks_for_one, decide_False by (subst id; cbn; congruence). by rewrite app_nil_r.
    + intros p [Hin|Hin]%elem_of_app; [by right|].
      apply list_elem_of_singleton in Hin as ->. by left.
    + split; [done|done|]. split; [|split; [done|apply lookup_insert_eq]]. unfold enqueue. cbn [srv_queue set_queue].
      cbn [srv_queue set_connections set_conns set_sequence].
      by rewrite tasks_for_app, tasks_for_fresh, tasks_for_one, decide_True.
Qed.

Lemma RunTask_inv cur s :
  srv_inv s → ∃ s', RunTask cur s = Ok s' ∧ srv_inv s'.
Proof.
  intros Hi. unfold RunTask. destruct (list_find _ (srv_queue s)) as [[i [cur' t]]|] eqn:E; [|by exists s].
  apply list_find_Some in E as (Hl & Hc & _). cbn in Hc. subst cur'.
  destruct t as [|id|id|id]; cbn [run_srv_task].
  - destruct (si_tasks s Hi (cur, TListen)) as (id & E & _); [by eapply list_elem_of_lookup_2|done].
  - by apply Establish_task.
  - by apply Remove_task.
  - by apply Destroy_task.
Qed.

(** A connection can close when it is connected; everything else is always
    possible. *)
Definition event_legal (e : srv_event) (s : TcpServer) : Prop :=
  match e with EvClose id => c_state <$> conns s !! id = Some Connected | _ => True end.

Fixpoint events_legal (es : list srv_event) (s : TcpServer) : Prop :=
  match es with
  | [] => True
  | e :: es => event_legal e s ∧ ∀ s', run_event e s = Ok s' → events_legal es s'
  end.

Lemma server_run_event_inv e s :
  srv_inv s → event_legal e s → ∃ s', run_event e s = Ok s' ∧ srv_inv s'.
Proof.
  intros Hi Hl. destruct e as [|id|cur]; cbn [run_event event_legal] in *.
  - destruct (NewConnection_inv s Hi) as (s' & ? & ? & _). eauto.
  - destruct (conns s !! id) as [c|] eqn:Ec; [|done]. injection Hl as Hl.
    destruct (HandleClose_inv s id c Hi Ec Hl) as (s' & ? & ? & _). eauto.
  - by apply RunTask_inv.
Qed.

Lemma server_run_events_inv es : ∀ s,
  srv_inv s → events_legal es s → ∃ s', run_events es s = Ok s' ∧ srv_inv s'.
Proof.
  induction es as [|e es IH]; intros s Hi Hl; [by exists s|]. destruct Hl as [Hl Hls].
  destruct (server_run_event_inv e s Hi Hl) as (s1 & E & Hi1). destruct (IH s1 Hi1 (Hls s1 E)) as (s' & E' & Hi').
  exists s'. cbn [run_events]. rewrite E. done.
Qed.

(** A server with [n] threads, started in its loop. *)
Definition started (start_loop : nat → Z) (loop : Z) (name : bytes) (n : nat) : res TcpServer :=
  let s := TcpServer_new loop name in
  Start start_loop loop false (set_started false (SetThreadNum n (thread_pool_ s)) s).

Lemma started_inv start_loop loop name n :
  ∃ s, started start_loop loop name n = Ok s ∧ srv_inv s ∧ listening_ s = true ∧ conn_sequence_ s = 0 ∧
    event_loops_ (thread_pool_ s) = start_loop <$> seq 0 n ∧ loop_ s = loop ∧ name_ s = name.
Proof.
  unfold started, Start. cbn [started_ set_started thread_pool_ TcpServer_new].
  destruct (Pool_Start_spec start_loop false loop n) as (p & -> & Hp & El & Eb).
  cbn [mbind res_bind negb listening_ set_started assert TcpServer_new loop_]. rewrite decide_True by done.
  unfold Listen. cbn [loop_ set_started TcpServer_new]. rewrite bool_decide_true by done.
  cbn [AssertInLoopThread mbind res_bind]. eexists. split; [reflexivity|]. split_and!; try done.
  split; cbn; try done.
  - intros id. rewrite lookup_empty. split; [by intros []|lia].
  - intros p' H. by apply not_elem_of_nil in H.
Qed.

(** What never changes once the server is started. *)
Definition static (s : TcpServer) : bytes * Z * (list Z * Z) :=
  (name_ s, loop_ s, (event_loops_ (thread_pool_ s), base_loop_ (thread_pool_ s))).

Ltac step_static H :=
  repeat match type of H with
  | mbind _ ?m = Ok _ => let E := fresh "E" in destruct m eqn:E; cbn [mbind res_bind] in H; [|discriminate H]
  | context [decide ?P] => destruct (decide P)
  end; try (injection H as <-; reflexivity).

Lemma GetNextLoop_static b p l p' :
  GetNextLoop b p = Ok (l, p') → event_loops_ p' = event_loops_ p ∧ base_loop_ p' = base_loop_ p.
Proof.
  unfold GetNextLoop. destruct b, (pool_started_ p); try done. cbn [AssertInLoopThread assert mbind res_bind].
  destruct (event_loops_ p) eqn:E; [by intros [= _ <-]|].
  destruct (_ !! next_ p); cbn [deref mbind res_bind]; [|done]. case_decide; [done|]. by intros [= _ <-].
Qed.

Lemma Establish_static cur id s s' : Establish cur id s = Ok s' → static s' = static s.
Proof. unfold Establish. intros H. step_static H. Qed.

Lemma Destroy_static cur id s s' : Destroy cur id s = Ok s' → static s' = static s.
Proof. unfold Destroy. intros H. step_static H. Qed.

Lemma RunDestroy_static cur io id s s' : RunDestroy cur io id s = Ok s' → static s' = static s.
Proof. unfold RunDestroy. intros H. step_static H. by apply Destroy_static in H. Qed.

Lemma Remove_static cur id s s' : RemoveConnectionInLoop cur id s = Ok s' → static s' = static s.
Proof. unfold RemoveConnectionInLoop. intros H. step_static H. by apply RunDestroy_static in H. Qed.

Lemma run_event_static e s s' : run_event e s = Ok s' → static s' = static s.
Proof.
  destruct e as [|id|cur]; cbn [run_event]; intros H.
  - unfold NewConnection in H. step_static H. destruct a0 as [l p]. apply GetNextLoop_static in E0 as [E1 E2].
    assert (∀ n, static (set_sequence n p s) = static s) as Hp by (intros n; unfold static; cbn; by rewrite E1, E2).
    case_decide; [apply Establish_static in H; rewrite H; apply Hp|]. injection H as <-. apply Hp.
  - unfold HandleClose, RemoveConnection in H. step_static H. by apply Remove_static in H.
  - unfold RunTask in H. destruct (list_find _ _) as [[i [c t]]|]; [|by injection H as <-].
    destruct t; cbn [run_srv_task] in H; [|by apply Establish_static in H|by apply Remove_static in H
      |by apply Destroy_static in H]. unfold Listen in H. step_static H.
Qed.

Lemma run_events_static es : ∀ s s', run_events es s = Ok s' → static s' = static s.
Proof.
  induction es as [|e es IH]; intros s s' H; cbn [run_events] in H; [by injection H as <-|].
  destruct (run_event e s) eqn:E; [|done]. rewrite (IH _ _ H). by apply run_event_static in E.
Qed.

(** C11: once started, the server runs any sequence of accepted connections,
    connections that close in their loops and queued tasks, in any order
    the queues allow, without a failed assertion: no connection is
    established, removed or destroyed twice or out of its loop.  Connection
    number [k] is named after [k] and lives in loop [k mod n] of the pool.
    When no task is queued, every connection is either established and in the
    map, or destroyed and out of it. *)
Theorem server_runs start_loop loop name n es :
  ∃ s0, started start_loop loop name n = Ok s0 ∧
    (events_legal es s0 → ∃ s, run_events es s0 = Ok s ∧
      (∀ k c, conns s !! k = Some c →
         c_name c = name ++ B "#" ++ digits (Z.of_nat k) ∧
         c_loop c = (if decide (n = 0) then loop else start_loop (k mod n)) ∧
         (srv_queue s = [] → (connections_ s !! c_name c = Some k ↔ c_state c = Connected) ∧
            (c_state c = Connected ∨ c_state c = Destroyed)))).
Proof.
  destruct (started_inv start_loop loop name n) as (s0 & E & Hi & _ & _ & El & Eb & En). exists s0. split; [done|].
  intros Hl. destruct (server_run_events_inv es s0 Hi Hl) as (s & Er & Hs). exists s. split; [done|].
  pose proof (run_events_static es s0 s Er) as [= Hn _ Hev Hba].
  intros k c Ec. destruct (si_conn s Hs k c Ec) as [Cn Cl Cs]. split_and!.
  - by rewrite Cn, <- En, <- Hn.
  - rewrite Cl. unfold pick. rewrite Hev, Hba, El, (si_base s0 Hi), Eb, length_fmap, length_seq.
    case_decide as Hz; [by subst n|].
    by rewrite list_lookup_fmap, lookup_seq_lt by by apply Nat.mod_upper_bound.
  - intros Hq. rewrite Hq in Cs. unfold in_map, not_in_map in Cs. rewrite <- Cn in Cs.
    destruct (c_state c); destruct Cs as [HA HB]; [done|split; [done|by left]|by destruct HB as [[]|[]]|].
    rewrite HB. split; [done|by right].
Qed.

(** A server destroyed while the removal of one of its connections is queued:
    the removal uses the server. *)
Lemma destroyed_server_used :
  ∃ s0 s1 s2, started (λ i, Z.of_nat i + 10)%Z 1 (B "srv") 1 = Ok s0 ∧
    run_events [EvAccept; EvRunTask 10; EvClose 0] s0 = Ok s1 ∧ TcpServer_destroy 1 s1 = Ok s2 ∧
    RunTask 1 s2 = Fault UseAfterFree.
Proof. do 3 eexists. split_and!; vm_compute; reflexivity. Qed.

Definition demo_events : list srv_event :=
  [EvAccept; EvAccept; EvAccept; EvRunTask 11; EvRunTask 10; EvClose 1; EvRunTask 1; EvRunTask 10; EvRunTask 11].

Lemma server_runs_witness :
  ∃ s0 s, started (λ i, Z.of_nat i + 10)%Z 1 (B "srv") 2 = Ok s0 ∧ events_legal demo_events s0 ∧
    run_events demo_events s0 = Ok s ∧ srv_queue s = [] ∧
    (c_loop <$> conns s !! 2) = Some 10%Z ∧ (c_state <$> conns s !! 1) = Some Destroyed ∧
    connections_ s !! B "srv#0" = Some 0.
Proof.
  destruct (server_runs (λ i, Z.of_nat i + 10)%Z 1 (B "srv") 2 demo_events) as (s0 & E & Hr).
  assert (events_legal demo_events s0) as Hl.
  { unfold demo_events. vm_compute in E. injection E as <-.
    repeat match goal with
    | |- events_legal [] _ => exact I
    | |- events_legal (_ :: _) _ => split
    | |- event_legal _ _ => first [exact I | vm_compute; reflexivity]
    | |- ∀ _, _ => intros ? E; vm_compute in E; injection E as <-
    end. }
  destruct (Hr Hl) as (s & Es & _). exists s0, s. split; [exact E|]. split; [exact Hl|].
  split; [exact Es|]. vm_compute in E. injection E as <-. vm_compute in Es. injection Es as <-.
  repeat split; vm_compute; reflexivity.
Defined.
