(* ===== verification/ServerStack.v ===== *)
(** The server of [TcpServer] with the connections of [TcpConnection] instead
    of their states: [TcpServer::NewConnection], [RemoveConnection] and
    [RemoveConnectionInLoop] of [net/tcp_server.cc] together with what the
    functors they bind do to the connection objects of
    [net/tcp_connection.cc], whose close callback is the server's. *)

From S2P Require Import Prelude ChainBuffer ByteQueue Poller TcpServer TcpConnection.

(** ** How a connection closes

    The close callback of a connection of a server is
    [TcpServer::RemoveConnection]; it takes the connection out of the poll set
    at once, by [DestroyConnection], when the connection lives in the loop of
    the server, and queues its removal otherwise. *)
Section closing.
Context {Q : Type} `{ByteQueueLaws Q}.
Variable same_loop : bool.
Variable user : cb_event → TcpConnection Q → res (TcpConnection Q).
Implicit Types c : TcpConnection Q.

Definition server_invoke (ev : cb_event) c : res (TcpConnection Q) :=
  match ev with
  | EvClose => if same_loop then DestroyConnection c else Ok c
  | _ => user ev c
  end.

(** Either the connection stays open (or closed, and then nothing happens to
    it), or it closes: the close callback runs, once, and decides whether the
    channel is still in the poll set. *)
Definition closing c c' : Prop :=
  (closes (trace c') = closes (trace c) ∧ (open c → open c') ∧
   (¬ open c → state_ c' = state_ c ∧ channel_ c' = channel_ c)) ∨
  (open c ∧ closes (trace c) = 0 ∧ closes (trace c') = 1 ∧ state_ c' = kDisConnected ∧
   a_status (channel_ c') = if same_loop then Removed else Registered).

#[export] Instance closing_preorder : PreOrder closing.
Proof.
  split; [intros c; by left|]. intros c1 c2 c3 [(E1 & O1 & N1)|(O1 & Z1 & T1 & S1 & A1)] [(E2 & O2 & N2)|(O2 & Z2 & T2 & S2 & A2)].
  - left. split_and!; [congruence|auto|]. intros Hn. destruct (N1 Hn) as [Es Ec].
    destruct N2 as [Es2 Ec2]; [unfold open; by rewrite Es|]. split; congruence.
  - right. assert (open c1) as Ho.
    { destruct (open_dec c1) as [|Hn]; [done|]. destruct (N1 Hn) as [Es _]. destruct Hn. unfold open. by rewrite <- Es. }
    split_and!; [done|congruence|done..].
  - right. destruct N2 as [Es Ec]; [by apply closed_not_open|]. split_and!; [done|done|congruence|congruence|by rewrite Ec].
  - by apply closed_not_open in S1.
Qed.

(** A step that calls no callback. *)
Lemma closing_quiet c c' :
  trace c' = trace c → (open c → open c') → (¬ open c → state_ c' = state_ c ∧ channel_ c' = channel_ c) → closing c c'.
Proof. intros E Ho Hn. left. by rewrite E. Qed.

Definition closes_well c (r : res (TcpConnection Q)) : Prop := ∀ c', r = Ok c' → closing c c'.

Lemma closes_ok c : closes_well c (Ok c).
Proof. by intros c' [= <-]. Qed.

Lemma closes_bind c r (k : TcpConnection Q → res (TcpConnection Q)) :
  in_loop_thread c = true → sound c r → closes_well c r →
  (∀ c1, conn_wf c1 → in_loop_thread c1 = true → extends c c1 → closes_well c1 (k c1)) →
  closes_well c (r ≫= k).
Proof.
  intros Ht (c1 & -> & Hw & He & _) Hr Hk c' E. etransitivity; [by apply Hr|].
  apply (Hk c1); [done|by rewrite (ex_thread _ _ He)|done|done].
Qed.

Hypothesis user_ok : callbacks_ok user.
Hypothesis user_closing : ∀ ev c, ev ≠ EvClose → conn_wf c → in_loop_thread c = true → closes_well c (user ev c).

Lemma DestroyConnection_closed c :
  conn_wf c → in_loop_thread c = true → state_ c = kDisConnected → a_status (channel_ c) = Registered →
  DestroyConnection c = Ok (set_channel (mkAbs (a_fd (channel_ c)) (a_events (channel_ c)) Removed) c).
Proof.
  intros Hw Ht Hs Hr. unfold DestroyConnection, AssertInLoopThread. rewrite Ht. cbn [mbind res_bind].
  rewrite decide_False by (rewrite Hs; tauto). cbn [mbind res_bind]. unfold on_channel, chan_remove.
  pose proof (cw_state c Hw) as He. rewrite Hs in He. by rewrite bool_decide_true.
Qed.

Lemma set_channel_closed_wf c x :
  conn_wf c → state_ c = kDisConnected → a_events x = kNoneEvent → conn_wf (set_channel x c).
Proof.
  intros [] Hs Hx. split; try done; cbn; [by rewrite Hs|intros Ho; by apply closed_not_open in Hs].
Qed.

Lemma server_invoke_ok : callbacks_ok server_invoke.
Proof.
  intros ev c Hw Ht Hev. destruct (decide (ev = EvClose)) as [->|Hne]; cbn [server_invoke].
  2: { destruct (user_ok ev c Hw Ht Hev) as (c' & E & ?). exists c'. by destruct ev. }
  destruct same_loop; [|by exists c]. destruct (Hev eq_refl) as [Hs Hr].
  rewrite DestroyConnection_closed by done. eexists. split; [done|]. split_and!; try done.
  - apply set_channel_closed_wf; [done|done|]. pose proof (cw_state c Hw) as He. by rewrite Hs in He.
  - by apply extends_same.
Qed.

Lemma call_back_closes ev c :
  ev ≠ EvClose → conn_wf c → in_loop_thread c = true → closes_well c (call_back server_invoke ev c).
Proof.
  intros Hev Hw Ht c' E. unfold call_back in E.
  assert (server_invoke ev = user ev) as Eu by (by destruct ev). rewrite Eu in E.
  etransitivity; [|apply (user_closing ev (set_trace (trace c ++ [ev]) c) Hev); [by apply conn_wf_trace; [|left]|exact Ht|exact E]].
  left. cbn [trace set_trace]. rewrite closes_snoc, decide_False, Nat.add_0_r by done. done.
Qed.

Lemma HandleClose_closes c :
  conn_wf c → in_loop_thread c = true → open c → closes_well c (HandleClose server_invoke c).
Proof.
  intros Hw Ht Ho c' E. destruct (HandleClose_sound server_invoke server_invoke_ok c Hw Ht Ho) as (c1 & E1 & Hw1 & _ & Hs1 & Hc1).
  rewrite E in E1. injection E1 as <-. right. split_and!; try done; [by apply (cw_close c Hw)|].
  revert E. unfold HandleClose, AssertInLoopThread. rewrite bool_decide_true, Ht by done. cbn [assert mbind res_bind].
  unfold on_channel, chan_disable_all. cbn [channel_ SetState]. rewrite chan_update_registered by by apply open_registered.
  cbn [mbind res_bind]. set (c2 := set_channel _ _). unfold call_back. cbn [server_invoke].
  assert (conn_wf c2) as Hw2.
  { destruct Hw as [? ? ? ? [Hle _]]. split; try done; [by intros [?|?]|]. split; [exact Hle|]. by intros [?|?]. }
  destruct (user EvConnection (set_trace (trace c2 ++ [EvConnection]) c2)) as [c3|] eqn:Eu; cbn [mbind res_bind]; [|done].
  destruct (user_ok EvConnection (set_trace (trace c2 ++ [EvConnection]) c2)) as (c3' & Eu' & Hw3 & He3 & _ & Hch);
    [by apply conn_wf_trace; [|left]|done|done|]. rewrite Eu in Eu'. injection Eu' as <-. specialize (Hch eq_refl).
  pose proof (ex_closed _ _ He3 eq_refl) as Hs3. pose proof (ex_thread _ _ He3) as Ht3.
  set (c4 := set_trace _ c3).
  assert (a_status (channel_ c4) = Registered) as Hr4 by (cbn; by rewrite Hch).
  destruct same_loop; [|by intros [= <-]].
  rewrite DestroyConnection_closed; [by intros [= <-]| |cbn; by rewrite Ht3|done|done].
  assert (closes (trace c3) = 0) as Hz.
  { destruct (ex_trace _ _ He3) as (l & El & Hl). rewrite El, closes_silent by by apply Hl.
    cbn [trace set_trace]. rewrite closes_snoc, decide_False, Nat.add_0_r by done. by apply (cw_close c Hw). }
  apply conn_wf_trace; [done|]. right. split; [by apply closed_not_open|done].
Qed.

Variable sys_write : nat → bytes → writev_result.
Variable sys_readv : nat → readv_fn.
Variable sys_writev : nat → writev_fn.
Hypothesis write_whole : writes_whole sys_write.
Hypothesis readv_law : ∀ k, readv_ok (sys_readv k).
Hypothesis writev_law : ∀ k, writev_ok (sys_writev k).
Abbreviation invoke := server_invoke.

Lemma ForceCloseInLoop_closes c :
  conn_wf c → in_loop_thread c = true → closes_well c (ForceCloseInLoop invoke c).
Proof.
  intros Hw Ht. unfold ForceCloseInLoop, AssertInLoopThread. rewrite Ht. cbn [mbind res_bind].
  destruct (decide _); [by apply HandleClose_closes|apply closes_ok].
Qed.

Lemma ShutDownInLoop_closes c : closes_well c (ShutDownInLoop c).
Proof.
  intros c' E. unfold ShutDownInLoop, AssertInLoopThread in E. destruct (in_loop_thread c); [|done].
  cbn [mbind res_bind] in E. injection E as <-. destruct (negb _); by apply closing_quiet.
Qed.

Lemma on_channel_closes f c : open c → closes_well c (on_channel f c).
Proof. intros Ho c' E. unfold on_channel in E. destruct (f _); [|done]. injection E as <-. by apply closing_quiet. Qed.

Lemma enable_writting_closes c q : open c → closes_well c (enable_writting_if_not (set_output q c)).
Proof.
  intros Ho. unfold enable_writting_if_not. destruct (negb _); [|intros c' [= <-]; by apply closing_quiet].
  intros c' E. etransitivity; [|by eapply (on_channel_closes _ (set_output q c))]. by apply closing_quiet.
Qed.

Lemma high_water_closes n c :
  conn_wf c → in_loop_thread c = true → closes_well c (high_water invoke n c).
Proof. intros. unfold high_water. destruct (decide _); [by apply call_back_closes|apply closes_ok]. Qed.

(** Buffering what is sent: the high water callback, then the output. *)
Lemma buffer_closes n (f : TcpConnection Q → res Q) c :
  conn_wf c → in_loop_thread c = true → open c →
  closes_well c (c ← high_water invoke n c; q ← f c; enable_writting_if_not (set_output q c)).
Proof.
  intros Hw Ht Ho. destruct (high_water_sound invoke server_invoke_ok n c Hw Ht) as (c1 & E & Hw1 & He & Hh & Es & _).
  intros c' E'. etransitivity; [by eapply high_water_closes|]. rewrite E in E'. cbn [mbind res_bind] in E'.
  destruct (f c1) as [q|]; [|done]. cbn [mbind res_bind] in E'. eapply enable_writting_closes; [|exact E'].
  unfold open. by rewrite Es.
Qed.

Lemma SendInLoop_buffer_closes buf c :
  conn_wf c → in_loop_thread c = true → closes_well c (SendInLoop_buffer invoke buf c).
Proof.
  intros Hw Ht. unfold SendInLoop_buffer, AssertInLoopThread. rewrite Ht. cbn [mbind res_bind].
  destruct (decide _) as [Hd|Hd]; [apply closes_ok|].
  apply (buffer_closes (bq_readable buf) (λ c, bq_append_queue (ouput_buffer_ c) buf)); [done|done|]. by destruct (conn_wf_cases c Hw).
Qed.

(** A direct write that leaves something has called no callback. *)
Lemma write_directly_closes first len c :
  conn_wf c → in_loop_thread c = true →
  ∀ w r c', write_directly sys_write invoke first len c = Ok (w, r, c') →
  closing c c' ∧ (0 < r → c' = tick c ∨ ∃ d, c' = set_sent d (tick c)).
Proof.
  intros Hw Ht w r c' E. unfold write_directly in E. destruct (read_mem first len) as [src|]; [|done]. cbn [mbind res_bind] in E.
  destruct (sys_write _ _) as [e|n]; [injection E as <- <- <-; split; [by apply closing_quiet|by left]|].
  destruct (decide (0 < n)); [|injection E as <- <- <-; split; [by apply closing_quiet|by left]].
  destruct (decide _) as [[H1 _]|_].
  - destruct (call_back _ _ _) as [c1|] eqn:Ec; [|done]. cbn [mbind res_bind] in E. injection E as <- <- <-. split; [|lia].
    etransitivity; [|eapply call_back_closes; [| | |exact Ec]; [done|by apply (conn_wf_same c)|done]]. by apply closing_quiet.
  - cbn [mbind res_bind] in E. injection E as <- <- <-. split; [by apply closing_quiet|]. intros _. right. by eexists.
Qed.

Lemma SendInLoop_closes first len c :
  conn_wf c → in_loop_thread c = true → closes_well c (SendInLoop sys_write invoke first len c).
Proof.
  intros Hw Ht. unfold SendInLoop, AssertInLoopThread. rewrite Ht. cbn [mbind res_bind].
  destruct (decide _) as [Hd|Hd]; [apply closes_ok|]. assert (open c) as Ho by (by destruct (conn_wf_cases c Hw)).
  intros c' E. destruct (if negb _ && _ then _ else _) as [[[w r] c1]|] eqn:E1; [|done]. cbn [mbind res_bind] in E.
  assert (closing c c1 ∧ (0 < r → conn_wf c1 ∧ in_loop_thread c1 = true ∧ open c1)) as [Hc Hr].
  { destruct (negb _ && _); [|injection E1 as <- <- <-; by split].
    destruct (write_directly_closes first len c Hw Ht w r c1 E1) as [Hc Hr]. split; [done|]. intros Hpos.
    destruct (Hr Hpos) as [->|[d ->]]; (split; [by apply (conn_wf_same c)|done]). }
  etransitivity; [exact Hc|]. destruct (decide (0 < r)) as [Hpos|]; [|by injection E as <-].
  destruct (Hr Hpos) as (Hw1 & Ht1 & Ho1).
  exact (buffer_closes r (λ c, bq_append (ouput_buffer_ c) (drop w first) len) c1 Hw1 Ht1 Ho1 c' E).
Qed.

Lemma on_reading_closes f (v : bool) c :
  open c → closes_well c (x ← on_channel f c; Ok (set_is_reading v x)).
Proof.
  intros Ho c' E. destruct (on_channel f c) as [c1|] eqn:E1; [|done]. cbn [mbind res_bind] in E. injection E as <-.
  etransitivity; [by eapply on_channel_closes|]. by apply closing_quiet.
Qed.

Lemma StartReadInLoop_closes c : conn_wf c → closes_well c (StartReadInLoop c).
Proof.
  intros Hw. unfold StartReadInLoop, AssertInLoopThread. destruct (in_loop_thread c); [|done]. cbn [mbind res_bind].
  destruct (_ && _) eqn:E; [|apply closes_ok]. apply andb_true_iff in E as [_ [Hk Hd]%bool_decide_eq_true].
  apply on_reading_closes. by destruct (conn_wf_cases c Hw).
Qed.

Lemma StopReadInLoop_closes c : conn_wf c → closes_well c (StopReadInLoop c).
Proof.
  intros Hw. unfold StopReadInLoop, AssertInLoopThread. destruct (in_loop_thread c); [|done]. cbn [mbind res_bind].
  destruct (_ && _) eqn:E; [|apply closes_ok]. apply andb_true_iff in E as [_ Hd%bool_decide_eq_true].
  apply on_reading_closes. by destruct (conn_wf_cases c Hw).
Qed.

Lemma HandleRead_closes t c :
  conn_wf c → in_loop_thread c = true → open c → closes_well c (HandleRead sys_readv invoke t c).
Proof.
  intros Hw Ht Ho. unfold HandleRead, AssertInLoopThread. rewrite Ht. cbn [mbind res_bind].
  destruct (bq_readfd_law (sys_readv (calls c)) (input_buffer_ c) (cw_input c Hw) (readv_law _)) as (n & err & q & -> & Hq & _).
  cbn [mbind res_bind]. set (c1 := set_input q (tick c)).
  assert (conn_wf c1) as Hw1 by (destruct Hw; by split). assert (closing c c1) as Hc1 by (by apply closing_quiet).
  intros c' E. etransitivity; [exact Hc1|]. revert c' E. change (closes_well c1 (if decide (n < 0)%Z then Ok c1
    else if decide (n = 0%Z) then HandleClose invoke c1 else if message_callback_ c1 then call_back invoke (EvMessage t) c1 else Ok c1)).
  destruct (decide _); [apply closes_ok|]. destruct (decide _); [by apply HandleClose_closes|].
  destruct (message_callback_ c1); [by apply call_back_closes|apply closes_ok].
Qed.

Lemma HandleWrite_closes c :
  conn_wf c → in_loop_thread c = true → closes_well c (HandleWrite sys_writev invoke c).
Proof.
  intros Hw Ht. unfold HandleWrite, AssertInLoopThread. rewrite Ht. cbn [mbind res_bind].
  destruct (chan_writting (channel_ c)) eqn:Ew; [|apply closes_ok]. pose proof (writting_open c Hw Ew) as Ho.
  destruct (bq_writefd_law (sys_writev (calls c)) (ouput_buffer_ c) (cw_output c Hw) (writev_law _)) as (n & err & out & q & -> & Hq & Hout).
  cbn [mbind res_bind]. apply write_outcome_stream in Hout. set (c1 := set_sent _ _).
  assert (conn_wf c1) as Hw1 by (destruct Hw; by split). assert (closing c c1) as Hc1 by (by apply closing_quiet).
  destruct (decide (n < 0)%Z); [by intros c' [= <-]|].
  destruct (decide (bq_readable (ouput_buffer_ c1) = 0)) as [Hz|]; [|by intros c' [= <-]].
  rewrite bq_readable_law in Hz by done. apply nil_length_inv in Hz.
  unfold on_channel, chan_disable_writting. rewrite chan_update_registered by by apply open_registered. cbn [mbind res_bind].
  set (c2 := set_channel _ c1).
  assert (conn_wf c2) as Hw2 by (apply (conn_wf_events c1 (λ e, Z.land e (Z.lnot kWriteEvent))); [done|done|]; by intros []).
  assert (closing c c2) as Hc2 by (etransitivity; [exact Hc1|by apply closing_quiet]).
  intros c' E. etransitivity; [exact Hc2|].
  destruct (if write_complete_callback_ c2 then _ else _) as [c3|] eqn:E3; [|done]. cbn [mbind res_bind] in E.
  etransitivity; [|instantiate (1 := c3)].
  - destruct (write_complete_callback_ c2); [|by injection E3 as <-]. by apply (call_back_closes EvWriteComplete c2).
  - destruct (decide _); [by eapply ShutDownInLoop_closes|by injection E as <-].
Qed.

Lemma HandleEvent_closes r t c :
  conn_wf c → in_loop_thread c = true → open c → mask_ok r → closes_well c (HandleEvent sys_readv sys_writev invoke r t c).
Proof.
  intros Hw Ht Ho Hm. unfold HandleEvent, HandleEventWithGuard, callbacks. cbn [Poller.read_callback_
    Poller.write_callback_ Poller.error_callback_ Poller.close_callback_ call fmap option_fmap option_map].
  assert ((if has r (Z.lor POLLERR POLLNVAL) then HandleError c else Ok c) = Ok c) as -> by (by destruct (has _ _)).
  cbn [mbind res_bind]. destruct (has r POLLHUP && negb (has r POLLIN)) eqn:Eh.
  - destruct (Hm Eh) as [-> ->]. cbn [mbind res_bind]. intros c' E. apply (HandleClose_closes c Hw Ht Ho).
    by destruct (HandleClose _ c).
  - clear Eh Hm. apply closes_bind; [done| | |].
    { destruct (has r _); [apply HandleRead_sound; [done|apply server_invoke_ok|done..]|by apply sound_ok]. }
    { destruct (has r _); [by apply HandleRead_closes|apply closes_ok]. }
    intros c1 Hw1 Ht1 _ c' E. cbn [mbind res_bind] in E.
    assert ((if has r POLLOUT then HandleWrite sys_writev invoke c1 else Ok c1) = Ok c') as E'
      by (by destruct (if has r POLLOUT then _ else _)).
    destruct (has r POLLOUT); [by eapply HandleWrite_closes|by injection E' as <-].
Qed.

Lemma run_functor_closes f c :
  conn_wf c → in_loop_thread c = true → f ≠ FDestroyConnection → closes_well c (run_functor sys_write invoke f c).
Proof.
  intros Hw Ht Hf. destruct f; cbn [run_functor]; [by apply ForceCloseInLoop_closes|apply ShutDownInLoop_closes
    |by apply SendInLoop_closes|by apply StartReadInLoop_closes|by apply StopReadInLoop_closes| |done].
  unfold AssertInLoopThread. rewrite Ht. cbn [mbind res_bind]. intros c' [= <-]. by apply closing_quiet.
Qed.

(** In the loop an operation closes well, outside it at most queues. *)
Lemma in_thread_closes l (f : TcpConnection Q → res (TcpConnection Q)) c :
  in_loop_thread c = true → closes_well c (f c) → closes_well (set_thread false c) (f (set_thread false c)) →
  closes_well c (in_thread l f c).
Proof.
  intros Ht H1 H2 c' E. unfold in_thread in E. destruct l.
  - rewrite set_thread_id in E by done. destruct (f c) as [c1|] eqn:E1; [|done]. injection E as <-.
    etransitivity; [by apply H1|]. by apply closing_quiet.
  - destruct (f (set_thread false c)) as [c1|] eqn:E1; [|done]. injection E as <-.
    etransitivity; [|apply (closing_quiet c1); done]. etransitivity; [|by apply H2]. by apply closing_quiet.
Qed.

Lemma run_in_loop_closes l f c :
  conn_wf c → in_loop_thread c = true → f ≠ FDestroyConnection →
  closes_well c (in_thread l (RunInLoop sys_write invoke f) c).
Proof.
  intros Hw Ht Hf. apply in_thread_closes; [done| |].
  - unfold RunInLoop. rewrite Ht. by apply run_functor_closes.
  - unfold RunInLoop. cbn [in_loop_thread set_thread]. intros c' [= <-]. by apply closing_quiet.
Qed.

Lemma run_op_closes o c :
  conn_ok c → legal o c → o ≠ OpDestroy → closes_well c (run_op sys_write sys_readv sys_writev invoke o c).
Proof.
  intros [Hw _ Ht Hf] Hl Ho. destruct o as [l first len|l buf|l|l| |l|l| | |r t|]; cbn [run_op legal] in *; [..|done].
  - apply in_thread_closes; [done| |]; unfold Send.
    + destruct (decide _); [|apply closes_ok]. rewrite Ht. by apply SendInLoop_closes.
    + destruct (decide _); [|apply closes_ok]. cbn [in_loop_thread set_thread]. intros c' E.
      destruct (read_mem _ _); [|done]. injection E as <-. by apply closing_quiet.
  - apply in_thread_closes; [done| |]; unfold Send_buffer.
    + destruct (decide _); [|apply closes_ok]. rewrite Ht. by apply SendInLoop_buffer_closes.
    + destruct (decide _); [|apply closes_ok]. cbn [in_loop_thread set_thread]. intros c' E.
      destruct (bq_peek_all _); [|done]. injection E as <-. by apply closing_quiet.
  - apply in_thread_closes; [done| |]; unfold ShutDown, RunInLoop; cbn [in_loop_thread SetState set_thread state_];
      (destruct (decide _) as [E|]; [|apply closes_ok]).
    + rewrite Ht. cbn [run_functor]. intros c' E'. etransitivity; [|by eapply ShutDownInLoop_closes].
      apply closing_quiet; [done|by right|intros Hn; destruct Hn; by left].
    + intros c' [= <-]. apply closing_quiet; [done|by right|intros Hn; destruct Hn; by left].
  - apply in_thread_closes; [done| |]; unfold ForceClose, RunInLoop; cbn [in_loop_thread set_thread].
    + destruct (decide _); [|apply closes_ok]. rewrite Ht. by apply ForceCloseInLoop_closes.
    + destruct (decide _); [|apply closes_ok]. intros c' [= <-]. by apply closing_quiet.
  - unfold ForceCloseWithDelay. intros c' [= <-]. destruct (decide _); by apply closing_quiet.
  - by apply run_in_loop_closes.
  - by apply run_in_loop_closes.
  - unfold RunFunctor. destruct (functors_ c) as [|f fs] eqn:Ef; [apply closes_ok|]. intros c' E.
    etransitivity; [|eapply (run_functor_closes f (set_functors fs c)); [by apply (conn_wf_same c)|done| |exact E]].
    + by apply closing_quiet.
    + intros ->. apply Hf. left.
  - unfold RunDelayed. destruct (delayed_ c) as [|n]; [apply closes_ok|]. intros c' E.
    etransitivity; [|eapply (ForceCloseInLoop_closes (set_delayed n c)); [by apply (conn_wf_same c)|done|exact E]].
    by apply closing_quiet.
  - destruct Hl as [Hop Hm]. by apply HandleEvent_closes.
Qed.

(** A connection that is established is open, or has closed in its own
    connection callback. *)
Definition up_or_closed c : Prop :=
  (open c ∧ closes (trace c) = 0) ∨
  (state_ c = kDisConnected ∧ closes (trace c) = 1 ∧ a_status (channel_ c) = if same_loop then Removed else Registered).

Lemma closing_up c c' : conn_wf c → open c → closing c c' → up_or_closed c'.
Proof.
  intros Hw Ho [(E & Ho' & _)|(_ & _ & ? & ? & ?)]; [left|by right]. split; [auto|]. rewrite E. by apply (cw_close c Hw).
Qed.

Lemma EstablishConnection_up fd m w h : ∃ c,
  EstablishConnection invoke (TcpConnection_new fd m w h) = Ok c ∧ conn_ok c ∧ up_or_closed c.
Proof.
  destruct (EstablishConnection_ok invoke server_invoke_ok fd m w h) as (c & E & Hc). exists c. split_and!; [done|done|].
  unfold EstablishConnection, on_channel, chan_enable_reading, chan_update in E.
  cbn [AssertInLoopThread TcpConnection_new in_loop_thread mbind res_bind assert close_callback_
    connection_callback_ state_ SetState channel_ a_status] in E.
  rewrite bool_decide_true in E by done. cbn [assert mbind res_bind a_status a_fd a_events] in E.
  set (c1 := set_channel _ _) in E. destruct (bq_new_law (Q := Q)) as [Hn Hnc].
  assert (conn_wf c1) as Hw1.
  { split; [exact Hn|exact Hn|done|intros _ Hx; by destruct Hx|split; [unfold closes; cbn; lia|done]]. }
  apply (closing_up c1); [done|by left|]. by apply (call_back_closes EvConnection c1).
Qed.
End closing.

(** ** The server and its connections *)

Section stack.
Context {Q : Type} `{ByteQueueLaws Q}.
(** The kernel and the user of each connection, by its number. *)
Variable sys_write : nat → nat → bytes → writev_result.
Variable sys_readv : nat → nat → readv_fn.
Variable sys_writev : nat → nat → writev_fn.
Variable user : nat → cb_event → TcpConnection Q → res (TcpConnection Q).
(** Whether the user has set a message and a write complete callback. *)
Variable on_message on_complete : bool.

Record Stack := mkStack { srv : TcpServer; objects : gmap nat (TcpConnection Q) }.

(** Whether connection [id] lives in the loop of the server. *)
Definition same_loop (s : TcpServer) (id : nat) : bool :=
  match conns s !! id with Some c => bool_decide (c_loop c = loop_ s) | None => false end.

(** The callbacks of connection [id] of server [s]. *)
Definition callbacks_of (s : TcpServer) (id : nat) : cb_event → TcpConnection Q → res (TcpConnection Q) :=
  server_invoke (same_loop s id) (user id).

(** What the close callback, if [c] has become [c'] by calling it, does to the
    server. *)
Definition notify (id : nat) (c c' : TcpConnection Q) (s : TcpServer) : res TcpServer :=
  if decide (closes (trace c') = closes (trace c)) then Ok s else TcpServer.HandleClose id s.

Definition establish (id : nat) (st : Stack) : res Stack :=
  c ← deref NullDeref (objects st !! id);
  c' ← EstablishConnection (callbacks_of (srv st) id) c;
  s ← notify id c c' (srv st);
  Ok (mkStack s (<[id := c']> (objects st))).

Definition state_of (s : TcpServer) (id : nat) : option conn_state := c_state <$> conns s !! id.

(** [NewConnection] of a socket, in the loop of the server. *)
Definition accept (fd : Z) (st : Stack) : res Stack :=
  let id := conn_sequence_ (srv st) in
  s ← NewConnection (loop_ (srv st)) (srv st);
  let st := mkStack s (<[id := TcpConnection_new fd on_message on_complete false]> (objects st)) in
  if decide (state_of s id = Some Connected) then establish id st else Ok st.

(** Something happens to the object of connection [id]. *)
Definition on_object (id : nat) (o : conn_op (Q := Q)) (st : Stack) : res Stack :=
  c ← deref NullDeref (objects st !! id);
  c' ← run_op (sys_write id) (sys_readv id) (sys_writev id) (callbacks_of (srv st) id) o c;
  s ← notify id c c' (srv st);
  Ok (mkStack s (<[id := c']> (objects st))).

(** The server's part of a task has run; the task also establishes or
    destroys the object. *)
Definition mirror (t : srv_task) (st : Stack) : res Stack :=
  match t with
  | TListen => Ok st
  | TEstablish id => establish id st
  | TRemove id | TDestroy id =>
      if decide (state_of (srv st) id = Some Destroyed) then
        c ← deref NullDeref (objects st !! id);
        c ← DestroyConnection c;
        Ok (mkStack (srv st) (<[id := c]> (objects st)))
      else Ok st
  end.

(** Loop [cur] runs its first queued task. *)
Definition run_task (cur : Z) (st : Stack) : res Stack :=
  match list_find (λ p, p.1 = cur) (srv_queue (srv st)) with
  | None => Ok st
  | Some (_, (_, t)) => s ← RunTask cur (srv st); mirror t (mkStack s (objects st))
  end.

Inductive stack_event :=
  | SAccept (fd : Z)
  | SObject (id : nat) (o : conn_op (Q := Q))
  | STask (cur : Z).

Definition stack_step (e : stack_event) (st : Stack) : res Stack :=
  match e with
  | SAccept fd => accept fd st
  | SObject id o => on_object id o st
  | STask cur => run_task cur st
  end.

Fixpoint stack_run (es : list stack_event) (st : Stack) : res Stack :=
  match es with [] => Ok st | e :: es => st ← stack_step e st; stack_run es st end.

(** The user has the object once it is established; only the server destroys
    it. *)
Definition stack_legal (e : stack_event) (st : Stack) : Prop :=
  match e with
  | SObject id o => ∃ c v, objects st !! id = Some c ∧ state_of (srv st) id = Some v ∧ v ≠ Connecting ∧ legal o c ∧ o ≠ OpDestroy
  | _ => True
  end.

Fixpoint stack_legal_run (es : list stack_event) (st : Stack) : Prop :=
  match es with
  | [] => True
  | e :: es => stack_legal e st ∧ ∀ st', stack_step e st = Ok st' → stack_legal_run es st'
  end.

(** ** The simulation *)

(** What the server believes of a connection, and what it is. *)
Definition agrees (v : conn_state) (c : TcpConnection Q) : Prop :=
  match v with
  | Connecting => ∃ fd, c = TcpConnection_new fd on_message on_complete false
  | Connected => conn_ok c ∧ open c ∧ closes (trace c) = 0
  | DisConnected => conn_ok c ∧ state_ c = kDisConnected ∧ closes (trace c) = 1 ∧ a_status (channel_ c) = Registered
  | Destroyed => conn_ok c ∧ state_ c = kDisConnected ∧ closes (trace c) = 1 ∧ a_status (channel_ c) = Removed
  end.

Definition view (s : TcpServer) (o : gmap nat (TcpConnection Q)) : Prop :=
  ∀ id v, state_of s id = Some v → ∃ c, o !! id = Some c ∧ agrees v c.

Record stack_inv (st : Stack) : Prop := {
  st_server : srv_inv (srv st);
  st_view : view (srv st) (objects st)
}.

Hypothesis user_ok : ∀ id, callbacks_ok (user id).
Hypothesis user_closing : ∀ b id ev c, ev ≠ EvClose → conn_wf c → in_loop_thread c = true → closes_well b c (user id ev c).
Hypothesis write_whole : ∀ id, writes_whole (sys_write id).
Hypothesis readv_law : ∀ id k, readv_ok (sys_readv id k).
Hypothesis writev_law : ∀ id k, writev_ok (sys_writev id k).
Implicit Types (s : TcpServer) (st : Stack).

(** The state in which a queued task finds its connection. *)
Lemma task_state s i cur t id :
  srv_inv s → srv_queue s !! i = Some (cur, t) → task_id t = Some id →
  ∃ c, conns s !! id = Some c ∧ (t = TRemove id → c_loop c ≠ loop_ s) ∧
    c_state c = match t with TEstablish _ => Connecting | _ => DisConnected end.
Proof.
  intros Hi Hl Ht. destruct (queued_conn s i (cur, t) id Hi Hl Ht) as (c & Ec & [_ _ Cs] & Hne). exists c. split; [done|].
  assert ((cur, t) ∈ tasks_for id (srv_queue s)) as Hin by (apply list_elem_of_filter; split; [done|by eapply list_elem_of_lookup_2]).
  destruct (c_state c); [|by destruct Cs| |by destruct Cs].
  - destruct Cs as (E & _). rewrite E in Hin. apply list_elem_of_singleton in Hin as [= -> ->]. done.
  - destruct Cs as (Hcl & [[E _]|[E _]]); rewrite E in Hin; apply list_elem_of_singleton in Hin as [= -> ->]; done.
Qed.

(** What the operations of the server do to its view of the connections. *)
Definition updates id v s s' : Prop :=
  loop_ s' = loop_ s ∧ state_of s' id = Some v ∧ same_loop s' id = same_loop s id ∧
  ∀ j, j ≠ id → state_of s' j = state_of s j ∧ same_loop s' j = same_loop s j.

Lemma updates_insert id c v s s' :
  conns s !! id = Some c → loop_ s' = loop_ s → conns s' = <[id := mkServerConn (c_name c) (c_loop c) v]> (conns s) →
  updates id v s s'.
Proof.
  intros Ec El E. unfold updates, state_of, same_loop. rewrite E, El, lookup_insert_eq, Ec.
  split_and!; try done; intros j Hj; by rewrite lookup_insert_ne.
Qed.

Lemma HandleClose_updates id s s' :
  srv_inv s → state_of s id = Some Connected → TcpServer.HandleClose id s = Ok s' →
  updates id (if same_loop s id then Destroyed else DisConnected) s s'.
Proof.
  intros Hi Hs E. unfold state_of in Hs. destruct (conns s !! id) as [c|] eqn:Ec; [|done]. injection Hs as Hs.
  assert (∀ b, same_loop s id = b → bool_decide (c_loop c = loop_ s) = b) as Hb by (unfold same_loop; by rewrite Ec).
  destruct (si_conn s Hi id c Ec) as [Cn _ Cs]. rewrite Hs in Cs. destruct Cs as [_ Hm].
  unfold TcpServer.HandleClose, conn_at in E. rewrite Ec in E. cbn [deref mbind res_bind] in E.
  rewrite bool_decide_true in E by done. cbn [assert mbind res_bind] in E. unfold RemoveConnection in E.
  pose proof (set_state_conns id c TcpServer.DisConnected s Ec) as Ec1. set (s1 := set_state id TcpServer.DisConnected s) in *.
  change (alive s1) with (alive s) in E. change (loop_ s1) with (loop_ s) in E. rewrite (si_alive s Hi) in E. cbn [mbind res_bind] in E.
  destruct (decide (c_loop c = loop_ s)) as [El|Hne].
  - rewrite <- (Hb _ eq_refl), bool_decide_true by done.
    unfold RemoveConnectionInLoop, conn_at in E. change (alive s1) with (alive s) in E. change (loop_ s1) with (loop_ s) in E.
    rewrite (si_alive s Hi), Ec1, lookup_insert_eq in E. cbn [deref mbind res_bind c_name c_loop] in E.
    rewrite (bool_decide_true (c_loop c = loop_ s)) in E by done. cbn [TimerQueue.AssertInLoopThread mbind res_bind] in E.
    change (connections_ s1) with (connections_ s) in E. rewrite Cn in E.
    rewrite bool_decide_true in E by (unfold in_map in Hm; by rewrite Hm).
    cbn [assert mbind res_bind] in E. unfold RunDestroy, Destroy, conn_at in E. rewrite decide_True in E by done.
    cbn [conns set_connections] in E. rewrite Ec1, lookup_insert_eq in E. cbn [deref mbind res_bind c_loop c_state] in E.
    rewrite (bool_decide_true (c_loop c = c_loop c)) in E by done. cbn [TimerQueue.AssertInLoopThread mbind res_bind] in E.
    rewrite bool_decide_false in E by done. cbn [negb assert mbind res_bind] in E. injection E as <-.
    eapply updates_insert; [exact Ec|done|].
    rewrite (set_state_conns id (mkServerConn (c_name c) (c_loop c) TcpServer.DisConnected)); cbn [conns set_connections]; rewrite Ec1;
      [by rewrite insert_insert_eq|apply lookup_insert_eq].
  - rewrite <- (Hb _ eq_refl), bool_decide_false by done. injection E as <-. by eapply updates_insert.
Qed.

Lemma NewConnection_updates s s' :
  srv_inv s → NewConnection (loop_ s) s = Ok s' →
  loop_ s' = loop_ s ∧ (∀ j, j ≠ conn_sequence_ s → state_of s' j = state_of s j ∧ same_loop s' j = same_loop s j) ∧
  state_of s' (conn_sequence_ s) = Some (if same_loop s' (conn_sequence_ s) then Connected else Connecting).
Proof.
  intros Hi E. unfold NewConnection in E. rewrite (bool_decide_true (loop_ s = loop_ s)) in E by done.
  cbn [TimerQueue.AssertInLoopThread mbind res_bind] in E. rewrite (bool_decide_true (loop_ s = base_loop_ _)) in E by (by rewrite (si_base s Hi)).
  destruct (GetNextLoop_spec _ _ (si_pool s Hi)) as (p' & Ep & _). rewrite Ep in E. cbn [mbind res_bind] in E.
  set (id := conn_sequence_ s) in *. set (l := pick (thread_pool_ s) id) in *.
  destruct (decide (loop_ s = l)) as [El|Hne].
  - unfold Establish, conn_at in E. cbn [conns set_connections set_conns set_sequence] in E.
    rewrite lookup_insert_eq in E. cbn [deref mbind res_bind c_loop c_state] in E.
    rewrite (bool_decide_true (_ = l)) in E by done. cbn [TimerQueue.AssertInLoopThread mbind res_bind] in E.
    rewrite bool_decide_true in E by done. cbn [assert mbind res_bind] in E. injection E as <-.
    unfold state_of, same_loop. rewrite (set_state_conns id (mkServerConn (conn_name s id) l Connecting)) by apply lookup_insert_eq.
    cbn [conns set_connections set_conns set_sequence set_state loop_]. split; [done|]. rewrite insert_insert_eq. split.
    + intros j Hj. by rewrite lookup_insert_ne.
    + rewrite lookup_insert_eq. cbn. by rewrite bool_decide_true.
  - injection E as <-. unfold state_of, same_loop. cbn [conns set_connections set_conns set_sequence enqueue set_queue loop_]. split; [done|]. split.
    + intros j Hj. by rewrite lookup_insert_ne.
    + rewrite lookup_insert_eq. cbn. by rewrite bool_decide_false.
Qed.

Lemma RunTask_updates cur s s' i t id :
  srv_inv s → list_find (λ p, p.1 = cur) (srv_queue s) = Some (i, (cur, t)) → task_id t = Some id → RunTask cur s = Ok s' →
  updates id (match t with TEstablish _ => Connected | TDestroy _ => Destroyed | _ => DisConnected end) s s'.
Proof.
  intros Hi Hf Ht E. unfold RunTask in E. rewrite Hf in E. apply list_find_Some in Hf as (Hl & _ & _).
  destruct (task_state s i cur t id Hi Hl Ht) as (c & Ec & Hr & Hs).
  destruct t as [|id'|id'|id']; [done|..]; injection Ht as ->; cbn [run_srv_task] in E.
  - unfold Establish, conn_at in E. cbn [conns set_queue] in E. rewrite Ec in E. cbn [deref mbind res_bind] in E.
    destruct (TimerQueue.AssertInLoopThread _); cbn [mbind res_bind] in E; [|done]. rewrite bool_decide_true in E by done.
    cbn [assert mbind res_bind] in E. injection E as <-. eapply updates_insert; [exact Ec|done|]. exact (set_state_conns id c Connected s Ec).
  - unfold RemoveConnectionInLoop, conn_at in E. cbn [alive set_queue loop_ conns connections_] in E.
    rewrite (si_alive s Hi), Ec in E. cbn [deref mbind res_bind] in E. destruct (TimerQueue.AssertInLoopThread _) eqn:Ea; cbn [mbind res_bind] in E; [|done].
    destruct (assert _); cbn [mbind res_bind] in E; [|done]. unfold TimerQueue.AssertInLoopThread in Ea. case_bool_decide as Hcur; [|done].
    unfold RunDestroy in E. rewrite decide_False in E by (intros E'; apply Hr; congruence). injection E as <-.
    eapply (updates_insert id c); [exact Ec|done|]. cbn. rewrite <- Hs. symmetry. apply insert_id. by destruct c.
  - unfold Destroy, conn_at in E. cbn [conns set_queue] in E. rewrite Ec in E. cbn [deref mbind res_bind] in E.
    destruct (TimerQueue.AssertInLoopThread _); cbn [mbind res_bind] in E; [|done]. rewrite bool_decide_false in E by congruence.
    cbn [negb assert mbind res_bind] in E. injection E as <-. eapply updates_insert; [exact Ec|done|]. exact (set_state_conns id c Destroyed s Ec).
Qed.

(** *** Steps *)

(** What an object is once it has closed, by the loop it lives in. *)
Lemma up_agrees b c :
  conn_ok c → up_or_closed b c →
  if decide (closes (trace c) = 0) then agrees Connected c else agrees (if b then Destroyed else DisConnected) c ∧ closes (trace c) = 1.
Proof.
  intros Hc [[Ho E]|(Hs & E & Ha)]; [by rewrite decide_True by done|]. rewrite decide_False by lia. split; [|done].
  by destruct b.
Qed.

(** The object of a connection the server believes to be connected changes. *)
Lemma stack_notify_inv id c c' s :
  srv_inv s → state_of s id = Some Connected → closes (trace c) = 0 → conn_ok c' → up_or_closed (same_loop s id) c' →
  ∃ s' v, notify id c c' s = Ok s' ∧ srv_inv s' ∧ updates id v s s' ∧ agrees v c'.
Proof.
  intros Hi Hs Hc0 Hc Hup. pose proof (up_agrees _ _ Hc Hup) as Ha. unfold notify. rewrite Hc0.
  destruct (decide (closes (trace c') = 0)) as [E|E]; [exists s, Connected; split_and!; try done; by repeat split|].
  destruct Ha as [Ha _]. pose proof Hs as Hs'. unfold state_of in Hs'. destruct (conns s !! id) as [cn|] eqn:Ec; [|done]. injection Hs' as Hst.
  destruct (HandleClose_inv s id cn Hi Ec Hst) as (s' & E' & Hi' & _).
  exists s', (if same_loop s id then Destroyed else DisConnected). split_and!; [done|done|by apply HandleClose_updates|by destruct (same_loop s id)].
Qed.

(** One connection has changed, in the server and in the objects. *)
Definition moves id v s s' : Prop := state_of s' id = Some v ∧ ∀ j, j ≠ id → state_of s' j = state_of s j.

Lemma updates_moves id v s s' : updates id v s s' → moves id v s s'.
Proof. intros (_ & Hs & _ & Hj). split; [done|]. intros j Hn. by apply Hj. Qed.

Lemma moves_trans id v w s1 s2 s3 : moves id v s1 s2 → moves id w s2 s3 → moves id w s1 s3.
Proof. intros [_ J1] [V2 J2]. split; [done|]. intros j Hj. rewrite J2, J1; done. Qed.

Lemma view_update id v c s s' (o : gmap nat (TcpConnection Q)) :
  view s o → moves id v s s' → agrees v c → view s' (<[id := c]> o).
Proof.
  intros Hv (Hs & Hj) Ha j w Hw. destruct (decide (j = id)) as [->|Hne].
  - rewrite Hs in Hw. injection Hw as <-. exists c. by rewrite lookup_insert_eq.
  - rewrite Hj in Hw by done. rewrite lookup_insert_ne by done. by apply Hv.
Qed.

(** The server has established a connection in its books; its object
    follows. *)
Lemma establish_inv id s s0 (o o' : gmap nat (TcpConnection Q)) fd :
  srv_inv s → view s0 o → moves id Connected s0 s →
  o' !! id = Some (TcpConnection_new fd on_message on_complete false) → (∀ j, j ≠ id → o' !! j = o !! j) →
  ∃ st, establish id (mkStack s o') = Ok st ∧ stack_inv st.
Proof.
  intros Hi Hv Hu Ho Hj. unfold establish. cbn [objects srv]. rewrite Ho. cbn [deref mbind res_bind].
  destruct (EstablishConnection_up (same_loop s id) (user id) (user_ok id) (user_closing _ id) fd on_message on_complete false)
    as (c & E & Hc & Hup).
  unfold callbacks_of. rewrite E. cbn [mbind res_bind].
  destruct (stack_notify_inv id (TcpConnection_new fd on_message on_complete false) c s Hi) as (s' & v & -> & Hi' & Hu' & Ha);
    [apply Hu|done|done|done|].
  cbn [mbind res_bind]. eexists. split; [done|]. split; [done|]. cbn [srv objects].
  intros j w Hw. destruct (view_update id v c s0 s' o Hv (moves_trans _ _ _ _ _ _ Hu (updates_moves _ _ _ _ Hu')) Ha j w Hw) as (x & Hx & Hax).
  exists x. split; [|done]. destruct (decide (j = id)) as [->|]; [by rewrite lookup_insert_eq in *|].
  rewrite lookup_insert_ne in * by done. by rewrite Hj.
Qed.

Lemma accept_inv fd st : stack_inv st → ∃ st', accept fd st = Ok st' ∧ stack_inv st'.
Proof.
  intros [Hi Hv]. unfold accept. destruct (NewConnection_inv (srv st) Hi) as (s & E & Hs & _). rewrite E. cbn [mbind res_bind].
  destruct (NewConnection_updates _ _ Hi E) as (El & Hj & Hnew). set (id := conn_sequence_ (srv st)) in *.
  assert (∀ v, state_of s id = Some v → moves id v (srv st) s) as Hm by (intros v Hv'; split; [done|]; intros j Hne; by apply Hj).
  rewrite Hnew. destruct (same_loop s id).
  - rewrite decide_True by done. eapply (establish_inv id s (srv st) (objects st)); [done|done|by apply Hm|apply lookup_insert_eq|].
    intros j Hne. by rewrite lookup_insert_ne.
  - rewrite decide_False by done. eexists. split; [done|]. split; [done|]. cbn [srv objects].
    eapply view_update; [done|by apply Hm|by eexists].
Qed.

Lemma on_object_inv id o st :
  stack_inv st → stack_legal (SObject id o) st → ∃ st', on_object id o st = Ok st' ∧ stack_inv st'.
Proof.
  intros [Hi Hv] (c & v & Ec & Ev & Hk & Hl & Hd). destruct (Hv id v Ev) as (c0 & Ec0 & Ha). rewrite Ec in Ec0. injection Ec0 as <-.
  set (b := same_loop (srv st) id).
  assert (conn_ok c ∧ (open c ∧ closes (trace c) = 0 ∧ v = Connected ∨ ¬ open c)) as [Hc Hcase].
  { destruct v; [done|..]; destruct Ha as (Hc & Hs & Ha); (split; [done|]); [left; by split_and!|..]; right; by apply closed_not_open. }
  destruct (run_op_ok (sys_write id) (sys_readv id) (sys_writev id) (callbacks_of (srv st) id) (write_whole id) (readv_law id)
    (writev_law id) (server_invoke_ok b (user id) (user_ok id)) o c Hc Hl) as (c' & E & Hc' & _).
  pose proof (run_op_closes b (user id) (user_ok id) (user_closing b id) (sys_write id) (sys_readv id) (sys_writev id)
    (readv_law id) (writev_law id) o c Hc Hl Hd c' E) as Hcl.
  unfold on_object. rewrite Ec. cbn [deref mbind res_bind]. rewrite E. cbn [mbind res_bind].
  destruct Hcase as [(Ho & Hz & ->)|Hno].
  - destruct (stack_notify_inv id c c' (srv st) Hi Ev Hz Hc') as (s' & w & -> & Hi' & Hu & Ha'); [by apply (closing_up b c); [apply Hc|..]|].
    cbn [mbind res_bind]. eexists. split; [done|]. split; [done|]. eapply view_update; [done|by apply updates_moves|done].
  - destruct Hcl as [(Et & _ & Hsame)|(Ho & _)]; [|done]. destruct (Hsame Hno) as [Es Ech].
    unfold notify. rewrite decide_True by done. cbn [mbind res_bind]. eexists. split; [done|]. split; [done|].
    apply (view_update id v c' (srv st) (srv st)); [done|by split|].
    destruct v; [done|..]; cbn [agrees] in *; rewrite ?Et, ?Es, ?Ech; [|by split_and!; try apply Ha..].
    destruct Ha as (_ & Ho & _). done.
Qed.

Lemma stack_task_inv cur st : stack_inv st → ∃ st', run_task cur st = Ok st' ∧ stack_inv st'.
Proof.
  intros [Hi Hv]. unfold run_task. destruct (list_find _ (srv_queue (srv st))) as [[i [cur' t]]|] eqn:Ef; [|by exists st].
  assert (cur' = cur) as -> by (by apply list_find_Some in Ef as (_ & ? & _)).
  destruct (RunTask_inv cur (srv st) Hi) as (s & E & Hs). rewrite E. cbn [mbind res_bind].
  pose proof Ef as Ef'. apply list_find_Some in Ef' as (Hl & _ & _).
  assert (∃ id, task_id t = Some id) as [id Ht].
  { destruct (si_tasks _ Hi (cur, t)) as (id & ? & _); [by eapply list_elem_of_lookup_2|]. by exists id. }
  pose proof (updates_moves _ _ _ _ (RunTask_updates cur (srv st) s i t id Hi Ef Ht E)) as Hu.
  destruct (task_state (srv st) i cur t id Hi Hl Ht) as (cn & Ecn & _ & Est).
  destruct (Hv id (c_state cn)) as (c & Ec & Ha); [unfold state_of; by rewrite Ecn|]. rewrite Est in Ha.
  destruct t as [|id'|id'|id']; [done|..]; injection Ht as ->; cbn [mirror srv objects].
  - destruct Ha as (fd & ->). by eapply (establish_inv id s (srv st) (objects st)).
  - destruct Hu as [Hu1 Hu2]. rewrite decide_False by (rewrite Hu1; done). eexists. split; [done|]. split; [done|]. cbn [srv objects].
    rewrite <- (insert_id (objects st) id c) by done. apply (view_update id TcpServer.DisConnected c (srv st)); [done|by split|done].
  - destruct Hu as [Hu1 Hu2]. rewrite decide_True by done. rewrite Ec. cbn [deref mbind res_bind].
    destruct Ha as (Hc & Hsc & Hcl & Hr). destruct Hc as [Hw Hh Hth Hfn].
    rewrite DestroyConnection_closed by done. cbn [mbind res_bind]. eexists. split; [done|]. split; [done|]. cbn [srv objects].
    apply (view_update id Destroyed _ (srv st)); [done|by split|]. cbn [agrees]. split_and!; try done. split; [|done..].
    apply set_channel_closed_wf; [done|done|]. pose proof (cw_state c Hw) as He. by rewrite Hsc in He.
Qed.

Lemma stack_run_inv es : ∀ st,
  stack_inv st → stack_legal_run es st → ∃ st', stack_run es st = Ok st' ∧ stack_inv st'.
Proof.
  induction es as [|e es IH]; intros st Hi Hl; [by exists st|]. destruct Hl as [Hl Hls].
  assert (∃ st', stack_step e st = Ok st' ∧ stack_inv st') as (st1 & E & Hi1).
  { destruct e; cbn [stack_step]; [by apply accept_inv|by apply on_object_inv|by apply stack_task_inv]. }
  destruct (IH st1 Hi1 (Hls st1 E)) as (st' & E' & Hi'). exists st'. cbn [stack_run]. by rewrite E.
Qed.

(** A server just started has no connections. *)
Lemma stack_start start_loop loop name n :
  ∃ s0, started start_loop loop name n = Ok s0 ∧ stack_inv (mkStack s0 ∅).
Proof.
  destruct (started_inv start_loop loop name n) as (s0 & E & Hi & _ & Hseq & _). exists s0. split; [done|].
  split; [done|]. intros id v. unfold state_of. cbn [srv]. destruct (conns s0 !! id) eqn:Ec; [|done].
  assert (id < conn_sequence_ s0) by (apply (si_dom s0 Hi); by eexists). lia.
Qed.

(** What the server believes of a connection, once no task is queued. *)
Lemma stack_settled st id v :
  stack_inv st → state_of (srv st) id = Some v → ∃ c, objects st !! id = Some c ∧
    (v = Connecting ↔ state_ c = kConnecting) ∧ (v = Connected ↔ open c) ∧
    (v = Destroyed ↔ a_status (channel_ c) = Removed) ∧
    closes (trace c) = (if decide (state_ c = kDisConnected) then 1 else 0) ∧
    (srv_queue (srv st) = [] →
       (open c ∧ connections_ (srv st) !! conn_name (srv st) id = Some id) ∨
       (state_ c = kDisConnected ∧ a_status (channel_ c) = Removed ∧
        connections_ (srv st) !! conn_name (srv st) id = None)).
Proof.
  intros [Hs Hv] Ev. destruct (Hv id v Ev) as (c & Ec & Ha). exists c. split; [done|].
  unfold state_of in Ev. destruct (conns (srv st) !! id) as [cn|] eqn:Ecn; [|done]. injection Ev as Ev.
  destruct (si_conn (srv st) Hs id cn Ecn) as [_ _ Cs]. rewrite Ev in Cs.
  assert (srv_queue (srv st) = [] → tasks_for id (srv_queue (srv st)) = []) as Hq by (by intros ->).
  destruct v; cbn [agrees] in Ha.
  - destruct Ha as (fd & ->). cbn. split_and!; try done; [by split; [|intros [?|?]]|].
    intros Hq0%Hq. destruct Cs as (Eq & _). by rewrite Hq0 in Eq.
  - destruct Ha as (Hc & Ho & Hz). pose proof (open_registered c (co_wf c Hc) Ho) as Hr.
    assert (state_ c ≠ kDisConnected) as Hnd by (intros E'; by apply closed_not_open in E').
    rewrite decide_False, Hr by done. split_and!; try done; [by split; [|intros E'; destruct Ho; congruence]|].
    intros _. left. split; [done|apply Cs].
  - destruct Ha as (Hc & Es & Hz & Hr). rewrite Es, Hr, decide_True by done. split_and!; try done; [by split; [|intros ?%closed_not_open]|].
    intros Hq0%Hq. destruct Cs as (_ & [[Eq _]|[Eq _]]); by rewrite Hq0 in Eq.
  - destruct Ha as (Hc & Es & Hz & Hr). rewrite Es, Hr, decide_True by done. split_and!; try done; [by split; [|intros ?%closed_not_open]|].
    intros _. right. split_and!; [done|done|apply Cs].
Qed.
End stack.

(** ** Up to the first short direct write *)

Section upto.
Context {Q : Type} `{ByteQueueLaws Q}.
Variable sys_write : nat → nat → bytes → writev_result.
Variable sys_readv : nat → nat → readv_fn.
Variable sys_writev : nat → nat → writev_fn.
Variable user : nat → cb_event → TcpConnection Q → res (TcpConnection Q).
Variable on_message on_complete : bool.

(** The event is an operation of a connection whose direct write is short. *)
Definition stack_takes_part (e : stack_event (Q := Q)) (st : Stack) : bool :=
  match e with
  | SObject id o => match objects st !! id with Some c => op_takes_part (sys_write id) o c | None => false end
  | _ => false
  end.

Hypothesis write_law : ∀ id k, writev_ok (sys_write id k).

Lemma stack_step_made_whole e st :
  stack_legal e st → stack_takes_part e st = false →
  stack_step sys_write sys_readv sys_writev user on_message on_complete e st =
  stack_step (λ id, made_whole (sys_write id)) sys_readv sys_writev user on_message on_complete e st.
Proof.
  destruct e as [fd|id o|cur]; cbn [stack_step stack_legal stack_takes_part]; [done| |done].
  intros (c & v & Ec & _ & _ & Hl & _) Ht. unfold on_object. rewrite Ec in *. cbn [deref mbind res_bind].
  by rewrite (run_op_made_whole (sys_write id) _ _ _ (write_law id) o c Hl Ht).
Qed.

Hypothesis user_ok : ∀ id, callbacks_ok (user id).
Hypothesis user_closing : ∀ b id ev c, ev ≠ EvClose → conn_wf c → in_loop_thread c = true → closes_well b c (user id ev c).
Hypothesis readv_law : ∀ id k, readv_ok (sys_readv id k).
Hypothesis writev_law : ∀ id k, writev_ok (sys_writev id k).

End upto.

(** ** A run *)

(** The users of [TcpConnection]'s example close as their contract asks. *)
Lemma peer_echo_closes b ev (c : TcpConnection bytes) :
  ev ≠ EvClose → conn_wf c → in_loop_thread c = true → closes_well b c (peer_echo ev c).
Proof.
  intros Hev Hw Ht. destruct ev as [|t| | |k]; try apply closes_ok. unfold peer_echo. cbn [echo].
  rewrite bq_peek_all_law by apply Hw. cbn [mbind res_bind].
  destruct (bq_retrive_law (input_buffer_ c) (length (bq_content (input_buffer_ c)))) as (q & -> & Hq & _); [apply Hw|done|].
  cbn [mbind res_bind]. intros c' E.
  assert (conn_wf (set_input q c)) as Hw1 by (destruct Hw; by split).
  etransitivity; [by apply (closing_quiet b c (set_input q c))|].
  apply (SendInLoop_closes b silent silent_ok (λ ev c _ _ _, closes_ok b c) peer_write (bq_content (input_buffer_ c))
    (length (bq_content (input_buffer_ c))) (set_input q c)); [done|done|exact E].
Qed.

(** A server with one thread accepts a socket; its connection answers what it
    reads, another thread sends, the peer closes, and the removal goes through
    the loops. *)
Definition stack_example : list (stack_event (Q := bytes)) :=
  [SAccept 7; STask 10; SObject 0 (OpEvent POLLIN 5); SObject 0 (OpSend false (B "bye") 3); SObject 0 OpRunFunctor;
   SObject 0 (OpEvent POLLOUT 6); SObject 0 (OpEvent POLLIN 7); STask 1; STask 10].

Abbreviation stack_example_run :=
  (stack_run (λ _, peer_write) (λ _, peer_readv) (λ _, peer_writev) (λ _, peer_echo) true true).


(** ** The default callbacks *)

(** [DefaultConnectionCallback] only logs; [DefaultMessageCallback] throws
    away what was received. *)
Definition DefaultConnectionCallback (c : TcpConnection ChainBuffer) : res (TcpConnection ChainBuffer) := Ok c.
Definition DefaultMessageCallback (c : TcpConnection ChainBuffer) : res (TcpConnection ChainBuffer) :=
  Ok (set_input (RetriveAll (input_buffer_ c)) c).
Definition default_user (ev : cb_event) (c : TcpConnection ChainBuffer) : res (TcpConnection ChainBuffer) :=
  match ev with
  | EvConnection => DefaultConnectionCallback c
  | EvMessage _ => DefaultMessageCallback c
  | _ => Ok c
  end.

(** They keep the contract of the callbacks, so that the theorem above speaks
    of a server whose user has set none. *)
Lemma default_user_ok : callbacks_ok default_user.
Proof.
  intros ev c Hw _ _. destruct ev as [|t| | |n]; try (exists c; by split_and!). eexists. split; [done|].
  destruct (RetriveAll_spec (input_buffer_ c)) as [Hr _]; [apply Hw|].
  split_and!; [destruct Hw; by split|by apply extends_same|done|done].
Qed.

Lemma default_user_closes b ev c : closes_well b c (default_user ev c).
Proof. destruct ev; intros c' [= <-]; [done|by apply closing_quiet|done..]. Qed.
