(* ===== verification/Endian.v ===== *)
(** Network byte order: [muzi/net/endian_transform.h], on a little-endian
    host.  Values are integers, the memory of a value a list of bytes. *)

From S2P Require Import Prelude.
Local Open Scope Z_scope.

(** ** Integers in memory *)

Definition byte_of (x : Z) : ascii := ascii_of_N (Z.to_N (x mod 256)).
Definition val_of (b : ascii) : Z := Z.of_N (N_of_ascii b).

(** [n] bytes of a two's complement integer, the lowest first. *)
Fixpoint le_bytes (n : nat) (x : Z) : bytes :=
  match n with O => [] | S n => byte_of x :: le_bytes n (x / 256) end.

Fixpoint le_val (bs : bytes) : Z :=
  match bs with [] => 0 | b :: bs => val_of b + 256 * le_val bs end.

(** The integer with the same bytes in the opposite order. *)
Definition bswap (n : nat) (x : Z) : Z := le_val (rev (le_bytes n x)).

(** ** Integer types and the library functions *)

Inductive int_type := uint8_t | uint16_t | uint32_t | uint64_t | int8_t | int16_t | int32_t | int64_t.
#[export] Instance int_type_eq_dec : EqDecision int_type.
Proof. solve_decision. Defined.

Definition int_size (t : int_type) : nat :=
  match t with
  | uint8_t | int8_t => 1
  | uint16_t | int16_t => 2
  | uint32_t | int32_t => 4
  | uint64_t | int64_t => 8
  end.

Definition is_signed (t : int_type) : bool :=
  match t with int8_t | int16_t | int32_t | int64_t => true | _ => false end.

Definition int_bits (t : int_type) : Z := 8 * Z.of_nat (int_size t).

(** Conversion to a type, and the values of the type. *)
Definition cast (t : int_type) (x : Z) : Z :=
  if is_signed t then swrap (int_bits t) x else wrap (int_bits t) x.

Definition in_type (t : int_type) (x : Z) : Prop := cast t x = x.

Definition to_mem (t : int_type) (x : Z) : bytes := le_bytes (int_size t) x.
Definition from_mem (t : int_type) (bs : bytes) : Z := cast t (le_val bs).

(** [htonl] and [ntohl] take and answer a [uint32_t]. *)
Definition htonl (x : Z) : Z := bswap 4 (cast uint32_t x).
Definition ntohl (x : Z) : Z := bswap 4 (cast uint32_t x).
Definition htobe (n : nat) (x : Z) : Z := bswap n x.
Definition betoh (n : nat) (x : Z) : Z := bswap n x.

(** ** The templates: a specialisation for each unsigned type, and one
    generic body for every other type *)

Definition HostToNet (t : int_type) (host : Z) : Z :=
  match t with
  | uint8_t => host
  | uint16_t => htobe 2 host
  | uint32_t => htobe 4 host
  | uint64_t => htobe 8 host
  | _ => cast t (htonl host)
  end.

Definition NetToHost (t : int_type) (net : Z) : Z :=
  match t with
  | uint8_t => net
  | uint16_t => betoh 2 net
  | uint32_t => betoh 4 net
  | uint64_t => betoh 8 net
  | _ => cast t (ntohl net)
  end.

(** ** Bytes and values *)

Lemma val_of_range b : 0 <= val_of b < 256.
Proof. unfold val_of. pose proof (N_ascii_bounded b). lia. Qed.

Lemma val_byte_of x : val_of (byte_of x) = x mod 256.
Proof.
  unfold val_of, byte_of. pose proof (Z.mod_pos_bound x 256 eq_refl).
  rewrite N_ascii_embedding by lia. lia.
Qed.

Lemma byte_of_val b x : byte_of (val_of b + 256 * x) = b.
Proof.
  unfold byte_of. pose proof (val_of_range b).
  replace ((val_of b + 256 * x) mod 256) with (val_of b) by (apply (Z.mod_unique_pos _ _ x); lia).
  unfold val_of. rewrite N2Z.id. apply ascii_N_embedding.
Qed.

Lemma length_le_bytes n x : length (le_bytes n x) = n.
Proof. revert x; induction n as [|n IH]; intros x; [done|]. cbn. by rewrite IH. Qed.

Lemma length_to_mem t x : length (to_mem t x) = int_size t.
Proof. apply length_le_bytes. Qed.

Lemma le_val_range bs : 0 <= le_val bs < 256 ^ Z.of_nat (length bs).
Proof.
  induction bs as [|b bs IH]; [cbn; lia|]. cbn [le_val length].
  rewrite Nat2Z.inj_succ, Z.pow_succ_r by lia. pose proof (val_of_range b). lia.
Qed.

Lemma le_val_bytes n x : le_val (le_bytes n x) = x mod 256 ^ Z.of_nat n.
Proof.
  revert x; induction n as [|n IH]; intros x; [cbn; by rewrite Z.mod_1_r|].
  cbn [le_val le_bytes]. rewrite IH, val_byte_of, Nat2Z.inj_succ, Z.pow_succ_r by lia.
  by rewrite Z.rem_mul_r by lia.
Qed.

Lemma le_bytes_val n bs : length bs = n → le_bytes n (le_val bs) = bs.
Proof.
  revert bs; induction n as [|n IH]; intros [|b bs] Hl; try done. cbn [le_bytes le_val].
  rewrite byte_of_val. f_equal. pose proof (val_of_range b).
  replace ((val_of b + 256 * le_val bs) / 256) with (le_val bs)
    by (apply (Z.div_unique_pos _ 256 _ (val_of b)); lia).
  apply IH. by injection Hl.
Qed.

Lemma le_bytes_mod n x : le_bytes n (x mod 256 ^ Z.of_nat n) = le_bytes n x.
Proof. rewrite <- le_val_bytes. apply le_bytes_val, length_le_bytes. Qed.

Lemma le_bytes_eqm n x y : x mod 256 ^ Z.of_nat n = y mod 256 ^ Z.of_nat n → le_bytes n x = le_bytes n y.
Proof. intros E. by rewrite <- (le_bytes_mod n x), E, le_bytes_mod. Qed.

Lemma le_bytes_bswap n x : le_bytes n (bswap n x) = rev (le_bytes n x).
Proof. apply le_bytes_val. by rewrite length_rev, length_le_bytes. Qed.

Lemma bswap_bswap n x : bswap n (bswap n x) = x mod 256 ^ Z.of_nat n.
Proof. unfold bswap at 1. by rewrite le_bytes_bswap, rev_involutive, le_val_bytes. Qed.

(** Conversion keeps the bytes. *)
Lemma swrap_eqm w x : 0 < w → swrap w x mod 2 ^ w = x mod 2 ^ w.
Proof.
  intros. unfold swrap. rewrite Zminus_mod_idemp_l.
  f_equal. lia.
Qed.

Lemma int_bits_pow t : 2 ^ int_bits t = 256 ^ Z.of_nat (int_size t).
Proof. by destruct t. Qed.

Lemma cast_eqm t x : cast t x mod 256 ^ Z.of_nat (int_size t) = x mod 256 ^ Z.of_nat (int_size t).
Proof.
  rewrite <- int_bits_pow. unfold cast. destruct (is_signed t); [by apply swrap_eqm; destruct t|].
  unfold wrap. apply Zmod_mod.
Qed.

Lemma le_bytes_cast t x : le_bytes (int_size t) (cast t x) = le_bytes (int_size t) x.
Proof. apply le_bytes_eqm, cast_eqm. Qed.

Lemma bswap_cast t x : bswap (int_size t) (cast t x) = bswap (int_size t) x.
Proof. unfold bswap. by rewrite le_bytes_cast. Qed.

Lemma cast_mod t x : cast t (x mod 256 ^ Z.of_nat (int_size t)) = cast t x.
Proof.
  rewrite <- int_bits_pow. unfold cast, swrap, wrap. destruct (is_signed t); [|apply Zmod_mod].
  by rewrite Zplus_mod_idemp_l.
Qed.

(** ** The conversions *)

Definition swapped (t : int_type) : bool :=
  match t with uint16_t | uint32_t | uint64_t | int32_t => true | _ => false end.

Lemma in_type_unsigned t x : is_signed t = false → 0 <= x < 2 ^ int_bits t → cast t x = x.
Proof. intros E ?. unfold cast, wrap. rewrite E. by apply Z.mod_small. Qed.

Lemma bswap_range n x : 0 <= bswap n x < 256 ^ Z.of_nat n.
Proof.
  unfold bswap. pose proof (le_val_range (rev (le_bytes n x))) as H.
  by rewrite length_rev, length_le_bytes in H.
Qed.

Lemma swap_eq t x : swapped t = true → in_type t x →
  HostToNet t x = cast t (bswap (int_size t) x) ∧ NetToHost t x = cast t (bswap (int_size t) x).
Proof.
  assert (∀ n, is_signed t = false → int_size t = n → bswap n x = cast t (bswap (int_size t) x)) as Hu.
  { intros n Ht <-. rewrite in_type_unsigned; [done|done|]. rewrite int_bits_pow. apply bswap_range. }
  destruct t; try done; intros _ Hx; unfold HostToNet, NetToHost, htobe, betoh, htonl, ntohl; auto.
  pose proof (bswap_cast uint32_t x) as E. cbn [int_size] in *. by rewrite E.
Qed.

Lemma net_order t x :
  is_signed t = false ∨ t = int32_t → in_type t x →
  to_mem t (HostToNet t x) = rev (to_mem t x) ∧
  NetToHost t (from_mem t (rev (to_mem t x))) = x.
Proof.
  intros Ht Hx. unfold to_mem, from_mem. destruct (decide (t = uint8_t)) as [->|H8].
  { split; [done|]. cbn [int_size le_bytes rev app le_val NetToHost]. rewrite val_byte_of.
    rewrite Z.mul_0_r, Z.add_0_r. rewrite <- Hx at 2. exact (cast_mod uint8_t x). }
  assert (swapped t = true) as Hs by (destruct t, Ht; done).
  destruct (swap_eq t x Hs Hx) as [-> _]. rewrite le_bytes_cast, le_bytes_bswap. split; [done|].
  fold (bswap (int_size t) x). set (y := cast t (bswap (int_size t) x)).
  assert (in_type t y) as Hy.
  { unfold in_type, y. rewrite <- (cast_mod t (cast _ _)), cast_eqm, cast_mod. done. }
  destruct (swap_eq t y Hs Hy) as [_ ->]. unfold y. by rewrite bswap_cast, bswap_bswap, cast_mod.
Qed.

(** For the unsigned types and [int32_t], [HostToNet] puts the bytes in
    network order, the highest first, and [NetToHost] undoes it. *)
Theorem network_byte_order t x :
  is_signed t = false ∨ t = int32_t → in_type t x →
  to_mem t (HostToNet t x) = rev (to_mem t x) ∧
  NetToHost t (from_mem t (rev (to_mem t x))) = x.
Proof. apply net_order. Qed.

Lemma network_byte_order_witness :
  to_mem uint16_t (HostToNet uint16_t 8080) = rev (to_mem uint16_t 8080) ∧
  NetToHost uint16_t (from_mem uint16_t (rev (to_mem uint16_t 8080))) = 8080.
Proof. apply (network_byte_order uint16_t 8080); [by left|reflexivity]. Defined.

(** The generic template converts through 32 bits: the other signed types
    lose their value. *)
Lemma generic_host_to_net_loses :
  NetToHost int16_t (HostToNet int16_t 5) = 0 ∧ NetToHost int8_t (HostToNet int8_t 5) = 0 ∧
  NetToHost int64_t (HostToNet int64_t (-1)) = 4294967295 ∧
  to_mem int64_t (HostToNet int64_t 1) ≠ rev (to_mem int64_t 1).
Proof. split_and!; vm_compute; done. Qed.
