(* ===== verification/OldBuffer.v ===== *)
(** The earlier buffer of connections, [muzi/net/old_buffer.h] and
    [old_buffer.cc]: a vector of blocks of 2048 bytes, random access iterators
    that walk over the blocks, and a read and a write position.  An iterator
    is the index of its block and its offset in the block; the blocks are
    distinct objects, so comparing [cur_] is comparing both. *)

From S2P Require Import Prelude Endian ByteQueue.
From S2P Require ChainBuffer.

Definition kCheapPrepend : nat := 8.
Definition kInitialBufferNum : nat := 1.
Definition kBufferSize : nat := Z.to_nat 2048.
Definition kExtraBufferSize : nat := Z.to_nat 65536.
Abbreviation K := kBufferSize.
Abbreviation KZ := (Z.of_nat kBufferSize).

(** ** Iterators *)

Record iterator := mkIt { buffer_it_ : nat; cur_ : nat }.

(** [iterator(buffer_it)] and the conversion from the end of the list. *)
Definition iter_of (bl : list bytes) (i : nat) : res iterator :=
  _ ← deref EndDeref (bl !! i); Ok (mkIt i 0).
Definition end_iter (bl : list bytes) : iterator := mkIt (length bl) 0.

(** [*it]. *)
Definition it_deref (bl : list bytes) (it : iterator) : res ascii :=
  blk ← deref EndDeref (bl !! buffer_it_ it); deref OutOfBounds (blk !! cur_ it).

Definition MoveBuffer (bl : list bytes) (i : nat) (offset : Z) : res nat :=
  let j := (Z.of_nat i + offset)%Z in
  if decide (0 ≤ j < Z.of_nat (length bl))%Z then Ok (Z.to_nat j) else Fault EndDeref.

Definition it_sub (lhs rhs : iterator) : Z :=
  (KZ * (Z.of_nat (buffer_it_ lhs) - Z.of_nat (buffer_it_ rhs) - 1)
   + Z.of_nat (cur_ lhs) + (KZ - Z.of_nat (cur_ rhs)))%Z.

Definition it_incr (bl : list bytes) (it : iterator) : res iterator :=
  if decide (S (cur_ it) = K) then i ← MoveBuffer bl (buffer_it_ it) 1; Ok (mkIt i 0)
  else Ok (mkIt (buffer_it_ it) (S (cur_ it))).

Definition it_decr (bl : list bytes) (it : iterator) : res iterator :=
  if decide (cur_ it = 0) then i ← MoveBuffer bl (buffer_it_ it) (-1); Ok (mkIt i (K - 1))
  else Ok it.

(** [operator+=] *)
Definition it_add (bl : list bytes) (it : iterator) (n : Z) : res iterator :=
  let offset := (n + Z.of_nat (cur_ it))%Z in
  if decide (0 ≤ offset < KZ)%Z then Ok (mkIt (buffer_it_ it) (Z.to_nat offset))
  else
    let buffer_offset :=
      (if decide (0 < offset) then Z.quot offset KZ else - Z.quot (- offset - 1) KZ - 1)%Z in
    i ← MoveBuffer bl (buffer_it_ it) buffer_offset;
    Ok (mkIt i (Z.to_nat (offset - buffer_offset * KZ))).

Definition it_eqb (a b : iterator) : bool :=
  bool_decide (buffer_it_ a = buffer_it_ b) && bool_decide (cur_ a = cur_ b).
Definition it_ltb (a b : iterator) : bool :=
  if decide (buffer_it_ a = buffer_it_ b) then bool_decide (cur_ a < cur_ b)
  else bool_decide (buffer_it_ a < buffer_it_ b).
Definition it_leb (a b : iterator) : bool :=
  if decide (buffer_it_ a = buffer_it_ b) then bool_decide (cur_ a ≤ cur_ b)
  else bool_decide (buffer_it_ a < buffer_it_ b).

(** The library's loops over a range: reading [n] bytes from [it], and
    [std::copy] to [it]. *)
Fixpoint read_range (bl : list bytes) (it : iterator) (n : nat) : res bytes :=
  match n with
  | O => Ok []
  | S n => c ← it_deref bl it; it ← it_incr bl it; cs ← read_range bl it n; Ok (c :: cs)
  end.

Fixpoint write_range (bl : list bytes) (it : iterator) (d : bytes) : res (list bytes) :=
  match d with
  | [] => Ok bl
  | c :: d =>
      bl ← ChainBuffer.memcpy_block (buffer_it_ it) (cur_ it) [c] bl;
      it ← it_incr bl it; write_range bl it d
  end.

(** [std::search] and [std::find] in a sequence: the first place where [pat]
    occurs. *)
Fixpoint search (pat s : bytes) : option nat :=
  if decide (take (length pat) s = pat) then Some 0
  else match s with [] => None | _ :: s => S <$> search pat s end.

(** ** The buffer *)

Record Buffer := mkBuffer {
  buffer_list_ : list bytes;
  read_index_ : iterator;
  write_index_ : iterator
}.

(** [*p += n] for an iterator to the start of block [i]. *)
Definition iter_at (bl : list bytes) (i : nat) (n : Z) : res iterator :=
  it ← iter_of bl i; it_add bl it n.

Definition ReadableBytes (b : Buffer) : nat := Z.to_nat (it_sub (write_index_ b) (read_index_ b)).
Definition WritableBytes (b : Buffer) : nat :=
  Z.to_nat (Z.max (it_sub (end_iter (buffer_list_ b)) (write_index_ b) - 1) 0).
Definition GetPrependableBytes (b : Buffer) : res nat :=
  it ← iter_of (buffer_list_ b) 0; Ok (Z.to_nat (it_sub (read_index_ b) it)).

Definition ResetIndex (b : Buffer) : res Buffer :=
  it ← iter_at (buffer_list_ b) 0 (Z.of_nat kCheapPrepend); Ok (mkBuffer (buffer_list_ b) it it).

Definition Retrive (b : Buffer) (len : nat) : res Buffer :=
  _ ← assert (bool_decide (len ≤ ReadableBytes b));
  if decide (len < ReadableBytes b) then
    it ← it_add (buffer_list_ b) (read_index_ b) (Z.of_nat len);
    Ok (mkBuffer (buffer_list_ b) it (write_index_ b))
  else ResetIndex b.

Definition RetriveAll (b : Buffer) : res Buffer := ResetIndex b.
Definition RetriveCRLF (b : Buffer) : res Buffer := Retrive b 2.
Definition RetriveEOL (b : Buffer) : res Buffer := Retrive b 1.
Definition RetriveInt (t : int_type) (b : Buffer) : res Buffer := Retrive b (int_size t).

Definition RetriveUtil (b : Buffer) (util : iterator) : res Buffer :=
  _ ← assert (it_leb util (write_index_ b));
  _ ← assert (it_leb (read_index_ b) util);
  Retrive b (Z.to_nat (it_sub util (read_index_ b))).

Definition RetriveAsStringUtil (b : Buffer) (util : iterator) : res (bytes * Buffer) :=
  _ ← assert (it_leb util (write_index_ b));
  _ ← assert (it_leb (read_index_ b) util);
  output ← read_range (buffer_list_ b) (read_index_ b) (Z.to_nat (it_sub util (read_index_ b)));
  b ← RetriveUtil b util; Ok (output, b).

Definition RetriveAllAsString (b : Buffer) : res (bytes * Buffer) :=
  RetriveAsStringUtil b (write_index_ b).

Definition RetriveAsString (b : Buffer) (len : nat) : res (bytes * Buffer) :=
  it ← it_add (buffer_list_ b) (read_index_ b) (Z.of_nat len); RetriveAsStringUtil b it.

Definition PeekAllAsString (b : Buffer) : res bytes :=
  read_range (buffer_list_ b) (read_index_ b) (ReadableBytes b).

(** The searches answer [cend()] when nothing is found. *)
Definition FindFrom (b : Buffer) (start : iterator) (pat : bytes) : res iterator :=
  s ← read_range (buffer_list_ b) start (Z.to_nat (it_sub (write_index_ b) start));
  match search pat s with
  | Some i => it_add (buffer_list_ b) start (Z.of_nat i)
  | None => Ok (write_index_ b)
  end.

Definition kCRLF : bytes := ["013"%char; "010"%char].
Definition FindCRLF (b : Buffer) : res iterator := FindFrom b (read_index_ b) kCRLF.
Definition FindCRLF_from (b : Buffer) (start : iterator) : res iterator :=
  _ ← assert (it_leb start (write_index_ b)); FindFrom b start kCRLF.
Definition FindEOL (b : Buffer) : res iterator := FindFrom b (read_index_ b) ["010"%char].
Definition FindEOL_from (b : Buffer) (start : iterator) : res iterator :=
  _ ← assert (it_leb start (write_index_ b)); FindFrom b start ["010"%char].
Definition Find (b : Buffer) (str : bytes) : res iterator := FindFrom b (read_index_ b) str.

(** [swap]: the two buffers afterwards. *)
Definition swap (b rhs : Buffer) : Buffer * Buffer :=
  (mkBuffer (buffer_list_ rhs) (read_index_ rhs) (write_index_ rhs), mkBuffer (buffer_list_ b) (read_index_ b) (write_index_ b)).

Definition UnWrite (b : Buffer) (len : nat) : res Buffer :=
  _ ← assert (bool_decide (len ≤ ReadableBytes b));
  it ← it_add (buffer_list_ b) (write_index_ b) (- Z.of_nat len);
  Ok (mkBuffer (buffer_list_ b) (read_index_ b) it).

Definition Prepend (b : Buffer) (first : bytes) (len : nat) : res Buffer :=
  n ← GetPrependableBytes b;
  _ ← assert (bool_decide (len ≤ n));
  it ← it_add (buffer_list_ b) (read_index_ b) (- Z.of_nat len);
  src ← read_mem first len;
  bl ← write_range (buffer_list_ b) it src;
  Ok (mkBuffer bl it (write_index_ b)).

Definition PeekInt (t : int_type) (b : Buffer) : res Z :=
  _ ← assert (bool_decide (int_size t ≤ ReadableBytes b));
  _ ← it_add (buffer_list_ b) (read_index_ b) (Z.of_nat (int_size t));
  buf ← read_range (buffer_list_ b) (read_index_ b) (int_size t);
  Ok (NetToHost t (from_mem t buf)).

Definition ReadInt (t : int_type) (b : Buffer) : res (Z * Buffer) :=
  x ← PeekInt t b; b ← Retrive b (int_size t); Ok (x, b).

Definition PrependInt (t : int_type) (b : Buffer) (val : Z) : res Buffer :=
  Prepend b (to_mem t (HostToNet t val)) (int_size t).

(** ** Growing.  [junk]: the bytes of a block that was just allocated. *)

(** The blocks at [left] and [idle_it] swapped, and so on, [n] times. *)
Definition swap_blocks (i j : nat) (bl : list bytes) : res (list bytes) :=
  x ← deref EndDeref (bl !! i); y ← deref EndDeref (bl !! j); Ok (<[i := y]> (<[j := x]> bl)).

Fixpoint swap_loop (n left idle_it : nat) (bl : list bytes) : res (list bytes) :=
  match n with
  | O => Ok bl
  | S n => bl ← swap_blocks left idle_it bl; swap_loop n (S left) (S idle_it) bl
  end.

Section growing.
Variable junk : bytes.

Definition Buffer_new (initial_buffer_num : nat) : res Buffer :=
  let bl := replicate initial_buffer_num junk in
  it ← iter_at bl 0 (Z.of_nat kCheapPrepend); Ok (mkBuffer bl it it).

Definition ExtendSpace (b : Buffer) (len : nat) : res Buffer :=
  let bl := buffer_list_ b in
  let left := buffer_it_ (read_index_ b) in
  let right := buffer_it_ (write_index_ b) in
  let read_offset := cur_ (read_index_ b) in
  let offset := right - left in
  let write_offset := cur_ (write_index_ b) in
  let buffers_to_add := (len - 1) / K + 1 in
  let buffers_to_use := length bl - left + buffers_to_add in
  '(bl, read_index) ←
    (if decide (2 * buffers_to_use < length bl) then
       let idle_it := if decide (kCheapPrepend ≤ read_offset) then 0 else 1 in
       bl ← swap_loop (right + 1 - left) left idle_it bl; Ok (bl, idle_it)
     else Ok (bl ++ replicate (length bl) junk, left));
  r ← iter_at bl read_index (Z.of_nat read_offset);
  w ← iter_at bl (read_index + offset) (Z.of_nat write_offset);
  Ok (mkBuffer bl r w).

Fixpoint EnsureWritable_loop (fuel : nat) (b : Buffer) (len : nat) : res Buffer :=
  match fuel with
  | O => Fault OutOfFuel
  | S fuel =>
      if decide (WritableBytes b < len) then
        b ← ExtendSpace b (len - WritableBytes b); EnsureWritable_loop fuel b len
      else Ok b
  end.

Definition EnsureWritableBytes (b : Buffer) (len : nat) : res Buffer :=
  EnsureWritable_loop (S len) b len.

(** [std::copy(first, last, end()); write_index_ += len]. *)
Definition copy_in (b : Buffer) (src : bytes) (len : nat) : res Buffer :=
  bl ← write_range (buffer_list_ b) (write_index_ b) src;
  w ← it_add bl (write_index_ b) (Z.of_nat len);
  Ok (mkBuffer bl (read_index_ b) w).

Definition Append (b : Buffer) (first : bytes) (len : nat) : res Buffer :=
  b ← EnsureWritableBytes b len; src ← read_mem first len; copy_in b src len.

(** [Append(const Buffer &)], of another buffer. *)
Definition AppendBuffer (b buffer : Buffer) : res Buffer :=
  let len := ReadableBytes buffer in
  b ← EnsureWritableBytes b len;
  src ← read_range (buffer_list_ buffer) (read_index_ buffer) len;
  copy_in b src len.

Definition AppendInt (t : int_type) (b : Buffer) (val : Z) : res Buffer :=
  Append b (to_mem t (HostToNet t val)) (int_size t).

(** ** Scatter and gather system calls *)

(** The vectors from block [it] on, whole blocks, [n] of them. *)
Definition whole_blocks (it n : nat) : list ChainBuffer.iovec :=
  (λ i, ChainBuffer.mkIov i 0 K) <$> seq it n.

(** [--vec[index - 1].iov_len]. *)
Definition keep_rail (vec : list ChainBuffer.iovec) : list ChainBuffer.iovec :=
  alter (λ v, ChainBuffer.mkIov (ChainBuffer.iov_block v) (ChainBuffer.iov_off v) (ChainBuffer.iov_len v - 1))
    (length vec - 1) vec.

(** The bytes the kernel takes from the vectors. *)
Fixpoint gather (vec : list ChainBuffer.iovec) (bl : list bytes) : res bytes :=
  match vec with
  | [] => Ok []
  | v :: vec =>
      blk ← deref EndDeref (bl !! ChainBuffer.iov_block v);
      x ← read_mem (drop (ChainBuffer.iov_off v) blk) (ChainBuffer.iov_len v);
      rest ← gather vec bl; Ok (x ++ rest)
  end.

Definition ReadFd (readv : ChainBuffer.readv_fn) (b : Buffer) : res (Z * option Z * Buffer) :=
  let w := write_index_ b in
  let len := length (buffer_list_ b) - buffer_it_ w in
  let vec := keep_rail (ChainBuffer.mkIov (buffer_it_ w) (cur_ w) (K - cur_ w)
                        :: whole_blocks (S (buffer_it_ w)) (len - 1)) in
  let writable := K - cur_ w + (len - 1) * K - 1 in
  _ ← assert (bool_decide (writable = WritableBytes b));
  match readv (map ChainBuffer.iov_len vec ++ [kExtraBufferSize]) with
  | ChainBuffer.ReadvErr e => Ok ((-1)%Z, Some e, b)
  | ChainBuffer.ReadvData d =>
      let n := length d in
      bl ← ChainBuffer.scatter vec d (buffer_list_ b);
      let extra_buf := drop writable d in
      b ← (if decide (n ≤ writable) then
             w ← it_add bl w (Z.of_nat n); Ok (mkBuffer bl (read_index_ b) w)
           else
             w ← it_add bl w (Z.of_nat writable);
             Append (mkBuffer bl (read_index_ b) w) extra_buf (n - writable));
      Ok (Z.of_nat n, None, b)
  end.

Definition WriteFd (writev : ChainBuffer.writev_fn) (b : Buffer) : res (Z * option Z * bytes * Buffer) :=
  let r := read_index_ b in
  let w := write_index_ b in
  let bl := buffer_list_ b in
  let vec :=
    if decide (buffer_it_ r = buffer_it_ w) then
      [ChainBuffer.mkIov (buffer_it_ r) (cur_ r) (Z.to_nat (it_sub w r))]
    else
      ChainBuffer.mkIov (buffer_it_ r) (cur_ r) (K - cur_ r)
      :: whole_blocks (S (buffer_it_ r)) (buffer_it_ w - buffer_it_ r - 1)
      ++ [ChainBuffer.mkIov (buffer_it_ w) 0 (cur_ w)] in
  data ← gather vec bl;
  match writev data with
  | ChainBuffer.WritevErr e => Ok ((-1)%Z, Some e, [], b)
  | ChainBuffer.WritevN n =>
      it ← it_add bl r (Z.of_nat n);
      Ok (Z.of_nat n, None, take n data, mkBuffer bl it w)
  end.
End growing.

(** ** Positions *)

Definition pos (it : iterator) : nat := buffer_it_ it * K + cur_ it.
Definition of_pos (p : nat) : iterator := mkIt (p / K) (p mod K).

Lemma K_eq : KZ = 2048%Z.
Proof. reflexivity. Qed.
Lemma K_pos : kCheapPrepend < K.
Proof. unfold kCheapPrepend. pose proof K_eq. lia. Qed.

#[local] Opaque kBufferSize kExtraBufferSize.

Ltac k_lia := pose proof K_pos; pose proof K_eq; unfold kCheapPrepend in *; nia.

Lemma pos_of_pos p : pos (of_pos p) = p.
Proof. unfold pos, of_pos. cbn. pose proof (Nat.div_mod p K). pose proof K_pos. lia. Qed.

Lemma of_pos_pos it : cur_ it < K → of_pos (pos it) = it.
Proof.
  intros. destruct it as [i c]. unfold pos, of_pos. cbn in *. f_equal.
  - symmetry. apply (Nat.div_unique _ _ _ c); lia.
  - symmetry. apply (Nat.mod_unique _ _ i); lia.
Qed.

Lemma of_pos_cur p : cur_ (of_pos p) < K.
Proof. apply Nat.mod_upper_bound. pose proof K_pos. lia. Qed.

Lemma of_pos_block p (bl : list bytes) : p < length bl * K → buffer_it_ (of_pos p) < length bl.
Proof. intros. cbn. apply Nat.Div0.div_lt_upper_bound. lia. Qed.

Lemma it_sub_spec a b : it_sub a b = (Z.of_nat (pos a) - Z.of_nat (pos b))%Z.
Proof. unfold it_sub, pos. lia. Qed.

Lemma it_leb_spec a b : cur_ a < K → cur_ b < K → it_leb a b = bool_decide (pos a ≤ pos b).
Proof.
  intros. unfold it_leb, pos. case_decide as E.
  - apply bool_decide_ext. rewrite E. lia.
  - apply bool_decide_ext. split; intros; [|destruct (decide (buffer_it_ a < buffer_it_ b)); [done|]]; k_lia.
Qed.

Lemma it_eqb_spec a b : cur_ a < K → cur_ b < K → it_eqb a b = bool_decide (pos a = pos b).
Proof.
  intros Ha Hb. unfold it_eqb. destruct (bool_decide_reflect (pos a = pos b)) as [E|E].
  - assert (a = b) as -> by (by rewrite <- (of_pos_pos a), <- (of_pos_pos b), E).
    by rewrite !bool_decide_true.
  - apply andb_false_iff. destruct (decide (buffer_it_ a = buffer_it_ b)) as [E1|E1];
      [right|left]; apply bool_decide_false; [|done]. unfold pos in E. congruence.
Qed.

(** The arithmetic of [operator+=] on positions. *)
Lemma it_add_spec bl it n p :
  cur_ it < K → Z.of_nat p = (Z.of_nat (pos it) + n)%Z → p < length bl * K → it_add bl it n = Ok (of_pos p).
Proof.
  intros Hc Hp Hl. unfold it_add. destruct it as [i c]. unfold pos in Hp. cbn [buffer_it_ cur_] in *.
  case_decide as Ho.
  - f_equal. rewrite <- (of_pos_pos (mkIt i (Z.to_nat (n + Z.of_nat c)))) by (cbn; lia).
    f_equal. unfold pos. cbn. lia.
  - set (o := (n + Z.of_nat c)%Z) in *.
    set (q := (if decide (0 < o) then _ else _)%Z).
    assert (q = o / KZ)%Z as Eq.
    { unfold q. rewrite K_eq. case_decide; [rewrite Z.quot_div_nonneg; lia|].
      rewrite Z.quot_div_nonneg by (rewrite ?K_eq in *; lia). Z.div_mod_to_equations. lia. }
    assert (0 ≤ o - q * KZ < KZ)%Z as Hr.
    { rewrite Eq. pose proof (Z.mod_pos_bound o KZ). rewrite Z.mod_eq in * by k_lia. k_lia. }
    unfold MoveBuffer. rewrite decide_True.
    + cbn [mbind res_bind]. f_equal.
      rewrite <- (of_pos_pos (mkIt _ (Z.to_nat (o - q * KZ)))) by (cbn; lia).
      f_equal. unfold pos. cbn [buffer_it_ cur_]. k_lia.
    + k_lia.
Qed.

(** ** The memory of the blocks *)

Abbreviation blocks_ok bl := (Forall (λ b : bytes, length b = K) bl).

Lemma length_mem bl : blocks_ok bl → length (concat bl) = length bl * K.
Proof. apply length_concat_uniform. Qed.

Lemma concat_lookup (bl : list bytes) p :
  blocks_ok bl → concat bl !! p = bl !! (p / K) ≫= (.!! (p mod K)).
Proof.
  pose proof K_pos as HK. intros Hbl. revert p. induction Hbl as [|b bl Hb _ IH]; intros p; [done|].
  cbn [concat]. destruct (decide (p < K)) as [Hp|Hp].
  - rewrite Nat.div_small, Nat.mod_small by done. by apply lookup_app_l; rewrite Hb.
  - rewrite lookup_app_r, IH by lia. rewrite Hb.
    replace (p / K) with (S ((p - K) / K)).
    2: { replace p with (p - K + 1 * K) at 2 by lia. rewrite Nat.div_add by lia. lia. }
    replace ((p - K) mod K) with (p mod K); [done|].
    replace p with (p - K + 1 * K) at 1 by lia. apply Nat.Div0.mod_add.
Qed.

Lemma it_deref_spec bl p :
  blocks_ok bl → p < length bl * K → ∃ c, concat bl !! p = Some c ∧ it_deref bl (of_pos p) = Ok c.
Proof.
  intros Hbl Hp. destruct (lookup_lt_is_Some_2 (concat bl) p) as (c & Ec); [by rewrite length_mem|].
  exists c. split; [done|]. rewrite concat_lookup in Ec by done. unfold it_deref, of_pos. cbn [buffer_it_ cur_].
  destruct (bl !! (p / K)) as [b|]; [|done]. cbn in *. by rewrite Ec.
Qed.

Lemma it_incr_spec bl p : S p < length bl * K → it_incr bl (of_pos p) = Ok (of_pos (S p)).
Proof.
  intros Hp. pose proof K_pos as HK. pose proof (of_pos_cur p) as Hc. pose proof (pos_of_pos p) as E.
  unfold it_incr. destruct (of_pos p) as [i c] eqn:Ep. cbn [buffer_it_ cur_] in *. unfold pos in E. cbn in E.
  case_decide as Hl.
  - unfold MoveBuffer. rewrite decide_True by k_lia. cbn [mbind res_bind].
    f_equal. rewrite <- (of_pos_pos (mkIt _ 0)) by (cbn; lia). f_equal. unfold pos. cbn. lia.
  - f_equal. rewrite <- (of_pos_pos (mkIt _ (S c))) by (cbn; lia). f_equal. unfold pos. cbn. lia.
Qed.

Lemma it_incr_total bl it :
  cur_ it < K →
  it_incr bl it = if decide (S (pos it) < length bl * K ∨ S (cur_ it) < K) then Ok (of_pos (S (pos it))) else Fault EndDeref.
Proof.
  intros Hc. destruct (decide (S (cur_ it) < K)) as [Hs|Hs].
  - rewrite decide_True by auto. unfold it_incr. rewrite decide_False by lia. f_equal.
    rewrite <- (of_pos_pos (mkIt _ (S (cur_ it)))) by (cbn; lia). f_equal. unfold pos. cbn. lia.
  - case_decide as Hl.
    + rewrite <- (of_pos_pos it) at 1 by done. apply it_incr_spec. lia.
    + unfold it_incr. rewrite decide_True by lia. unfold MoveBuffer. rewrite decide_False; [done|].
      intros H. apply Hl. left. unfold pos. k_lia.
Qed.

Lemma read_range_spec bl p n :
  blocks_ok bl → p + n < length bl * K →
  read_range bl (of_pos p) n = Ok (take n (drop p (concat bl))).
Proof.
  intros Hbl. revert p. induction n as [|n IH]; intros p Hp; [done|]. cbn [read_range].
  destruct (it_deref_spec bl p Hbl) as (c & Ec & ->); [lia|]. cbn [mbind res_bind].
  rewrite it_incr_spec by lia. cbn [mbind res_bind]. rewrite IH by lia. cbn [mbind res_bind].
  by rewrite (drop_S _ c p) by done.
Qed.

Lemma ob_memcpy_block_spec bl i off d :
  blocks_ok bl → i < length bl → off + length d ≤ K →
  ∃ bl', ChainBuffer.memcpy_block i off d bl = Ok bl' ∧ blocks_ok bl' ∧ length bl' = length bl ∧
    concat bl' = overwrite (i * K + off) d (concat bl).
Proof.
  intros Hbl Hi Hd. destruct (lookup_lt_is_Some_2 bl i Hi) as (b & Eb).
  assert (length b = K) as Hb by (rewrite Forall_lookup in Hbl; eauto).
  unfold ChainBuffer.memcpy_block. rewrite Eb. cbn [deref mbind res_bind]. unfold write_mem.
  rewrite decide_True by lia. cbn [mbind res_bind]. eexists. split; [reflexivity|].
  split; [apply Forall_insert; [done|rewrite length_overwrite; lia]|].
  split; [apply length_insert|]. by apply concat_overwrite.
Qed.

Lemma write_range_spec bl p d :
  blocks_ok bl → p + length d < length bl * K →
  ∃ bl', write_range bl (of_pos p) d = Ok bl' ∧ blocks_ok bl' ∧ length bl' = length bl ∧
    concat bl' = overwrite p d (concat bl).
Proof.
  revert bl p. induction d as [|c d IH]; intros bl p Hbl Hp.
  { exists bl. by rewrite overwrite_nil. }
  cbn [write_range length] in *. pose proof (of_pos_cur p) as Hc.
  destruct (ob_memcpy_block_spec bl (buffer_it_ (of_pos p)) (cur_ (of_pos p)) [c])
    as (bl1 & -> & Hbl1 & Hl1 & E1); [done|apply of_pos_block; lia|cbn [length]; lia|].
  cbn [mbind res_bind]. rewrite it_incr_spec by (rewrite Hl1; lia). cbn [mbind res_bind].
  destruct (IH bl1 (S p) Hbl1) as (bl' & -> & Hbl' & Hl' & E'); [lia|].
  exists bl'. split_and!; [done|done|lia|]. rewrite E', E1. fold (pos (of_pos p)). rewrite pos_of_pos.
  replace (S p) with (p + length [c]) by (cbn; lia). rewrite overwrite_app; [done|].
  rewrite length_mem by done. cbn. lia.
Qed.

(** ** The invariant and the queue *)

Definition content (b : Buffer) : bytes :=
  drop (pos (read_index_ b)) (take (pos (write_index_ b)) (concat (buffer_list_ b))).

Record wf (b : Buffer) : Prop := mkWf {
  wf_blocks : blocks_ok (buffer_list_ b);
  wf_read : cur_ (read_index_ b) < K;
  wf_write : cur_ (write_index_ b) < K;
  wf_order : pos (read_index_ b) ≤ pos (write_index_ b);
  wf_end : pos (write_index_ b) < length (buffer_list_ b) * K
}.

(** The buffer seen through its positions. *)
Lemma wf_mk bl r w :
  blocks_ok bl → r ≤ w → w < length bl * K → wf (mkBuffer bl (of_pos r) (of_pos w)).
Proof. intros. split; cbn [buffer_list_ read_index_ write_index_]; rewrite ?pos_of_pos; try done; apply of_pos_cur. Qed.

Lemma content_mk bl r w : content (mkBuffer bl (of_pos r) (of_pos w)) = drop r (take w (concat bl)).
Proof. unfold content. cbn [buffer_list_ read_index_ write_index_]. by rewrite !pos_of_pos. Qed.

Lemma ob_content_length b : wf b → length (content b) = pos (write_index_ b) - pos (read_index_ b).
Proof. intros []. unfold content. rewrite length_drop, length_take, length_mem by done. lia. Qed.

Lemma ReadableBytes_spec b : wf b → ReadableBytes b = length (content b).
Proof. intros H. rewrite ob_content_length by done. unfold ReadableBytes. rewrite it_sub_spec. lia. Qed.

Lemma WritableBytes_spec b :
  wf b → WritableBytes b + pos (write_index_ b) + 1 = length (buffer_list_ b) * K.
Proof. intros []. unfold WritableBytes. rewrite it_sub_spec. unfold pos at 1. cbn. lia. Qed.

Lemma view b : wf b → ∃ bl r w, b = mkBuffer bl (of_pos r) (of_pos w) ∧ blocks_ok bl ∧ r ≤ w ∧ w < length bl * K.
Proof.
  intros []. exists (buffer_list_ b), (pos (read_index_ b)), (pos (write_index_ b)).
  split_and!; try done. rewrite !of_pos_pos by done. by destruct b.
Qed.

(** ** Growing *)

Lemma swap_loop_spec n : ∀ l i bl,
  i < l → l + n ≤ length bl →
  ∃ bl', swap_loop n l i bl = Ok bl' ∧ length bl' = length bl ∧ (blocks_ok bl → blocks_ok bl') ∧
    (∀ j, j < i → bl' !! j = bl !! j) ∧ (∀ k, k < n → bl' !! (i + k) = bl !! (l + k)).
Proof.
  induction n as [|n IH]; intros l i bl Hi Hl; [exists bl; split_and!; try done; lia|].
  cbn [swap_loop]. unfold swap_blocks.
  destruct (lookup_lt_is_Some_2 bl l) as (x & Ex); [lia|]. destruct (lookup_lt_is_Some_2 bl i) as (y & Ey); [lia|].
  rewrite Ex, Ey. cbn [deref mbind res_bind].
  destruct (IH (S l) (S i) (<[l:=y]> (<[i:=x]> bl))) as (bl' & E & El & Hb & Hf & Hs);
    [lia|rewrite !length_insert; lia|].
  exists bl'. rewrite E, El, !length_insert. split_and!; try done.
  - intros Hbl. apply Hb. rewrite Forall_lookup in Hbl. apply Forall_insert; [apply Forall_insert|]; eauto.
    by apply Forall_lookup.
  - intros j Hj. rewrite Hf by lia. by rewrite !list_lookup_insert_ne by lia.
  - intros [|k] Hk.
    + rewrite !Nat.add_0_r, Hf, list_lookup_insert_ne, list_lookup_insert_eq by lia. done.
    + replace (i + S k) with (S i + k) by lia. rewrite Hs by lia.
      rewrite !list_lookup_insert_ne by lia. f_equal. lia.
Qed.

Lemma iter_at_spec bl i n :
  i * K + n < length bl * K → iter_at bl i (Z.of_nat n) = Ok (of_pos (i * K + n)).
Proof.
  intros H. unfold iter_at, iter_of. assert (i < length bl) as Hi by k_lia.
  destruct (lookup_lt_is_Some_2 bl i Hi) as (b & ->). cbn [deref mbind res_bind].
  apply it_add_spec; cbn [cur_]; unfold pos; cbn; k_lia.
Qed.

(** The same blocks at other places hold the same bytes. *)
Lemma content_shift (bl bl' : list bytes) i l o ro wo :
  blocks_ok bl → blocks_ok bl' → wo < K → (∀ k, k ≤ o → bl' !! (i + k) = bl !! (l + k)) →
  drop (i * K + ro) (take ((i + o) * K + wo) (concat bl')) =
  drop (l * K + ro) (take ((l + o) * K + wo) (concat bl)).
Proof.
  intros Hbl Hbl' Hw Hk. apply list_eq. intros j. rewrite !lookup_drop.
  destruct (decide (ro + j < o * K + wo)) as [Hj|Hj]; [|rewrite !lookup_take_ge by lia; done].
  rewrite !lookup_take_lt, !concat_lookup by (done || lia). pose proof K_pos.
  rewrite <- !Nat.add_assoc, !(Nat.add_comm (_ * K)), !Nat.div_add, !Nat.Div0.mod_add by lia.
  rewrite !(Nat.add_comm _ i), !(Nat.add_comm _ l), Hk; [done|].
  apply Nat.lt_succ_r, Nat.Div0.div_lt_upper_bound. k_lia.
Qed.

(** Growing keeps the space in front of the data. *)
Definition reserve (b b' : Buffer) : Prop :=
  kCheapPrepend ≤ pos (read_index_ b) → kCheapPrepend ≤ pos (read_index_ b').

Lemma drop_take_overwrite_at r w (d l : bytes) :
  r ≤ w → w + length d ≤ length l →
  drop r (take (w + length d) (overwrite w d l)) = drop r (take w l) ++ d.
Proof.
  intros. rewrite take_overwrite by lia. rewrite drop_app_le by (rewrite length_take; lia). done.
Qed.

Lemma copy_in_spec b d :
  wf b → length d ≤ WritableBytes b →
  ∃ b', copy_in b d (length d) = Ok b' ∧ wf b' ∧ content b' = content b ++ d ∧ read_index_ b' = read_index_ b.
Proof.
  intros Hwf Hd. pose proof (WritableBytes_spec b Hwf) as Hw'.
  destruct (view b Hwf) as (bl & r & w & -> & Hbl & Hrw & Hw). cbn [buffer_list_ write_index_] in *.
  rewrite pos_of_pos in Hw'. unfold copy_in. cbn [buffer_list_ write_index_ read_index_].
  destruct (write_range_spec bl w d Hbl) as (bl' & -> & Hbl' & Hl' & Hc'); [lia|]. cbn [mbind res_bind].
  rewrite (it_add_spec _ _ _ (w + length d)); [|apply of_pos_cur|rewrite pos_of_pos; lia|lia].
  cbn [mbind res_bind]. eexists. split; [reflexivity|]. split; [apply wf_mk; [done|lia..]|].
  split; [|done]. rewrite !content_mk, Hc'. apply drop_take_overwrite_at; [done|]. rewrite length_mem by done. lia.
Qed.

Lemma read_content b :
  wf b → read_range (buffer_list_ b) (read_index_ b) (ReadableBytes b) = Ok (content b).
Proof.
  intros Hwf. pose proof (ReadableBytes_spec b Hwf) as Hr. rewrite ob_content_length in Hr by done.
  destruct (view b Hwf) as (bl & r & w & -> & Hbl & Hrw & Hw). cbn [buffer_list_ read_index_ write_index_] in *.
  rewrite !pos_of_pos in Hr. rewrite Hr, content_mk, read_range_spec by (done || lia).
  by rewrite skipn_firstn_comm.
Qed.

Section growing_spec.
Variable junk : bytes.
Hypothesis Hjunk : length junk = K.

Lemma Buffer_new_spec n :
  0 < n → ∃ b, Buffer_new junk n = Ok b ∧ wf b ∧ content b = [].
Proof.
  intros Hn. unfold Buffer_new. rewrite iter_at_spec by (rewrite length_replicate; k_lia).
  cbn [mbind res_bind]. eexists. split; [reflexivity|]. split.
  - apply wf_mk; [by apply Forall_replicate|done|]. rewrite length_replicate. k_lia.
  - rewrite content_mk. apply drop_ge. rewrite length_take. lia.
Qed.

Lemma ExtendSpace_spec b len :
  wf b → ∃ b', ExtendSpace junk b len = Ok b' ∧ wf b' ∧ content b' = content b ∧
    WritableBytes b < WritableBytes b' ∧ reserve b b'.
Proof.
  intros Hwf. destruct (view b Hwf) as (bl & r & w & -> & Hbl & Hrw & Hw). unfold ExtendSpace.
  set (b0 := mkBuffer bl (of_pos r) (of_pos w)) in *.
  cbn [buffer_list_ read_index_ write_index_ b0 of_pos buffer_it_ cur_]. pose proof K_pos as HK.
  set (l := r / K). set (ro := r mod K). set (o := w / K - l). set (wo := w mod K).
  assert (r = l * K + ro) as Er by (unfold l, ro; pose proof (Nat.div_mod r K); lia).
  assert (l ≤ w / K) as Hl by (by apply Nat.Div0.div_le_mono).
  assert (w = (l + o) * K + wo) as Ew by (unfold o, wo; pose proof (Nat.div_mod w K); k_lia).
  assert (ro < K) as Hro by (apply Nat.mod_upper_bound; lia).
  assert (wo < K) as Hwo by (apply Nat.mod_upper_bound; lia).
  assert (l + o < length bl) as Hlo by k_lia.
  set (to_add := (len - 1) / K + 1).
  assert (∀ bl' i, blocks_ok bl' → i + o < length bl' →
    (∀ k, k ≤ o → bl' !! (i + k) = bl !! (l + k)) →
    (length bl * K + (i + o) * K < length bl' * K + (l + o) * K) →
    (kCheapPrepend ≤ r → kCheapPrepend ≤ i * K + ro) →
    ∃ b', (r ← iter_at bl' i (Z.of_nat ro); w ← iter_at bl' (i + o) (Z.of_nat wo); Ok (mkBuffer bl' r w)) = Ok b'
      ∧ wf b' ∧ content b' = content b0 ∧ WritableBytes b0 < WritableBytes b' ∧ reserve b0 b') as Hfin.
  { intros bl' i Hbl' Hio Hk Hgain Hres. rewrite !iter_at_spec by k_lia. cbn [mbind res_bind].
    assert (wf (mkBuffer bl' (of_pos (i * K + ro)) (of_pos ((i + o) * K + wo)))) as Hwf' by (apply wf_mk; [done|k_lia..]).
    eexists. split; [reflexivity|]. split; [done|]. split; [|split].
    - unfold b0. rewrite !content_mk, Er, Ew. by apply content_shift.
    - pose proof (WritableBytes_spec _ Hwf) as H1. pose proof (WritableBytes_spec _ Hwf') as H2.
      cbn [b0 buffer_list_ write_index_] in *. rewrite pos_of_pos in *. lia.
    - unfold reserve, b0. cbn [read_index_]. by rewrite !pos_of_pos. }
  case_decide as Hmove.
  - set (i := if decide (kCheapPrepend ≤ ro) then 0 else 1).
    assert (i ≤ 1) by (unfold i; case_decide; lia).
    replace (w / K + 1 - l) with (S o) by lia.
    destruct (swap_loop_spec (S o) l i bl) as (bl' & -> & El & Hb & _ & Hs); [lia|lia|]. cbn [mbind res_bind].
    apply Hfin; [by apply Hb|lia|intros k Hk; apply Hs; lia|rewrite El; k_lia|].
    intros _. unfold i. case_decide; lia.
  - cbn [mbind res_bind]. apply Hfin.
    + apply Forall_app. split; [done|by apply Forall_replicate].
    + rewrite length_app. lia.
    + intros k Hk. apply lookup_app_l. lia.
    + rewrite length_app, length_replicate. k_lia.
    + lia.
Qed.

Lemma EnsureWritable_loop_spec fuel : ∀ b len,
  wf b → len - WritableBytes b < fuel →
  ∃ b', EnsureWritable_loop junk fuel b len = Ok b' ∧ wf b' ∧ content b' = content b ∧ len ≤ WritableBytes b' ∧
    reserve b b'.
Proof.
  induction fuel as [|fuel IH]; intros b len Hwf Hf; [lia|]. cbn [EnsureWritable_loop].
  case_decide; [|exists b; split_and!; try done; [lia|by intros ?]].
  destruct (ExtendSpace_spec b (len - WritableBytes b) Hwf) as (b1 & -> & Hwf1 & Hc1 & Hg & Hr). cbn [mbind res_bind].
  destruct (IH b1 len Hwf1) as (b' & -> & Hwf' & Hc' & Hl & Hr'); [lia|]. exists b'.
  split_and!; try done; [congruence|]. unfold reserve in *. auto.
Qed.

Lemma EnsureWritableBytes_spec b len :
  wf b → ∃ b', EnsureWritableBytes junk b len = Ok b' ∧ wf b' ∧ content b' = content b ∧ len ≤ WritableBytes b' ∧
    reserve b b'.
Proof. intros. apply EnsureWritable_loop_spec; [done|lia]. Qed.

Lemma Append_reserve b d n :
  wf b → n ≤ length d →
  ∃ b', Append junk b d n = Ok b' ∧ wf b' ∧ content b' = content b ++ take n d ∧ reserve b b'.
Proof.
  intros Hwf Hn. unfold Append. destruct (EnsureWritableBytes_spec b n Hwf) as (b1 & -> & Hwf1 & Hc1 & Hw1 & Hr1).
  cbn [mbind res_bind]. unfold read_mem. rewrite decide_True by done. cbn [mbind res_bind].
  assert (length (take n d) = n) as El by (rewrite length_take; lia).
  destruct (copy_in_spec b1 (take n d) Hwf1) as (b' & E & Hwf' & Hc' & Er); [by rewrite El|].
  rewrite El in E. exists b'. rewrite Hc', Hc1. unfold reserve. by rewrite Er.
Qed.

Lemma ob_Append_spec b d n :
  wf b → n ≤ length d → ∃ b', Append junk b d n = Ok b' ∧ wf b' ∧ content b' = content b ++ take n d.
Proof. intros H Hn. destruct (Append_reserve b d n H Hn) as (b' & ? & ? & ? & _). eauto. Qed.

Lemma ob_Append_overread b d n : wf b → length d < n → Append junk b d n = Fault OutOfBounds.
Proof.
  intros Hwf Hn. unfold Append. destruct (EnsureWritableBytes_spec b n Hwf) as (b1 & -> & _).
  cbn [mbind res_bind]. unfold read_mem. by rewrite decide_False by lia.
Qed.

Lemma AppendBuffer_spec b s :
  wf b → wf s → ∃ b', AppendBuffer junk b s = Ok b' ∧ wf b' ∧ content b' = content b ++ content s.
Proof.
  intros Hwf Hs. unfold AppendBuffer.
  destruct (EnsureWritableBytes_spec b (ReadableBytes s) Hwf) as (b1 & -> & Hwf1 & Hc1 & Hw1 & Hr1).
  cbn [mbind res_bind]. rewrite read_content by done. cbn [mbind res_bind].
  rewrite ReadableBytes_spec in * by done. rewrite <- Hc1.
  destruct (copy_in_spec b1 (content s) Hwf1 Hw1) as (b' & ? & ? & ? & _). eauto.
Qed.

End growing_spec.

(** ** Consuming *)

Lemma ResetIndex_spec b : wf b → ∃ b', ResetIndex b = Ok b' ∧ wf b' ∧ content b' = [].
Proof.
  intros Hwf. destruct (view b Hwf) as (bl & r & w & -> & Hbl & Hrw & Hw).
  unfold ResetIndex. cbn [buffer_list_]. rewrite iter_at_spec by k_lia. cbn [mbind res_bind].
  eexists. split; [reflexivity|]. split; [apply wf_mk; [done|done|k_lia]|].
  rewrite content_mk. apply drop_ge. rewrite length_take. lia.
Qed.

Lemma ob_Retrive_spec b len :
  wf b → len ≤ length (content b) →
  ∃ b', Retrive b len = Ok b' ∧ wf b' ∧ content b' = drop len (content b).
Proof.
  intros Hwf Hlen. unfold Retrive. rewrite ReadableBytes_spec by done. rewrite bool_decide_true by done.
  cbn [assert mbind res_bind]. case_decide as Hlt.
  - rewrite ob_content_length in Hlt by done. destruct (view b Hwf) as (bl & r & w & -> & Hbl & Hrw & Hw).
    cbn [buffer_list_ read_index_ write_index_] in *. rewrite !pos_of_pos in Hlt.
    rewrite (it_add_spec _ _ _ (r + len)); [|apply of_pos_cur|rewrite pos_of_pos; lia|lia].
    cbn [mbind res_bind]. eexists. split; [reflexivity|]. split; [apply wf_mk; [done|lia..]|].
    by rewrite !content_mk, drop_drop.
  - destruct (ResetIndex_spec b Hwf) as (b' & -> & ? & E). exists b'. rewrite E. split_and!; try done.
    by rewrite drop_ge by lia.
Qed.

Lemma Retrive_over b len : wf b → length (content b) < len → Retrive b len = Fault AssertFail.
Proof. intros. unfold Retrive. rewrite ReadableBytes_spec by done. by rewrite bool_decide_false by lia. Qed.

(** ** The vectors of [readv] and [writev] cover a range of positions *)

Fixpoint contig (p : nat) (vec : list ChainBuffer.iovec) (q : nat) : Prop :=
  match vec with
  | [] => p = q
  | ChainBuffer.mkIov i off len :: vec => i * K + off = p ∧ off + len ≤ K ∧ contig (p + len) vec q
  end.

Lemma contig_app p l1 l2 q : contig p (l1 ++ l2) q ↔ ∃ m, contig p l1 m ∧ contig m l2 q.
Proof.
  revert p. induction l1 as [|[i off len] l1 IH]; intros p; cbn [app contig].
  - split; [by exists p|by intros (m & -> & ?)].
  - rewrite IH. split; [intros (? & ? & m & ? & ?)|intros (m & (? & ? & ?) & ?)]; eauto 10.
Qed.

Lemma contig_le p vec q : contig p vec q → p ≤ q.
Proof. revert p. induction vec as [|[i off len] vec IH]; intros p; cbn; [lia|]. intros (? & ? & H%IH). lia. Qed.

Lemma contig_whole i n : contig (i * K) (whole_blocks i n) ((i + n) * K).
Proof.
  revert i. induction n as [|n IH]; intros i; [cbn; lia|]. cbn [whole_blocks seq fmap list_fmap contig].
  split; [lia|]. split; [lia|]. replace (i * K + K) with (S i * K) by lia.
  replace ((i + S n) * K) with ((S i + n) * K) by lia. apply IH.
Qed.

Lemma in_whole i n v : v ∈ whole_blocks i n → i ≤ ChainBuffer.iov_block v < i + n.
Proof. intros (j & -> & Hj)%list_elem_of_fmap. apply elem_of_seq in Hj. cbn. lia. Qed.

Lemma ob_scatter_spec vec : ∀ bl p q d,
  blocks_ok bl → contig p vec q → q ≤ length bl * K →
  Forall (λ v, ChainBuffer.iov_block v < length bl) vec →
  ∃ bl', ChainBuffer.scatter vec d bl = Ok bl' ∧ blocks_ok bl' ∧ length bl' = length bl ∧
    concat bl' = overwrite p (take (q - p) d) (concat bl).
Proof.
  induction vec as [|[i off len] vec IH]; intros bl p q d Hbl Hc Hq Hin.
  { cbn in Hc. subst q. exists bl. by rewrite Nat.sub_diag, take_0, overwrite_nil. }
  destruct Hc as (Hp & Ho & Hc). apply Forall_cons in Hin as [Hi Hin]. cbn in Hi.
  pose proof (contig_le _ _ _ Hc) as Hle. cbn [ChainBuffer.scatter ChainBuffer.iov_block ChainBuffer.iov_off ChainBuffer.iov_len].
  destruct (ob_memcpy_block_spec bl i off (take len d)) as (bl1 & -> & Hbl1 & Hl1 & E1);
    [done|done|rewrite length_take; lia|]. cbn [mbind res_bind].
  destruct (IH bl1 (p + len) q (drop len d)) as (bl' & -> & Hbl' & Hl' & E'); [done|done|lia|by rewrite Hl1|].
  exists bl'. split_and!; [done|done|lia|]. rewrite E', E1, Hp.
  destruct (decide (length d ≤ len)).
  - rewrite (drop_ge d), take_nil, overwrite_nil, !take_ge by lia. done.
  - replace (q - p) with (len + (q - (p + len))) by lia. rewrite <- take_take_drop.
    rewrite <- overwrite_app; rewrite length_take, Nat.min_l by lia; [done|]. rewrite length_mem by done. lia.
Qed.

Lemma gather_spec vec : ∀ bl p q,
  blocks_ok bl → contig p vec q → Forall (λ v, ChainBuffer.iov_block v < length bl) vec →
  gather vec bl = Ok (drop p (take q (concat bl))).
Proof.
  induction vec as [|[i off len] vec IH]; intros bl p q Hbl Hc Hin.
  { cbn in Hc. subst q. cbn. by rewrite drop_ge by (rewrite length_take; lia). }
  destruct Hc as (Hp & Ho & Hc). apply Forall_cons in Hin as [Hi Hin]. cbn in Hi.
  pose proof (contig_le _ _ _ Hc) as Hle. cbn [gather ChainBuffer.iov_block ChainBuffer.iov_off ChainBuffer.iov_len].
  destruct (lookup_lt_is_Some_2 bl i Hi) as (b & Eb). rewrite Eb. cbn [deref mbind res_bind].
  assert (length b = K) as Hb by (rewrite Forall_lookup in Hbl; eauto).
  unfold read_mem. rewrite decide_True by (rewrite length_drop; lia). cbn [mbind res_bind].
  rewrite (IH bl _ q) by done. cbn [mbind res_bind]. f_equal.
  rewrite (concat_lookup_block K i bl b Hbl Eb). set (x := take (i * K) (concat bl)).
  assert (length x = i * K) as Hx by (unfold x; rewrite length_take, length_mem by done; k_lia).
  set (y := drop _ _). rewrite !skipn_firstn_comm, !drop_app, Hx.
  rewrite !(drop_ge x), !app_nil_l by lia. replace (p - i * K) with off by lia.
  replace (p + len - i * K) with (off + len) by lia.
  rewrite !Hb. replace (off - K) with 0 by lia. replace (off + len - K) with 0 by lia. rewrite !drop_0.
  rewrite <- (drop_drop b). replace (q - p) with (len + (q - (p + len))) by lia.
  rewrite <- take_take_drop. f_equal.
  - by rewrite take_app_le by (rewrite length_drop; lia).
  - rewrite drop_app_le by (rewrite length_drop; lia). done.
Qed.

Lemma keep_rail_app l i off len :
  keep_rail (l ++ [ChainBuffer.mkIov i off len]) = l ++ [ChainBuffer.mkIov i off (len - 1)].
Proof.
  unfold keep_rail. rewrite length_app, Nat.add_sub. 
  rewrite <- (Nat.add_0_r (length l)). by rewrite alter_app_r.
Qed.

(** ** Reading from and writing to a descriptor *)

Lemma read_vec_spec i off m :
  off < K →
  let vec := keep_rail (ChainBuffer.mkIov i off (K - off) :: whole_blocks (S i) m) in
  contig (i * K + off) vec ((i + m + 1) * K - 1) ∧
  Forall (λ v, ChainBuffer.iov_block v < i + m + 1) vec.
Proof.
  intros Ho. cbn zeta. pose proof K_pos as HK. destruct m as [|m].
  - replace (keep_rail _) with [ChainBuffer.mkIov i off (K - off - 1)] by done. cbn [contig].
    split; [split_and!; lia|]. by apply Forall_singleton; cbn; lia.
  - assert (whole_blocks (S i) (S m) = whole_blocks (S i) m ++ [ChainBuffer.mkIov (S i + m) 0 K]) as ->
      by (unfold whole_blocks; by rewrite seq_S, fmap_app).
    rewrite app_comm_cons, keep_rail_app. split.
    + apply contig_app. exists ((S i + m) * K). split; [|cbn; lia]. cbn [contig]. split_and!; [lia..|].
      replace (i * K + off + (K - off)) with (S i * K) by lia. apply contig_whole.
    + apply Forall_app. split; [|by apply Forall_singleton; cbn; lia]. apply Forall_cons. split; [cbn; lia|].
      apply Forall_forall. intros v Hv%in_whole. lia.
Qed.

Lemma write_vec_spec r w :
  r ≤ w →
  let vec := if decide (buffer_it_ (of_pos r) = buffer_it_ (of_pos w)) then
      [ChainBuffer.mkIov (buffer_it_ (of_pos r)) (cur_ (of_pos r)) (w - r)]
    else
      ChainBuffer.mkIov (buffer_it_ (of_pos r)) (cur_ (of_pos r)) (K - cur_ (of_pos r))
      :: whole_blocks (S (buffer_it_ (of_pos r))) (buffer_it_ (of_pos w) - buffer_it_ (of_pos r) - 1)
      ++ [ChainBuffer.mkIov (buffer_it_ (of_pos w)) 0 (cur_ (of_pos w))] in
  contig r vec w ∧ Forall (λ v, ChainBuffer.iov_block v ≤ buffer_it_ (of_pos w)) vec.
Proof.
  intros Hrw. cbn zeta. pose proof (of_pos_cur r) as Hrc. pose proof (of_pos_cur w) as Hwc.
  assert (r = buffer_it_ (of_pos r) * K + cur_ (of_pos r)) as Er by (rewrite <- (pos_of_pos r) at 1; done).
  assert (w = buffer_it_ (of_pos w) * K + cur_ (of_pos w)) as Ew by (rewrite <- (pos_of_pos w) at 1; done).
  set (i := buffer_it_ (of_pos r)) in *. set (c := cur_ (of_pos r)) in *.
  set (j := buffer_it_ (of_pos w)) in *. set (e := cur_ (of_pos w)) in *.
  case_decide as Eb.
  - split; [|apply Forall_singleton; cbn [ChainBuffer.iov_block contig]; lia]. cbn [contig]. rewrite Eb in *. split_and!; lia.
  - assert (i < j) as Hij by k_lia. split.
    + cbn [contig]. split_and!; [lia..|]. apply contig_app. exists (j * K). split; [|cbn [ChainBuffer.iov_block contig]; lia].
      replace (r + (K - c)) with (S i * K) by lia. replace (j * K) with ((S i + (j - i - 1)) * K) by (f_equal; lia).
      apply contig_whole.
    + apply Forall_cons. split; [cbn [ChainBuffer.iov_block contig]; lia|]. apply Forall_app. split; [|apply Forall_singleton; cbn [ChainBuffer.iov_block contig]; lia].
      apply Forall_forall. intros v Hv%in_whole. lia.
Qed.

Lemma ob_WriteFd_spec writev b :
  wf b → ChainBuffer.writev_ok writev →
  match writev (content b) with
  | ChainBuffer.WritevErr e => WriteFd writev b = Ok ((-1)%Z, Some e, [], b)
  | ChainBuffer.WritevN n => ∃ b', WriteFd writev b = Ok (Z.of_nat n, None, take n (content b), b') ∧
      n ≤ length (content b) ∧ wf b' ∧ content b' = drop n (content b)
  end.
Proof.
  intros Hwf Hok. pose proof (ob_content_length b Hwf) as Hcl.
  destruct (view b Hwf) as (bl & r & w & -> & Hbl & Hrw & Hw). cbn [buffer_list_ write_index_ read_index_] in *.
  rewrite !pos_of_pos in Hcl. rewrite content_mk in *. set (data := drop r (take w (concat bl))) in *.
  unfold WriteFd. cbn [buffer_list_ write_index_ read_index_].
  rewrite it_sub_spec, !pos_of_pos. replace (Z.to_nat (Z.of_nat w - Z.of_nat r)) with (w - r) by lia.
  destruct (write_vec_spec r w Hrw) as [Hc Hin]. cbn zeta in Hc, Hin.
  rewrite (gather_spec _ bl r w); [|done|done|].
  2: { eapply Forall_impl; [exact Hin|]. intros v Hv. cbn in Hv. pose proof (of_pos_block w bl Hw). cbn in *. lia. }
  cbn [mbind res_bind]. fold data. destruct (writev data) as [e|n] eqn:En; [done|].
  pose proof (Hok _ _ En) as Hn. rewrite (it_add_spec _ _ _ (r + n)); [|apply of_pos_cur|rewrite pos_of_pos; lia|lia].
  cbn [mbind res_bind]. eexists. split_and!; [reflexivity|lia|apply wf_mk; [done|lia..]|].
  rewrite content_mk. unfold data. by rewrite drop_drop.
Qed.

Section syscalls_spec.
Variable junk : bytes.
Hypothesis Hjunk : length junk = K.

Lemma ob_ReadFd_spec readv b :
  wf b → ∃ lens, match readv lens with
    | ChainBuffer.ReadvErr e => ReadFd junk readv b = Ok ((-1)%Z, Some e, b)
    | ChainBuffer.ReadvData d => ∃ b', ReadFd junk readv b = Ok (Z.of_nat (length d), None, b') ∧ wf b' ∧
        content b' = content b ++ d
    end.
Proof.
  intros Hwf. pose proof (WritableBytes_spec b Hwf) as Hwr.
  destruct (view b Hwf) as (bl & r & w & -> & Hbl & Hrw & Hw). cbn [buffer_list_ write_index_ read_index_] in *.
  rewrite pos_of_pos in Hwr. pose proof (of_pos_block w bl Hw) as Hwb. pose proof (of_pos_cur w) as Hwc.
  unfold ReadFd. cbn [buffer_list_ write_index_ read_index_].
  set (i := buffer_it_ (of_pos w)) in *. set (c := cur_ (of_pos w)) in *.
  assert (w = i * K + c) as Ew by (rewrite <- (pos_of_pos w) at 1; done).
  set (m := length bl - i - 1). destruct (read_vec_spec i c m Hwc) as [Hc Hin]. cbn zeta in Hc, Hin.
  set (vec := keep_rail _) in *. set (wr := WritableBytes _) in *.
  assert ((i + m + 1) * K = length bl * K) as Em by (f_equal; lia).
  rewrite bool_decide_true by k_lia. cbn [assert mbind res_bind].
  replace (K - c + m * K - 1) with wr by k_lia.
  exists (map ChainBuffer.iov_len vec ++ [kExtraBufferSize]). destruct (readv _) as [e|d]; [done|].
  destruct (ob_scatter_spec vec bl w ((i + m + 1) * K - 1) d) as (bl' & -> & Hbl' & Hl' & Hc');
    [done|by rewrite Ew|k_lia|by replace (length bl) with (i + m + 1) by lia|].
  replace ((i + m + 1) * K - 1 - w) with wr in Hc' by lia. cbn [mbind res_bind].
  assert (∀ n, n ≤ wr → it_add bl' (of_pos w) (Z.of_nat n) = Ok (of_pos (w + n))) as Hadd.
  { intros n Hn. apply it_add_spec; [apply of_pos_cur|rewrite pos_of_pos; lia|lia]. }
  assert (∀ n, n ≤ wr → wf (mkBuffer bl' (of_pos r) (of_pos (w + n)))) as Hwf' by (intros; apply wf_mk; [done|lia..]).
  assert (length (take wr d) ≤ wr) as Ht by (rewrite length_take; lia).
  assert (content (mkBuffer bl' (of_pos r) (of_pos (w + length (take wr d)))) = drop r (take w (concat bl)) ++ take wr d) as Ec.
  { rewrite content_mk, Hc'. apply drop_take_overwrite_at; [done|]. rewrite length_mem by done. lia. }
  rewrite content_mk. case_decide as Hd.
  - rewrite Hadd by done. cbn [mbind res_bind]. eexists. split; [reflexivity|].
    split; [by apply Hwf'|]. rewrite (take_ge d) in Ec by lia. exact Ec.
  - rewrite length_take, Nat.min_l in Ec by lia. rewrite Hadd by done. cbn [mbind res_bind].
    destruct (ob_Append_spec junk Hjunk _ (drop wr d) (length d - wr) (Hwf' wr (le_n _))) as (b' & -> & Hb' & E');
      [rewrite length_drop; lia|].
    cbn [mbind res_bind]. eexists. split; [reflexivity|]. split; [done|].
    rewrite E', Ec, <- app_assoc, (take_ge (drop _ _)) by (rewrite length_drop; lia). by rewrite take_drop.
Qed.

(** ** The buffer implements the interface of the connection's buffers *)

Definition Buffer_queue : ByteQueue Buffer := {|
  bq_new := match Buffer_new junk kInitialBufferNum with Ok b => b | Fault _ => mkBuffer [] (mkIt 0 0) (mkIt 0 0) end;
  bq_readable := ReadableBytes;
  bq_append := Append junk;
  bq_append_queue := AppendBuffer junk;
  bq_peek_all := PeekAllAsString;
  bq_retrive := Retrive;
  bq_readfd := ReadFd junk;
  bq_writefd := WriteFd
|}.

Program Definition Buffer_laws : @ByteQueueLaws Buffer Buffer_queue := {|
  bq_wf := wf;
  bq_content := content;
  bq_readable_law := ReadableBytes_spec;
  bq_append_law := ob_Append_spec junk Hjunk;
  bq_overread_law := ob_Append_overread junk Hjunk;
  bq_append_queue_law := AppendBuffer_spec junk Hjunk;
  bq_peek_all_law := read_content;
  bq_retrive_law := ob_Retrive_spec
|}.
Next Obligation. destruct (Buffer_new_spec junk Hjunk kInitialBufferNum) as (b & E & H); [unfold kInitialBufferNum; lia|].
  cbn [bq_new Buffer_queue]. by rewrite E. Qed.
Next Obligation.
  intros readv b Hwf _. cbn. destruct (ob_ReadFd_spec readv b Hwf) as (lens & Hr). destruct (readv lens).
  - rewrite Hr. eexists _, _, _. split; [reflexivity|]. split; [done|constructor].
  - destruct Hr as (b' & -> & Hwf' & E). eexists _, _, _. split; [reflexivity|]. split; [done|].
    rewrite E. constructor.
Qed.
Next Obligation.
  intros writev b Hwf Hok. cbn. pose proof (ob_WriteFd_spec writev b Hwf Hok) as Hr. destruct (writev _).
  - rewrite Hr. eexists _, _, _, _. split; [reflexivity|]. split; [done|constructor].
  - destruct Hr as (b' & -> & Hn & Hwf' & E). eexists _, _, _, _. split; [reflexivity|]. split; [done|].
    rewrite E. by constructor.
Qed.
End syscalls_spec.

(** ** The other operations *)

Lemma read_prefix b n :
  wf b → n ≤ length (content b) →
  read_range (buffer_list_ b) (read_index_ b) n = Ok (take n (content b)).
Proof.
  intros Hwf. rewrite ob_content_length by done. intros Hn.
  destruct (view b Hwf) as (bl & r & w & -> & Hbl & Hrw & Hw). cbn [buffer_list_ read_index_ write_index_] in *.
  rewrite !pos_of_pos in Hn. rewrite content_mk, read_range_spec by (done || lia).
  rewrite skipn_firstn_comm, take_take. by rewrite Nat.min_l by lia.
Qed.

(** The iterator [n] bytes after [cbegin()]. *)
Lemma begin_add b n :
  wf b → n ≤ length (content b) →
  ∃ it, it_add (buffer_list_ b) (read_index_ b) (Z.of_nat n) = Ok it ∧ cur_ it < K ∧
    it_leb it (write_index_ b) = true ∧ it_leb (read_index_ b) it = true ∧ it_sub it (read_index_ b) = Z.of_nat n.
Proof.
  intros Hwf Hn. rewrite ob_content_length in Hn by done. destruct Hwf as [Hbl Hr Hw Ho He].
  exists (of_pos (pos (read_index_ b) + n)). split; [apply it_add_spec; lia|]. split; [apply of_pos_cur|].
  rewrite !it_leb_spec by (done || apply of_pos_cur). rewrite !pos_of_pos, it_sub_spec, pos_of_pos.
  split_and!; [apply bool_decide_true; lia..|lia].
Qed.

Lemma RetriveUtil_spec b it n :
  wf b → n ≤ length (content b) → it_leb it (write_index_ b) = true → it_leb (read_index_ b) it = true →
  it_sub it (read_index_ b) = Z.of_nat n →
  ∃ b', RetriveUtil b it = Ok b' ∧ wf b' ∧ content b' = drop n (content b).
Proof.
  intros Hwf Hn H1 H2 E. unfold RetriveUtil. rewrite H1, H2, E, Nat2Z.id. cbn [assert mbind res_bind].
  by apply ob_Retrive_spec.
Qed.

Lemma RetriveAsString_spec b n :
  wf b → n ≤ length (content b) →
  ∃ b', RetriveAsString b n = Ok (take n (content b), b') ∧ wf b' ∧ content b' = drop n (content b).
Proof.
  intros Hwf Hn. unfold RetriveAsString. destruct (begin_add b n Hwf Hn) as (it & -> & _ & H1 & H2 & E).
  cbn [mbind res_bind]. unfold RetriveAsStringUtil. rewrite H1, H2, E, Nat2Z.id. cbn [assert mbind res_bind].
  rewrite read_prefix by done. cbn [mbind res_bind].
  destruct (RetriveUtil_spec b it n Hwf Hn H1 H2 E) as (b' & -> & ? & ?). eauto.
Qed.

Lemma it_add_pos bl it n it' :
  cur_ it < K → it_add bl it n = Ok it' → Z.of_nat (pos it') = (Z.of_nat (pos it) + n)%Z ∧ cur_ it' < K.
Proof.
  intros Hc. destruct it as [i c]. unfold it_add, pos. cbn [buffer_it_ cur_] in *. case_decide as Ho.
  { intros [= <-]. cbn. lia. }
  set (o := (n + Z.of_nat c)%Z) in *. set (q := (if decide (0 < o) then _ else _)%Z).
  assert (0 ≤ o - q * KZ < KZ)%Z as Hr.
  { unfold q. rewrite K_eq in *. case_decide; rewrite Z.quot_div_nonneg by lia; Z.div_mod_to_equations; lia. }
  unfold MoveBuffer. case_decide as Hm; [|done]. intros [= <-]. cbn [buffer_it_ cur_].
  split; [|lia]. rewrite !Nat2Z.inj_add, !Nat2Z.inj_mul, !Z2Nat.id by lia. rewrite K_eq in *. lia.
Qed.

Lemma RetriveAsString_over b n :
  wf b → length (content b) < n → is_ok (RetriveAsString b n) = false.
Proof.
  intros Hwf Hn. rewrite ob_content_length in Hn by done. unfold RetriveAsString.
  destruct (it_add _ _ _) as [it|] eqn:E; [|done]. destruct (it_add_pos _ _ _ _ (wf_read b Hwf) E) as [Ep Hc].
  cbn [mbind res_bind]. unfold RetriveAsStringUtil. rewrite (it_leb_spec it (write_index_ b)) by (done || apply Hwf).
  pose proof (wf_order b Hwf). by rewrite bool_decide_false by lia.
Qed.

Lemma ob_UnWrite_spec b n :
  wf b → n ≤ length (content b) →
  ∃ b', UnWrite b n = Ok b' ∧ wf b' ∧ content b' = take (length (content b) - n) (content b).
Proof.
  intros Hwf Hn. unfold UnWrite. rewrite ReadableBytes_spec, bool_decide_true by done. cbn [assert mbind res_bind].
  rewrite ob_content_length in * by done. destruct (view b Hwf) as (bl & r & w & -> & Hbl & Hrw & Hw).
  cbn [buffer_list_ read_index_ write_index_] in *. rewrite !pos_of_pos in *.
  rewrite (it_add_spec _ _ _ (w - n)); [|apply of_pos_cur|rewrite pos_of_pos; lia|lia].
  cbn [mbind res_bind]. eexists. split; [reflexivity|]. split; [apply wf_mk; [done|lia..]|].
  rewrite !content_mk, !skipn_firstn_comm, take_take. f_equal. lia.
Qed.

Lemma PeekInt_spec t b :
  wf b → int_size t ≤ length (content b) →
  PeekInt t b = Ok (NetToHost t (from_mem t (take (int_size t) (content b)))).
Proof.
  intros Hwf Hn. unfold PeekInt. rewrite ReadableBytes_spec, bool_decide_true by done. cbn [assert mbind res_bind].
  destruct (begin_add b _ Hwf Hn) as (it & -> & _). cbn [mbind res_bind]. by rewrite read_prefix.
Qed.

Lemma ReadInt_spec t b :
  wf b → int_size t ≤ length (content b) →
  ∃ b', ReadInt t b = Ok (NetToHost t (from_mem t (take (int_size t) (content b))), b') ∧ wf b' ∧
    content b' = drop (int_size t) (content b).
Proof.
  intros Hwf Hn. unfold ReadInt. rewrite PeekInt_spec by done. cbn [mbind res_bind].
  destruct (ob_Retrive_spec b _ Hwf Hn) as (b' & -> & ? & ?). eauto.
Qed.

Lemma search_range pat s i : search pat s = Some i → i ≤ length s.
Proof.
  revert i. induction s as [|c s IH]; intros i; cbn [search]; case_decide; try (intros [= <-]; lia); try done.
  destruct (search pat s) as [j|]; [|done]. intros [= <-]. pose proof (IH j eq_refl). cbn. lia.
Qed.

(** The searches find the first occurrence at or after [start], or the end. *)
Lemma FindFrom_spec b pat k :
  wf b → k ≤ length (content b) →
  ∃ start it, it_add (buffer_list_ b) (read_index_ b) (Z.of_nat k) = Ok start ∧ FindFrom b start pat = Ok it ∧
    cur_ it < K ∧ it_sub it (read_index_ b) =
      Z.of_nat (match search pat (drop k (content b)) with Some i => k + i | None => length (content b) end).
Proof.
  intros Hwf Hk. rewrite ob_content_length in Hk by done.
  destruct (view b Hwf) as (bl & r & w & -> & Hbl & Hrw & Hw). cbn [buffer_list_ read_index_ write_index_] in *.
  rewrite !pos_of_pos in Hk. exists (of_pos (r + k)).
  assert (∀ n, r + n ≤ w → it_add bl (of_pos r) (Z.of_nat n) = Ok (of_pos (r + n))) as Hadd
    by (intros; apply it_add_spec; [apply of_pos_cur|rewrite pos_of_pos; lia|lia]).
  rewrite Hadd by lia. unfold FindFrom. cbn [buffer_list_ read_index_ write_index_].
  rewrite it_sub_spec, !pos_of_pos. replace (Z.to_nat (Z.of_nat w - Z.of_nat (r + k))) with (w - (r + k)) by lia.
  rewrite read_range_spec by (done || lia). cbn [mbind res_bind].
  rewrite content_mk. rewrite drop_drop, <- skipn_firstn_comm.
  pose proof (search_range pat (drop (r + k) (take w (concat bl)))) as Hs.
  destruct (search _ _) as [i|].
  - specialize (Hs i eq_refl). rewrite length_drop, length_take, length_mem in Hs by done.
    rewrite (it_add_spec _ _ _ (r + k + i)); [|apply of_pos_cur|rewrite pos_of_pos; lia|lia].
    eexists. split_and!; [done|reflexivity|apply of_pos_cur|]. rewrite it_sub_spec, !pos_of_pos. lia.
  - eexists. split_and!; [done|reflexivity|apply of_pos_cur|]. rewrite it_sub_spec, !pos_of_pos, length_drop, length_take, length_mem by done. lia.
Qed.

(** The answer of a search from [k], as a distance from [cbegin()]. *)
Definition found (pat q : bytes) (k : nat) : nat :=
  match search pat (drop k q) with Some i => k + i | None => length q end.

Lemma found_range pat q k : k ≤ length q → k ≤ found pat q k ≤ length q.
Proof.
  intros Hk. unfold found. pose proof (search_range pat (drop k q)) as H. rewrite length_drop in H.
  destruct (search _ _) as [i|]; [|lia]. pose proof (H i eq_refl). lia.
Qed.

(** An iterator that far from [cbegin()] is in the readable range. *)
Lemma in_range b it n :
  wf b → cur_ it < K → it_sub it (read_index_ b) = Z.of_nat n → n ≤ length (content b) →
  it_leb it (write_index_ b) = true ∧ it_leb (read_index_ b) it = true.
Proof.
  intros Hwf Hc E Hn. rewrite ob_content_length in Hn by done. rewrite it_sub_spec in E. destruct Hwf.
  rewrite !it_leb_spec by done. split; apply bool_decide_true; lia.
Qed.

(** A search from [start], which has to be before the end. *)
Lemma FindFrom_checked b pat k :
  wf b →
  let r := start ← it_add (buffer_list_ b) (read_index_ b) (Z.of_nat k);
           _ ← assert (it_leb start (write_index_ b)); FindFrom b start pat in
  if decide (k ≤ length (content b))
  then ∃ it, r = Ok it ∧ cur_ it < K ∧ it_sub it (read_index_ b) = Z.of_nat (found pat (content b) k)
  else is_ok r = false.
Proof.
  intros Hwf r. unfold r. case_decide as Hk.
  - destruct (FindFrom_spec b pat k Hwf Hk) as (start & it & E & E' & Hc & Ei).
    destruct (begin_add b k Hwf Hk) as (start' & E1 & _ & Hle & _). rewrite E in E1. injection E1 as <-.
    rewrite E. cbn [mbind res_bind]. rewrite Hle. cbn [assert mbind res_bind]. by exists it.
  - destruct (it_add _ _ _) as [start|] eqn:E; [|done]. destruct (it_add_pos _ _ _ _ (wf_read b Hwf) E) as [Ep Hc].
    cbn [mbind res_bind]. rewrite (it_leb_spec start (write_index_ b)) by (done || apply Hwf).
    rewrite ob_content_length in Hk by done. pose proof (wf_order b Hwf). by rewrite bool_decide_false by lia.
Qed.

(** [swap] exchanges what the buffers hold. *)
Lemma swap_content b rhs :
  wf b → wf rhs → wf (swap b rhs).1 ∧ wf (swap b rhs).2 ∧ content (swap b rhs).1 = content rhs ∧ content (swap b rhs).2 = content b.
Proof. by destruct b, rhs. Qed.

Lemma GetPrependableBytes_spec b : wf b → GetPrependableBytes b = Ok (pos (read_index_ b)).
Proof.
  intros []. unfold GetPrependableBytes, iter_of. assert (0 < length (buffer_list_ b)) as Hl by k_lia.
  destruct (lookup_lt_is_Some_2 _ _ Hl) as (blk & ->). cbn [deref mbind res_bind].
  rewrite it_sub_spec. unfold pos at 2. cbn. f_equal. lia.
Qed.

Lemma Prepend_spec b d :
  wf b → length d ≤ pos (read_index_ b) →
  ∃ b', Prepend b d (length d) = Ok b' ∧ wf b' ∧ content b' = d ++ content b.
Proof.
  intros Hwf Hd. unfold Prepend. rewrite GetPrependableBytes_spec by done. cbn [mbind res_bind].
  rewrite bool_decide_true by done. cbn [assert mbind res_bind].
  destruct (view b Hwf) as (bl & r & w & -> & Hbl & Hrw & Hw). cbn [buffer_list_ read_index_ write_index_] in *.
  rewrite pos_of_pos in *.
  rewrite (it_add_spec _ _ _ (r - length d)); [|apply of_pos_cur|rewrite pos_of_pos; lia|lia].
  cbn [mbind res_bind]. unfold read_mem. rewrite decide_True, take_ge by lia. cbn [mbind res_bind].
  destruct (write_range_spec bl (r - length d) d Hbl) as (bl' & -> & Hbl' & Hl' & Hc'); [lia|].
  cbn [mbind res_bind]. eexists. split; [reflexivity|]. split; [apply wf_mk; [done|lia..]|].
  rewrite !content_mk, Hc'. set (p := r - length d). unfold overwrite.
  assert (length (take p (concat bl)) = p) as Hp by (rewrite length_take, length_mem by done; lia).
  rewrite !skipn_firstn_comm, drop_app_ge, Hp, Nat.sub_diag, drop_0 by lia.
  rewrite take_app_ge by lia. replace (w - p - length d) with (w - r) by lia.
  by replace (p + length d) with r by lia.
Qed.

(** ** Runs of operations against the list of bytes *)

Inductive op :=
  | OpAppend (d : bytes)
  | OpAppendInt (t : int_type) (x : Z)
  | OpRetrive (n : nat)
  | OpRetriveAll
  | OpRetriveAsString (n : nat)
  | OpReadInt (t : int_type)
  | OpUnWrite (n : nat)
  | OpPeekAll
  | OpFind (pat : bytes)
  | OpFindCRLF (start : option nat)   (** from [cbegin() + start], if given *)
  | OpFindEOL (start : option nat)
  | OpRetriveUtil (pat : bytes)   (** up to where [Find] finds [pat] *)
  | OpRetriveAllAsString
  | OpRetriveCRLF
  | OpRetriveEOL
  | OpRetriveInt (t : int_type)
  | OpAppendBuffer (d : bytes)   (** of a buffer that holds [d] *)
  | OpReadFd (r : ChainBuffer.readv_result)
  | OpWriteFd (room : nat).

(** What an operation answers: bytes, an integer or a position. *)
Inductive answer := ANone | ABytes (d : bytes) | AInt (x : Z).

Definition mute (r : res Buffer) : res (answer * Buffer) := b ← r; Ok (ANone, b).

(** A socket with room for [n] bytes. *)
Definition room_for (n : nat) : ChainBuffer.writev_fn := λ d, ChainBuffer.WritevN (Nat.min n (length d)).

Section runs.
Variable junk : bytes.

Definition run_op (b : Buffer) (o : op) : res (answer * Buffer) :=
  match o with
  | OpAppend d => mute (Append junk b d (length d))
  | OpAppendInt t x => mute (AppendInt junk t b x)
  | OpRetrive n => mute (Retrive b n)
  | OpRetriveAll => mute (RetriveAll b)
  | OpRetriveAsString n => '(d, b) ← RetriveAsString b n; Ok (ABytes d, b)
  | OpReadInt t => '(x, b) ← ReadInt t b; Ok (AInt x, b)
  | OpUnWrite n => mute (UnWrite b n)
  | OpPeekAll => d ← PeekAllAsString b; Ok (ABytes d, b)
  | OpFind pat => it ← Find b pat; Ok (AInt (it_sub it (read_index_ b)), b)
  | OpFindCRLF start =>
      it ← match start with
           | Some k => start ← it_add (buffer_list_ b) (read_index_ b) (Z.of_nat k); FindCRLF_from b start
           | None => FindCRLF b
           end;
      Ok (AInt (it_sub it (read_index_ b)), b)
  | OpFindEOL start =>
      it ← match start with
           | Some k => start ← it_add (buffer_list_ b) (read_index_ b) (Z.of_nat k); FindEOL_from b start
           | None => FindEOL b
           end;
      Ok (AInt (it_sub it (read_index_ b)), b)
  | OpRetriveUtil pat => it ← Find b pat; mute (RetriveUtil b it)
  | OpRetriveAllAsString => '(d, b) ← RetriveAllAsString b; Ok (ABytes d, b)
  | OpRetriveCRLF => mute (RetriveCRLF b)
  | OpRetriveEOL => mute (RetriveEOL b)
  | OpRetriveInt t => mute (RetriveInt t b)
  | OpAppendBuffer d =>
      buffer ← Buffer_new junk kInitialBufferNum; buffer ← Append junk buffer d (length d); mute (AppendBuffer junk b buffer)
  | OpReadFd r => '(n, _, b) ← ReadFd junk (λ _, r) b; Ok (AInt n, b)
  | OpWriteFd n => '(_, _, d, b) ← WriteFd (room_for n) b; Ok (ABytes d, b)
  end.

Fixpoint run_ops (b : Buffer) (ops : list op) : res (list answer * Buffer) :=
  match ops with
  | [] => Ok ([], b)
  | o :: ops => '(a, b) ← run_op b o; '(al, b) ← run_ops b ops; Ok (a :: al, b)
  end.
End runs.

(** The same on the bytes; [None]: the operation fails. *)
Definition spec_find (pat q : bytes) (start : option nat) : option (answer * bytes) :=
  let k := default 0 start in
  if decide (k ≤ length q) then Some (AInt (Z.of_nat (found pat q k)), q) else None.

Definition spec_retrive (n : nat) (q : bytes) : option (answer * bytes) :=
  if decide (n ≤ length q) then Some (ANone, drop n q) else None.

Definition spec_op (q : bytes) (o : op) : option (answer * bytes) :=
  match o with
  | OpAppend d => Some (ANone, q ++ d)
  | OpAppendInt t x => Some (ANone, q ++ to_mem t (HostToNet t x))
  | OpRetrive n => spec_retrive n q
  | OpRetriveAll => Some (ANone, [])
  | OpRetriveAsString n => if decide (n ≤ length q) then Some (ABytes (take n q), drop n q) else None
  | OpReadInt t =>
      if decide (int_size t ≤ length q)
      then Some (AInt (NetToHost t (from_mem t (take (int_size t) q))), drop (int_size t) q) else None
  | OpUnWrite n => if decide (n ≤ length q) then Some (ANone, take (length q - n) q) else None
  | OpPeekAll => Some (ABytes q, q)
  | OpFind pat => Some (AInt (Z.of_nat (default (length q) (search pat q))), q)
  | OpFindCRLF start => spec_find kCRLF q start
  | OpFindEOL start => spec_find ["010"%char] q start
  | OpRetriveUtil pat => spec_retrive (default (length q) (search pat q)) q
  | OpRetriveAllAsString => Some (ABytes q, [])
  | OpRetriveCRLF => spec_retrive 2 q
  | OpRetriveEOL => spec_retrive 1 q
  | OpRetriveInt t => spec_retrive (int_size t) q
  | OpAppendBuffer d => Some (ANone, q ++ d)
  | OpReadFd (ChainBuffer.ReadvErr e) => Some (AInt (-1), q)
  | OpReadFd (ChainBuffer.ReadvData d) => Some (AInt (Z.of_nat (length d)), q ++ d)
  | OpWriteFd n => Some (ABytes (take n q), drop n q)
  end.

Fixpoint spec_ops (q : bytes) (ops : list op) : option (list answer * bytes) :=
  match ops with
  | [] => Some ([], q)
  | o :: ops => '(a, q) ← spec_op q o; '(al, q) ← spec_ops q ops; Some (a :: al, q)
  end.

Lemma room_for_ok n : ChainBuffer.writev_ok (room_for n).
Proof. intros d m [= <-]. lia. Qed.

Lemma it_add_0 b : wf b → it_add (buffer_list_ b) (read_index_ b) 0 = Ok (read_index_ b).
Proof.
  intros Hwf. rewrite (it_add_spec _ _ _ (pos (read_index_ b))); [by rewrite of_pos_pos by apply Hwf|apply Hwf|lia|].
  pose proof (wf_order b Hwf). pose proof (wf_end b Hwf). lia.
Qed.

Section runs_spec.
Variable junk : bytes.
Hypothesis Hjunk : length junk = K.

Lemma AppendInt_spec t b x :
  wf b → ∃ b', AppendInt junk t b x = Ok b' ∧ wf b' ∧ content b' = content b ++ to_mem t (HostToNet t x).
Proof.
  intros Hwf. unfold AppendInt. pose proof (length_to_mem t (HostToNet t x)) as El.
  destruct (ob_Append_spec junk Hjunk b (to_mem t (HostToNet t x)) (int_size t) Hwf) as (b' & -> & ? & Hc); [lia|].
  exists b'. rewrite take_ge in Hc by lia. done.
Qed.

Ltac close_op :=
  match goal with
  | H : ∃ b', _ = Ok b' ∧ wf b' ∧ content b' = _ |- _ =>
      let b' := fresh "b'" in destruct H as (b' & -> & ? & ?); exists b'; done
  | H : ∃ b', _ = Ok (_, b') ∧ wf b' ∧ content b' = _ |- _ =>
      let b' := fresh "b'" in destruct H as (b' & -> & ? & ?); exists b'; done
  end.

Lemma Find_spec b pat :
  wf b → ∃ it, FindFrom b (read_index_ b) pat = Ok it ∧ cur_ it < K ∧ it_sub it (read_index_ b) = Z.of_nat (found pat (content b) 0).
Proof.
  intros Hwf. destruct (FindFrom_spec b pat 0 Hwf ltac:(lia)) as (start & it & E1 & E2 & Hc & E3).
  rewrite it_add_0 in E1 by done. injection E1 as <-. by exists it.
Qed.

Lemma found_0 pat q : found pat q 0 = default (length q) (search pat q).
Proof. unfold found. rewrite drop_0. by destruct (search pat q). Qed.

(** The searches for the end of a line. *)
Lemma find_line_spec b pat start :
  wf b →
  let r := it ← match start with
                | Some k => start ← it_add (buffer_list_ b) (read_index_ b) (Z.of_nat k);
                            _ ← assert (it_leb start (write_index_ b)); FindFrom b start pat
                | None => FindFrom b (read_index_ b) pat
                end;
           Ok (AInt (it_sub it (read_index_ b)), b) in
  match spec_find pat (content b) start with Some (a, q) => r = Ok (a, b) ∧ q = content b | None => is_ok r = false end.
Proof.
  intros Hwf r. unfold r, spec_find. destruct start as [k|]; cbn [default id].
  - pose proof (FindFrom_checked b pat k Hwf) as Hf. cbv zeta in Hf. case_decide as Hk.
    + destruct Hf as (it & -> & _ & E). cbn [mbind res_bind]. by rewrite E.
    + match type of Hf with is_ok ?x = _ => by destruct x end.
  - rewrite decide_True by lia. destruct (Find_spec b pat Hwf) as (it & -> & _ & E). cbn [mbind res_bind]. by rewrite E.
Qed.

Lemma retrive_op_spec b n :
  wf b →
  match spec_retrive n (content b) with
  | Some (a, q) => ∃ b', mute (Retrive b n) = Ok (a, b') ∧ wf b' ∧ content b' = q
  | None => is_ok (mute (Retrive b n)) = false
  end.
Proof.
  intros Hwf. unfold spec_retrive. case_decide as Hn; [|by rewrite Retrive_over by (done || lia)].
  pose proof (ob_Retrive_spec b n Hwf Hn). close_op.
Qed.

Lemma ob_run_op_spec b o :
  wf b →
  match spec_op (content b) o with
  | Some (a, q) => ∃ b', run_op junk b o = Ok (a, b') ∧ wf b' ∧ content b' = q
  | None => is_ok (run_op junk b o) = false
  end.
Proof.
  intros Hwf. destruct o as [d|t x|n| |n|t|n| |pat|st|st|pat| | | |t|d|r|n]; cbn [spec_op run_op].
  - pose proof (ob_Append_spec junk Hjunk b d (length d) Hwf (le_n _)) as H. rewrite take_ge in H by lia. close_op.
  - pose proof (AppendInt_spec t b x Hwf). close_op.
  - by apply retrive_op_spec.
  - unfold RetriveAll. pose proof (ResetIndex_spec b Hwf). close_op.
  - case_decide as Hn; [pose proof (RetriveAsString_spec b n Hwf Hn); close_op|].
    pose proof (RetriveAsString_over b n Hwf ltac:(lia)) as H. by destruct (RetriveAsString b n).
  - case_decide as Hn; [pose proof (ReadInt_spec t b Hwf Hn); close_op|].
    unfold ReadInt, PeekInt. rewrite ReadableBytes_spec by done. by rewrite bool_decide_false by lia.
  - case_decide as Hn; [pose proof (ob_UnWrite_spec b n Hwf Hn); close_op|].
    unfold UnWrite. rewrite ReadableBytes_spec by done. by rewrite bool_decide_false by lia.
  - unfold PeekAllAsString. rewrite read_content by done. by exists b.
  - destruct (Find_spec b pat Hwf) as (it & E & _ & Ei). unfold Find. rewrite E. cbn [mbind res_bind].
    rewrite Ei, found_0. by exists b.
  - pose proof (find_line_spec b kCRLF st Hwf) as H. cbv zeta in H. unfold FindCRLF, FindCRLF_from.
    destruct (spec_find _ _ _) as [[a q]|]; [|done]. destruct H as [-> ->]. by exists b.
  - pose proof (find_line_spec b ["010"%char] st Hwf) as H. cbv zeta in H. unfold FindEOL, FindEOL_from.
    destruct (spec_find _ _ _) as [[a q]|]; [|done]. destruct H as [-> ->]. by exists b.
  - destruct (Find_spec b pat Hwf) as (it & E & Hc & Ei). unfold Find. rewrite E. cbn [mbind res_bind].
    pose proof (found_range pat (content b) 0 ltac:(lia)) as [_ Hle]. destruct (in_range b it _ Hwf Hc Ei Hle) as [H1 H2].
    unfold RetriveUtil. rewrite H1, H2, Ei, Nat2Z.id, found_0. cbn [assert mbind res_bind]. by apply retrive_op_spec.
  - unfold RetriveAllAsString, RetriveAsStringUtil, RetriveUtil.
    assert (it_sub (write_index_ b) (read_index_ b) = Z.of_nat (length (content b))) as Es.
    { rewrite it_sub_spec, ob_content_length by done. pose proof (wf_order b Hwf). lia. }
    destruct (in_range b (write_index_ b) _ Hwf (wf_write b Hwf) Es (le_n _)) as [H1 H2]. rewrite H1, H2, Es, Nat2Z.id.
    cbn [assert mbind res_bind]. rewrite read_prefix, take_ge by (done || lia). cbn [mbind res_bind].
    destruct (ob_Retrive_spec b (length (content b)) Hwf (le_n _)) as (b' & -> & ? & E). exists b'.
    by rewrite E, drop_ge by lia.
  - by apply retrive_op_spec.
  - by apply retrive_op_spec.
  - by apply retrive_op_spec.
  - destruct (Buffer_new_spec junk Hjunk kInitialBufferNum) as (s & -> & Hs & Ec); [unfold kInitialBufferNum; lia|].
    cbn [mbind res_bind]. destruct (ob_Append_spec junk Hjunk s d (length d) Hs (le_n _)) as (s' & -> & Hs' & Ec').
    cbn [mbind res_bind]. destruct (AppendBuffer_spec junk Hjunk b s' Hwf Hs') as (b' & -> & ? & Eb). exists b'.
    rewrite Eb, Ec', Ec, take_ge by lia. done.
  - destruct (ob_ReadFd_spec junk Hjunk (λ _, r) b Hwf) as (_ & Hr). destruct r as [e|d].
    + rewrite Hr. by exists b.
    + destruct Hr as (b' & -> & ? & ?). by exists b'.
  - pose proof (ob_WriteFd_spec (room_for n) b Hwf (room_for_ok n)) as H. cbn [room_for] in H.
    destruct H as (b' & -> & _ & ? & Hc). exists b'.
    assert (take (n `min` length (content b)) (content b) = take n (content b)) as ->
      by (rewrite <- take_take, (take_ge (content b)) by lia; done).
    rewrite Hc. split; [done|]. split; [done|]. destruct (decide (n ≤ length (content b))).
    + by rewrite Nat.min_l by lia.
    + by rewrite !drop_ge by lia.
Qed.

Lemma ob_run_ops_spec ops : ∀ b,
  wf b →
  match spec_ops (content b) ops with
  | Some (al, q) => ∃ b', run_ops junk b ops = Ok (al, b') ∧ wf b' ∧ content b' = q
  | None => is_ok (run_ops junk b ops) = false
  end.
Proof.
  induction ops as [|o ops IH]; intros b Hwf; [by exists b|]. cbn [spec_ops run_ops].
  pose proof (ob_run_op_spec b o Hwf) as Ho. destruct (spec_op (content b) o) as [[a q]|]; cbn [mbind option_bind].
  - destruct Ho as (b1 & -> & Hwf1 & <-). cbn [mbind res_bind]. pose proof (IH b1 Hwf1) as H.
    destruct (spec_ops (content b1) ops) as [[al q]|]; cbn [mbind option_bind].
    + destruct H as (b' & -> & ? & ?). by exists b'.
    + by destruct (run_ops junk b1 ops).
  - by destruct (run_op junk b o).
Qed.
End runs_spec.

(** C25: a buffer of one block or more behaves as the list of the bytes
    appended and not yet retrieved, whatever the blocks hold when they are
    allocated: every run of operations that the list allows ends without a
    fault and with the same answers, and a run in which some operation takes
    more than there is fails. *)
Theorem old_buffer_refines_queue junk n ops :
  length junk = kBufferSize → 0 < n →
  ∃ b, Buffer_new junk n = Ok b ∧
    match spec_ops [] ops with
    | Some (al, q) => ∃ b', run_ops junk b ops = Ok (al, b') ∧ PeekAllAsString b' = Ok q ∧ ReadableBytes b' = length q
    | None => is_ok (run_ops junk b ops) = false
    end.
Proof.
  intros Hj Hn. destruct (Buffer_new_spec junk Hj n Hn) as (b & E & Hwf & Hc). exists b. split; [done|].
  pose proof (ob_run_ops_spec junk Hj ops b Hwf) as H. rewrite Hc in H.
  destruct (spec_ops [] ops) as [[al q]|]; [|done]. destruct H as (b' & E' & Hwf' & <-).
  exists b'. split_and!; [done|by apply read_content|by apply ReadableBytes_spec].
Qed.

Definition demo_junk : bytes := replicate kBufferSize "?"%char.
Definition demo_ops : list op :=
  [OpAppend (B "GET /"); OpAppendInt uint32_t 258; OpFind (B "/"); OpRetriveAsString 5; OpFindCRLF (Some 2); OpReadInt uint32_t;
   OpReadFd (ChainBuffer.ReadvData (replicate (Z.to_nat 5000) "a"%char)); OpUnWrite 4990; OpWriteFd 6; OpPeekAll].

Lemma old_buffer_refines_queue_witness :
  ∃ b b', Buffer_new demo_junk 1 = Ok b ∧
    run_ops demo_junk b demo_ops =
      Ok ([ANone; ANone; AInt 4; ABytes (B "GET /"); AInt 4; AInt 258; AInt 5000; ANone; ABytes (B "aaaaaa"); ABytes (B "aaaa")], b') ∧
    PeekAllAsString b' = Ok (B "aaaa").
Proof.
  destruct (old_buffer_refines_queue demo_junk 1 demo_ops) as (b & E & H);
    [apply length_replicate|lia|].
  exists b. replace (spec_ops [] demo_ops) with
    (Some ([ANone; ANone; AInt 4; ABytes (B "GET /"); AInt 4; AInt 258; AInt 5000; ANone; ABytes (B "aaaaaa"); ABytes (B "aaaa")], B "aaaa")) in H
    by (vm_compute; reflexivity).
  destruct H as (b' & ? & ? & _). by exists b'.
Defined.

(** The space kept in front of the data: after the buffer is created
    or emptied, a message can be appended and an integer of up to eight bytes
    put in front of it, and the receiver reads the integer, in network order,
    and then the message. *)
Theorem old_buffer_cheap_prepend junk b b0 t x d :
  length junk = kBufferSize → wf b → RetriveAll b = Ok b0 →
  is_signed t = false ∨ t = int32_t → in_type t x →
  ∃ b1 b2 b3, Append junk b0 d (length d) = Ok b1 ∧ PrependInt t b1 x = Ok b2 ∧
    PeekAllAsString b2 = Ok (rev (to_mem t x) ++ d) ∧
    ReadInt t b2 = Ok (x, b3) ∧ PeekAllAsString b3 = Ok d.
Proof.
  intros Hj Hwf E0 Ht Hx.
  assert (pos (read_index_ b0) = kCheapPrepend ∧ wf b0 ∧ content b0 = []) as (Hp & Hwf0 & Hc0).
  { destruct (ResetIndex_spec b Hwf) as (b0' & E & Hwf0 & Hc0). unfold RetriveAll in E0. rewrite E0 in E.
    injection E as ->. split; [|done]. unfold ResetIndex in E0.
    assert (kCheapPrepend < length (buffer_list_ b) * K) as Hk by (pose proof (wf_end b Hwf); pose proof K_pos; k_lia).
    rewrite (iter_at_spec _ 0 kCheapPrepend) in E0 by done. injection E0 as <-. cbn [read_index_]. apply pos_of_pos. }
  destruct (Append_reserve junk Hj b0 d (length d) Hwf0 (le_n _)) as (b1 & E1 & Hwf1 & Hc1 & Hr1).
  rewrite Hc0, take_ge in Hc1 by lia. pose proof (length_to_mem t (HostToNet t x)) as El.
  assert (int_size t ≤ kCheapPrepend) as Hs by (unfold kCheapPrepend; destruct t; cbn; lia).
  destruct (Prepend_spec b1 (to_mem t (HostToNet t x)) Hwf1) as (b2 & E2 & Hwf2 & Hc2);
    [specialize (Hr1 ltac:(lia)); lia|].
  destruct (net_order t x Ht Hx) as [Hm Hn]. rewrite Hc1, Hm in Hc2.
  assert (length (rev (to_mem t x)) = int_size t) as Er by (by rewrite length_rev, length_to_mem).
  destruct (ReadInt_spec t b2 Hwf2) as (b3 & E3 & Hwf3 & Hc3); [rewrite Hc2, length_app; lia|].
  rewrite Hc2, take_app_length' in E3 by lia. rewrite Hc2, drop_app_length' in Hc3 by lia.
  exists b1, b2, b3. split; [done|]. unfold PrependInt. rewrite <- El, E2. split; [done|].
  rewrite Hn in E3. split_and!; [|done|]; unfold PeekAllAsString; rewrite read_content by done; f_equal; assumption.
Qed.

Lemma old_buffer_cheap_prepend_witness :
  ∃ b b0 b1 b2 b3, Buffer_new demo_junk 2 = Ok b ∧ RetriveAll b = Ok b0 ∧
    Append demo_junk b0 (B "hello") 5 = Ok b1 ∧ PrependInt uint16_t b1 5 = Ok b2 ∧
    ReadInt uint16_t b2 = Ok (5%Z, b3) ∧ PeekAllAsString b3 = Ok (B "hello").
Proof.
  assert (length demo_junk = K) as Hj by apply length_replicate.
  destruct (Buffer_new_spec demo_junk Hj 2) as (b & E & Hwf & _); [lia|].
  destruct (ResetIndex_spec b Hwf) as (b0 & E0 & _).
  destruct (old_buffer_cheap_prepend demo_junk b b0 uint16_t 5 (B "hello") Hj Hwf E0)
    as (b1 & b2 & b3 & ? & ? & _ & ? & ?); [by left|reflexivity|].
  by exists b, b0, b1, b2, b3.
Defined.

(** Iterators are positions: moving by [n] lands [n] bytes further in
    whatever block, the difference of two iterators is the distance, the
    comparisons compare positions, [++] moves by one, and leaving the blocks
    is undefined behaviour. *)
Theorem old_buffer_iterators bl a b n :
  blocks_ok bl → cur_ a < kBufferSize → cur_ b < kBufferSize →
  it_sub a b = (Z.of_nat (pos a) - Z.of_nat (pos b))%Z ∧
  it_leb a b = bool_decide (pos a ≤ pos b) ∧ it_eqb a b = bool_decide (pos a = pos b) ∧
  it_incr bl a = (if decide (S (pos a) < length bl * kBufferSize ∨ S (cur_ a) < kBufferSize)
                  then Ok (of_pos (S (pos a))) else Fault EndDeref) ∧
  (∀ c, it_add bl a n = Ok c → it_sub c a = n) ∧
  (0 ≤ Z.of_nat (pos a) + n < Z.of_nat (length bl * kBufferSize) →
     it_add bl a n = Ok (of_pos (Z.to_nat (Z.of_nat (pos a) + n))))%Z.
Proof.
  intros Hbl Ha Hb. split_and!.
  - apply it_sub_spec.
  - by apply it_leb_spec.
  - by apply it_eqb_spec.
  - apply it_incr_total, Ha.
  - intros c Hc. apply it_add_pos in Hc; [|done]. rewrite it_sub_spec. lia.
  - intros Hn. apply it_add_spec; [done|lia|lia].
Qed.

Lemma old_buffer_iterators_witness :
  let bl := [demo_junk; demo_junk] in
  it_add bl (of_pos 2000) 100 = Ok (of_pos (Z.to_nat (Z.of_nat (pos (of_pos 2000)) + 100))).
Proof.
  apply (old_buffer_iterators [demo_junk; demo_junk] (of_pos 2000) (of_pos 0) 100).
  - repeat constructor.
  - apply of_pos_cur.
  - apply of_pos_cur.
  - rewrite pos_of_pos. cbn [length]. pose proof K_eq. lia.
Defined.

(** [--] only moves at the start of a block. *)
Lemma decrement_stays bl it : 0 < cur_ it → it_decr bl it = Ok it.
Proof. intros. unfold it_decr. by rewrite decide_False by lia. Qed.
