(* ===== verification/Connector.v ===== *)
(** Connecting with retries: [muzi/net/connector.h] and [connector.cc].
    Sockets are numbered in the order of their creation.  The answers of the
    system calls, [connect], [getsockopt] and the test for a self-connection,
    are arguments of the steps; timers are the pending calls of
    [StartInLoop], with their delay in milliseconds, as in [TimerQueue]. *)

From S2P Require Import Prelude Poller.
Local Open Scope Z_scope.

Definition kInitRetryDelayMs : Z := 500.
Definition kMaxRetryDelayMs : Z := 30 * 1000.

Inductive State := kDisConnected | kConnecting | kConnected.
#[export] Instance State_eq_dec : EqDecision State.
Proof. solve_decision. Defined.

(** The functors bound to a connector. *)
Inductive ctask := TStartInLoop | TStopInLoop | TResetChannel.
#[export] Instance ctask_eq_dec : EqDecision ctask.
Proof. solve_decision. Defined.

(** A socket is open, closed, or was handed to the callback. *)
Inductive sock := SOpen | SClosed | SHanded.
#[export] Instance sock_eq_dec : EqDecision sock.
Proof. solve_decision. Defined.

(** The thread in [StopAndWait]: between the queueing of [StopInLoop] and
    [condition_.Wait()], asleep, or past the wait. *)
Inductive waiter := Idle | BeforeWait | Waiting | Woken.
#[export] Instance waiter_eq_dec : EqDecision waiter.
Proof. solve_decision. Defined.

(** [tasks], [timers], [created] and [socks] are the queue of the loop, its
    pending timers and their number so far, and the sockets. *)
Record Connector := mkConnector {
  connect_ : bool;
  channel_ : option chan_abs;
  state_ : State;
  retry_delay_ : Z;
  timer_id_ : Z;
  new_connection_callback_ : bool;
  tasks : list ctask;
  timers : gmap Z Z;
  created : Z;
  socks : list sock;
  stopper : waiter
}.

Definition Connector_new (cb : bool) : Connector :=
  mkConnector false None kDisConnected kInitRetryDelayMs (-1) cb [] ∅ 0 [] Idle.

Definition set_connect (v : bool) (c : Connector) : Connector :=
  mkConnector v (channel_ c) (state_ c) (retry_delay_ c) (timer_id_ c) (new_connection_callback_ c)
    (tasks c) (timers c) (created c) (socks c) (stopper c).
Definition set_channel (v : option chan_abs) (c : Connector) : Connector :=
  mkConnector (connect_ c) v (state_ c) (retry_delay_ c) (timer_id_ c) (new_connection_callback_ c)
    (tasks c) (timers c) (created c) (socks c) (stopper c).
Definition set_state (v : State) (c : Connector) : Connector :=
  mkConnector (connect_ c) (channel_ c) v (retry_delay_ c) (timer_id_ c) (new_connection_callback_
c) (tasks c) (timers c) (created c) (socks c) (stopper c).
Definition set_retry_delay (v : Z) (c : Connector) : Connector :=
  mkConnector (connect_ c) (channel_ c) (state_ c) v (timer_id_ c) (new_connection_callback_ c)
    (tasks c) (timers c) (created c) (socks c) (stopper c).
Definition set_timer_id (v : Z) (c : Connector) : Connector :=
  mkConnector (connect_ c) (channel_ c) (state_ c) (retry_delay_ c) v (new_connection_callback_ c)
    (tasks c) (timers c) (created c) (socks c) (stopper c).
Definition set_tasks (v : list ctask) (c : Connector) : Connector :=
  mkConnector (connect_ c) (channel_ c) (state_ c) (retry_delay_ c) (timer_id_ c)
    (new_connection_callback_ c) v (timers c) (created c) (socks c) (stopper c).
Definition set_timers (v : gmap Z Z) (c : Connector) : Connector :=
  mkConnector (connect_ c) (channel_ c) (state_ c) (retry_delay_ c) (timer_id_ c)
    (new_connection_callback_ c) (tasks c) v (created c) (socks c) (stopper c).
Definition set_created (v : Z) (c : Connector) : Connector :=
  mkConnector (connect_ c) (channel_ c) (state_ c) (retry_delay_ c) (timer_id_ c)
    (new_connection_callback_ c) (tasks c) (timers c) v (socks c) (stopper c).
Definition set_socks (v : list sock) (c : Connector) : Connector :=
  mkConnector (connect_ c) (channel_ c) (state_ c) (retry_delay_ c) (timer_id_ c)
    (new_connection_callback_ c) (tasks c) (timers c) (created c) v (stopper c).
Definition set_stopper (v : waiter) (c : Connector) : Connector :=
  mkConnector (connect_ c) (channel_ c) (state_ c) (retry_delay_ c) (timer_id_ c)
    (new_connection_callback_ c) (tasks c) (timers c) (created c) (socks c) v.

Definition queue_task (t : ctask) (c : Connector) : Connector := set_tasks (tasks c ++ [t]) c.

(** [socket::Close]: closing a descriptor twice would close somebody
    else's. *)
Definition Close (fd : Z) (c : Connector) : res Connector :=
  if decide (socks c !! Z.to_nat fd = Some SOpen)
  then Ok (set_socks (<[Z.to_nat fd := SClosed]> (socks c)) c) else Fault UseAfterFree.

Definition Retry (sock_fd : Z) (c : Connector) : res Connector :=
  c ← Close sock_fd c;
  let c := set_state kDisConnected c in
  if connect_ c then
    let id := created c in
    let c := set_timer_id id (set_created (id + 1) (set_timers (<[id := retry_delay_ c]> (timers c)) c)) in
    Ok (set_retry_delay (Z.min (retry_delay_ c * 2) kMaxRetryDelayMs) c)
  else Ok c.

Definition Connecting (sock_fd : Z) (c : Connector) : res Connector :=
  _ ← assert (bool_decide (channel_ c = None));
  let c := set_state kConnecting c in
  x ← chan_enable_writting (mkAbs sock_fd kNoneEvent Fresh);
  Ok (set_channel (Some x) c).

Definition EINPROGRESS : Z := 115.
Definition EINTR : Z := 4.
Definition EISCONN : Z := 106.
Definition EAGAIN : Z := 11.
Definition EADDRINUSE : Z := 98.
Definition EADDRNOTAVAIL : Z := 99.
Definition ECONNREFUSED : Z := 111.
Definition ENETUNREACH : Z := 101.

(** [saved_errno]: the answer of [connect(2)]. *)
Definition Connect (saved_errno : Z) (c : Connector) : res Connector :=
  _ ← assert (bool_decide (state_ c = kDisConnected));
  let sock_fd := Z.of_nat (length (socks c)) in
  let c := set_socks (socks c ++ [SOpen]) c in
  if bool_decide (saved_errno ∈ [0; EINPROGRESS; EINTR; EISCONN]) then Connecting sock_fd c
  else if bool_decide (saved_errno ∈ [EAGAIN; EADDRINUSE; EADDRNOTAVAIL; ECONNREFUSED; ENETUNREACH])
  then Retry sock_fd c
  else Close sock_fd c.

Definition StartInLoop (saved_errno : Z) (c : Connector) : res Connector :=
  if connect_ c && bool_decide (state_ c = kDisConnected) then Connect saved_errno c else Ok c.

Definition RemoveAndResetChannel (c : Connector) : res (Z * Connector) :=
  x ← deref NullDeref (channel_ c);
  let sock_fd := a_fd x in
  x ← chan_disable_all x;
  x ← chan_remove x;
  Ok (sock_fd, queue_task TResetChannel (set_channel (Some x) c)).

(** [channel_.reset()]: [~Channel] asserts that the poller has let it go. *)
Definition ResetChannel (c : Connector) : res Connector :=
  _ ← assert (match channel_ c with Some x => bool_decide (a_status x ≠ Registered) | None => true end);
  Ok (set_channel None c).

Definition Notify (c : Connector) : Connector :=
  match stopper c with Waiting => set_stopper Woken c | _ => c end.

Definition StopInLoop (c : Connector) : res Connector :=
  let c := if bool_decide (timer_id_ c ≠ -1) then set_timers (delete (timer_id_ c) (timers c)) c else c in
  c ← (if negb (connect_ c) && bool_decide (state_ c = kConnecting)
       then '(sock_fd, c) ← RemoveAndResetChannel c; Retry sock_fd c else Ok c);
  Ok (Notify c).

(** [err] and [self]: the answers of [GetSocketError] and [IsSelfConnect]. *)
Definition HandleWrite (err : Z) (self : bool) (c : Connector) : res Connector :=
  if decide (state_ c = kConnecting) then
    '(sock_fd, c) ← RemoveAndResetChannel c;
    if decide (err ≠ 0) then Retry sock_fd c
    else if self then Retry sock_fd c
    else
      let c := set_state kConnected c in
      if new_connection_callback_ c
      then Ok (set_socks (<[Z.to_nat sock_fd := SHanded]> (socks c)) c)
      else Close sock_fd c
  else _ ← assert (bool_decide (state_ c = kDisConnected)); Ok c.

Definition HandleError (c : Connector) : res Connector :=
  if decide (state_ c = kConnecting) then
    '(sock_fd, c) ← RemoveAndResetChannel c; Retry sock_fd c
  else _ ← assert (bool_decide (state_ c = kDisConnected)); Ok c.

Definition Start (in_loop : bool) (saved_errno : Z) (c : Connector) : res Connector :=
  let c := set_connect true c in
  if in_loop then StartInLoop saved_errno c else Ok (queue_task TStartInLoop c).

(** [Stop] by the loop or by another thread, which waits for the functor. *)
Definition Stop (in_loop : bool) (c : Connector) : res Connector :=
  let c := set_connect false c in
  if in_loop then StopInLoop c else Ok (queue_task TStopInLoop c).

(** [StopAndWait], up to the wait. *)
Definition StopAndWait (in_loop : bool) (c : Connector) : res Connector :=
  let c := set_connect false c in
  if in_loop then StopInLoop c else Ok (set_stopper BeforeWait (queue_task TStopInLoop c)).

Definition ReStartInLoop (saved_errno : Z) (c : Connector) : res Connector :=
  StartInLoop saved_errno (set_retry_delay kInitRetryDelayMs (set_state kDisConnected (set_connect true c))).

(** ** Events *)

Inductive event :=
  | EvStart (in_loop : bool) (saved_errno : Z)
  | EvStop (in_loop : bool)
  | EvStopAndWait (in_loop : bool)
  | EvWait
  | EvReStart (saved_errno : Z)
  | EvWritable (err : Z) (self : bool)
  | EvTimer (id : Z) (saved_errno : Z)
  | EvTask (saved_errno : Z).

Definition run_task (t : ctask) (saved_errno : Z) (c : Connector) : res Connector :=
  match t with
  | TStartInLoop => StartInLoop saved_errno c
  | TStopInLoop => StopInLoop c
  | TResetChannel => ResetChannel c
  end.

Definition run_event (e : event) (c : Connector) : res Connector :=
  match e with
  | EvStart b err => Start b err c
  | EvStop b => Stop b c
  | EvStopAndWait b => StopAndWait b c
  | EvWait => Ok (if decide (stopper c = BeforeWait) then set_stopper Waiting c else c)
  | EvReStart err => ReStartInLoop err c
  | EvWritable err self => HandleWrite err self c
  | EvTimer id err => StartInLoop err (set_timers (delete id (timers c)) c)
  | EvTask err => match tasks c with [] => Ok c | t :: ts => run_task t err (set_tasks ts c) end
  end.

Fixpoint run_events (es : list event) (c : Connector) : res Connector :=
  match es with [] => Ok c | e :: es => c ← run_event e c; run_events es c end.

(** ** The invariant *)

(** Outside [kConnecting] there is no channel, or one that the poller has let
    go and that a queued functor will reset. *)
Definition idle_chan (c : Connector) : Prop :=
  channel_ c = None ∨
  ∃ fd, channel_ c = Some (mkAbs fd kNoneEvent Removed) ∧ TResetChannel ∈ tasks c.

Definition only_open (fd : Z) (c : Connector) : Prop :=
  0 ≤ fd ∧ socks c !! Z.to_nat fd = Some SOpen ∧ ∀ i, socks c !! i = Some SOpen → i = Z.to_nat fd.

Definition delay_ok (c : Connector) : Prop := kInitRetryDelayMs ≤ retry_delay_ c ≤ kMaxRetryDelayMs.

Definition con_inv (c : Connector) : Prop :=
  delay_ok c ∧
  match state_ c with
  | kConnecting => ∃ fd, channel_ c = Some (mkAbs fd kWriteEvent Registered) ∧ only_open fd c ∧
                         TResetChannel ∉ tasks c
  | _ => idle_chan c ∧ ∀ i, socks c !! i ≠ Some SOpen
  end.

Lemma con_inv_idle c :
  delay_ok c → state_ c ≠ kConnecting → idle_chan c → (∀ i, socks c !! i ≠ Some SOpen) → con_inv c.
Proof. intros ? Hs ? ?. split; [done|]. by destruct (state_ c). Qed.

Lemma con_inv_idle_inv c :
  con_inv c → state_ c ≠ kConnecting → idle_chan c ∧ (∀ i, socks c !! i ≠ Some SOpen).
Proof. intros [_ Hc] Hs. by destruct (state_ c). Qed.

Lemma con_inv_delay c : con_inv c → delay_ok c.
Proof. by intros []. Qed.

(** Leaving a socket: none is open afterwards. *)
Lemma leave_socket fd st c :
  only_open fd c → st ≠ SOpen → ∀ i, <[Z.to_nat fd := st]> (socks c) !! i ≠ Some SOpen.
Proof.
  intros (_ & Ho & Hu) Hst i. destruct (decide (i = Z.to_nat fd)) as [->|Hne].
  - rewrite list_lookup_insert_eq by (by eapply lookup_lt_Some). congruence.
  - rewrite list_lookup_insert_ne by done. intros Hi. by apply Hne, Hu.
Qed.

Lemma Close_spec fd c :
  only_open fd c → Close fd c = Ok (set_socks (<[Z.to_nat fd := SClosed]> (socks c)) c).
Proof. intros (_ & Ho & _). unfold Close. by rewrite decide_True. Qed.

(** What [Retry] leaves: the socket closed, and while [connect_] holds one
    more timer after the current delay, which doubles up to its bound. *)
Lemma Retry_spec fd c :
  only_open fd c → delay_ok c → idle_chan c →
  ∃ c', Retry fd c = Ok c' ∧ con_inv c' ∧ state_ c' = kDisConnected ∧ connect_ c' = connect_ c ∧
    tasks c' = tasks c ∧ length (socks c') = length (socks c) ∧
    (connect_ c = true → timers c' = <[created c := retry_delay_ c]> (timers c) ∧ created c' = created c + 1 ∧
       timer_id_ c' = created c ∧ retry_delay_ c' = Z.min (retry_delay_ c * 2) kMaxRetryDelayMs) ∧
    (connect_ c = false → timers c' = timers c).
Proof.
  intros Ho Hd Hi. unfold Retry. rewrite Close_spec by done. cbn [mbind res_bind connect_ set_state set_socks].
  pose proof (leave_socket fd SClosed c Ho ltac:(done)) as Hs.
  destruct (connect_ c) eqn:Ec; (eexists; split; [reflexivity|]; split; [apply con_inv_idle|]); try done.
  - unfold delay_ok, kInitRetryDelayMs, kMaxRetryDelayMs in *. cbn. lia.
  - cbn. split_and!; try done. apply length_insert.
  - cbn. split_and!; try done. apply length_insert.
Qed.

Lemma Remove_spec c :
  con_inv c → state_ c = kConnecting →
  ∃ fd, only_open fd c ∧ channel_ c = Some (mkAbs fd kWriteEvent Registered) ∧
    RemoveAndResetChannel c =
      Ok (fd, queue_task TResetChannel (set_channel (Some (mkAbs fd kNoneEvent Removed)) c)).
Proof.
  intros [_ Hc] Hs. rewrite Hs in Hc. destruct Hc as (fd & Ec & Ho & _). exists fd.
  unfold RemoveAndResetChannel. by rewrite Ec.
Qed.

Lemma queued_reset fd c :
  idle_chan (queue_task TResetChannel (set_channel (Some (mkAbs fd kNoneEvent Removed)) c)).
Proof. right. exists fd. split; [done|]. cbn. apply elem_of_app. right. left. Qed.

(** A new socket is the only open one. *)
Lemma fresh_socket c :
  (∀ i, socks c !! i ≠ Some SOpen) →
  only_open (Z.of_nat (length (socks c))) (set_socks (socks c ++ [SOpen]) c).
Proof.
  intros Ho. unfold only_open. rewrite Nat2Z.id. split; [lia|]. cbn. split.
  - rewrite lookup_app_r by lia. by rewrite Nat.sub_diag.
  - intros i Hl. destruct (decide (i < length (socks c))%nat) as [Hlt|Hge].
    + rewrite lookup_app_l in Hl by done. by apply Ho in Hl.
    + apply lookup_lt_Some in Hl. rewrite length_app in Hl. cbn in Hl. lia.
Qed.

(** The answers of [connect] with which the attempt goes on. *)
Abbreviation under_way := [0; EINPROGRESS; EINTR; EISCONN].

Lemma Connect_inv err c :
  con_inv c → state_ c = kDisConnected → (err ∈ under_way → TResetChannel ∉ tasks c) →
  ∃ c', Connect err c = Ok c' ∧ con_inv c' ∧ connect_ c' = connect_ c ∧ tasks c' = tasks c.
Proof.
  intros Hinv Hs Ht. destruct (con_inv_idle_inv c Hinv) as [Hi Ho]; [by rewrite Hs|].
  pose proof (con_inv_delay c Hinv) as Hd. unfold Connect. rewrite Hs. cbn [assert mbind res_bind].
  set (fd := Z.of_nat (length (socks c))). set (c1 := set_socks (socks c ++ [SOpen]) c).
  pose proof (fresh_socket c Ho) as Ho1. fold fd c1 in Ho1.
  rewrite (bool_decide_true (kDisConnected = kDisConnected)) by done. cbn [assert mbind res_bind].
  destruct (decide (err ∈ under_way)) as [Eu|Eu];
    [rewrite (bool_decide_true _ Eu)|rewrite (bool_decide_false _ Eu); destruct (bool_decide (err ∈ _))].
  - specialize (Ht Eu). assert (channel_ c = None) as En by (destruct Hi as [?|(? & _ & ?)]; done).
    unfold Connecting. cbn [channel_ c1 set_socks]. rewrite En. cbn [assert mbind res_bind].
    eexists. split; [reflexivity|]. split; [|done]. split; [done|]. cbn. by exists fd.
  - destruct (Retry_spec fd c1 Ho1 Hd) as (c' & -> & ? & _ & ? & ? & _); [exact Hi|]. by exists c'.
  - rewrite Close_spec by done. eexists. split; [reflexivity|]. split; [|done].
    apply con_inv_idle; try done; [change (state_ c ≠ kConnecting); by rewrite Hs|by apply leave_socket].
Qed.

Lemma StartInLoop_inv err c :
  con_inv c → (connect_ c = true → state_ c = kDisConnected → err ∈ under_way → TResetChannel ∉ tasks c) →
  ∃ c', StartInLoop err c = Ok c' ∧ con_inv c' ∧ connect_ c' = connect_ c ∧ tasks c' = tasks c.
Proof.
  intros Hinv Ht. unfold StartInLoop. destruct (connect_ c) eqn:Ec; [|by exists c].
  cbn [andb]. case_bool_decide as Hs; [|by exists c]. rewrite <- Ec. apply Connect_inv; auto.
Qed.

Lemma con_inv_frame c c' :
  con_inv c → state_ c' = state_ c → channel_ c' = channel_ c → socks c' = socks c →
  retry_delay_ c' = retry_delay_ c → (TResetChannel ∈ tasks c' ↔ TResetChannel ∈ tasks c) → con_inv c'.
Proof.
  unfold con_inv, delay_ok, idle_chan, only_open. intros [Hd Hc] -> -> -> -> Ht. split; [done|].
  destruct (state_ c).
  - by setoid_rewrite Ht.
  - destruct Hc as (fd & ? & ? & Hn). exists fd. by rewrite Ht.
  - by setoid_rewrite Ht.
Qed.

Lemma Notify_inv c : con_inv c → con_inv (Notify c).
Proof. intros H. unfold Notify. by destruct (stopper c). Qed.

Lemma StopInLoop_inv c :
  con_inv c →
  ∃ c', StopInLoop c = Ok c' ∧ con_inv c' ∧ connect_ c' = connect_ c ∧
    (connect_ c = false → state_ c' ≠ kConnecting) ∧ length (socks c') = length (socks c).
Proof.
  intros Hinv. unfold StopInLoop. set (c1 := if bool_decide _ then _ else c).
  assert (con_inv c1 ∧ connect_ c1 = connect_ c ∧ state_ c1 = state_ c ∧ socks c1 = socks c) as (Hinv1 & Ec & Es & Ek).
  { unfold c1. by case_bool_decide. }
  assert (∀ x, connect_ (Notify x) = connect_ x ∧ state_ (Notify x) = state_ x ∧ socks (Notify x) = socks x) as HN
    by (intros x; unfold Notify; by destruct (stopper x)).
  destruct (negb (connect_ c1) && bool_decide (state_ c1 = kConnecting)) eqn:Eg.
  - apply andb_true_iff in Eg as [Eg1 Eg2]. apply bool_decide_eq_true in Eg2.
    destruct (Remove_spec c1 Hinv1 Eg2) as (fd & Ho & _ & ->). cbn [mbind res_bind].
    destruct (Retry_spec fd (queue_task TResetChannel (set_channel (Some (mkAbs fd kNoneEvent Removed)) c1)))
      as (c2 & -> & Hinv2 & Es2 & Ec2 & _ & El2 & _); [done|by apply con_inv_delay in Hinv1|apply queued_reset|].
    cbn [mbind res_bind]. exists (Notify c2). destruct (HN c2) as (E1 & E2 & E3). rewrite E1, E2, E3, Es2, Ec2, El2.
    split_and!; try done; [by apply Notify_inv|by cbn; rewrite Ek].
  - exists (Notify c1). destruct (HN c1) as (E1 & E2 & E3). rewrite E1, E2, E3, Ek, Ec.
    split_and!; try done; [by apply Notify_inv|]. intros Hf. rewrite Ec, Hf in Eg. cbn in Eg.
    by apply bool_decide_eq_false in Eg.
Qed.

Lemma HandleWrite_inv err self c :
  con_inv c → state_ c = kConnecting → ∃ c', HandleWrite err self c = Ok c' ∧ con_inv c'.
Proof.
  intros Hinv Hs. pose proof (con_inv_delay c Hinv) as Hd. unfold HandleWrite. rewrite decide_True by done.
  destruct (Remove_spec c Hinv Hs) as (fd & Ho & _ & ->). cbn [mbind res_bind].
  set (c1 := queue_task _ _). pose proof (queued_reset fd c) as Hi. fold c1 in Hi.
  assert (only_open fd c1) as Ho1 by done.
  destruct (Retry_spec fd c1 Ho1 Hd Hi) as (c2 & E2 & Hinv2 & _).
  case_decide; [by exists c2|]. destruct self; [by exists c2|].
  cbn [new_connection_callback_ set_state]. destruct (new_connection_callback_ c1).
  - eexists. split; [reflexivity|]. apply con_inv_idle; try done. by apply (leave_socket fd SHanded c1).
  - rewrite Close_spec by done. eexists. split; [reflexivity|]. apply con_inv_idle; try done.
    by apply (leave_socket fd SClosed c1).
Qed.

(** ** Events the loop can deliver *)

(** The poller only reports a channel it watches, a timer fires once, and the
    client restarts only once it has been connected. *)
Definition deliverable (e : event) (c : Connector) : Prop :=
  match e with
  | EvReStart _ => state_ c ≠ kConnecting
  | EvWritable _ _ => match channel_ c with Some x => a_status x = Registered | None => False end
  | EvTimer id _ => is_Some (timers c !! id)
  | _ => True
  end.

(** The event makes an attempt, and the attempt goes on, while the reset of
    the last channel is still queued. *)
Definition begins (err : Z) (c : Connector) : bool :=
  bool_decide (state_ c = kDisConnected) && bool_decide (err ∈ under_way).

Definition early (e : event) (c : Connector) : bool :=
  bool_decide (TResetChannel ∈ tasks c) &&
  match e with
  | EvStart true err => begins err c
  | EvReStart err => bool_decide (err ∈ under_way)
  | EvTimer _ err => connect_ c && begins err c
  | EvTask err => bool_decide (head (tasks c) = Some TStartInLoop) && connect_ c && begins err c
  | _ => false
  end.

(** What goes well. *)
Definition legal (e : event) (c : Connector) : Prop := deliverable e c ∧ early e c = false.

#[export] Instance status_eq_dec : EqDecision status.
Proof. solve_decision. Defined.
#[export] Instance deliverable_dec e c : Decision (deliverable e c).
Proof. destruct e as [[]|?|?| | | | |]; cbn; try apply _. destruct (channel_ c); apply _. Defined.
#[export] Instance legal_dec e c : Decision (legal e c).
Proof. apply and_dec; apply _. Defined.

Fixpoint legal_run (es : list event) (c : Connector) : Prop :=
  match es with
  | [] => True
  | e :: es => legal e c ∧ ∀ c', run_event e c = Ok c' → legal_run es c'
  end.

Lemma pop_inv c t ts :
  con_inv c → tasks c = t :: ts → t ≠ TResetChannel → con_inv (set_tasks ts c).
Proof.
  intros Hinv Et Hn. eapply con_inv_frame; try done. rewrite Et. cbn [tasks set_tasks].
  rewrite elem_of_cons. split; [by right|]. by intros [<-|].
Qed.

Lemma queue_inv c t : con_inv c → t ≠ TResetChannel → con_inv (queue_task t c).
Proof.
  intros Hinv Hn. eapply con_inv_frame; try done. cbn [tasks queue_task set_tasks].
  rewrite elem_of_app, list_elem_of_singleton. split; [intros [?|E]|]; [done|by destruct Hn|by left].
Qed.

Lemma run_task_inv err c t ts :
  con_inv c → tasks c = t :: ts →
  (t = TStartInLoop → connect_ c = true → state_ c = kDisConnected → err ∈ under_way → TResetChannel ∉ tasks c) →
  ∃ c', run_task t err (set_tasks ts c) = Ok c' ∧ con_inv c'.
Proof.
  intros Hinv Et Hs. destruct t; cbn [run_task].
  - destruct (StartInLoop_inv err (set_tasks ts c)) as (c' & ? & ? & _); [by eapply pop_inv| |by exists c'].
    intros Hc Hd Hu Hin. apply (Hs eq_refl Hc Hd Hu). rewrite Et. by right.
  - destruct (StopInLoop_inv (set_tasks ts c)) as (c' & ? & ? & _); [by eapply pop_inv|by exists c'].
  - assert (state_ c ≠ kConnecting) as Hc.
    { intros Ec. destruct Hinv as [_ Hc]. rewrite Ec in Hc. destruct Hc as (? & _ & _ & Hn). apply Hn.
      rewrite Et. left. }
    destruct (con_inv_idle_inv c Hinv Hc) as [Hi Ho]. unfold ResetChannel. cbn [channel_ set_tasks].
    eexists. split; [destruct Hi as [->|(fd & -> & _)]; reflexivity|].
    apply con_inv_idle; try done; [by apply con_inv_delay in Hinv|by left].
Qed.

(** Not too early. *)
Lemma early_not (b : bool) c :
  bool_decide (TResetChannel ∈ tasks c) && b = false → b = true → TResetChannel ∉ tasks c.
Proof. intros E ->. rewrite andb_true_r in E. by apply bool_decide_eq_false in E. Qed.

Lemma begins_true err c : state_ c = kDisConnected → err ∈ under_way → begins err c = true.
Proof. intros. unfold begins. by rewrite !bool_decide_true. Qed.

Lemma run_event_inv e c : con_inv c → legal e c → ∃ c', run_event e c = Ok c' ∧ con_inv c'.
Proof.
  intros Hinv [Hl He]. destruct e as [[] err|[]|[]| |err|err self|id err|err]; unfold early in He; cbn [run_event deliverable] in *.
  - destruct (StartInLoop_inv err (set_connect true c)) as (c' & ? & ? & _); [exact Hinv|intros _ Hd Hu; apply (early_not _ c He); by apply begins_true|by exists c'].
  - eexists. split; [reflexivity|]. by apply queue_inv.
  - destruct (StopInLoop_inv (set_connect false c)) as (c' & ? & ? & _); [exact Hinv|by exists c'].
  - eexists. split; [reflexivity|]. by apply queue_inv.
  - destruct (StopInLoop_inv (set_connect false c)) as (c' & ? & ? & _); [exact Hinv|by exists c'].
  - eexists. split; [reflexivity|]. by apply (queue_inv (set_connect false c) TStopInLoop).
  - clear He. eexists. split; [reflexivity|]. by case_decide.
  - destruct (con_inv_idle_inv c Hinv Hl) as [Hi Ho].
    unfold ReStartInLoop. set (c1 := set_retry_delay _ _).
    destruct (StartInLoop_inv err c1) as (c' & ? & ? & _); [| |by exists c'].
    + by apply con_inv_idle.
    + intros _ _ Hu. apply (early_not _ c He). by rewrite bool_decide_true.
  - destruct (channel_ c) as [x|] eqn:Ex; [|done]. apply HandleWrite_inv; [done|]. destruct (decide (state_ c = kConnecting)); [done|].
    destruct (con_inv_idle_inv c Hinv) as [[Hi|(fd & Hi & _)] _]; [done| |]; rewrite Ex in Hi; [done|].
    injection Hi as ->. done.
  - destruct (StartInLoop_inv err (set_timers (delete id (timers c)) c)) as (c' & ? & ? & _);
      [exact Hinv| |by exists c'].
    intros Hc Hd Hu. apply (early_not _ c He). change (connect_ c = true) in Hc. by rewrite Hc, begins_true.
  - destruct (tasks c) as [|t ts] eqn:Et; [by exists c|]. apply run_task_inv; [done|done|].
    intros -> Hc Hd Hu. rewrite Et. rewrite Hc, begins_true, (bool_decide_true (head (TStartInLoop :: ts) = Some TStartInLoop)), andb_true_r in He by done. by apply bool_decide_eq_false in He.
Qed.

Lemma run_events_inv es : ∀ c,
  con_inv c → legal_run es c → ∃ c', run_events es c = Ok c' ∧ con_inv c'.
Proof.
  induction es as [|e es IH]; intros c Hinv Hl; [by exists c|]. destruct Hl as [Hl Hls].
  destruct (run_event_inv e c Hinv Hl) as (c1 & E & Hinv1). destruct (IH c1 Hinv1 (Hls c1 E)) as (c' & E' & ?).
  exists c'. cbn [run_events]. by rewrite E.
Qed.

Lemma con_inv_new cb : con_inv (Connector_new cb).
Proof.
  split; [unfold delay_ok; cbn; unfold kInitRetryDelayMs, kMaxRetryDelayMs; lia|]. cbn. split; [by left|].
  intros i. by rewrite lookup_nil.
Qed.

(** *** The reset of a channel is queued once

    so that while it is queued the channel is still there. *)
Definition resets (ts : list ctask) : nat := length (filter (λ t, t = TResetChannel) ts).

Definition reset_inv (c : Connector) : Prop :=
  resets (tasks c) = match channel_ c with Some x => if decide (a_status x = Registered) then 0%nat else 1%nat | None => 0%nat end.

Lemma resets_app ts ts' : resets (ts ++ ts') = (resets ts + resets ts')%nat.
Proof. unfold resets. by rewrite filter_app, length_app. Qed.

Lemma resets_in ts : TResetChannel ∈ ts → (0 < resets ts)%nat.
Proof.
  intros (l1 & l2 & ->)%list_elem_of_split. rewrite resets_app.
  unfold resets. rewrite (filter_cons_True _ TResetChannel) by done. cbn [length]. lia.
Qed.

Lemma reset_inv_same c c' : tasks c' = tasks c → channel_ c' = channel_ c → reset_inv c → reset_inv c'.
Proof. unfold reset_inv. by intros -> ->. Qed.

Lemma Close_keeps fd c c' : Close fd c = Ok c' → tasks c' = tasks c ∧ channel_ c' = channel_ c.
Proof. unfold Close. destruct (decide _); [|done]. by intros [= <-]. Qed.

Lemma Retry_keeps fd c c' : Retry fd c = Ok c' → tasks c' = tasks c ∧ channel_ c' = channel_ c.
Proof.
  unfold Retry. destruct (Close fd c) as [c1|] eqn:E; cbn [mbind res_bind]; [|done]. apply Close_keeps in E as [<- <-].
  destruct (connect_ _); by intros [= <-].
Qed.

Lemma StartInLoop_resets err c c' : StartInLoop err c = Ok c' → reset_inv c → reset_inv c'.
Proof.
  unfold StartInLoop. destruct (_ && _); [|by intros [= <-]]. unfold Connect.
  destruct (assert _); cbn [mbind res_bind]; [|done]. set (c1 := set_socks _ c). intros E Hr.
  destruct (bool_decide (err ∈ under_way)).
  - unfold Connecting in E. destruct (channel_ c1) eqn:En; [done|]. cbn [bool_decide assert mbind res_bind] in E.
    injection E as <-. unfold reset_inv in *. change (channel_ c) with (channel_ c1) in Hr. by rewrite En in Hr.
  - destruct (bool_decide _); [apply Retry_keeps in E as [Et Ec]|apply Close_keeps in E as [Et Ec]]; by apply (reset_inv_same c).
Qed.

Lemma Remove_resets c fd c' : con_inv c → state_ c = kConnecting → RemoveAndResetChannel c = Ok (fd, c') → reset_inv c → reset_inv c'.
Proof.
  intros Hi Hs E Hr. destruct (Remove_spec c Hi Hs) as (fd' & _ & Ec & E'). rewrite E in E'. injection E' as -> ->.
  unfold reset_inv in *. rewrite Ec in Hr. cbn [tasks channel_ queue_task set_tasks set_channel].
  rewrite resets_app, Hr. reflexivity.
Qed.

Lemma StopInLoop_resets c c' : con_inv c → StopInLoop c = Ok c' → reset_inv c → reset_inv c'.
Proof.
  intros Hi. unfold StopInLoop. set (c1 := if bool_decide _ then _ else c).
  assert (con_inv c1 ∧ tasks c1 = tasks c ∧ channel_ c1 = channel_ c) as (Hi1 & Et & Ec) by (unfold c1; by case_bool_decide).
  assert (∀ x, reset_inv x → reset_inv (Notify x)) as HN by (intros x; unfold Notify; by destruct (stopper x)).
  intros E Hr. apply (reset_inv_same c c1 Et Ec) in Hr. clearbody c1.
  destruct (negb (connect_ c1) && bool_decide (state_ c1 = kConnecting)) eqn:Eg; [|injection E as <-; by apply HN].
  apply andb_true_iff in Eg as [_ Eg%bool_decide_eq_true]. destruct (RemoveAndResetChannel c1) as [[fd c2]|] eqn:E2; [|done].
  cbn [mbind res_bind] in E. destruct (Retry fd c2) as [c3|] eqn:E3; [|done]. injection E as <-. apply HN.
  apply Retry_keeps in E3 as [? ?]. apply (reset_inv_same c2); [done|done|]. by eapply Remove_resets.
Qed.

Lemma HandleWrite_resets err self c c' : con_inv c → HandleWrite err self c = Ok c' → reset_inv c → reset_inv c'.
Proof.
  intros Hi E Hr. unfold HandleWrite in E. destruct (decide (state_ c = kConnecting)) as [Hs|].
  2: { destruct (assert _); cbn [mbind res_bind] in E; [|done]. by injection E as <-. }
  destruct (RemoveAndResetChannel c) as [[fd c2]|] eqn:E2; [|done]. cbn [mbind res_bind] in E.
  apply (Remove_resets c fd c2) in Hr; [|done..].
  repeat (case_decide || case_match || destruct (new_connection_callback_ _));
    (apply Retry_keeps in E as [? ?] || apply Close_keeps in E as [? ?] || injection E as <-); by apply (reset_inv_same c2).
Qed.

Lemma run_event_resets e c c' : con_inv c → run_event e c = Ok c' → reset_inv c → reset_inv c'.
Proof.
  intros Hi E Hr. assert (∀ t x, t ≠ TResetChannel → reset_inv x → reset_inv (queue_task t x)) as Hq.
  { intros t x Ht Hx. unfold reset_inv in *. cbn [tasks channel_ queue_task set_tasks]. rewrite resets_app, Hx.
    unfold resets. rewrite filter_cons_False by done. cbn. lia. }
  destruct e as [[] err|[]|[]| |err|err self|id err|err]; cbn [run_event] in E.
  - by apply (StartInLoop_resets err (set_connect true c)).
  - injection E as <-. by apply Hq.
  - by apply (StopInLoop_resets (set_connect false c)).
  - injection E as <-. by apply Hq.
  - by apply (StopInLoop_resets (set_connect false c)).
  - injection E as <-. by apply (Hq TStopInLoop).
  - injection E as <-. by destruct (decide _).
  - unfold ReStartInLoop in E. by apply StartInLoop_resets in E.
  - by apply HandleWrite_resets in E.
  - by apply (StartInLoop_resets err (set_timers (delete id (timers c)) c)).
  - destruct (tasks c) as [|t ts] eqn:Et; [by injection E as <-|]. unfold reset_inv in Hr. rewrite Et in Hr.
    assert (t ≠ TResetChannel → reset_inv (set_tasks ts c)) as Hpop.
    { intros Ht. unfold reset_inv. cbn [tasks channel_ set_tasks]. rewrite <- Hr. unfold resets. by rewrite filter_cons_False. }
    destruct t; cbn [run_task] in E.
    + apply StartInLoop_resets in E; [done|by apply Hpop].
    + apply StopInLoop_resets in E; [done|by eapply pop_inv|by apply Hpop].
    + unfold ResetChannel in E. cbn [channel_ set_tasks] in E. destruct (channel_ c) as [x|] eqn:Ex; [|done].
      destruct (assert _) eqn:Ea; cbn [mbind res_bind] in E; [|done]. injection E as <-. unfold reset_inv. cbn [tasks channel_ set_channel set_tasks].
      destruct (decide _) as [Ed|_]; [by rewrite Ed in Ea|]. unfold resets in *.
      rewrite (filter_cons_True _ TResetChannel) in Hr by done. by injection Hr.
Qed.

(** Too early is a failed assertion. *)
Lemma early_fails e c : con_inv c → reset_inv c → early e c = true → run_event e c = Fault AssertFail.
Proof.
  intros Hi Hr He. unfold early in He. apply andb_true_iff in He as [Hin He]. apply bool_decide_eq_true in Hin.
  assert (channel_ c ≠ None) as Hn by (intros En; unfold reset_inv in Hr; rewrite En in Hr; apply resets_in in Hin; lia).
  assert (∀ err c1, connect_ c1 = true → state_ c1 = kDisConnected → err ∈ under_way → channel_ c1 = channel_ c →
    StartInLoop err c1 = Fault AssertFail) as Hfail.
  { intros err c1 Ec Es Eu Ech. unfold StartInLoop, Connect. rewrite Ec, Es. cbn [andb].
    rewrite (bool_decide_true (kDisConnected = kDisConnected)) by done. cbn [assert mbind res_bind].
    rewrite (bool_decide_true _ Eu). unfold Connecting. cbn [channel_ set_socks]. by rewrite Ech, bool_decide_false. }
  unfold begins in He. destruct e as [[] err|[]|[]| |err|err self|id err|err]; try done; cbn [run_event].
  - apply andb_true_iff in He as [?%bool_decide_eq_true ?%bool_decide_eq_true]. by apply Hfail.
  - apply bool_decide_eq_true in He. by apply Hfail.
  - apply andb_true_iff in He as [? He]. apply andb_true_iff in He as [?%bool_decide_eq_true ?%bool_decide_eq_true]. by apply Hfail.
  - apply andb_true_iff in He as [He He']. apply andb_true_iff in He as [Hh%bool_decide_eq_true ?].
    apply andb_true_iff in He' as [?%bool_decide_eq_true ?%bool_decide_eq_true].
    destruct (tasks c) as [|t ts]; [done|]. injection Hh as ->. by apply Hfail.
Qed.

(** What the loop and the system can do, in order. *)
Fixpoint deliverable_run (es : list event) (c : Connector) : Prop :=
  match es with
  | [] => True
  | e :: es => deliverable e c ∧ ∀ c', run_event e c = Ok c' → deliverable_run es c'
  end.

Lemma run_events_upto es : ∀ c, con_inv c → reset_inv c → deliverable_run es c →
  ∃ done rest c', es = done ++ rest ∧ run_events done c = Ok c' ∧ con_inv c' ∧
    (rest = [] ∨ ∃ e rest', rest = e :: rest' ∧ early e c' = true ∧ run_event e c' = Fault AssertFail).
Proof.
  induction es as [|e es IH]; intros c Hi Hr Hl; [exists [], [], c; split_and!; [done|done|done|by left]|].
  destruct Hl as [Hl Hls]. destruct (early e c) eqn:Ee.
  { exists [], (e :: es), c. split_and!; [done|done|done|]. right. exists e, es. split_and!; [done|done|by apply early_fails]. }
  destruct (run_event_inv e c Hi) as (c1 & E & Hi1); [done|].
  destruct (IH c1 Hi1 (run_event_resets e c c1 Hi E Hr) (Hls c1 E)) as (dn & rest & c' & -> & E' & Hi' & Hrest).
  exists (e :: dn), rest, c'. split_and!; [done| |done|done]. cbn [run_events]. by rewrite E.
Qed.

(** C14: a connector runs through every sequence of starts, stops, answers of
    the system, timers and queued functors that the loop can deliver without a
    failed assertion and without closing a socket twice, up to the first event
    that begins an attempt (the answer of [connect] lets it go on) while the
    reset of the last channel is still queued; and that event fails the
    assertion of [Connecting].  Until then a socket is open exactly while the
    connector is connecting on it, with its channel in the poller waiting for
    writing; all others were closed or handed to the callback; the delay stays
    between its bounds. *)
Theorem connector_runs cb es :
  deliverable_run es (Connector_new cb) →
  ∃ done rest c, es = done ++ rest ∧ run_events done (Connector_new cb) = Ok c ∧
    (∀ i, socks c !! i = Some SOpen ↔
       state_ c = kConnecting ∧ channel_ c = Some (mkAbs (Z.of_nat i) kWriteEvent Registered)) ∧
    (state_ c = kConnecting → ∃ i, socks c !! i = Some SOpen) ∧
    kInitRetryDelayMs ≤ retry_delay_ c ≤ kMaxRetryDelayMs ∧
    (rest = [] ∨ ∃ e rest', rest = e :: rest' ∧ early e c = true ∧ run_event e c = Fault AssertFail).
Proof.
  intros Hl. destruct (run_events_upto es _ (con_inv_new cb) eq_refl Hl) as (dn & rest & c & -> & E & [Hd Hc] & Hrest). exists dn, rest, c.
  split; [done|]. split; [done|]. split_and!; [|..|apply Hd|apply Hd|done].
  - intros i. destruct (state_ c) eqn:Es.
    + destruct Hc as [_ Ho]. split; [by intros ?%Ho|by intros [? _]].
    + destruct Hc as (fd & Ech & (Hfd & Ho & Hu) & _). split.
      * intros ->%Hu. split; [done|]. by rewrite Z2Nat.id.
      * intros [_ E']. rewrite Ech in E'. injection E' as ->. by rewrite Nat2Z.id in Ho.
    + destruct Hc as [_ Ho]. split; [by intros ?%Ho|by intros [? _]].
  - intros Es. rewrite Es in Hc. destruct Hc as (fd & _ & (_ & Ho & _) & _). eauto.
Qed.

Ltac legal_events :=
  repeat match goal with
  | |- legal_run [] _ => exact I
  | |- legal_run (_ :: _) _ => split
  | |- legal_run ?es _ => unfold es
  | |- deliverable_run [] _ => exact I
  | |- deliverable_run (_ :: _) _ => split
  | |- deliverable _ _ => apply (bool_decide_unpack _); vm_compute; exact I
  | |- legal _ _ => apply (bool_decide_unpack _); vm_compute; exact I
  | |- ∀ _, _ = Ok _ → _ => intros ? E; vm_compute in E; first [discriminate E | injection E as <-]
  end.

(** The connector is refused, tries again when the timer fires, connects and
    hands the socket over; then it is started again in vain. *)
Definition demo_run : list event :=
  [EvStart false 0; EvTask ECONNREFUSED; EvTimer 0 EINPROGRESS; EvWritable ECONNREFUSED false; EvTask 0;
   EvTimer 1 EINPROGRESS; EvWritable 0 false; EvTask 0; EvStart true 0].

(** Started again while it is connecting: when the attempt is refused, the
    queued start comes before the reset. *)
Definition too_early : list event :=
  [EvStart true EINPROGRESS; EvStart false 0; EvWritable ECONNREFUSED false; EvTask EINPROGRESS].

Lemma connector_runs_witness :
  (∀ es, es = demo_run ∨ es = too_early →
   deliverable_run es (Connector_new true) ∧
   ∃ done rest c, es = done ++ rest ∧ run_events done (Connector_new true) = Ok c ∧
    kInitRetryDelayMs ≤ retry_delay_ c ≤ kMaxRetryDelayMs ∧
    (rest = [] ∨ ∃ e rest', rest = e :: rest' ∧ early e c = true ∧ run_event e c = Fault AssertFail)) ∧
  ∃ c, run_events demo_run (Connector_new true) = Ok c ∧ socks c = [SClosed; SClosed; SHanded] ∧
    retry_delay_ c = 2000 ∧ state_ c = kConnected.
Proof.
  split.
  - intros es Hes. assert (deliverable_run es (Connector_new true)) as Hl
      by (destruct Hes as [-> | ->]; [unfold demo_run|unfold too_early]; legal_events).
    split; [exact Hl|]. destruct (connector_runs true es Hl) as (dn & rest & c & H1 & H2 & _ & _ & H3 & H4). by exists dn, rest, c.
  - eexists. split; [vm_compute; reflexivity|]. by vm_compute.
Defined.

(** ** Retrying *)

Lemma refused c :
  con_inv c → connect_ c = true → state_ c = kDisConnected → tasks c = [] →
  ∃ c', StartInLoop ECONNREFUSED c = Ok c' ∧ con_inv c' ∧ connect_ c' = true ∧ state_ c' = kDisConnected ∧
    tasks c' = [] ∧ timers c' = <[created c := retry_delay_ c]> (timers c) ∧ created c' = created c + 1 ∧
    retry_delay_ c' = Z.min (retry_delay_ c * 2) kMaxRetryDelayMs ∧ length (socks c') = S (length (socks c)).
Proof.
  intros Hinv Ec Es Et. destruct (con_inv_idle_inv c Hinv) as [Hi Ho]; [by rewrite Es|].
  unfold StartInLoop, Connect. rewrite Ec, Es. cbn [andb bool_decide assert mbind res_bind].
  rewrite bool_decide_true by done. cbn [assert mbind res_bind].
  change (bool_decide (ECONNREFUSED ∈ [0; EINPROGRESS; EINTR; EISCONN])) with false.
  change (bool_decide (ECONNREFUSED ∈ [EAGAIN; EADDRINUSE; EADDRNOTAVAIL; ECONNREFUSED; ENETUNREACH])) with true.
  cbv iota.
  destruct (Retry_spec _ _ (fresh_socket c Ho) (con_inv_delay c Hinv) Hi)
    as (c' & E & Hinv' & Es' & Ec' & Et' & El' & Hr & _). cbn in Ec', Et', El'.
  exists c'. rewrite E. destruct (Hr Ec) as (? & ? & _ & ?). rewrite Ec', Et', El', length_app. cbn.
  split_and!; try done. lia.
Qed.

Definition refused_run (n : nat) : list event :=
  EvStart true ECONNREFUSED :: ((λ i, EvTimer (Z.of_nat i) ECONNREFUSED) <$> seq 0 n).

Definition backoff (n : nat) : Z := Z.min (kInitRetryDelayMs * 2 ^ Z.of_nat n) kMaxRetryDelayMs.

Lemma backoff_S n : Z.min (backoff n * 2) kMaxRetryDelayMs = backoff (S n).
Proof.
  unfold backoff. rewrite Nat2Z.inj_succ, Z.pow_succ_r by lia. unfold kInitRetryDelayMs, kMaxRetryDelayMs. lia.
Qed.

Lemma run_events_app es es' c : run_events (es ++ es') c = (c ← run_events es c; run_events es' c).
Proof.
  revert c. induction es as [|e es IH]; intros c; [done|]. cbn [app run_events].
  destruct (run_event e c); cbn [mbind res_bind]; [apply IH|done].
Qed.

(** C28: against a server that refuses, attempt number [n] is followed by a
    pause of 500 milliseconds doubled [n] times, at most 30 seconds; there is
    always exactly one timer pending, and every socket has been closed. *)
Theorem connector_backoff cb n :
  ∃ c, run_events (refused_run n) (Connector_new cb) = Ok c ∧
    timers c = {[Z.of_nat n := Z.min (kInitRetryDelayMs * 2 ^ Z.of_nat n) kMaxRetryDelayMs]} ∧
    state_ c = kDisConnected ∧ length (socks c) = S n ∧ (∀ i, socks c !! i ≠ Some SOpen).
Proof.
  fold (backoff n). enough (∃ c, run_events (refused_run n) (Connector_new cb) = Ok c ∧ con_inv c ∧
    connect_ c = true ∧ state_ c = kDisConnected ∧ tasks c = [] ∧ timers c = {[Z.of_nat n := backoff n]} ∧
    created c = Z.of_nat n + 1 ∧ retry_delay_ c = backoff (S n) ∧ length (socks c) = S n)
    as (c & E & Hinv & _ & Es & _ & Ht & _ & _ & El).
  { exists c. split_and!; try done. apply (con_inv_idle_inv c Hinv). by rewrite Es. }
  induction n as [|n (c & E & Hinv & Ec & Es & Et & Hti & Hcr & Hd & El)].
  - destruct (refused (set_connect true (Connector_new cb)) (con_inv_new cb) eq_refl eq_refl eq_refl)
      as (c & E & ? & ? & ? & ? & Ht & Hc & Hd & El).
    exists c. cbn [refused_run seq fmap list_fmap run_events run_event Start]. rewrite E. cbn [mbind res_bind].
    split_and!; done.
  - unfold refused_run in *. rewrite seq_S, fmap_app, app_comm_cons, run_events_app, E. cbn [mbind res_bind].
    cbn [fmap list_fmap run_events run_event Nat.add].
    destruct (refused (set_timers (delete (Z.of_nat n) (timers c)) c) Hinv Ec Es Et)
      as (c' & -> & ? & ? & ? & ? & Ht' & Hc' & Hd' & El').
    cbn [mbind res_bind]. exists c'. cbn [timers set_timers created retry_delay_ socks] in *.
    split_and!; try done; [|lia|by rewrite Hd', Hd, backoff_S|by rewrite El', El].
    rewrite Ht', Hti, Hd, Hcr. rewrite delete_singleton_eq, Z.add_1_r, <- Nat2Z.inj_succ. apply insert_empty.
Qed.

(** ** Stopping *)

Definition starts (e : event) : bool := match e with EvStart _ _ | EvReStart _ => true | _ => false end.

Definition stopped (n : nat) (c : Connector) : Prop :=
  con_inv c ∧ connect_ c = false ∧ state_ c ≠ kConnecting ∧ length (socks c) = n.

Lemma stopped_event n e c :
  stopped n c → deliverable e c → starts e = false → ∃ c', run_event e c = Ok c' ∧ stopped n c'.
Proof.
  intros (Hinv & Ec & Es & El) Hl Hs.
  assert (early e c = false) as Hearly by (unfold early; destruct e; try done; rewrite ?Ec, ?andb_false_r; done).
  assert (∀ c1, con_inv c1 → connect_ c1 = false → length (socks c1) = n →
    ∃ c', StopInLoop c1 = Ok c' ∧ stopped n c') as Hstop.
  { intros c1 Hi1 Hc1 Hl1. destruct (StopInLoop_inv c1 Hi1) as (c' & E & Hi' & Hc' & Hs' & Hl').
    exists c'. split; [done|]. split_and!; [done|by rewrite Hc'|by apply Hs'|by rewrite Hl']. }
  destruct (run_event_inv e c Hinv (conj Hl Hearly)) as (c' & E & Hinv'). clear Hearly.
  destruct e as [? err|[]|[]| |err|err self|id err|err]; try done; cbn [run_event deliverable] in *.
  - by apply Hstop.
  - injection E as <-. by exists (queue_task TStopInLoop (set_connect false c)).
  - by apply Hstop.
  - injection E as <-. by eexists.
  - injection E as <-. eexists. split; [reflexivity|]. by case_decide.
  - destruct (channel_ c) as [x|] eqn:Ex; [|done].
    destruct (con_inv_idle_inv c Hinv Es) as [[Hi|(fd & Hi & _)] _]; rewrite Ex in Hi; [done|]. by injection Hi as ->.
  - unfold StartInLoop. cbn [connect_ set_timers]. rewrite Ec. cbn [andb]. by eexists.
  - destruct (tasks c) as [|t ts] eqn:Et; [by exists c|]. destruct t; cbn [run_task] in *.
    + unfold StartInLoop. cbn [connect_ set_tasks]. rewrite Ec. cbn [andb]. eexists. split; [reflexivity|].
      split; [|done]. by eapply pop_inv.
    + apply Hstop; [by eapply pop_inv|done|done].
    + exists c'. split; [done|]. unfold ResetChannel in E. cbn [channel_ set_tasks] in E.
      destruct (assert _); cbn [mbind res_bind] in E; [|done]. by injection E as <-.
Qed.

Lemma stopped_run es : ∀ n c,
  stopped n c → deliverable_run es c → forallb (λ e, negb (starts e)) es = true →
  ∃ c', run_events es c = Ok c' ∧ stopped n c'.
Proof.
  induction es as [|e es IH]; intros n c Hst Hl Hs; [by exists c|]. cbn [forallb] in Hs.
  apply andb_true_iff in Hs as [He Hes]. destruct Hl as [Hle Hle'].
  destruct (stopped_event n e c Hst Hle) as (c1 & E1 & Hst1); [by destruct (starts e)|].
  destruct (IH n c1 Hst1 (Hle' c1 E1) Hes) as (c' & E' & ?). exists c'. cbn [run_events]. by rewrite E1.
Qed.

Lemma legal_deliverable es : ∀ c, legal_run es c → deliverable_run es c.
Proof. induction es as [|e es IH]; intros c; [done|]. intros [[? _] Hs]. split; [done|]. intros c' E. by apply IH, Hs. Qed.

(** A run reaches its first events. *)
Lemma legal_prefix es es' : ∀ c,
  con_inv c → legal_run (es ++ es') c → ∃ c', run_events es c = Ok c' ∧ con_inv c' ∧ legal_run es' c'.
Proof.
  induction es as [|e es IH]; intros c Hinv Hl; [by exists c|]. destruct Hl as [Hl Hls].
  destruct (run_event_inv e c Hinv Hl) as (c1 & E & Hi1). destruct (IH c1 Hi1 (Hls c1 E)) as (c0 & E0 & ?).
  exists c0. cbn [run_events]. rewrite E. done.
Qed.

(** After [Stop] has run in the loop the connector is not connecting,
    and whatever the loop still delivers, queued starts and pending timers
    included, it opens no socket and leaves none open, until it is started
    again. *)
Theorem connector_stop_is_final cb es es' :
  legal_run (es ++ EvStop true :: es') (Connector_new cb) → forallb (λ e, negb (starts e)) es' = true →
  ∃ c c', run_events (es ++ [EvStop true]) (Connector_new cb) = Ok c ∧ run_events es' c = Ok c' ∧
    state_ c' ≠ kConnecting ∧ length (socks c') = length (socks c) ∧ (∀ i, socks c' !! i ≠ Some SOpen).
Proof.
  intros Hl Hs.
  destruct (legal_prefix es (EvStop true :: es') _ (con_inv_new cb) Hl) as (c0 & E0 & Hinv0 & [_ Hl1]).
  destruct (StopInLoop_inv (set_connect false c0) Hinv0) as (c & E & Hinv & Ec & Hs1 & _).
  specialize (Hl1 c E). rewrite run_events_app, E0. cbn [mbind res_bind run_events run_event Stop]. rewrite E.
  cbn [mbind res_bind]. exists c.
  destruct (stopped_run es' (length (socks c)) c) as (c' & E' & Hi' & _ & Hs' & Hn'); [|by apply legal_deliverable|done|].
  { split_and!; [done|done|by apply Hs1|done]. }
  exists c'. split_and!; try done. by apply con_inv_idle_inv.
Qed.

Lemma connector_stop_is_final_witness :
  ∃ c c', run_events ([EvStart true EINPROGRESS; EvStart false 0] ++ [EvStop true]) (Connector_new true) = Ok c ∧
    run_events [EvTask 0] c = Ok c' ∧ length (socks c') = length (socks c).
Proof.
  destruct (connector_stop_is_final true [EvStart true EINPROGRESS; EvStart false 0] [EvTask 0])
    as (c & c' & ? & ? & _ & ? & _); [|reflexivity|by exists c, c'].
  cbn [app]. legal_events.
Defined.

(** ** Starting too early, or in vain *)

(** [Start] from another thread while the connector is connecting: when the
    attempt fails, the queued [StartInLoop] runs before the queued
    [ResetChannel]. *)
Lemma start_before_reset :
  run_events [EvStart true EINPROGRESS; EvStart false 0; EvWritable ECONNREFUSED false; EvTask EINPROGRESS]
    (Connector_new true) = Fault AssertFail.
Proof. reflexivity. Qed.

(** Once connected, the connector ignores [Start] for ever: only
    [ReStartInLoop] connects again. *)
Lemma start_after_connected :
  ∃ c c', run_events [EvStart true EINPROGRESS; EvWritable 0 false; EvTask 0; EvStop true] (Connector_new true) = Ok c ∧
    run_events [EvStart true EINPROGRESS] c = Ok c' ∧ state_ c' = kConnected ∧ socks c' = [SHanded].
Proof. do 2 eexists. split_and!; vm_compute; reflexivity. Qed.

(** [StopAndWait]: [StopInLoop] can run before the wait begins. *)
Lemma stop_and_wait_hangs :
  ∃ c, run_events [EvStopAndWait false; EvTask 0; EvWait] (Connector_new true) = Ok c ∧
    stopper c = Waiting ∧ tasks c = [].
Proof. eexists. split_and!; vm_compute; reflexivity. Qed.
