(* ===== verification/TcpClient.v ===== *)
(** The client: [muzi/net/tcp_client.h] and [tcp_client.cc], on top of the
    connector.  Connections are numbered by [sequence_]; a connection is
    reduced to whether it is established, see [TcpConnection]. *)

From S2P Require Import Prelude Connector.

(** A connection is up, shut down for writing by the client, or destroyed. *)
Inductive conn := CUp | CShut | CDestroyed.
#[export] Instance conn_eq_dec : EqDecision conn.
Proof. solve_decision. Defined.

(** [connection_] is the number of the connection it points to; [conns] are
    all connections so far; [disabler] is the thread in
    [DisableConnectAndWait]. *)
Record TcpClient := mkClient {
  connector_ : Connector;
  sequence_ : nat;
  to_connect_ : bool;
  is_retry : bool;
  connection_ : option nat;
  conns : list conn;
  disabler : waiter
}.

Definition TcpClient_new : TcpClient := mkClient (Connector_new true) 0 false false None [] Idle.

Definition set_connector (v : Connector) (c : TcpClient) : TcpClient :=
  mkClient v (sequence_ c) (to_connect_ c) (is_retry c) (connection_ c) (conns c) (disabler c).
Definition set_to_connect (v : bool) (c : TcpClient) : TcpClient :=
  mkClient (connector_ c) (sequence_ c) v (is_retry c) (connection_ c) (conns c) (disabler c).
Definition set_is_retry (v : bool) (c : TcpClient) : TcpClient :=
  mkClient (connector_ c) (sequence_ c) (to_connect_ c) v (connection_ c) (conns c) (disabler c).
Definition set_connection (v : option nat) (c : TcpClient) : TcpClient :=
  mkClient (connector_ c) (sequence_ c) (to_connect_ c) (is_retry c) v (conns c) (disabler c).
Definition set_conns (v : list conn) (c : TcpClient) : TcpClient :=
  mkClient (connector_ c) (sequence_ c) (to_connect_ c) (is_retry c) (connection_ c) v (disabler c).
Definition set_disabler (v : waiter) (c : TcpClient) : TcpClient :=
  mkClient (connector_ c) (sequence_ c) (to_connect_ c) (is_retry c) (connection_ c) (conns c) v.

(** The name of the connections: [name_ + "#" + std::to_string(sequence_++)]
    is kept as the number. *)
Definition NewConnection (c : TcpClient) : TcpClient :=
  let id := sequence_ c in
  mkClient (connector_ c) (S id) (to_connect_ c) (is_retry c) (Some id) (conns c ++ [CUp]) (disabler c).

(** [EnableRetry], [Connect], [DisConnect] and [Stop]. *)
Definition EnableRetry (c : TcpClient) : TcpClient := set_is_retry true c.

Definition Connect (in_loop : bool) (saved_errno : Z) (c : TcpClient) : res TcpClient :=
  let c := set_to_connect true c in
  k ← Start in_loop saved_errno (connector_ c); Ok (set_connector k c).

Definition DisConnect (c : TcpClient) : TcpClient :=
  let c := set_to_connect false c in
  match connection_ c with
  | Some id => set_conns (alter (λ s, match s with CUp => CShut | _ => s end) id (conns c)) c
  | None => c
  end.

Definition Stop (in_loop : bool) (c : TcpClient) : res TcpClient :=
  let c := set_to_connect false c in
  k ← Connector.Stop in_loop (connector_ c); Ok (set_connector k c).

(** [TcpConnection::DestroyConnection], once for each connection. *)
Definition Destroy (id : nat) (c : TcpClient) : res TcpClient :=
  s ← deref NullDeref (conns c !! id);
  _ ← assert (bool_decide (s ≠ CDestroyed));
  Ok (set_conns (<[id := CDestroyed]> (conns c)) c).

(** The close callback of connection [id]. *)
Definition RemoveConnection (id : nat) (saved_errno : Z) (c : TcpClient) : res TcpClient :=
  let c := if decide (connection_ c = Some id) then set_connection None c else c in
  c ← Destroy id c;
  if to_connect_ c && is_retry c then
    k ← ReStartInLoop saved_errno (connector_ c); Ok (set_connector k c)
  else Ok c.

Definition DisableConnectInLoop (c : TcpClient) : TcpClient :=
  let c := set_to_connect false c in
  match disabler c with Waiting => set_disabler Woken c | _ => c end.

(** The sockets handed over so far. *)
Definition handed (k : Connector) : nat := length (filter (λ s, s = SHanded) (socks k)).

(** A step of the connector, and the call of [NewConnection] if it hands a
    socket over. *)
Definition run_connector (e : event) (c : TcpClient) : res TcpClient :=
  k ← run_event e (connector_ c);
  let c' := set_connector k c in
  Ok (if decide (handed k = handed (connector_ c)) then c' else NewConnection c').

Inductive client_event :=
  | EvConnect (in_loop : bool) (saved_errno : Z)
  | EvDisConnect
  | EvClientStop (in_loop : bool)
  | EvEnableRetry
  | EvDisable
  | EvConnector (e : event)
  | EvClosed (id : nat) (saved_errno : Z).

Definition run_client (e : client_event) (c : TcpClient) : res TcpClient :=
  match e with
  | EvConnect b err => Connect b err c
  | EvDisConnect => Ok (DisConnect c)
  | EvClientStop b => Stop b c
  | EvEnableRetry => Ok (EnableRetry c)
  | EvDisable => Ok (DisableConnectInLoop c)
  | EvConnector e => run_connector e c
  | EvClosed id err => RemoveConnection id err c
  end.

Fixpoint run_clients (es : list client_event) (c : TcpClient) : res TcpClient :=
  match es with [] => Ok c | e :: es => c ← run_client e c; run_clients es c end.

(** ** Connections and the connector's sockets *)

(** What the loop can deliver: the connector's own events, and the close of a
    connection that is still there. *)
Definition client_legal (e : client_event) (c : TcpClient) : Prop :=
  match e with
  | EvConnect b err => legal (EvStart b err) (connector_ c)
  | EvClosed id err =>
      (conns c !! id = Some CUp ∨ conns c !! id = Some CShut) ∧
      (to_connect_ c && is_retry c = true → early (EvReStart err) (connector_ c) = false)
  | EvConnector (EvReStart _) => False
  | EvConnector e => legal e (connector_ c)
  | _ => True
  end.

#[export] Instance client_legal_dec e c : Decision (client_legal e c).
Proof. destruct e as [| | | | |[]|]; cbn [client_legal]; try apply legal_dec; apply _. Defined.

Fixpoint client_legal_run (es : list client_event) (c : TcpClient) : Prop :=
  match es with
  | [] => True
  | e :: es => client_legal e c ∧ ∀ c', run_client e c = Ok c' → client_legal_run es c'
  end.

(** Connection [id] is alive exactly while [connection_] points to it, and
    then the connector is done. *)
Record client_inv (c : TcpClient) : Prop := {
  ti_connector : con_inv (connector_ c);
  ti_callback : new_connection_callback_ (connector_ c) = true;
  ti_length : length (conns c) = sequence_ c;
  ti_handed : handed (connector_ c) = sequence_ c;
  ti_alive id s : conns c !! id = Some s → (s ≠ CDestroyed ↔ connection_ c = Some id);
  ti_range id : connection_ c = Some id → id < sequence_ c;
  ti_state : is_Some (connection_ c) → state_ (connector_ c) = kConnected
}.

(** ** What a step of the connector does to the sockets *)

Definition kept (k : Connector) : nat * bool := (handed k, new_connection_callback_ k).

Lemma filter_insert_open (l : list sock) i s :
  l !! i = Some SOpen →
  length (filter (λ s, s = SHanded) (<[i := s]> l)) =
    (if decide (s = SHanded) then 1 else 0) + length (filter (λ s, s = SHanded) l).
Proof.
  intros Hi. rewrite <- (take_drop_middle l i SOpen Hi) at 2.
  rewrite insert_take_drop by (by eapply lookup_lt_Some). rewrite !filter_app, !filter_cons, !length_app.
  rewrite (decide_False (P := SOpen = SHanded)) by done. case_decide; cbn; lia.
Qed.

Ltac step_kept H :=
  repeat match type of H with
  | mbind _ ?m = Ok _ => let E := fresh "E" in destruct m as [?x|] eqn:E; cbn [mbind res_bind] in H; [|discriminate H]
  | context [decide ?P] => destruct (decide P)
  | (if ?b then _ else _) = _ => destruct b eqn:?
  end; try discriminate H; try (injection H as <-).

Lemma Close_kept fd k k' : Close fd k = Ok k' → kept k' = kept k ∧ state_ k' = state_ k.
Proof.
  unfold Close. intros H. step_kept H. split; [|done]. unfold kept, handed. cbn.
  by rewrite filter_insert_open.
Qed.

Lemma Retry_kept fd k k' : Retry fd k = Ok k' → kept k' = kept k.
Proof.
  unfold Retry. intros H. step_kept H; apply Close_kept in E as [E _]; by rewrite <- E.
Qed.

Lemma Connect_kept err k k' : Connector.Connect err k = Ok k' → kept k' = kept k.
Proof.
  unfold Connector.Connect, Connecting. intros H.
  assert (∀ k, kept (set_socks (socks k ++ [SOpen]) k) = kept k) as Hs.
  { intros x. unfold kept, handed. cbn. by rewrite filter_app, app_nil_r. }
  step_kept H; rewrite <- (Hs k); [done|by eapply Retry_kept|by eapply Close_kept].
Qed.

Lemma StartInLoop_kept err k k' :
  StartInLoop err k = Ok k' → kept k' = kept k ∧ (state_ k = kConnected → state_ k' = kConnected).
Proof.
  unfold StartInLoop. intros H. step_kept H; [|done]. apply Connect_kept in H. split; [done|].
  intros E. rewrite E in *. by destruct (connect_ k).
Qed.

Lemma Remove_kept k fd k' : RemoveAndResetChannel k = Ok (fd, k') → kept k' = kept k ∧ socks k' = socks k.
Proof. unfold RemoveAndResetChannel. intros H. step_kept H. by subst. Qed.

Lemma Notify_kept k : kept (Notify k) = kept k ∧ state_ (Notify k) = state_ k.
Proof. unfold Notify. by destruct (stopper k). Qed.

Lemma StopInLoop_kept k k' :
  StopInLoop k = Ok k' → kept k' = kept k ∧ (state_ k = kConnected → state_ k' = kConnected).
Proof.
  unfold StopInLoop. set (k1 := if bool_decide _ then _ else k).
  assert (kept k1 = kept k ∧ state_ k1 = state_ k) as [Ek Es] by (unfold k1; by case_bool_decide).
  intros H. step_kept H. destruct (Notify_kept x) as [E1 E2]. rewrite E1, E2, <- Ek, <- Es.
  destruct (negb (connect_ k1) && bool_decide (state_ k1 = kConnecting)) eqn:Eg; [|by injection E as ->].
  destruct (RemoveAndResetChannel k1) as [[fd k2]|] eqn:Er; [|done]. cbn [mbind res_bind] in E.
  apply Remove_kept in Er as [Er _]. apply Retry_kept in E. split; [congruence|].
  intros Ec. rewrite Ec, andb_false_r in Eg. done.
Qed.

Definition connector_step (k k' : Connector) : Prop :=
  new_connection_callback_ k' = new_connection_callback_ k ∧
  ((handed k' = handed k ∧ (state_ k = kConnected → state_ k' = kConnected)) ∨
   (handed k' = S (handed k) ∧ state_ k ≠ kConnected ∧ state_ k' = kConnected)).

Lemma step_of_kept k k' :
  kept k' = kept k → (state_ k = kConnected → state_ k' = kConnected) → connector_step k k'.
Proof. intros [= E1 E2] Hs. split; [done|]. by left. Qed.

Lemma HandleWrite_step err self k k' :
  con_inv k → new_connection_callback_ k = true → HandleWrite err self k = Ok k' → connector_step k k'.
Proof.
  intros Hinv Hcb H. unfold HandleWrite in H. destruct (decide (state_ k = kConnecting)) as [Es|Es].
  - destruct (Remove_spec k Hinv Es) as (fd & Ho & _ & Er). rewrite Er in H. cbn [mbind res_bind] in H.
    apply Remove_kept in Er as [Er1 _].
    destruct (decide (err ≠ 0%Z)); [|destruct self].
    + apply Retry_kept in H. apply step_of_kept; [by rewrite H|by rewrite Es].
    + apply Retry_kept in H. apply step_of_kept; [by rewrite H|by rewrite Es].
    + cbn [new_connection_callback_ queue_task set_tasks set_channel set_state] in H. rewrite Hcb in H.
      injection H as <-. split; [done|]. right. split_and!; [|by rewrite Es|done].
      unfold handed. cbn. rewrite filter_insert_open by apply Ho. done.
  - step_kept H. by apply step_of_kept.
Qed.

Lemma run_event_step e k k' :
  con_inv k → new_connection_callback_ k = true → (∀ err, e ≠ EvReStart err) →
  run_event e k = Ok k' → connector_step k k'.
Proof.
  intros Hinv Hcb He H.
  assert (∀ err k1, StartInLoop err k1 = Ok k' → kept k1 = kept k → state_ k1 = state_ k → connector_step k k') as Hst.
  { intros err k1 [E3 E4]%StartInLoop_kept E1 E2. apply step_of_kept; [congruence|]. by rewrite <- E2. }
  assert (∀ k1, StopInLoop k1 = Ok k' → kept k1 = kept k → state_ k1 = state_ k → connector_step k k') as Hsp.
  { intros k1 [E3 E4]%StopInLoop_kept E1 E2. apply step_of_kept; [congruence|]. by rewrite <- E2. }
  destruct e as [[] err|[]|[]| |err|err self|id err|err]; cbn [run_event] in H.
  - by apply (Hst _ _ H).
  - injection H as <-. by apply step_of_kept.
  - by apply (Hsp _ H).
  - injection H as <-. by apply step_of_kept.
  - by apply (Hsp _ H).
  - injection H as <-. by apply step_of_kept.
  - injection H as <-. case_decide; by apply step_of_kept.
  - by destruct (He err).
  - by eapply HandleWrite_step.
  - by apply (Hst _ _ H).
  - destruct (tasks k) as [|t ts]; [injection H as <-; by apply step_of_kept|]. destruct t; cbn [run_task] in H.
    + by apply (Hst _ _ H).
    + by apply (Hsp _ H).
    + unfold ResetChannel in H. step_kept H. by apply step_of_kept.
Qed.

(** ** The invariant *)

Lemma set_connector_inv k c :
  client_inv c → con_inv k → kept k = kept (connector_ c) →
  (state_ (connector_ c) = kConnected → state_ k = kConnected) → client_inv (set_connector k c).
Proof.
  intros [Hk Hcb Hl Hh Ha Hr Hs] Hck [= E1 E2] Es. split; cbn [connector_ set_connector]; try done.
  - by rewrite E2.
  - by rewrite E1.
  - intros H. by apply Es, Hs.
Qed.

Lemma run_connector_inv e c :
  client_inv c → legal e (connector_ c) → (∀ err, e ≠ EvReStart err) →
  ∃ c', run_connector e c = Ok c' ∧ client_inv c'.
Proof.
  intros [Hk Hcb Hl Hh Ha Hr Hs] Hleg He. destruct (run_event_inv e _ Hk Hleg) as (k & E & Hk').
  destruct (run_event_step e _ k Hk Hcb He E) as [Hcb' Hstep]. rewrite Hcb in Hcb'.
  unfold run_connector. rewrite E. cbn [mbind res_bind]. eexists. split; [reflexivity|].
  destruct Hstep as [[Eh Es]|(Eh & Hn & Es)].
  - rewrite decide_True by done. apply set_connector_inv; try done. unfold kept. congruence.
  - rewrite decide_False by lia.
    assert (connection_ c = None) as En.
    { destruct (connection_ c) eqn:E'; [|done]. destruct Hn. apply Hs. by eexists. }
    split; cbn [connector_ set_connector NewConnection conns sequence_ connection_]; try done.
    + rewrite length_app, Hl. cbn. lia.
    + by rewrite Eh, Hh.
    + intros id s Hi. destruct (decide (id < length (conns c))) as [Hlt|Hge].
      * rewrite lookup_app_l in Hi by done. rewrite (Ha id s Hi), En. split; [done|]. intros [= <-]. lia.
      * rewrite lookup_app_r in Hi by lia. destruct (id - length (conns c)) as [|m] eqn:Em; [|done].
        injection Hi as <-. replace id with (sequence_ c) by lia. done.
    + intros id [= <-]. lia.
Qed.

Lemma restart_inv err k :
  con_inv k → state_ k = kConnected → early (EvReStart err) k = false →
  ∃ k', ReStartInLoop err k = Ok k' ∧ con_inv k' ∧ kept k' = kept k.
Proof.
  intros Hk Es Ht. destruct (run_event_inv (EvReStart err) k Hk) as (k' & E & Hk'); [split; [cbn; by rewrite Es|done]|].
  exists k'. split_and!; [done|done|]. unfold ReStartInLoop in E. by apply StartInLoop_kept in E as [-> _].
Qed.

Lemma RemoveConnection_inv id err c :
  client_inv c → client_legal (EvClosed id err) c → ∃ c', RemoveConnection id err c = Ok c' ∧ client_inv c'.
Proof.
  intros [Hk Hcb Hl Hh Ha Hr Hs] [Hid Hre].
  assert (∃ s, conns c !! id = Some s ∧ s ≠ CDestroyed) as (s & Es & Hns) by (destruct Hid; eauto).
  assert (connection_ c = Some id) as Ec by (by apply (Ha id s Es)).
  unfold RemoveConnection. rewrite decide_True by done. unfold Destroy. cbn [conns set_connection].
  rewrite Es. cbn [deref mbind res_bind]. rewrite bool_decide_true by done. cbn [assert mbind res_bind].
  set (c1 := set_conns _ _).
  assert (∀ k, con_inv k → kept k = kept (connector_ c) → client_inv (set_connector k c1)) as Hfin.
  { intros k Hck [= E1 E2]. split; cbn [connector_ set_connector c1 set_conns conns sequence_ connection_ set_connection]; try done.
    all: try (rewrite ?E1, ?E2; done).
    - by rewrite length_insert.
    - intros j sj Hj. split; [|done]. intros Hn. destruct (decide (j = id)) as [->|Hne].
      + rewrite list_lookup_insert_eq in Hj by (by eapply lookup_lt_Some). congruence.
      + rewrite list_lookup_insert_ne in Hj by done. apply (Ha j sj) in Hn; [|done]. congruence. }
  change (to_connect_ c1 && is_retry c1) with (to_connect_ c && is_retry c).
  change (connector_ c1) with (connector_ c). destruct (to_connect_ c && is_retry c).
  - destruct (restart_inv err (connector_ c) Hk) as (k & -> & Hck & Hkk); [apply Hs; by eexists|by apply Hre|].
    cbn [mbind res_bind]. eexists. split; [reflexivity|]. by apply Hfin.
  - eexists. split; [reflexivity|]. by apply (Hfin (connector_ c)).
Qed.

Lemma quiet_inv e (c c1 : TcpClient) :
  client_inv c → client_inv c1 → connector_ c1 = connector_ c → legal e (connector_ c) →
  match e with EvStart _ _ | EvStop _ => True | _ => False end →
  ∃ c', (k ← run_event e (connector_ c1); Ok (set_connector k c1)) = Ok c' ∧ client_inv c'.
Proof.
  intros Hinv Hinv1 Ec Hl He. destruct (run_event_inv e _ (ti_connector c Hinv) Hl) as (k & E & Hk).
  rewrite Ec, E. cbn [mbind res_bind]. eexists. split; [reflexivity|]. apply set_connector_inv; [done|done| |];
    rewrite Ec; destruct e as [[]|[]| | | | | |]; try done; cbn [run_event Start Connector.Stop] in E;
    try (injection E as <-); try done; by (apply StartInLoop_kept in E as [? ?] || apply StopInLoop_kept in E as [? ?]).
Qed.

Lemma run_client_inv e c :
  client_inv c → client_legal e c → ∃ c', run_client e c = Ok c' ∧ client_inv c'.
Proof.
  intros Hinv Hl. pose proof Hinv as [Hk Hcb Hlen Hh Ha Hr Hs].
  assert (∀ b, client_inv (set_to_connect b c)) as Hb by (by intros b; split).
  destruct e as [b err| |b| | |e|id err]; cbn [run_client client_legal] in *.
  - by apply (quiet_inv (EvStart b err) c (set_to_connect true c)).
  - eexists. split; [reflexivity|]. unfold DisConnect. cbn [connection_ set_to_connect].
    destruct (connection_ c) as [id|] eqn:Ec; [|apply Hb].
    split; cbn [connector_ set_conns set_to_connect conns sequence_ connection_]; rewrite ?Ec; try done.
    + by rewrite length_alter.
    + intros j s Hj. destruct (decide (j = id)) as [->|Hne].
      * rewrite list_lookup_alter_eq in Hj. destruct (conns c !! id) as [s0|] eqn:Es; [|done]. injection Hj as <-.
        rewrite <- (Ha id s0 Es). by destruct s0.
      * rewrite list_lookup_alter_ne in Hj by done. by apply Ha.
  - apply (quiet_inv (EvStop b) c (set_to_connect false c)); try done. by split; [|apply andb_false_r].
  - eexists. split; [reflexivity|]. by split.
  - eexists. split; [reflexivity|]. unfold DisableConnectInLoop. destruct (disabler _); by split.
  - apply run_connector_inv; [done|by destruct e|by intros err ->].
  - by apply RemoveConnection_inv.
Qed.

Lemma run_clients_inv es : ∀ c,
  client_inv c → client_legal_run es c → ∃ c', run_clients es c = Ok c' ∧ client_inv c'.
Proof.
  induction es as [|e es IH]; intros c Hinv Hl; [by exists c|]. destruct Hl as [Hl Hls].
  destruct (run_client_inv e c Hinv Hl) as (c1 & E & Hi1). destruct (IH c1 Hi1 (Hls c1 E)) as (c' & E' & ?).
  exists c'. cbn [run_clients]. by rewrite E.
Qed.

Lemma client_inv_new : client_inv TcpClient_new.
Proof. split; try done. apply con_inv_new. by intros []. Qed.

(** Through every sequence of connects, disconnects, stops, closed
    connections and steps of the connector, no assertion fails: each socket
    the connector hands over becomes one connection, numbered in order; at
    most one connection is alive at a time, and it is the one that
    [connection_] holds; a closed connection is destroyed once. *)
Theorem client_runs es :
  client_legal_run es TcpClient_new →
  ∃ c, run_clients es TcpClient_new = Ok c ∧ length (conns c) = sequence_ c ∧
    handed (connector_ c) = sequence_ c ∧
    (∀ id s, conns c !! id = Some s → (s = CDestroyed ↔ connection_ c ≠ Some id)) ∧
    (∀ id, connection_ c = Some id → ∃ s, conns c !! id = Some s).
Proof.
  intros Hl. destruct (run_clients_inv es _ client_inv_new Hl) as (c & E & [Hk Hcb Hlen Hh Ha Hr Hs]).
  exists c. split_and!; try done.
  - intros id s Hi. rewrite <- (Ha id s Hi). split; [intros ->; tauto|]. destruct (decide (s = CDestroyed)); tauto.
  - intros id Hid%Hr. apply lookup_lt_is_Some_2. by rewrite Hlen.
Qed.

Definition demo_client : list client_event :=
  [EvEnableRetry; EvConnect true EINPROGRESS; EvConnector (EvWritable 0 false); EvConnector (EvTask 0);
   EvClosed 0 EINPROGRESS; EvConnector (EvWritable 0 false); EvConnector (EvTask 0); EvDisConnect; EvClosed 1 0].

Lemma client_runs_witness :
  ∃ c, run_clients demo_client TcpClient_new = Ok c ∧ conns c = [CDestroyed; CDestroyed] ∧ connection_ c = None ∧
    sequence_ c = 2.
Proof.
  destruct (client_runs demo_client) as (c & E & _).
  - unfold demo_client. repeat match goal with
    | |- client_legal_run [] _ => exact I
    | |- client_legal_run (_ :: _) _ => split
    | |- client_legal _ _ => apply (bool_decide_unpack _); vm_compute; exact I
    | |- ∀ _, _ = Ok _ → _ => intros ? E; vm_compute in E; injection E as <-
    end.
  - exists c. split; [done|]. vm_compute in E. injection E as <-. by vm_compute.
Defined.

(** Without [EnableRetry] a client that has lost its connection never gets
    another one: [Connect] has no effect any more. *)
Lemma connect_once :
  ∃ c, run_clients [EvConnect true EINPROGRESS; EvConnector (EvWritable 0 false); EvConnector (EvTask 0);
                    EvDisConnect; EvClosed 0 0; EvConnect true EINPROGRESS] TcpClient_new = Ok c ∧
    connection_ c = None ∧ to_connect_ c = true ∧ channel_ (connector_ c) = None ∧ tasks (connector_ c) = [].
Proof. eexists. split_and!; vm_compute; reflexivity. Qed.
