(* ===== verification/ClientStack.v ===== *)
(** The client of [TcpClient] with the connections of [TcpConnection] instead
    of their states: [TcpClient::NewConnection], [DisConnect] and
    [RemoveConnection] of [net/tcp_client.cc] together with what they do to the
    connection objects of [net/tcp_connection.cc].  A client has one loop, so
    its close callback takes a connection out of the poll set at once. *)

From S2P Require Import Prelude ChainBuffer ByteQueue Poller Connector TcpClient TcpConnection ServerStack.

Section stack.
Context {Q : Type} `{ByteQueueLaws Q}.
(** The kernel and the user of each connection, by its number. *)
Variable sys_write : nat → nat → bytes → writev_result.
Variable sys_readv : nat → nat → readv_fn.
Variable sys_writev : nat → nat → writev_fn.
Variable user : nat → cb_event → TcpConnection Q → res (TcpConnection Q).
Variable on_message on_complete : bool.

Record ClientStack := mkClientStack { client : TcpClient; peers : gmap nat (TcpConnection Q) }.

Definition client_callbacks (id : nat) : cb_event → TcpConnection Q → res (TcpConnection Q) := server_invoke true (user id).

(** The close callback, if [c] has become [c'] by calling it. *)
Definition client_notify (id : nat) (err : Z) (c c' : TcpConnection Q) (cl : TcpClient) : res TcpClient :=
  if decide (closes (trace c') = closes (trace c)) then Ok cl else TcpClient.RemoveConnection id err cl.

(** A step of the connector; a socket it hands over becomes a connection
    object with descriptor [fd], which is established at once.  [err] is what
    [connect] answers if the client reconnects. *)
Definition step_connector (e : event) (fd err : Z) (st : ClientStack) : res ClientStack :=
  cl ← run_connector e (client st);
  if decide (sequence_ cl = sequence_ (client st)) then Ok (mkClientStack cl (peers st))
  else
    let id := sequence_ (client st) in
    let c := TcpConnection_new fd on_message on_complete false in
    c' ← EstablishConnection (client_callbacks id) c;
    cl ← client_notify id err c c' cl;
    Ok (mkClientStack cl (<[id := c']> (peers st))).

(** [DisConnect], by the loop or another thread: [connection_->ShutDown()]. *)
Definition disconnect (in_loop : bool) (st : ClientStack) : res ClientStack :=
  let cl := TcpClient.DisConnect (client st) in
  match connection_ (client st) with
  | Some id =>
      c ← deref NullDeref (peers st !! id);
      c ← in_thread in_loop (ShutDown (sys_write id) (client_callbacks id)) c;
      Ok (mkClientStack cl (<[id := c]> (peers st)))
  | None => Ok (mkClientStack cl (peers st))
  end.

(** Something happens to the object of connection [id]. *)
Definition on_peer (id : nat) (o : conn_op (Q := Q)) (err : Z) (st : ClientStack) : res ClientStack :=
  c ← deref NullDeref (peers st !! id);
  c' ← run_op (sys_write id) (sys_readv id) (sys_writev id) (client_callbacks id) o c;
  cl ← client_notify id err c c' (client st);
  Ok (mkClientStack cl (<[id := c']> (peers st))).

Inductive client_stack_event :=
  | CSConnect (in_loop : bool) (err : Z)
  | CSDisConnect (in_loop : bool)
  | CSStop (in_loop : bool)
  | CSEnableRetry
  | CSDisable
  | CSConnector (e : event) (fd err : Z)
  | CSPeer (id : nat) (o : conn_op (Q := Q)) (err : Z).

Definition on_client (e : client_event) (st : ClientStack) : res ClientStack :=
  cl ← run_client e (client st); Ok (mkClientStack cl (peers st)).

Definition client_stack_step (e : client_stack_event) (st : ClientStack) : res ClientStack :=
  match e with
  | CSConnect b err => on_client (EvConnect b err) st
  | CSDisConnect b => disconnect b st
  | CSStop b => on_client (EvClientStop b) st
  | CSEnableRetry => on_client EvEnableRetry st
  | CSDisable => on_client EvDisable st
  | CSConnector e fd err => step_connector e fd err st
  | CSPeer id o err => on_peer id o err st
  end.

Fixpoint client_stack_run (es : list client_stack_event) (st : ClientStack) : res ClientStack :=
  match es with [] => Ok st | e :: es => st ← client_stack_step e st; client_stack_run es st end.

(** The client will connect again when it loses its connection. *)
Definition retrying (cl : TcpClient) : bool := to_connect_ cl && is_retry cl.

(** If the client loses its connection now, it connects again before the
    channel of the last attempt is gone; [err] is the answer of that
    [connect]. *)
Definition reconnects_early (err : Z) (cl : TcpClient) : bool := retrying cl && early (EvReStart err) (connector_ cl).

(** The operation closes the connection. *)
Definition peer_closes (id : nat) (o : conn_op (Q := Q)) (c : TcpConnection Q) : bool :=
  match run_op (sys_write id) (sys_readv id) (sys_writev id) (client_callbacks id) o c with
  | Ok c' => bool_decide (closes (trace c') ≠ closes (trace c))
  | Fault _ => false
  end.

(** The step of the connector hands over a socket, and the user closes the
    connection at once. *)
Definition closes_at_once (e : event) (fd err : Z) (st : ClientStack) : bool :=
  match run_connector e (client st) with
  | Ok cl =>
      if decide (sequence_ cl = sequence_ (client st)) then false
      else match EstablishConnection (client_callbacks (sequence_ (client st))) (TcpConnection_new fd on_message on_complete false) with
           | Ok c' => bool_decide (state_ c' = kDisConnected) && reconnects_early err cl
           | Fault _ => false
           end
  | Fault _ => false
  end.

(** What the loop can deliver. *)
Definition client_deliverable (e : client_stack_event) (st : ClientStack) : Prop :=
  match e with
  | CSConnector (EvReStart _) _ _ => False
  | CSConnector e _ _ => deliverable e (connector_ (client st))
  | CSPeer id o _ => ∃ c, peers st !! id = Some c ∧ legal o c ∧ o ≠ OpDestroy
  | _ => True
  end.

(** An attempt begins before the channel of the last one is gone. *)
Definition too_soon (e : client_stack_event) (st : ClientStack) : bool :=
  match e with
  | CSConnect b err => early (EvStart b err) (connector_ (client st))
  | CSConnector e fd err => early e (connector_ (client st)) || closes_at_once e fd err st
  | CSPeer id o err => match peers st !! id with Some c => peer_closes id o c && reconnects_early err (client st) | None => false end
  | _ => false
  end.

Definition client_stack_legal (e : client_stack_event) (st : ClientStack) : Prop :=
  client_deliverable e st ∧ too_soon e st = false.

Fixpoint client_stack_legal_run (es : list client_stack_event) (st : ClientStack) : Prop :=
  match es with
  | [] => True
  | e :: es => client_stack_legal e st ∧ ∀ st', client_stack_step e st = Ok st' → client_stack_legal_run es st'
  end.

(** ** The simulation *)

(** What the client believes of a connection, and what it is. *)
Definition client_agrees (v : conn) (c : TcpConnection Q) : Prop :=
  conn_ok c ∧
  match v with
  | CDestroyed => state_ c = kDisConnected ∧ closes (trace c) = 1 ∧ a_status (channel_ c) = Removed
  | _ => open c ∧ closes (trace c) = 0
  end.

Record client_stack_inv (st : ClientStack) : Prop := {
  cs_client : client_inv (client st);
  cs_view id : match conns (client st) !! id, peers st !! id with
               | Some v, Some c => client_agrees v c
               | None, None => True
               | _, _ => False
               end
}.

Hypothesis user_ok : ∀ id, callbacks_ok (user id).
Hypothesis user_closing : ∀ id ev c, ev ≠ EvClose → conn_wf c → in_loop_thread c = true → closes_well true c (user id ev c).
Hypothesis write_whole : ∀ id, writes_whole (sys_write id).
Hypothesis readv_law : ∀ id k, readv_ok (sys_readv id k).
Hypothesis writev_law : ∀ id k, writev_ok (sys_writev id k).
Implicit Types (cl : TcpClient) (st : ClientStack).

(** What the operations of the client do to its list of connections. *)
Lemma RemoveConnection_conns id err cl cl' :
  RemoveConnection id err cl = Ok cl' → conns cl' = <[id := CDestroyed]> (conns cl).
Proof.
  unfold RemoveConnection. set (c1 := if decide _ then _ else cl).
  assert (conns c1 = conns cl) as E by (unfold c1; by destruct (decide _)). unfold Destroy. rewrite E.
  destruct (conns cl !! id); cbn [deref mbind res_bind]; [|done]. destruct (assert _); cbn [mbind res_bind]; [|done].
  destruct (_ && _); [|by intros [= <-]]. destruct (ReStartInLoop _ _); cbn [mbind res_bind]; [|done]. by intros [= <-].
Qed.

Lemma run_connector_conns e cl cl' :
  run_connector e cl = Ok cl' →
  (sequence_ cl' = sequence_ cl ∧ conns cl' = conns cl) ∨
  (sequence_ cl' = S (sequence_ cl) ∧ conns cl' = conns cl ++ [CUp] ∧ retrying cl' = retrying cl).
Proof.
  unfold run_connector. destruct (run_event _ _); cbn [mbind res_bind]; [|done]. intros [= <-]. destruct (decide _); [by left|by right].
Qed.

Lemma run_client_conns e cl cl' :
  match e with EvConnect _ _ | EvClientStop _ | EvEnableRetry | EvDisable => True | _ => False end →
  run_client e cl = Ok cl' → conns cl' = conns cl.
Proof.
  destruct e; try done; intros _; cbn [run_client].
  - unfold TcpClient.Connect. destruct (Start _ _ _); cbn [mbind res_bind]; [|done]. by intros [= <-].
  - unfold TcpClient.Stop. destruct (Connector.Stop _ _); cbn [mbind res_bind]; [|done]. by intros [= <-].
  - by intros [= <-].
  - intros [= <-]. unfold DisableConnectInLoop. by destruct (disabler _).
Qed.

(** *** Steps *)

(** An open object changes; the client hears of it if it has closed. *)
Lemma client_notify_inv id err v c c' cl :
  client_inv cl → conns cl !! id = Some v → v ≠ CDestroyed → closes (trace c) = 0 → conn_ok c' → up_or_closed true c' →
  (¬ open c' → reconnects_early err cl = false) →
  ∃ cl' v', client_notify id err c c' cl = Ok cl' ∧ client_inv cl' ∧ conns cl' = <[id := v']> (conns cl) ∧ client_agrees v' c'.
Proof.
  intros Hi Ev Hv Hz Hc Hup Hre. unfold client_notify. rewrite Hz. destruct Hup as [[Ho E]|(Hs & E & Ha)]; rewrite E.
  - rewrite decide_True by done. exists cl, v. split_and!; [done|done|by rewrite list_insert_id|]. split; [done|]. by destruct v.
  - rewrite decide_False by lia. destruct (RemoveConnection_inv id err cl Hi) as (cl' & E' & Hi').
    { split; [destruct v; [by left|by right|done]|]. intros Hr. apply closed_not_open, Hre in Hs. unfold reconnects_early, retrying in Hs. by rewrite Hr in Hs. }
    exists cl', CDestroyed. split_and!; [done|done|by eapply RemoveConnection_conns|]. by split.
Qed.

(** One connection has changed, in the client and in the objects. *)
Lemma client_view_update id v v' c c' cl (p : gmap nat (TcpConnection Q)) l :
  conns cl !! id = Some v → p !! id = Some c → l = <[id := v']> (conns cl) → client_agrees v' c' →
  (∀ j, match conns cl !! j, p !! j with Some v, Some c => client_agrees v c | None, None => True | _, _ => False end) →
  ∀ j, match l !! j, <[id := c']> p !! j with Some v, Some c => client_agrees v c | None, None => True | _, _ => False end.
Proof.
  intros Ev Ec -> Ha Hv j. destruct (decide (j = id)) as [->|Hne].
  - rewrite list_lookup_insert_eq by (by eapply lookup_lt_Some). by rewrite lookup_insert_eq.
  - rewrite list_lookup_insert_ne, lookup_insert_ne by done. apply Hv.
Qed.

Lemma on_peer_inv id o err st :
  client_stack_inv st → client_stack_legal (CSPeer id o err) st →
  ∃ st', on_peer id o err st = Ok st' ∧ client_stack_inv st'.
Proof.
  intros [Hi Hv] [(c & Ec & Hl & Hd) Hre]. cbn [too_soon] in Hre. pose proof (Hv id) as Hid. rewrite Ec in Hid, Hre.
  destruct (conns (client st) !! id) as [v|] eqn:Ev; [|done]. destruct Hid as [Hc Hcase].
  destruct (run_op_ok (sys_write id) (sys_readv id) (sys_writev id) (client_callbacks id) (write_whole id) (readv_law id)
    (writev_law id) (server_invoke_ok true (user id) (user_ok id)) o c Hc Hl) as (c' & E & Hc' & _).
  pose proof (run_op_closes true (user id) (user_ok id) (user_closing id) (sys_write id) (sys_readv id) (sys_writev id)
    (readv_law id) (writev_law id) o c Hc Hl Hd c' E) as Hcl.
  unfold on_peer. rewrite Ec. cbn [deref mbind res_bind]. rewrite E. cbn [mbind res_bind].
  destruct (decide (v = CDestroyed)) as [->|Hne].
  - destruct Hcase as (Hs & Hz & Hr). destruct Hcl as [(Et & _ & Hsame)|(Ho & _)]; [|by apply closed_not_open in Hs].
    destruct Hsame as [Es Ech]; [by apply closed_not_open|]. unfold client_notify. rewrite decide_True by done. cbn [mbind res_bind].
    eexists. split; [done|]. split; [done|]. cbn [client peers].
    eapply client_view_update; [done|done|by rewrite list_insert_id| |done]. split; [done|]. by rewrite Es, Et, Ech.
  - assert (open c ∧ closes (trace c) = 0) as [Ho Hz] by (by destruct v).
    destruct (client_notify_inv id err v c c' (client st) Hi Ev Hne Hz Hc') as (cl' & v' & -> & Hi' & El & Ha);
      [by apply (closing_up true c); [apply Hc|..]| |].
    { intros Hno. unfold peer_closes in Hre. rewrite E, bool_decide_true in Hre; [done|]. rewrite Hz.
      destruct (closing_up true c c' (co_wf c Hc) Ho Hcl) as [[? _]|(_ & -> & _)]; [done|lia]. }
    cbn [mbind res_bind]. eexists. split; [done|]. split; [done|]. cbn [client peers]. by eapply client_view_update.
Qed.

Lemma step_connector_inv e fd err st :
  client_stack_inv st → client_stack_legal (CSConnector e fd err) st →
  ∃ st', step_connector e fd err st = Ok st' ∧ client_stack_inv st'.
Proof.
  intros [Hi Hv] [Hl Hopen]. cbn [too_soon] in Hopen. apply orb_false_iff in Hopen as [Hearly Hopen]. unfold step_connector.
  assert (client_legal (EvConnector e) (client st)) as Hl' by (cbn [client_legal]; by destruct e).
  destruct (run_client_inv (EvConnector e) (client st) Hi Hl') as (cl & E & Hcl). cbn [run_client] in E.
  rewrite E. cbn [mbind res_bind]. destruct (run_connector_conns e _ _ E) as [[Es El]|(Es & El & Er)].
  - rewrite decide_True by done. eexists. split; [done|]. split; [done|]. cbn [client peers]. by rewrite El.
  - rewrite decide_False by lia. set (id := sequence_ (client st)) in *.
    destruct (EstablishConnection_up true (user id) (user_ok id) (user_closing id) fd on_message on_complete false)
      as (c & Ec & Hc & Hup).
    unfold client_callbacks in *. rewrite Ec. cbn [mbind res_bind].
    assert (length (conns (client st)) = id) as Hlen by apply (ti_length _ Hi).
    destruct (client_notify_inv id err CUp (TcpConnection_new fd on_message on_complete false) c cl Hcl) as (cl' & v' & -> & Hi' & El' & Ha);
      [by rewrite El, <- Hlen, lookup_app_r, Nat.sub_diag by lia|done|done|done|done| |].
    { intros Hn. unfold closes_at_once in Hopen. rewrite E, decide_False in Hopen by lia. unfold client_callbacks in Hopen. fold id in Hopen.
      rewrite Ec in Hopen. destruct Hup as [[? _]|(Hs & _)]; [done|]. by rewrite bool_decide_true in Hopen. }
    cbn [mbind res_bind]. eexists. split; [done|]. split; [done|]. cbn [client peers]. intros j. rewrite El', El.
    pose proof (Hv j) as Hj. destruct (decide (j = id)) as [->|Hne].
    + rewrite list_lookup_insert_eq by (rewrite length_app; cbn; lia). by rewrite lookup_insert_eq.
    + rewrite list_lookup_insert_ne, lookup_insert_ne by done. destruct (decide (j < id)).
      * by rewrite lookup_app_l by lia.
      * rewrite lookup_ge_None_2 in Hj by lia. by rewrite lookup_ge_None_2 by (rewrite length_app; cbn; lia).
Qed.

(** [ShutDown] calls no callback. *)
Lemma ShutDown_trace b id c c' :
  in_thread b (ShutDown (sys_write id) (client_callbacks id)) c = Ok c' → trace c' = trace c.
Proof.
  unfold in_thread, ShutDown, RunInLoop. destruct (decide _); [|by intros [= <-]]. cbn [in_loop_thread SetState set_thread run_functor].
  destruct b; [|by intros [= <-]]. unfold ShutDownInLoop, AssertInLoopThread. cbn [in_loop_thread SetState set_thread].
  intros [= <-]. by destruct (negb _).
Qed.

Lemma disconnect_inv b st : client_stack_inv st → ∃ st', disconnect b st = Ok st' ∧ client_stack_inv st'.
Proof.
  intros [Hi Hv]. destruct (run_client_inv EvDisConnect (client st) Hi I) as (cl & E & Hcl). injection E as <-.
  unfold disconnect. destruct (connection_ (client st)) as [id|] eqn:Econ.
  - pose proof (ti_range _ Hi id Econ) as Hid. destruct (lookup_lt_is_Some_2 (conns (client st)) id) as [v Ev]; [by rewrite (ti_length _ Hi)|].
    assert (v ≠ CDestroyed) as Hne by (by apply (ti_alive _ Hi id v Ev)).
    pose proof (Hv id) as Hj. rewrite Ev in Hj. destruct (peers st !! id) as [c|] eqn:Ec; [|done].
    assert (conn_ok c ∧ open c ∧ closes (trace c) = 0) as (Hc & Ho & Hz) by (destruct Hj; by destruct v).
    destruct (run_op_ok (sys_write id) (sys_readv id) (sys_writev id) (client_callbacks id) (write_whole id) (readv_law id)
      (writev_law id) (server_invoke_ok true (user id) (user_ok id)) (OpShutDown b) c Hc I) as (c' & E & Hc' & _).
    pose proof (run_op_closes true (user id) (user_ok id) (user_closing id) (sys_write id) (sys_readv id) (sys_writev id)
      (readv_law id) (writev_law id) (OpShutDown b) c Hc I ltac:(done) c' E) as Hclo.
    cbn [deref mbind res_bind]. cbn [run_op] in E. rewrite E. cbn [mbind res_bind]. eexists. split; [done|]. split; [done|].
    cbn [client peers]. apply ShutDown_trace in E.
    assert (open c') as Ho' by (destruct Hclo as [(_ & Ho' & _)|(_ & _ & H1 & _)]; [auto|rewrite E in H1; lia]).
    eapply (client_view_update id v (match v with CUp => CShut | _ => v end) c c'); [done|done| | |done].
    + unfold TcpClient.DisConnect. cbn [connection_ set_to_connect]. rewrite Econ. cbn [conns set_conns set_to_connect].
      apply list_eq. intros j. destruct (decide (j = id)) as [->|Hj'].
      * rewrite list_lookup_alter_eq, list_lookup_insert_eq by (by eapply lookup_lt_Some). by rewrite Ev.
      * by rewrite list_lookup_alter_ne, list_lookup_insert_ne.
    + split; [done|]. rewrite E. by destruct v.
  - eexists. split; [done|]. split; [done|]. cbn [client peers]. unfold TcpClient.DisConnect. cbn [connection_ set_to_connect].
    by rewrite Econ.
Qed.

Lemma client_stack_step_inv e st :
  client_stack_inv st → client_stack_legal e st → ∃ st', client_stack_step e st = Ok st' ∧ client_stack_inv st'.
Proof.
  intros Hinv Hl. pose proof Hinv as [Hi Hv].
  assert (∀ ce, match ce with EvConnect _ _ | EvClientStop _ | EvEnableRetry | EvDisable => True | _ => False end →
    client_legal ce (client st) → ∃ st', on_client ce st = Ok st' ∧ client_stack_inv st') as Hcl.
  { intros ce Hce Hle. destruct (run_client_inv ce (client st) Hi Hle) as (cl & E & Hc). unfold on_client. rewrite E.
    cbn [mbind res_bind]. eexists. split; [done|]. split; [done|]. cbn [client peers]. by rewrite (run_client_conns ce _ _ Hce E). }
  destruct e as [b err|b|b| | |e fd err|id o err]; cbn [client_stack_step]; [by apply Hcl|by apply disconnect_inv|by apply Hcl..| |].
  - by apply step_connector_inv.
  - by apply on_peer_inv.
Qed.

Lemma client_stack_run_inv es : ∀ st,
  client_stack_inv st → client_stack_legal_run es st → ∃ st', client_stack_run es st = Ok st' ∧ client_stack_inv st'.
Proof.
  induction es as [|e es IH]; intros st Hi Hl; [by exists st|]. destruct Hl as [Hl Hls].
  destruct (client_stack_step_inv e st Hi Hl) as (st1 & E & Hi1).
  destruct (IH st1 Hi1 (Hls st1 E)) as (st' & E' & Hi'). exists st'. cbn [client_stack_run]. by rewrite E.
Qed.

(** What the client believes of its connections. *)
Lemma client_stack_settled st :
  client_stack_inv st →
  handed (connector_ (client st)) = sequence_ (client st) ∧
  (∀ id, id < sequence_ (client st) ↔ is_Some (peers st !! id)) ∧
  ∀ id c, peers st !! id = Some c →
    (open c ↔ connection_ (client st) = Some id) ∧
    (state_ c = kDisConnected ↔ connection_ (client st) ≠ Some id) ∧
    (a_status (channel_ c) = Removed ↔ connection_ (client st) ≠ Some id) ∧
    closes (trace c) = (if decide (connection_ (client st) = Some id) then 0 else 1).
Proof.
  intros [Hi Hv]. split_and!; [apply Hi| |].
  - intros id. rewrite <- (ti_length _ Hi), <- lookup_lt_is_Some. pose proof (Hv id) as Hid.
    destruct (conns (client st) !! id), (peers st !! id); try done; (split; [by eexists|by intros _; eexists]) || (split; by intros []).
  - intros id c Ec. pose proof (Hv id) as Hid. rewrite Ec in Hid. destruct (conns (client st) !! id) as [v|] eqn:Ev; [|done].
    pose proof (ti_alive _ Hi id v Ev) as Ha. destruct Hid as [Hc Hcase].
    destruct (decide (v = CDestroyed)) as [->|Hne].
    + destruct Hcase as (Hs & Hz & Hr). assert (connection_ (client st) ≠ Some id) as Hn by (intros Hx; by apply Ha in Hx).
      rewrite decide_False by done. split_and!; try done. split; [|done]. by intros ?%closed_not_open.
    + assert (open c ∧ closes (trace c) = 0) as [Ho Hz] by (by destruct v). apply Ha in Hne. rewrite decide_True by done.
      pose proof (open_registered c (co_wf c Hc) Ho) as Hr. split_and!; try done.
      * split; [|done]. by intros ?%closed_not_open.
      * rewrite Hr. by split.
Qed.

Lemma client_stack_start : client_stack_inv (mkClientStack TcpClient_new ∅).
Proof. split; [apply client_inv_new|]. intros id. cbn [client peers]. by rewrite lookup_empty. Qed.
End stack.

(** ** Up to the first short direct write, or the first early attempt *)

Section upto.
Context {Q : Type} `{ByteQueueLaws Q}.
Variable sys_write : nat → nat → bytes → writev_result.
Variable sys_readv : nat → nat → readv_fn.
Variable sys_writev : nat → nat → writev_fn.
Variable user : nat → cb_event → TcpConnection Q → res (TcpConnection Q).
Variable on_message on_complete : bool.
Implicit Types st : ClientStack (Q := Q).

Abbreviation kernels f := (λ id, f (sys_write id)).
Abbreviation step w := (client_stack_step w sys_readv sys_writev user on_message on_complete).
Abbreviation run w := (client_stack_run w sys_readv sys_writev user on_message on_complete).

(** The event is an operation of a connection whose direct write is short. *)
Definition peer_takes_part (e : client_stack_event (Q := Q)) st : bool :=
  match e with
  | CSPeer id o _ => match peers st !! id with Some c => op_takes_part (sys_write id) o c | None => false end
  | _ => false
  end.

Definition client_goes_wrong (e : client_stack_event) st : bool :=
  too_soon sys_write sys_readv sys_writev user on_message on_complete e st || peer_takes_part e st.

(** What is delivered, in order. *)
Fixpoint client_deliverable_run (es : list client_stack_event) st : Prop :=
  match es with
  | [] => True
  | e :: es => client_deliverable e st ∧ ∀ st', step sys_write e st = Ok st' → client_deliverable_run es st'
  end.

(** Nothing goes wrong in the whole run. *)
Fixpoint client_fine (es : list client_stack_event) st : bool :=
  match es with
  | [] => true
  | e :: es => negb (client_goes_wrong e st) && match step sys_write e st with Ok st' => client_fine es st' | Fault _ => true end
  end.

Hypothesis write_law : ∀ id k, writev_ok (sys_write id k).

Lemma client_stack_step_made_whole e st :
  client_deliverable e st → client_goes_wrong e st = false →
  client_stack_legal (kernels made_whole) sys_readv sys_writev user on_message on_complete e st ∧
  step sys_write e st = step (kernels made_whole) e st.
Proof.
  intros Hd Hw. unfold client_goes_wrong in Hw. apply orb_false_iff in Hw as [Hs Ht].
  assert (∀ id o c, legal o c → op_takes_part (sys_write id) o c = false →
    run_op (sys_write id) (sys_readv id) (sys_writev id) (client_callbacks user id) o c =
    run_op (made_whole (sys_write id)) (sys_readv id) (sys_writev id) (client_callbacks user id) o c) as Hop
    by (intros id o c; apply run_op_made_whole, write_law).
  unfold client_stack_legal. destruct e as [b err|b|b| | |e fd err|id o err]; try (split; [by split|done]).
  destruct Hd as (c & Ec & Hl & Hn). cbn [peer_takes_part too_soon client_stack_step] in *. unfold on_peer. rewrite Ec in *.
  cbn [deref mbind res_bind]. pose proof (Hop id o c Hl Ht) as E. split; [|by rewrite E].
  split; [by exists c|]. unfold peer_closes in *. by rewrite <- E.
Qed.

Hypothesis user_ok : ∀ id, callbacks_ok (user id).
Hypothesis user_closing : ∀ id ev c, ev ≠ EvClose → conn_wf c → in_loop_thread c = true → closes_well true c (user id ev c).
Hypothesis readv_law : ∀ id k, readv_ok (sys_readv id k).
Hypothesis writev_law : ∀ id k, writev_ok (sys_writev id k).

Lemma client_stack_upto es st :
  client_stack_inv st → client_deliverable_run es st →
  ∃ done rest st', es = done ++ rest ∧ run sys_write done st = Ok st' ∧ client_stack_inv st' ∧
    (rest = [] ∨ ∃ e rest', rest = e :: rest' ∧ client_goes_wrong e st' = true).
Proof.
  intros Hi Hl.
  apply (run_upto (step sys_write) (step (kernels made_whole)) client_deliverable
    (client_stack_legal (kernels made_whole) sys_readv sys_writev user on_message on_complete) client_goes_wrong
    (run sys_write) (run (kernels made_whole)) client_deliverable_run
    (client_stack_legal_run (kernels made_whole) sys_readv sys_writev user on_message on_complete)
    ltac:(done) ltac:(done) ltac:(done) ltac:(done) ltac:(done) ltac:(done) ltac:(done) client_stack_step_made_whole
    (λ _, client_stack_inv)); [|done].
  intros dn _ Hdn.
  exact (client_stack_run_inv (kernels made_whole) sys_readv sys_writev user on_message on_complete user_ok user_closing
    (λ id, made_whole_whole (sys_write id)) readv_law writev_law dn st Hi Hdn).
Qed.

(** A run in which nothing goes wrong keeps the invariant. *)
Lemma client_fine_inv es : ∀ st st',
  client_stack_inv st → client_deliverable_run es st → client_fine es st = true → run sys_write es st = Ok st' →
  client_stack_inv st'.
Proof.
  induction es as [|e es IH]; intros st st' Hi Hl Hf E; [by injection E as <-|]. destruct Hl as [Hd Hl]. cbn [client_fine client_stack_run] in *.
  apply andb_true_iff in Hf as [Hg%negb_true_iff Hf]. destruct (client_stack_step_made_whole e st Hd Hg) as [Hle Es].
  destruct (client_stack_step_inv (kernels made_whole) sys_readv sys_writev user on_message on_complete user_ok user_closing
    (λ id, made_whole_whole (sys_write id)) readv_law writev_law e st Hi Hle) as (st1 & E1 & Hi1).
  rewrite Es in *. rewrite E1 in *. cbn [mbind res_bind] in E. apply (IH st1); [done|by apply Hl|done|done].
Qed.

End upto.

(** ** A run *)

(** A concrete run is deliverable: each event is tried in the state reached. *)
Ltac client_stack_deliverable Hm :=
  repeat match goal with
  | |- client_deliverable_run _ _ _ _ _ _ [] _ => exact I
  | |- client_deliverable_run _ _ _ _ _ _ (_ :: _) _ => split
  | |- client_deliverable (CSPeer _ _ _) _ =>
      eexists; split_and!; [vm_compute; reflexivity| |done];
      first [exact I | split; [vm_compute; tauto|by apply Hm]]
  | |- client_deliverable (CSConnector _ _ _) _ => first [exact I | apply (bool_decide_unpack _); vm_compute; exact I]
  | |- client_deliverable _ _ => exact I
  | |- ∀ _, _ => intros ? E; vm_compute in E; injection E as <-
  end.

(** The client connects, is answered, loses the connection and makes another,
    which it shuts down. *)
Definition client_stack_example : list (client_stack_event (Q := bytes)) :=
  [CSEnableRetry; CSConnect true EINPROGRESS; CSConnector (EvWritable 0 false) 7 0; CSConnector (EvTask 0) 0 0;
   CSPeer 0 (OpEvent POLLIN 5) EINPROGRESS; CSPeer 0 (OpEvent POLLIN 6) EINPROGRESS; CSConnector (EvWritable 0 false) 8 0;
   CSConnector (EvTask 0) 0 0; CSPeer 1 (OpEvent POLLIN 7) 0; CSDisConnect false; CSPeer 1 OpRunFunctor 0].

Abbreviation client_example_run :=
  (client_stack_run (λ _, peer_write) (λ _, peer_readv) (λ _, peer_writev) (λ _, peer_echo) true true).
Abbreviation client_example_wrong :=
  (client_goes_wrong (λ _, peer_write) (λ _, peer_readv) (λ _, peer_writev) (λ _, peer_echo) true true).


(** A user that closes the connection in its own connection callback, while
    retrying is enabled: the client connects again before the channel of the
    last attempt is gone. *)
Definition closing_user (ev : cb_event) (c : TcpConnection bytes) : res (TcpConnection bytes) :=
  match ev with
  | EvConnection => if decide (state_ c = kConnected) then ForceCloseInLoop (server_invoke true silent) c else Ok c
  | _ => Ok c
  end.

Lemma reconnect_in_callback_fails :
  client_stack_run (λ _, peer_write) (λ _, peer_readv) (λ _, peer_writev) (λ _, closing_user) true true
    [CSEnableRetry; CSConnect true EINPROGRESS; CSConnector (EvWritable 0 false) 7 EINPROGRESS] (mkClientStack TcpClient_new ∅) =
  Fault AssertFail.
Proof. by vm_compute. Qed.
