(* ===== verification/ClientEnd.v ===== *)
(** The end of a client: [TcpClient::~TcpClient] of [net/tcp_client.cc], run by
    the loop, and what outlives the client: the connector while a functor, a
    timer or its channel holds it, with [Connector::~Connector] of
    [net/connector.cc] when nothing does any more, and the connections that
    their users hold, with [DetachedRemoveConnection] as the close callback of
    the last one.  A timer of [TcpConnection::ForceCloseWithDelay] holds its
    connection by the [WeakCallback] of [base/weak_callback.h]. *)

From S2P Require Import Prelude ChainBuffer ByteQueue Poller Connector TcpClient TcpConnection ServerStack ClientStack.

(** [WeakCallback::operator()]: [object] is what [object_.lock()] gives. *)
Definition WeakCallback_call {T S : Type} (object : option T) (cb : T → S → res S) (s : S) : res S :=
  match object with Some ptr => cb ptr s | None => Ok s end.

(** [~Connector], in the loop. *)
Definition Connector_destroy (k : Connector) : res unit :=
  k ← Connector.Stop true k; assert (bool_decide (Connector.channel_ k = None)).

(** Somebody holds the connector: a bound functor, a timer or its channel. *)
Definition held (k : Connector) : bool :=
  bool_decide (tasks k ≠ []) || bool_decide (timers k ≠ ∅) || bool_decide (Connector.channel_ k ≠ None).

Section ending.
Context {Q : Type} `{ByteQueueLaws Q}.
Variable sys_write : nat → nat → bytes → writev_result.
Variable sys_readv : nat → nat → readv_fn.
Variable sys_writev : nat → nat → writev_fn.
Variable user : nat → cb_event → TcpConnection Q → res (TcpConnection Q).
Variable on_message on_complete : bool.

(** What is left of a client: its connector, until that is destroyed, the
    connections, and which of them has the detached close callback. *)
Record remains := mkRemains { left_connector : option Connector; left_peers : gmap nat (TcpConnection Q); detached : option nat }.
Implicit Types r : remains.

(** The last reference to the connector goes. *)
Definition release r : res remains :=
  match left_connector r with
  | Some k => if held k then Ok r else _ ← Connector_destroy k; Ok (mkRemains None (left_peers r) (detached r))
  | None => Ok r
  end.

Definition TcpClient_destroy (st : ClientStack (Q := Q)) : res remains :=
  let cl := DisableConnectInLoop (client st) in
  k ← StopAndWait true (connector_ cl);
  match connection_ cl with
  | Some id =>
      conn ← deref NullDeref (peers st !! id);
      release (mkRemains (Some k) (<[id := SetCloseCallbackAndWait conn]> (peers st)) (Some id))
  | None => release (mkRemains (Some k) (peers st) None)
  end.

(** The close callback of connection [id]: a call of [RemoveConnection] would
    reach the client; [DetachedRemoveConnection] destroys the connection, which
    [client_callbacks] has done. *)
Definition left_notify (id : nat) (c c' : TcpConnection Q) r : res unit :=
  if decide (closes (trace c') = closes (trace c)) then Ok tt
  else if decide (detached r = Some id) then Ok tt else Fault UseAfterFree.

Definition on_left (id : nat) (o : conn_op (Q := Q)) r : res remains :=
  c ← deref UseAfterFree (left_peers r !! id);
  c' ← run_op (sys_write id) (sys_readv id) (sys_writev id) (client_callbacks user id) o c;
  _ ← left_notify id c c' r;
  Ok (mkRemains (left_connector r) (<[id := c']> (left_peers r)) (detached r)).

(** The connector goes on; a socket it handed over would reach the client. *)
Definition on_connector (e : event) r : res remains :=
  k ← deref UseAfterFree (left_connector r);
  k' ← run_event e k;
  if decide (handed k' = handed k) then release (mkRemains (Some k') (left_peers r) (detached r)) else Fault UseAfterFree.

(** The last reference to a connection goes: its destructor, and that of its
    channel, which asserts that the poller has let it go. *)
Definition drop_peer (id : nat) r : res remains :=
  c ← deref UseAfterFree (left_peers r !! id);
  c ← TcpConnection_destroy (sys_write id) (client_callbacks user id) c;
  _ ← assert (bool_decide (a_status (channel_ c) ≠ Registered));
  Ok (mkRemains (left_connector r) (delete id (left_peers r)) (detached r)).

Inductive left_event :=
  | LTask (err : Z)
  | LTimer (id err : Z)
  | LPeer (id : nat) (o : conn_op (Q := Q))
  | LDelayed (id : nat)
  | LDrop (id : nat).

Definition left_step (e : left_event) r : res remains :=
  match e with
  | LTask err => on_connector (EvTask err) r
  | LTimer id err => on_connector (EvTimer id err) r
  | LPeer id o => on_left id o r
  | LDelayed id => WeakCallback_call (left_peers r !! id) (λ _, on_left id OpRunDelayed) r
  | LDrop id => drop_peer id r
  end.

Fixpoint left_run (es : list left_event) r : res remains :=
  match es with [] => Ok r | e :: es => r ← left_step e r; left_run es r end.

(** What there is to deliver: functors and timers that exist, operations of a
    connection somebody holds; a functor holds its connection. *)
Definition left_legal (e : left_event) r : Prop :=
  match e with
  | LTask _ => ∃ k, left_connector r = Some k ∧ tasks k ≠ []
  | LTimer id _ => ∃ k, left_connector r = Some k ∧ is_Some (timers k !! id)
  | LPeer id o => ∃ c, left_peers r !! id = Some c ∧ legal o c ∧ o ≠ OpDestroy
  | LDelayed _ => True
  | LDrop id => ∃ c, left_peers r !! id = Some c ∧ functors_ c = []
  end.

Fixpoint left_legal_run (es : list left_event) r : Prop :=
  match es with
  | [] => True
  | e :: es => left_legal e r ∧ ∀ r', left_step e r = Ok r' → left_legal_run es r'
  end.

(** ** Nothing reaches the client *)

(** A connection is open, which only the detached one can be, or closed and
    out of the poll set. *)
Definition left_agrees r (id : nat) (c : TcpConnection Q) : Prop :=
  conn_ok c ∧
  ((open c ∧ closes (trace c) = 0 ∧ detached r = Some id) ∨
   (state_ c = kDisConnected ∧ closes (trace c) = 1 ∧ a_status (channel_ c) = Removed)).

(** The connector has been stopped; it has [n] sockets, [h] of them handed
    over. *)
Definition left_stopped (n h : nat) (k : Connector) : Prop :=
  stopped n k ∧ new_connection_callback_ k = true ∧ handed k = h ∧ TStopInLoop ∉ tasks k.

Record left_inv (n h : nat) (d : option nat) r : Prop := {
  li_connector k : left_connector r = Some k → left_stopped n h k ∧ held k = true;
  li_peers id c : left_peers r !! id = Some c → left_agrees r id c;
  li_detached : detached r = d
}.

(** With nothing queued the channel is gone. *)
Lemma stopped_channel n k : stopped n k → tasks k = [] → Connector.channel_ k = None.
Proof.
  intros (Hi & _ & Hs & _) Ht. destruct (con_inv_idle_inv k Hi Hs) as [[?|(fd & _ & Hin)] _]; [done|].
  rewrite Ht in Hin. by apply not_elem_of_nil in Hin.
Qed.

Lemma Connector_destroy_ok n h k : left_stopped n h k → held k = false → Connector_destroy k = Ok tt.
Proof.
  intros (Hst & _ & _ & _) Hh. pose proof Hst as (Hi & Ec & Hs & _).
  unfold held in Hh. apply orb_false_iff in Hh as [Hh _]. apply orb_false_iff in Hh as [Ht _].
  apply bool_decide_eq_false, dec_stable in Ht. pose proof (stopped_channel n k Hst Ht) as En.
  unfold Connector_destroy, Connector.Stop, StopInLoop. set (k1 := if bool_decide _ then _ else _).
  assert (Connector.state_ k1 = Connector.state_ k ∧ Connector.channel_ k1 = None) as [Es1 En1] by (unfold k1; by case_bool_decide).
  rewrite (bool_decide_false (_ = Connector.kConnecting)) by (by rewrite Es1). rewrite andb_false_r. cbn [mbind res_bind].
  rewrite bool_decide_true; [done|]. unfold Notify. by destruct (stopper k1).
Qed.

Lemma release_inv n h k p d :
  left_stopped n h k → (∀ id c, p !! id = Some c → left_agrees (mkRemains None p d) id c) →
  ∃ r, release (mkRemains (Some k) p d) = Ok r ∧ left_inv n h d r ∧ left_peers r = p.
Proof.
  intros Hk Hp. unfold release. cbn [left_connector left_peers detached]. destruct (held k) eqn:Eh.
  - eexists. split_and!; [done| |done]. split; [|done..]. intros k0 [= <-]. by split.
  - rewrite (Connector_destroy_ok n h k Hk Eh). cbn [mbind res_bind]. eexists. split_and!; [done| |done]. by split.
Qed.

(** Stopping queues no [StopInLoop]. *)
Lemma StopInLoop_tasks k k' : StopInLoop k = Ok k' → TStopInLoop ∈ tasks k' → TStopInLoop ∈ tasks k.
Proof.
  intros E. unfold StopInLoop in E. set (k1 := if bool_decide _ then _ else _) in E.
  assert (tasks k1 = tasks k) as <- by (unfold k1; by destruct (bool_decide _)). clearbody k1. clear k.
  assert (∀ x, tasks (Notify x) = tasks x) as HN by (intros x; unfold Notify; by destruct (stopper x)).
  destruct (_ && _); [|injection E as <-; by rewrite HN].
  destruct (RemoveAndResetChannel k1) as [[fd k2]|] eqn:Er; [|done]. cbn [mbind res_bind] in E.
  destruct (Retry fd k2) as [k3|] eqn:Et; [|done]. injection E as <-. rewrite HN.
  assert (tasks k3 = tasks k2) as ->.
  { unfold Retry in Et. step_kept Et; unfold Connector.Close in E; step_kept E; by subst. }
  unfold RemoveAndResetChannel in Er. step_kept Er. subst. cbn [tasks queue_task set_tasks set_channel].
  rewrite elem_of_app, list_elem_of_singleton. by intros [?|].
Qed.

(** A stopped connector hands nothing over. *)
Lemma left_event_ok n h k e :
  left_stopped n h k → match e with EvTask _ => True | EvTimer id _ => is_Some (timers k !! id) | _ => False end →
  ∃ k', run_event e k = Ok k' ∧ left_stopped n h k'.
Proof.
  intros (Hst & Hcb & Hh & Hn) He. pose proof Hst as (Hi & Ec & Hs & _).
  assert (Connector.deliverable e k) as Hl by (by destruct e).
  destruct (stopped_event n e k Hst Hl) as (k' & E & Hst'); [by destruct e|]. exists k'. split; [done|].
  destruct Hst' as (Hi' & Ec' & Hs' & Hl'). assert (TStopInLoop ∉ tasks k' ∧ kept k' = kept k) as [Hn' Ek].
  { destruct e as [| | | | | |id err|err]; try done; cbn [run_event] in E.
    - unfold StartInLoop in E. cbn [connect_ set_timers] in E. rewrite Ec in E. by injection E as <-.
    - destruct (tasks k) as [|t ts] eqn:Et; [injection E as <-; by rewrite Et|].
      apply not_elem_of_cons in Hn as [Ht Hn]. destruct t; cbn [Connector.run_task] in E; [|done|].
      + unfold StartInLoop in E. cbn [connect_ set_tasks] in E. rewrite Ec in E. by injection E as <-.
      + unfold ResetChannel in E. destruct (assert _); cbn [mbind res_bind] in E; [|done]. by injection E as <-. }
  injection Ek as E1 E2. split_and!; [done|by rewrite E2|by rewrite E1|done].
Qed.

Hypothesis user_ok : ∀ id, callbacks_ok (user id).
Hypothesis user_closing : ∀ id ev c, ev ≠ EvClose → conn_wf c → in_loop_thread c = true → closes_well true c (user id ev c).
Hypothesis write_whole : ∀ id, writes_whole (sys_write id).
Hypothesis readv_law : ∀ id k, readv_ok (sys_readv id k).
Hypothesis writev_law : ∀ id k, writev_ok (sys_writev id k).

Lemma on_left_inv n h d id o r :
  left_inv n h d r → left_legal (LPeer id o) r → ∃ r', on_left id o r = Ok r' ∧ left_inv n h d r'.
Proof.
  intros [Hk Hp Hdt] (c & Ec & Hl & Hd). destruct (Hp id c Ec) as [Hc Hcase].
  destruct (run_op_ok (sys_write id) (sys_readv id) (sys_writev id) (client_callbacks user id) (write_whole id) (readv_law id)
    (writev_law id) (server_invoke_ok true (user id) (user_ok id)) o c Hc Hl) as (c' & E & Hc' & _).
  pose proof (run_op_closes true (user id) (user_ok id) (user_closing id) (sys_write id) (sys_readv id) (sys_writev id)
    (readv_law id) (writev_law id) o c Hc Hl Hd c' E) as Hcl.
  unfold on_left. rewrite Ec. cbn [deref mbind res_bind]. rewrite E. cbn [mbind res_bind].
  assert (left_notify id c c' r = Ok tt ∧ left_agrees r id c') as [-> Ha].
  { unfold left_notify. destruct Hcase as [(Ho & Hz & Hdet)|(Hs & Hz & Hr)].
    - destruct Hcl as [(Et & Ho' & _)|(_ & _ & Hz' & Hs' & Ha')].
      + rewrite decide_True by done. split; [done|]. split; [done|]. left. split_and!; [auto|congruence|done].
      + rewrite decide_False by lia. rewrite decide_True by done. split; [done|]. split; [done|]. by right.
    - destruct Hcl as [(Et & _ & Hsame)|(Ho & _)]; [|by apply closed_not_open in Hs].
      destruct Hsame as [Es Ech]; [by apply closed_not_open|]. rewrite decide_True by done. split; [done|]. split; [done|].
      right. by rewrite Es, Et, Ech. }
  cbn [mbind res_bind]. eexists. split; [done|]. split; [done| |done]. cbn [left_peers]. intros j x Hj.
  destruct (decide (j = id)) as [->|Hne]; [rewrite lookup_insert_eq in Hj; injection Hj as <-; exact Ha|].
  rewrite lookup_insert_ne in Hj by done. by apply Hp.
Qed.

Lemma on_connector_inv n h d e r :
  left_inv n h d r →
  (∃ k, left_connector r = Some k ∧ match e with EvTask _ => True | EvTimer id _ => is_Some (timers k !! id) | _ => False end) →
  ∃ r', on_connector e r = Ok r' ∧ left_inv n h d r'.
Proof.
  intros [Hk Hp Hdt] (k & Ek & He). destruct (Hk k Ek) as [Hst _]. destruct (left_event_ok n h k e Hst He) as (k' & E & Hst').
  unfold on_connector. rewrite Ek. cbn [deref mbind res_bind]. rewrite E. cbn [mbind res_bind].
  destruct Hst as (_ & _ & Eh & _). rewrite decide_True by (by rewrite Eh; apply Hst').
  destruct (release_inv n h k' (left_peers r) (detached r) Hst' Hp) as (r' & E' & Hr & _). exists r'. by rewrite <- Hdt.
Qed.

Lemma drop_peer_inv n h d id r :
  left_inv n h d r → left_legal (LDrop id) r → ∃ r', drop_peer id r = Ok r' ∧ left_inv n h d r'.
Proof.
  intros [Hk Hp Hdt] (c & Ec & _). destruct (Hp id c Ec) as [Hc Hcase]. unfold drop_peer. rewrite Ec. cbn [deref mbind res_bind].
  assert (∃ c', TcpConnection_destroy (sys_write id) (client_callbacks user id) c = Ok c' ∧ a_status (channel_ c') = Removed)
    as (c' & -> & Er).
  { unfold TcpConnection_destroy. destruct Hcase as [(Ho & _)|(Hs & _ & Hr)].
    - rewrite decide_True by (destruct Ho as [-> | ->]; done). unfold RunInLoop. rewrite (co_thread c Hc). cbn [run_functor].
      destruct (DestroyConnection_ok c Hc) as (c' & E & _ & _ & ?); [by apply open_registered; [apply Hc|]|by exists c'].
    - exists c. by rewrite decide_False by (rewrite Hs; tauto). }
  cbn [mbind res_bind]. rewrite bool_decide_true by (by rewrite Er). cbn [assert mbind res_bind].
  eexists. split; [done|]. split; [done| |done]. cbn [left_peers]. intros j x Hj. apply lookup_delete_Some in Hj as [_ Hj]. by apply Hp.
Qed.

Lemma left_step_inv n h d e r : left_inv n h d r → left_legal e r → ∃ r', left_step e r = Ok r' ∧ left_inv n h d r'.
Proof.
  intros Hi Hl. destruct e as [err|id err|id o|id|id]; cbn [left_step].
  - apply on_connector_inv; [done|]. destruct Hl as (k & Ek & _). by exists k.
  - apply on_connector_inv; [done|]. destruct Hl as (k & Ek & ?). by exists k.
  - by apply on_left_inv.
  - unfold WeakCallback_call. destruct (left_peers r !! id) as [c|] eqn:Ec; [|by exists r]. apply on_left_inv; [done|]. by exists c.
  - by apply drop_peer_inv.
Qed.

Lemma left_run_inv n h d es : ∀ r, left_inv n h d r → left_legal_run es r → ∃ r', left_run es r = Ok r' ∧ left_inv n h d r'.
Proof.
  induction es as [|e es IH]; intros r Hi Hl; [by exists r|]. destruct Hl as [Hl Hls].
  destruct (left_step_inv n h d e r Hi Hl) as (r1 & E & Hi1). destruct (IH r1 Hi1 (Hls r1 E)) as (r' & E' & Hi').
  exists r'. cbn [left_run]. by rewrite E.
Qed.

Lemma TcpClient_destroy_inv st :
  client_stack_inv st → TStopInLoop ∉ tasks (connector_ (client st)) →
  ∃ r, TcpClient_destroy st = Ok r ∧ left_inv (length (socks (connector_ (client st)))) (sequence_ (client st))
    (connection_ (client st)) r ∧ dom (left_peers r) = dom (peers st).
Proof.
  intros [Hi Hv] Hn. set (cl := client st) in *. unfold TcpClient_destroy. fold cl.
  assert (connector_ (DisableConnectInLoop cl) = connector_ cl ∧ connection_ (DisableConnectInLoop cl) = connection_ cl)
    as [-> ->] by (unfold DisableConnectInLoop; cbn [disabler set_to_connect]; by destruct (disabler cl)).
  destruct (StopInLoop_inv (set_connect false (connector_ cl)) (ti_connector _ Hi)) as (k & E & Hk & Ec & Hs & El).
  assert (kept k = kept (connector_ cl)) as [= E1 E2] by (by apply StopInLoop_kept in E as [-> _]).
  assert (left_stopped (length (socks (connector_ cl))) (sequence_ cl) k) as Hst.
  { split_and!; [split_and!; [done|done|by apply Hs|done]|by rewrite E2; apply Hi|by rewrite E1; apply Hi|].
    intros Hin. by apply Hn, (StopInLoop_tasks (set_connect false (connector_ cl)) k). }
  unfold StopAndWait. rewrite E. cbn [mbind res_bind].
  assert (∀ id c, peers st !! id = Some c → ∀ r, detached r = connection_ cl → left_agrees r id c) as Hag.
  { intros id c Hc r Hd. pose proof (Hv id) as Hid. rewrite Hc in Hid. destruct (conns cl !! id) as [v|] eqn:Ev; [|done].
    destruct Hid as [Hok Hcase]. split; [done|]. destruct (decide (v = CDestroyed)) as [->|Hne]; [by right|left].
    rewrite Hd. pose proof (proj1 (ti_alive _ Hi id v Ev) Hne) as Hcon. destruct v; [..|done]; destruct Hcase; by split_and!. }
  destruct (connection_ cl) as [id|] eqn:Eid.
  - assert (is_Some (peers st !! id)) as [c Hc].
    { pose proof (ti_range _ Hi id Eid) as Hr. rewrite <- (ti_length _ Hi) in Hr. apply lookup_lt_is_Some_2 in Hr as [v Ev].
      pose proof (Hv id) as Hid. fold cl in Hid. rewrite Ev in Hid. destruct (peers st !! id); [by eexists|done]. }
    rewrite Hc. cbn [deref mbind res_bind].
    destruct (release_inv _ _ k (<[id := SetCloseCallbackAndWait c]> (peers st)) (Some id) Hst) as (r & -> & Hr & Ep).
    { intros j x Hj. destruct (decide (j = id)) as [->|Hne].
      - rewrite lookup_insert_eq in Hj. injection Hj as <-. destruct (Hag id c Hc (mkRemains None ∅ (Some id)) eq_refl) as [Hok Hcase].
        unfold SetCloseCallbackAndWait. rewrite (co_thread c Hok). split; [|done]. destruct Hok. split; try done. by apply (conn_wf_same c).
      - rewrite lookup_insert_ne in Hj by done. exact (Hag j x Hj (mkRemains None ∅ (Some id)) eq_refl). }
    exists r. split_and!; [done|done|]. rewrite Ep. apply dom_insert_lookup_L. by eexists.
  - destruct (release_inv _ _ k (peers st) None Hst) as (r & -> & Hr & Ep).
    { intros j x Hj. exact (Hag j x Hj (mkRemains None ∅ None) eq_refl). }
    exists r. split_and!; [done|done|by rewrite Ep].
Qed.

(** Whatever happened, when the left-over events are over. *)
Lemma left_settled n h d r :
  left_inv n h d r →
  (∀ k, left_connector r = Some k → (tasks k ≠ [] ∨ timers k ≠ ∅) ∧ handed k = h ∧ length (socks k) = n ∧
     ∀ i, socks k !! i ≠ Some SOpen) ∧
  ∀ id c, left_peers r !! id = Some c →
    (open c ∧ closes (trace c) = 0 ∧ d = Some id) ∨
    (state_ c = kDisConnected ∧ closes (trace c) = 1 ∧ a_status (channel_ c) = Removed).
Proof.
  intros [Hk Hp Hdt]. split.
  - intros k Ek. destruct (Hk k Ek) as [(Hst & _ & Hh & _) Hheld]. pose proof Hst as (Hic & _ & Hs & Hlen).
    split_and!; [|done|done|by apply con_inv_idle_inv]. destruct (decide (tasks k = [])) as [Ht|]; [right|by left]. intros Hti.
    unfold held in Hheld. rewrite Ht, Hti, (stopped_channel _ k Hst Ht) in Hheld. by rewrite !bool_decide_false in Hheld by tauto.
  - intros id c Hc. destruct (Hp id c Hc) as [_ Hcase]. by rewrite <- Hdt.
Qed.
End ending.

(** ** Up to the first short direct write *)

Section upto.
Context {Q : Type} `{ByteQueueLaws Q}.
Variable sys_write : nat → nat → bytes → writev_result.
Variable sys_readv : nat → nat → readv_fn.
Variable sys_writev : nat → nat → writev_fn.
Variable user : nat → cb_event → TcpConnection Q → res (TcpConnection Q).
Variable on_message on_complete : bool.

Definition left_takes_part (e : left_event (Q := Q)) (r : remains) : bool :=
  match e with
  | LPeer id o => match left_peers r !! id with Some c => op_takes_part (sys_write id) o c | None => false end
  | _ => false
  end.

Hypothesis write_law : ∀ id k, writev_ok (sys_write id k).

Lemma left_step_made_whole e r :
  left_legal e r → left_takes_part e r = false →
  left_legal e r ∧ left_step sys_write sys_readv sys_writev user e r = left_step (λ id, made_whole (sys_write id)) sys_readv sys_writev user e r.
Proof.
  intros Hl Ht. split; [done|]. destruct e as [err|id err|id o|id|id]; try done; cbn [left_step left_takes_part] in *.
  - destruct Hl as (c & Ec & Hl & _). unfold on_left. rewrite Ec in *. cbn [deref mbind res_bind].
    by rewrite (run_op_made_whole (sys_write id) _ _ _ (write_law id) o c Hl Ht).
Qed.

Hypothesis user_ok : ∀ id, callbacks_ok (user id).
Hypothesis user_closing : ∀ id ev c, ev ≠ EvClose → conn_wf c → in_loop_thread c = true → closes_well true c (user id ev c).
Hypothesis readv_law : ∀ id k, readv_ok (sys_readv id k).
Hypothesis writev_law : ∀ id k, writev_ok (sys_writev id k).

Lemma left_upto n h d es r :
  left_inv n h d r → left_legal_run sys_write sys_readv sys_writev user es r →
  ∃ done rest r', es = done ++ rest ∧ left_run sys_write sys_readv sys_writev user done r = Ok r' ∧ left_inv n h d r' ∧
    (rest = [] ∨ ∃ e rest', rest = e :: rest' ∧ left_takes_part e r' = true).
Proof.
  intros Hi Hl. set (whole := λ id, made_whole (sys_write id)).
  apply (run_upto (left_step sys_write sys_readv sys_writev user) (left_step whole sys_readv sys_writev user) left_legal left_legal
    left_takes_part (left_run sys_write sys_readv sys_writev user) (left_run whole sys_readv sys_writev user)
    (left_legal_run sys_write sys_readv sys_writev user) (left_legal_run whole sys_readv sys_writev user)
    ltac:(done) ltac:(done) ltac:(done) ltac:(done) ltac:(done) ltac:(done) ltac:(done) left_step_made_whole
    (λ _, left_inv n h d)); [|done].
  intros dn _ Hdn.
  exact (left_run_inv whole sys_readv sys_writev user user_ok user_closing (λ id, made_whole_whole (sys_write id)) readv_law writev_law
    n h d dn r Hi Hdn).
Qed.

End upto.

(** ** A run *)

(** The client is destroyed while it is connected: the reset of its channel
    still runs, the connection goes on until the peer closes it, and a delayed
    close finds nothing to do. *)
Definition client_end_before : list (client_stack_event (Q := bytes)) :=
  [CSConnect true EINPROGRESS; CSConnector (EvWritable 0 false) 7 0; CSPeer 0 OpForceCloseWithDelay 0].

Definition client_end_after : list (left_event (Q := bytes)) :=
  [LPeer 0 (OpEvent POLLIN 5); LTask 0; LPeer 0 (OpEvent POLLIN 6); LDrop 0; LDelayed 0].

Abbreviation left_example_run := (left_run (λ _, peer_write) (λ _, peer_readv) (λ _, peer_writev) (λ _, peer_echo)).

