(* ===== verification/ClientWait.v ===== *)
(** The threads that wait in a client: [TcpClient::GetConnection] and
    [DisableConnectAndWait] of [net/tcp_client.cc], which share one condition,
    against [NewConnection], [RemoveConnection] and [DisableConnectInLoop] in
    the loop.  The code between two waits on the lock is one step, except that
    [DisableConnectInLoop] does not take the lock. *)

From S2P Require Import Prelude.

(** Where a caller is: before the call, between the queueing of
    [DisableConnectInLoop] and the wait, with the lock held, asleep, woken but
    without the lock, returned.  What [GetConnection] returns refers to a
    connection or to null. *)
Inductive caller :=
  | GetCalled | GetWaits | GetWoken | GetReturned (connected : bool)
  | DisableCalled | DisableQueued | DisableWaits | DisableWoken | DisableReturned.
#[export] Instance caller_eq_dec : EqDecision caller.
Proof. solve_decision. Defined.

(** [holder] is the caller that holds [lock_], [pending] counts the functors
    of [DisableConnectInLoop] in the queue. *)
Record Waits := mkWaits {
  connection_ : bool;
  to_connect_ : bool;
  holder : option nat;
  pending : nat;
  callers : list caller
}.
Implicit Types w : Waits.

Definition set_caller (i : nat) (t : caller) w : Waits :=
  mkWaits (connection_ w) (to_connect_ w) (holder w) (pending w) (<[i := t]> (callers w)).

(** [condition_.Notify()]: [i] is the sleeper the system picks. *)
Definition Notify (i : nat) w : Waits :=
  match callers w !! i with
  | Some GetWaits => set_caller i GetWoken w
  | Some DisableWaits => set_caller i DisableWoken w
  | _ => w
  end.

(** The loop of [GetConnection], with the lock. *)
Definition GetConnection_loop (i : nat) w : Waits :=
  if connection_ w then set_caller i (GetReturned (connection_ w)) w else set_caller i GetWaits w.

(** [DisableConnectAndWait] by another thread, up to the wait. *)
Definition DisableConnectAndWait (i : nat) w : Waits :=
  mkWaits (connection_ w) (to_connect_ w) (Some i) (S (pending w)) (<[i := DisableQueued]> (callers w)).

Inductive wait_event :=
  | WNewConnection (i : nat)   (** [i]: whom [Notify] wakes *)
  | WRemoveConnection
  | WDisable (i : nat)
  | WMove (i : nat).

(** A step, if the thread that makes it is not blocked. *)
Definition wait_step (e : wait_event) w : option Waits :=
  let free := bool_decide (holder w = None) in
  match e with
  | WNewConnection i =>
      if free then Some (Notify i (mkWaits true (to_connect_ w) None (pending w) (callers w))) else None
  | WRemoveConnection => if free then Some (mkWaits false (to_connect_ w) None (pending w) (callers w)) else None
  | WDisable i =>
      match pending w with
      | 0 => None
      | S n => Some (Notify i (mkWaits (connection_ w) false (holder w) n (callers w)))
      end
  | WMove i =>
      match callers w !! i with
      | Some GetCalled | Some GetWoken => if free then Some (GetConnection_loop i w) else None
      | Some DisableCalled => if free then Some (DisableConnectAndWait i w) else None
      | Some DisableQueued => Some (mkWaits (connection_ w) (to_connect_ w) None (pending w) (<[i := DisableWaits]> (callers w)))
      | Some DisableWoken => if free then Some (set_caller i DisableReturned w) else None
      | _ => None
      end
  end.

Fixpoint wait_run (es : list wait_event) w : option Waits :=
  match es with [] => Some w | e :: es => w ← wait_step e w; wait_run es w end.

(** [Notify] has to find a sleeper if there is one. *)
Definition sleeps (t : caller) : bool := match t with GetWaits | DisableWaits => true | _ => false end.

Definition wakes (i : nat) w : Prop :=
  Exists (λ t, sleeps t = true) (callers w) → ∃ t, callers w !! i = Some t ∧ sleeps t = true.

Definition wait_legal (e : wait_event) w : Prop :=
  match e with WNewConnection i | WDisable i => wakes i w | _ => True end.

Fixpoint wait_legal_run (es : list wait_event) w : Prop :=
  match es with
  | [] => True
  | e :: es => wait_legal e w ∧ ∀ w', wait_step e w = Some w' → wait_legal_run es w'
  end.

Definition Waits_new (connected : bool) (cs : list caller) : Waits := mkWaits connected true None 0 cs.

(** ** [GetConnection] returns a connection *)

Definition never_null w : Prop := GetReturned false ∉ callers w.

Lemma set_caller_never_null i t w : never_null w → t ≠ GetReturned false → never_null (set_caller i t w).
Proof.
  intros H Ht Hin. apply list_elem_of_lookup in Hin as [j Hj]. cbn in Hj. destruct (decide (j = i)) as [->|Hne].
  - apply list_lookup_insert_Some in Hj as [(_ & -> & _)|[? _]]; [by apply Ht|done].
  - rewrite list_lookup_insert_ne in Hj by done. apply H. by eapply list_elem_of_lookup_2.
Qed.

Lemma wait_step_never_null e w w' : never_null w → wait_step e w = Some w' → never_null w'.
Proof.
  intros H. assert (∀ i w0, never_null w0 → never_null (Notify i w0)) as HN.
  { intros i w0 H0. unfold Notify. destruct (callers w0 !! i) as [[]|]; try done; by apply set_caller_never_null. }
  destruct e as [i| |i|i]; cbn [wait_step].
  - case_bool_decide; [|done]. intros [= <-]. by apply HN.
  - case_bool_decide; [|done]. by intros [= <-].
  - destruct (pending w); [done|]. intros [= <-]. by apply HN.
  - assert (never_null (GetConnection_loop i w)).
    { unfold GetConnection_loop. destruct (connection_ w); by apply set_caller_never_null. }
    destruct (callers w !! i) as [[]|]; try done; try (case_bool_decide; [|done]); intros [= <-]; try done;
      by apply (set_caller_never_null i).
Qed.

Lemma wait_run_never_null es : ∀ w w', never_null w → wait_run es w = Some w' → never_null w'.
Proof.
  induction es as [|e es IH]; intros w w' H E; [by injection E as <-|]. cbn [wait_run] in E.
  destruct (wait_step e w) as [w1|] eqn:E1; [|done]. apply (IH w1); [|done]. by eapply wait_step_never_null.
Qed.

(** ** A single caller does not miss its connection *)

(** The caller sleeps only while there is no connection. *)
Definition sole_ok w : Prop :=
  holder w = None ∧ pending w = 0 ∧
  ∃ t, callers w = [t] ∧ (t = GetCalled ∨ t = GetWaits ∨ t = GetWoken ∨ t = GetReturned true) ∧ (t = GetWaits → connection_ w = false).

Lemma sole_step e w : sole_ok w → wait_legal e w → ∀ w', wait_step e w = Some w' → sole_ok w'.
Proof.
  destruct w as [con tc h p cs]. intros (Hh & Hp & t & Et & Hin & Ht) Hl w'. cbn in Hh, Hp, Et, Ht. subst.
  destruct e as [i| |i|i]; cbn [wait_step holder connection_ to_connect_ pending callers]; rewrite ?bool_decide_true by done.
  - intros [= <-]. unfold Notify. cbn [callers]. cbn [wait_legal] in Hl. unfold wakes in Hl. cbn [callers] in Hl.
    destruct i as [|i]; [destruct Hin as [->|[->|[->| ->]]]; split_and!; try done; eexists; split_and!; (by eauto) || done|].
    cbn. destruct (decide (t = GetWaits)) as [->|Hne].
    + destruct Hl as (? & ? & _); [by left|done].
    + split_and!; try done. by exists t.
  - intros [= <-]. split_and!; try done. by exists t.
  - done.
  - destruct i as [|i]; [|done]. cbn. unfold GetConnection_loop, set_caller. cbn.
    destruct Hin as [->|[->|[->| ->]]]; try done; intros [= <-]; destruct con; split_and!; try done; eexists; split_and!; (by eauto) || done.
Qed.

(** A thread that calls [GetConnection] while no other one waits: whatever the
    loop does, it never returns null, it sleeps only while there is no
    connection, and when it is awake while there is one its next step returns. *)
Theorem get_connection_returns con es w :
  wait_legal_run es (Waits_new con [GetCalled]) → wait_run es (Waits_new con [GetCalled]) = Some w →
  ∃ t, callers w = [t] ∧ t ≠ GetReturned false ∧ (t = GetWaits → connection_ w = false) ∧
    (connection_ w = true → t ≠ GetReturned true → ∃ w', wait_step (WMove 0) w = Some w' ∧ callers w' = [GetReturned true]).
Proof.
  assert (∀ es w0, sole_ok w0 → wait_legal_run es w0 → wait_run es w0 = Some w → sole_ok w) as Hrun.
  { clear es. intros es. induction es as [|e es IH]; intros w0 H0 Hl E; [by injection E as <-|]. destruct Hl as [Hl Hls].
    cbn [wait_run] in E. destruct (wait_step e w0) as [w1|] eqn:E1; [|done].
    apply (IH w1); [by eapply sole_step|by apply Hls|done]. }
  intros Hl E. destruct (Hrun es (Waits_new con [GetCalled])) as (Hh & Hp & t & Et & Hin & Ht); [|done|done|].
  { split_and!; try done. exists GetCalled. split_and!; [done|by left|done]. }
  exists t. split_and!; [done| |done|].
  - intros ->. by destruct Hin as [|[|[|]]].
  - intros Hc Hn. cbn [wait_step]. rewrite Et, Hh. unfold GetConnection_loop. rewrite Hc. cbn.
    destruct Hin as [->|[->|[->| ->]]]; [|by rewrite Ht in Hc| |done]; eexists; (split; [done|]); cbn; by rewrite Et.
Qed.

Lemma get_connection_returns_witness : ∃ w,
  wait_run [WMove 0; WNewConnection 0; WRemoveConnection; WMove 0; WNewConnection 0; WMove 0] (Waits_new false [GetCalled]) = Some w ∧
  callers w = [GetReturned true].
Proof.
  destruct (wait_run [WMove 0; WNewConnection 0; WRemoveConnection; WMove 0; WNewConnection 0; WMove 0] (Waits_new false [GetCalled]))
    as [w|] eqn:E; [|by vm_compute in E]. exists w. split; [done|].
  destruct (get_connection_returns false [WMove 0; WNewConnection 0; WRemoveConnection; WMove 0; WNewConnection 0; WMove 0] w)
    as (t & Et & Hn & _); [|exact E|vm_compute in E; injection E as <-; exact eq_refl].
  clear E. repeat match goal with
  | |- wait_legal_run [] _ => exact I
  | |- wait_legal_run (_ :: _) _ => split
  | |- wait_legal (WNewConnection _) _ => intros _; eexists; split; [vm_compute; reflexivity|reflexivity]
  | |- wait_legal _ _ => exact I
  | |- ∀ _, _ => intros ? E; vm_compute in E; injection E as <-
  end.
Defined.

(** ** What goes wrong with several callers *)

(** [Notify] wakes one: of two threads in [GetConnection] the other sleeps on
    although there is a connection. *)
Lemma second_getter_sleeps :
  wait_run [WMove 0; WMove 1; WNewConnection 0; WMove 0] (Waits_new false [GetCalled; GetCalled]) =
    Some (mkWaits true true None 0 [GetReturned true; GetWaits]).
Proof. reflexivity. Qed.

(** A connection made while a thread is in [DisableConnectAndWait] wakes it up
    before [DisableConnectInLoop] has run. *)
Lemma disable_returns_early :
  wait_run [WMove 0; WMove 0; WNewConnection 0; WMove 0] (Waits_new false [DisableCalled]) =
    Some (mkWaits true true None 1 [DisableReturned]).
Proof. reflexivity. Qed.

(** The functor runs before the wait begins, and the wait has no end. *)
Lemma disable_hangs :
  wait_run [WMove 0; WDisable 0; WMove 0] (Waits_new false [DisableCalled]) =
    Some (mkWaits false false None 0 [DisableWaits]).
Proof. reflexivity. Qed.

(** The notification of [DisableConnectInLoop] goes to a thread in
    [GetConnection], which sleeps again. *)
Lemma disable_loses_notify :
  wait_run [WMove 0; WMove 1; WMove 1; WDisable 0; WMove 0] (Waits_new false [GetCalled; DisableCalled]) =
    Some (mkWaits false false None 0 [GetWaits; DisableWaits]).
Proof. reflexivity. Qed.
