(* ===== verification/LogStream.v ===== *)
(** Building a log line: [muzi/base/fixed_buffer.h], [log_stream.h] and
    [log_stream.cc], [logger.h] and [logger.cc].  The library functions
    [snprintf] (for doubles), [strerror_r] and the stack trace are arguments;
    so is what a buffer holds before it is written. *)

From S2P Require Import Prelude Timestamp.
From stdpp Require Import pretty.
Local Open Scope Z_scope.

(** ** FixedBuffer *)

(** The array and the offset of [end_] in it. *)
Record FixedBuffer := mkFixed { buffer_ : bytes; end_ : nat }.

Definition FixedBuffer_new (junk : bytes) : FixedBuffer := mkFixed junk 0.
Definition size (b : FixedBuffer) : nat := end_ b.
Definition GetAvail (b : FixedBuffer) : Z :=
  wrap 64 (Z.of_nat (length (buffer_ b)) - Z.of_nat (end_ b) - 1).
Definition Add (len : nat) (b : FixedBuffer) : FixedBuffer := mkFixed (buffer_ b) (end_ b + len).
Definition clear (b : FixedBuffer) : FixedBuffer := mkFixed (buffer_ b) 0.
Definition SetZero (b : FixedBuffer) : FixedBuffer := mkFixed (replicate (length (buffer_ b)) nul) (end_ b).
Definition empty (b : FixedBuffer) : bool := bool_decide (end_ b = 0%nat).
Definition ToString (b : FixedBuffer) : res bytes := read_mem (buffer_ b) (size b).

(** [std::min(GetAvail(), len)] *)
Definition Append (msg : bytes) (len : nat) (b : FixedBuffer) : res FixedBuffer :=
  let len := Z.to_nat (Z.min (GetAvail b) (Z.of_nat len)) in
  src ← read_mem msg len;
  buf ← write_mem (end_ b) src (buffer_ b);
  Ok (Add len (mkFixed buf (end_ b))).

(** ** LogStream *)

Definition kMaxNumericSize : Z := 48.
Definition kMaxHexSize : Z := 8.
Definition kDigits : bytes := B "9876543210123456789".
Definition kZero : nat := 9.
Definition kDigitsHex : bytes := B "0123456789ABCDEF".

(** The loop of [ConvertIneger], on the digits; [%] and [/] round towards
    zero.  A number of 64 bits has at most 20 digits. *)
Fixpoint int_digits (fuel : nat) (i : Z) : res bytes :=
  match fuel with
  | O => Fault OutOfFuel
  | S fuel =>
      c ← deref OutOfBounds (kDigits !! Z.to_nat (Z.of_nat kZero + Z.rem i 10));
      let i := Z.quot i 10 in
      if decide (i = 0) then Ok [c] else cs ← int_digits fuel i; Ok (c :: cs)
  end.

Definition ConvertIneger (val : Z) : res bytes :=
  cs ← int_digits 20 val; Ok (rev (if decide (val < 0) then cs ++ B "-" else cs)).

Fixpoint hex_digits (fuel : nat) (i : Z) : res bytes :=
  match fuel with
  | O => Fault OutOfFuel
  | S fuel =>
      c ← deref OutOfBounds (kDigitsHex !! Z.to_nat (i mod 16));
      let i := i / 16 in
      if decide (i = 0) then Ok [c] else cs ← hex_digits fuel i; Ok (c :: cs)
  end.

Definition ConvertHex (val : Z) : res bytes := cs ← hex_digits 16 val; Ok (rev (cs ++ B "x0")).

(** The conversions write at [end()], and [Add] follows. *)
Definition put (s : bytes) (b : FixedBuffer) : res FixedBuffer :=
  buf ← write_mem (end_ b) s (buffer_ b); Ok (Add (length s) (mkFixed buf (end_ b))).

Definition stream_int (val : Z) (b : FixedBuffer) : res FixedBuffer :=
  if decide (kMaxNumericSize ≤ GetAvail b) then s ← ConvertIneger val; put s b else Ok b.

(** [snprintf(buf, 48, "%.12g", val)] would write [s]: it writes at most 47
    characters and a NUL and answers the length of [s]. *)
Definition stream_float (s : bytes) (b : FixedBuffer) : res FixedBuffer :=
  if decide (kMaxNumericSize ≤ GetAvail b) then
    buf ← write_mem (end_ b) (take (Z.to_nat kMaxNumericSize - 1) s ++ [nul]) (buffer_ b);
    Ok (Add (length s) (mkFixed buf (end_ b)))
  else Ok b.

(** A C string, or the null pointer. *)
Definition stream_cstr (msg : option bytes) (b : FixedBuffer) : res FixedBuffer :=
  match msg with
  | Some msg => Append msg (length msg) b
  | None => Append (B "(null)") 6 b
  end.

(** The overloads on arrays, [std::string] and [StringProxy]. *)
Definition stream_string (msg : bytes) (b : FixedBuffer) : res FixedBuffer := Append msg (length msg) b.

(** The overload on [const void *]: [val] is the word the pointer points
    to. *)
Definition stream_hex (val : Z) (b : FixedBuffer) : res FixedBuffer :=
  if decide (kMaxHexSize ≤ GetAvail b) then s ← ConvertHex val; put s b else Ok b.

(** ** Logger *)

Inductive LogLevel := kTrace | kDebug | kInfo | kWarn | kError | kFatal.
#[export] Instance LogLevel_eq_dec : EqDecision LogLevel.
Proof. solve_decision. Defined.

Definition kLogLevelName (l : LogLevel) : bytes :=
  match l with
  | kTrace => B "Trace" | kDebug => B "Debug" | kInfo => B "Info "
  | kWarn => B "Warn " | kError => B "Error" | kFatal => B "Fatal"
  end.

Definition level_num (l : LogLevel) : nat :=
  match l with kTrace => 0 | kDebug => 1 | kInfo => 2 | kWarn => 3 | kError => 4 | kFatal => 5 end.

(** The loop of [SourceFile]: [n] characters are left of and at [right]; the
    answer is the index [++right] points to. *)
Fixpoint source_scan (n : nat) (file : bytes) : nat :=
  match n with
  | O => 0
  | S n => if decide (file !! n = Some "/"%char) then n else source_scan n file
  end.

Definition SourceFile (file : bytes) : bytes :=
  let right := source_scan (length file) file in
  if decide (right ≠ 0%nat) then drop right file else file.

(** [StackWritter]: the stream, and what the destructor needs. *)
Record StackWritter := mkWritter {
  log_stream_ : FixedBuffer;
  level_ : LogLevel;
  file_ : bytes;
  line_ : Z
}.

Section writter.
(** [Timestamp().ToFormatString()], [tid_string()], [GetError] and
    [StackTrace()]. *)
Variables (now tid : bytes) (GetError : Z → bytes) (StackTrace : bytes).

Definition StackWritter_new (junk file : bytes) (line : Z) (level : LogLevel) (errcode : Z) : res StackWritter :=
  let b := FixedBuffer_new junk in
  b ← stream_string (B "[") b;
  b ← stream_string now b; b ← stream_string (B " ") b;
  b ← stream_string tid b; b ← stream_string (B " ") b;
  b ← Append (kLogLevelName level) 5 b;
  b ← (if decide (errcode ≠ 0) then
         b ← stream_string (B " ") b; b ← stream_cstr (Some (GetError errcode)) b;
         b ← stream_string (B " (errno = ") b; b ← stream_int errcode b; stream_string (B ")") b
       else Ok b);
  b ← stream_string (B "] ") b;
  Ok (mkWritter b level (SourceFile file) line).

(** The constructor of [LOG_TRACE] and [LOG_DEBUG], which also writes the
    name of the function. *)
Definition StackWritter_func (junk file : bytes) (line : Z) (level : LogLevel) (func : bytes) : res StackWritter :=
  w ← StackWritter_new junk file line level 0;
  b ← stream_cstr (Some func) (log_stream_ w); b ← stream_string (B ": ") b;
  Ok (mkWritter b (level_ w) (file_ w) (line_ w)).

Definition Finish (w : StackWritter) : res FixedBuffer :=
  b ← stream_string (B " ") (log_stream_ w);
  b ← stream_string (file_ w) b; b ← stream_string (B " : ") b;
  b ← stream_int (line_ w) b; stream_string ["010"%char] b.

(** The destructor: the bytes handed to [Output], and whether it aborts. *)
Definition StackWritter_destroy (w : StackWritter) : res (bytes * bool) :=
  b ← Finish w;
  b ← (if decide (level_num kError ≤ level_num (level_ w))%nat then stream_string StackTrace b else Ok b);
  out ← ToString b;
  Ok (out, bool_decide (level_ w = kFatal)).

(** [LOG_TRACE_U(logger) << msg] and the like: nothing is built below the
    logger's level. *)
Definition log_func (threshold level : LogLevel) (junk file : bytes) (line : Z) (func msg : bytes) :
    res (option (bytes * bool)) :=
  if decide (level_num threshold ≤ level_num level)%nat then
    w ← StackWritter_func junk file line level func;
    b ← stream_string msg (log_stream_ w);
    r ← StackWritter_destroy (mkWritter b (level_ w) (file_ w) (line_ w)); Ok (Some r)
  else Ok None.

Definition log_plain (level : LogLevel) (errcode : Z) (junk file : bytes) (line : Z) (msg : bytes) :
    res (bytes * bool) :=
  w ← StackWritter_new junk file line level errcode;
  b ← stream_string msg (log_stream_ w);
  StackWritter_destroy (mkWritter b (level_ w) (file_ w) (line_ w)).
End writter.

(** ** Digits *)

Lemma kDigits_char (d : N) :
  (d < 10)%N → kDigits !! (kZero + N.to_nat d)%nat = Some (pretty_N_char d) ∧
    kDigits !! (kZero - N.to_nat d)%nat = Some (pretty_N_char d).
Proof.
  intros Hd. assert (d = 0 ∨ d = 1 ∨ d = 2 ∨ d = 3 ∨ d = 4 ∨ d = 5 ∨ d = 6 ∨ d = 7 ∨ d = 8 ∨ d = 9)%N as H by lia.
  repeat (destruct H as [->|H]; [done|]). by subst.
Qed.

Lemma B_cons c s : B (String c s) = c :: B s.
Proof. done. Qed.

(** The digits of [x] and of [-x] are the same. *)
Lemma int_digits_spec fuel : ∀ (x : N) s,
  (0 < x)%N → (x < 10 ^ N.of_nat fuel)%N →
  ∃ cs, int_digits fuel (Z.of_N x) = Ok cs ∧ int_digits fuel (- Z.of_N x) = Ok cs ∧
    B (pretty_N_go x s) = rev cs ++ B s.
Proof.
  induction fuel as [|fuel IH]; intros x s Hx Hf; [cbn in Hf; lia|]. cbn [int_digits].
  rewrite Z.rem_opp_l', Z.quot_opp_l by lia.
  rewrite Z.rem_mod_nonneg, Z.quot_div_nonneg by lia.
  replace (Z.of_N x mod 10) with (Z.of_N (x mod 10)) by (by rewrite N2Z.inj_mod).
  replace (Z.of_N x / 10) with (Z.of_N (x / 10)) by (by rewrite N2Z.inj_div).
  set (d := (x mod 10)%N). assert (d < 10)%N as Hd by (apply N.mod_lt; lia).
  destruct (kDigits_char d Hd) as [E1 E2].
  replace (Z.to_nat (Z.of_nat kZero + Z.of_N d)) with (kZero + N.to_nat d)%nat by lia.
  replace (Z.to_nat (Z.of_nat kZero + - Z.of_N d)) with (kZero - N.to_nat d)%nat by lia.
  rewrite E1, E2. cbn [deref mbind res_bind]. rewrite (pretty_N_go_step x s) by lia. fold d.
  destruct (decide (x / 10 = 0)%N) as [E0|E0].
  - rewrite E0. cbn [Z.of_N Z.opp]. rewrite !decide_True by done. exists [pretty_N_char d].
    by rewrite pretty_N_go_0, B_cons.
  - rewrite !decide_False by lia.
    destruct (IH (x / 10)%N (String (pretty_N_char d) s)) as (cs & -> & -> & E).
    + by apply N.neq_0_lt_0.
    + rewrite Nat2N.inj_succ, N.pow_succ_r' in Hf. apply N.Div0.div_lt_upper_bound. lia.
    + cbn [mbind res_bind]. exists (pretty_N_char d :: cs). split_and!; [done|done|].
      rewrite E, B_cons. cbn [rev]. by rewrite <- app_assoc.
Qed.

Lemma ConvertIneger_spec val : Z.abs val < 10 ^ 20 → ConvertIneger val = Ok (digits val).
Proof.
  intros Hv. unfold ConvertIneger, digits. destruct (decide (val = 0)) as [->|Hn]; [done|].
  destruct (int_digits_spec 20 (Z.abs_N val) "") as (cs & E1 & E2 & E3);
    [lia|apply N2Z.inj_lt; rewrite N2Z.inj_abs_N; done|].
  rewrite app_nil_r in E3. rewrite N2Z.inj_abs_N in *. destruct val as [|x|x]; [done| |].
  - change (Z.abs (Z.pos x)) with (Z.pos x) in E1. rewrite E1. cbn [mbind res_bind]. rewrite decide_False by lia. f_equal.
    rewrite <- E3. change (pretty (Z.pos x)) with (pretty (N.pos x)). unfold pretty, pretty_N.
    by rewrite decide_False.
  - change (- Z.abs (Z.neg x)) with (Z.neg x) in E2. rewrite E2. cbn [mbind res_bind]. rewrite decide_True by lia. f_equal.
    rewrite rev_app_distr, <- E3. change (pretty (Z.neg x)) with (String "-" (pretty (N.pos x))).
    unfold pretty, pretty_N. by rewrite decide_False.
Qed.

Lemma length_signed_digits val : Z.abs val < 10 ^ 20 → (length (digits val) ≤ 21)%nat.
Proof.
  intros Hv. destruct (Z.leb_spec 0 val) as [Hp|Hp].
  - pose proof (length_digits 20 val). lia.
  - destruct val as [|x|x]; try lia. change (digits (Z.neg x)) with ("-"%char :: digits (Z.pos x)).
    pose proof (length_digits 20 (Z.pos x)). cbn [length]. lia.
Qed.

(** ** The buffer *)

Definition content (b : FixedBuffer) : bytes := take (end_ b) (buffer_ b).
Definition capacity (b : FixedBuffer) : nat := length (buffer_ b) - 1.

Record fb_ok (b : FixedBuffer) : Prop := {
  fb_end : (end_ b < length (buffer_ b))%nat;
  fb_size : Z.of_nat (length (buffer_ b)) < 2 ^ 63
}.

Lemma GetAvail_spec b : fb_ok b → GetAvail b = Z.of_nat (capacity b - end_ b).
Proof. intros []. unfold GetAvail, wrap, capacity. rewrite Z.mod_small; lia. Qed.

Lemma fb_content_length b : fb_ok b → length (content b) = end_ b.
Proof. intros []. unfold content. rewrite length_take. lia. Qed.

(** [b'] is [b] with [s] appended. *)
Record appended (s : bytes) (b b' : FixedBuffer) : Prop := {
  ap_ok : fb_ok b';
  ap_capacity : capacity b' = capacity b;
  ap_content : content b' = content b ++ s
}.

Lemma appended_nil b : fb_ok b → appended [] b b.
Proof. intros. split; [done|done|]. by rewrite app_nil_r. Qed.

Lemma appended_trans s s' b b' b'' : appended s b b' → appended s' b' b'' → appended (s ++ s') b b''.
Proof. intros [] []. split; [done|congruence|]. by rewrite app_assoc, <- ap_content0. Qed.

Lemma appended_end s b b' : fb_ok b → appended s b b' → (end_ b' = end_ b + length s)%nat.
Proof.
  intros Hb [Hb' _ E]. rewrite <- (fb_content_length b'), <- (fb_content_length b), E, length_app by done. done.
Qed.

Lemma put_spec s b : fb_ok b → (end_ b + length s ≤ capacity b)%nat → ∃ b', put s b = Ok b' ∧ appended s b b'.
Proof.
  intros [He Hs] Hl. unfold capacity in *. unfold put, write_mem. rewrite decide_True by lia. cbn [mbind res_bind].
  eexists. split; [reflexivity|]. split; [split; cbn; rewrite length_overwrite by lia; lia| |].
  - unfold capacity. cbn. by rewrite length_overwrite by lia.
  - unfold content. cbn. apply take_overwrite. lia.
Qed.

(** [Append] cuts the message where the buffer ends. *)
Lemma fb_Append_spec msg n b :
  fb_ok b → (n ≤ length msg)%nat →
  ∃ b', Append msg n b = Ok b' ∧ appended (take (Nat.min n (capacity b - end_ b)) msg) b b'.
Proof.
  intros Hb Hn. unfold Append. rewrite GetAvail_spec by done.
  replace (Z.to_nat _) with (Nat.min n (capacity b - end_ b)) by lia. set (k := Nat.min _ _).
  unfold read_mem. rewrite decide_True by lia. cbn [mbind res_bind].
  assert (length (take k msg) = k) as El by (rewrite length_take; lia).
  destruct (put_spec (take k msg) b Hb) as (b' & E & Ha); [rewrite El; pose proof (fb_end b Hb); unfold capacity in *; lia|].
  unfold put in E. rewrite El in E. exists b'. done.
Qed.

(** ** Hexadecimal digits *)

Definition hex_text (val : Z) : bytes := match ConvertHex val with Ok s => s | Fault _ => [] end.

(** The number that digits stand for, the last one first. *)
Fixpoint hex_value (cs : bytes) : Z :=
  match cs with
  | [] => 0
  | c :: cs => Z.of_nat (default 0%nat (fst <$> list_find (λ d, d = c) kDigitsHex)) + 16 * hex_value cs
  end.

Lemma kDigitsHex_char (d : Z) :
  0 ≤ d < 16 → ∃ c, kDigitsHex !! Z.to_nat d = Some c ∧ (fst <$> list_find (λ d, d = c) kDigitsHex) = Some (Z.to_nat d).
Proof.
  intros Hd. rewrite <- (Z2Nat.id d) in Hd by lia. revert Hd. generalize (Z.to_nat d). intros n Hn.
  do 16 (destruct n as [|n]; [by eexists|]). lia.
Qed.

Lemma hex_digits_spec fuel : ∀ val,
  0 ≤ val < 16 ^ Z.of_nat fuel → (0 < fuel)%nat →
  ∃ cs, hex_digits fuel val = Ok cs ∧ (1 ≤ length cs ≤ fuel)%nat ∧ hex_value cs = val.
Proof.
  induction fuel as [|fuel IH]; intros val Hv Hf; [lia|]. cbn [hex_digits].
  destruct (kDigitsHex_char (val mod 16)) as (c & -> & Ec); [by apply Z.mod_pos_bound|]. cbn [deref mbind res_bind].
  pose proof (Z.div_mod val 16 ltac:(lia)). pose proof (Z.mod_pos_bound val 16 ltac:(lia)). case_decide as E.
  - exists [c]. split; [done|]. split; [cbn [length]; lia|]. cbn [hex_value]. rewrite Ec.
    change (default 0%nat (Some ?x)) with x. lia.
  - rewrite Nat2Z.inj_succ, Z.pow_succ_r in Hv by lia.
    destruct (IH (val / 16)) as (cs & -> & Hl & Ecs).
    + split; [apply Z.div_pos; lia|]. apply Z.div_lt_upper_bound; lia.
    + destruct fuel; [|lia]. change (16 ^ Z.of_nat 0) with 1 in Hv. destruct E. apply Z.div_small. lia.
    + cbn [mbind res_bind]. exists (c :: cs). split; [done|]. split; [cbn [length]; lia|].
      cbn [hex_value]. rewrite Ec, Ecs. change (default 0%nat (Some ?x)) with x. lia.
Qed.

(** The text of a word: [0x] and at most sixteen digits, which read back are
    the word. *)
Lemma hex_text_spec val :
  0 ≤ val < 2 ^ 64 →
  ConvertHex val = Ok (hex_text val) ∧
  ∃ cs, hex_text val = B "0x" ++ rev cs ∧ (1 ≤ length cs ≤ 16)%nat ∧ hex_value cs = val.
Proof.
  intros Hv. unfold hex_text, ConvertHex.
  destruct (hex_digits_spec 16 val) as (cs & -> & Hl & Ecs); [done|lia|]. cbn [mbind res_bind]. split; [done|].
  exists cs. by rewrite rev_app_distr.
Qed.

Lemma length_hex_text val : 0 ≤ val < 2 ^ 64 → (length (hex_text val) ≤ 18)%nat.
Proof.
  intros Hv. destruct (hex_text_spec val Hv) as (_ & cs & -> & Hl & _). rewrite length_app, length_rev. cbn. lia.
Qed.

(** ** What can be written to a stream *)

Inductive item :=
  | IStr (s : bytes)
  | INull
  | IInt (z : Z)
  | IFloat (s : bytes)
  | IHex (val : Z).

Definition stream (i : item) (b : FixedBuffer) : res FixedBuffer :=
  match i with
  | IStr s => stream_string s b
  | INull => stream_cstr None b
  | IInt z => stream_int z b
  | IFloat s => stream_float s b
  | IHex val => stream_hex val b
  end.

Fixpoint streams (its : list item) (b : FixedBuffer) : res FixedBuffer :=
  match its with [] => Ok b | i :: its => b ← stream i b; streams its b end.

Definition item_ok (i : item) : Prop :=
  match i with
  | IInt z => Z.abs z < 10 ^ 20
  | IFloat s => (length s < 48)%nat
  | IHex val => 0 ≤ val < 2 ^ 64
  | _ => True
  end.

Definition text (i : item) : bytes :=
  match i with
  | IStr s => s | INull => B "(null)" | IInt z => digits z | IFloat s => s | IHex val => hex_text val
  end.

Definition texts (its : list item) : bytes := concat (text <$> its).

(** What is left of an item in a stream of capacity [C] that holds [n]
    bytes: a string is cut, a number is written whole or not at all. *)
Definition fit (C n : nat) (i : item) : bytes :=
  match i with
  | IStr _ | INull => take (C - n) (text i)
  | IInt _ | IFloat _ => if decide (48 ≤ C - n)%nat then text i else []
  | IHex _ => if decide (8 ≤ C - n)%nat then text i else []
  end.

Fixpoint fits (C n : nat) (its : list item) : bytes :=
  match its with [] => [] | i :: its => fit C n i ++ fits C (n + length (fit C n i)) its end.

(** A pointer takes up to eighteen bytes and is written when eight are left. *)
Definition overruns (C n : nat) (i : item) : Prop :=
  match i with IHex val => (8 ≤ C - n < length (hex_text val))%nat | _ => False end.
#[export] Instance overruns_dec C n i : Decision (overruns C n i).
Proof. destruct i; cbn [overruns]; apply _. Defined.

Lemma stream_string_spec s b :
  fb_ok b → ∃ b', stream_string s b = Ok b' ∧ appended (take (capacity b - end_ b) s) b b'.
Proof.
  intros Hb. destruct (fb_Append_spec s (length s) b Hb (le_n _)) as (b' & E & Ha). exists b'. split; [done|].
  destruct (Nat.le_ge_cases (length s) (capacity b - end_ b)).
  - rewrite Nat.min_l in Ha by done. rewrite take_ge in Ha by lia. by rewrite take_ge.
  - by rewrite Nat.min_r in Ha by done.
Qed.

Lemma stream_spec i b :
  fb_ok b → item_ok i → ¬ overruns (capacity b) (end_ b) i →
  ∃ b', stream i b = Ok b' ∧ appended (fit (capacity b) (end_ b) i) b b'.
Proof.
  intros Hb Hi Hov. pose proof (fb_end b Hb) as He. destruct i as [s| |z|s|v]; cbn [stream fit text item_ok overruns] in *.
  - by apply stream_string_spec.
  - by apply (stream_string_spec (B "(null)")).
  - unfold stream_int. rewrite GetAvail_spec by done. unfold kMaxNumericSize. case_decide as Hd.
    + rewrite decide_True by lia. rewrite ConvertIneger_spec by done. cbn [mbind res_bind].
      pose proof (length_signed_digits z Hi). apply put_spec; [done|lia].
    + rewrite decide_False by lia. eexists. split; [done|]. by apply appended_nil.
  - unfold stream_float. rewrite GetAvail_spec by done. change (Z.to_nat kMaxNumericSize - 1)%nat with 47%nat.
    unfold kMaxNumericSize. case_decide as Hd.
    + rewrite decide_True by lia. rewrite take_ge by lia. unfold write_mem.
      rewrite decide_True by (rewrite length_app; cbn; unfold capacity in *; lia).
      cbn [mbind res_bind]. eexists. split; [reflexivity|].
      assert ((end_ b + length (s ++ [nul]) ≤ length (buffer_ b))%nat) as Hl
        by (rewrite length_app; cbn; unfold capacity in *; lia).
      split.
      * destruct Hb. split; cbn; rewrite length_overwrite by done; [|done]. rewrite length_app in Hl. cbn in Hl. lia.
      * unfold capacity. cbn. by rewrite length_overwrite.
      * unfold content. cbn. rewrite <- overwrite_app by (rewrite length_app in Hl; lia).
        rewrite take_overwrite_le; [apply take_overwrite; lia|lia|].
        rewrite length_overwrite; rewrite length_app in Hl; lia.
    + rewrite decide_False by lia. eexists. split; [done|]. by apply appended_nil.
  - unfold stream_hex. rewrite GetAvail_spec by done. unfold kMaxHexSize. case_decide as Hd.
    + rewrite decide_True by lia. destruct (hex_text_spec v Hi) as [-> _]. cbn [mbind res_bind].
      apply put_spec; [done|lia].
    + rewrite decide_False by lia. eexists. split; [done|]. by apply appended_nil.
Qed.

(** With 48 bytes to spare an item is whole. *)
Lemma fit_whole C n i :
  item_ok i → (n + length (text i) + 48 ≤ C)%nat → fit C n i = text i ∧ ¬ overruns C n i.
Proof.
  intros Hi Hl. destruct i as [s| |z|s|v]; cbn [fit overruns text item_ok] in *.
  - split; [apply take_ge; lia|by intros []].
  - split; [apply take_ge; cbn [length B] in *; lia|by intros []].
  - split; [by rewrite decide_True by lia|by intros []].
  - split; [by rewrite decide_True by lia|by intros []].
  - split; [by rewrite decide_True by lia|lia].
Qed.

(** The items up to the first that overruns the buffer. *)
Lemma streams_spec its : ∀ b,
  fb_ok b → Forall item_ok its →
  ∃ done rest b', its = done ++ rest ∧ streams done b = Ok b' ∧ appended (fits (capacity b) (end_ b) done) b b' ∧
    (rest = [] ∨ ∃ i rest', rest = i :: rest' ∧ overruns (capacity b') (end_ b') i) ∧
    ((end_ b + length (texts its) + 48 ≤ capacity b)%nat → rest = [] ∧ fits (capacity b) (end_ b) done = texts its).
Proof.
  induction its as [|i its IH]; intros b Hb His.
  { exists [], [], b. split_and!; [done|done|by apply appended_nil|by left|done]. }
  apply Forall_cons in His as [Hi His]. change (texts (i :: its)) with (text i ++ texts its). rewrite length_app.
  destruct (decide (overruns (capacity b) (end_ b) i)) as [Ho|Ho].
  { exists [], (i :: its), b. split_and!; [done|done|by apply appended_nil|right; by eexists _, _|].
    intros Hl. destruct (fit_whole (capacity b) (end_ b) i Hi) as [_ Hn]; [lia|done]. }
  destruct (stream_spec i b Hb Hi Ho) as (b1 & E1 & Ha1).
  destruct (IH b1 (ap_ok _ _ _ Ha1) His) as (dn & rest & b' & -> & E & Ha & Hr & Hs).
  exists (i :: dn), rest, b'. cbn [streams fits]. rewrite E1. cbn [mbind res_bind].
  rewrite (appended_end _ b b1 Hb Ha1), (ap_capacity _ _ _ Ha1) in *.
  split_and!; [done|done|by eapply appended_trans|done|].
  intros Hl. destruct (fit_whole (capacity b) (end_ b) i Hi) as [Ef _]; [lia|]. rewrite Ef in *.
  destruct Hs as [-> ->]; [lia|done].
Qed.

(** An item that overruns the buffer leaves it, or takes its last byte. *)
Lemma overruns_leaves i b :
  fb_ok b → item_ok i → overruns (capacity b) (end_ b) i →
  stream i b = Fault OutOfBounds ∨ ∃ b', stream i b = Ok b' ∧ end_ b' = length (buffer_ b).
Proof.
  intros Hb Hi Ho. destruct i as [| | | |v]; try done. cbn [stream overruns item_ok] in *.
  pose proof (fb_end b Hb). unfold stream_hex. rewrite GetAvail_spec by done. unfold kMaxHexSize.
  rewrite decide_True by lia. destruct (hex_text_spec v Hi) as [-> _]. cbn [mbind res_bind]. unfold put, write_mem.
  case_decide as Hd; [|by left]. right. eexists. split; [done|]. cbn. unfold capacity in *. lia.
Qed.

(** C32: writing strings, null pointers, numbers of 64 bits, doubles and
    pointers to a stream stays in the buffer and keeps one byte free up to
    the first pointer that is longer than the room left where at least eight
    bytes are left; that one leaves the buffer or takes the free byte.  What
    the stream holds up to there is known exactly ([fits]): a string is cut
    where the buffer ends, a number left out when fewer than 48 bytes are
    left, a pointer when fewer than 8.  If 48 bytes remain after all the
    texts, all are written, whole and in order, an integer as its decimal
    digits with its sign. *)
Theorem log_stream_appends junk its :
  (0 < length junk)%nat → Z.of_nat (length junk) < 2 ^ 63 → Forall item_ok its →
  ∃ done rest b, its = done ++ rest ∧ streams done (FixedBuffer_new junk) = Ok b ∧ (size b < length junk)%nat ∧
    ToString b = Ok (fits (length junk - 1) 0 done) ∧
    (rest = [] ∨ ∃ i rest', rest = i :: rest' ∧ overruns (length junk - 1) (size b) i ∧
      (stream i b = Fault OutOfBounds ∨ ∃ b', stream i b = Ok b' ∧ size b' = length junk)) ∧
    ((length (texts its) + 49 ≤ length junk)%nat → rest = [] ∧ ToString b = Ok (texts its)).
Proof.
  intros Hj Hj' His. assert (fb_ok (FixedBuffer_new junk)) as Hb by by split.
  destruct (streams_spec its _ Hb His) as (dn & rest & b & E & Er & Ha & Hr & Hw). exists dn, rest, b.
  pose proof (ap_capacity _ _ _ Ha) as Hc. cbn [FixedBuffer_new end_] in *.
  change (capacity (FixedBuffer_new junk)) with (length junk - 1)%nat in *.
  pose proof (ap_ok _ _ _ Ha) as Hb'. destruct Ha as [[Hb1 _] _ Ec]. unfold capacity in Hc.
  assert (ToString b = Ok (fits (length junk - 1) 0 dn)) as Et.
  { unfold ToString, read_mem. rewrite decide_True by (unfold size; lia). f_equal. exact Ec. }
  split_and!; [done|done|unfold size; lia|done| |].
  - destruct Hr as [->|(i & rest' & -> & Ho)]; [by left|right]. exists i, rest'. unfold capacity in Ho. rewrite Hc in Ho.
    split; [done|]. split; [exact Ho|]. rewrite E in His. apply Forall_app in His as [_ His].
    apply Forall_cons in His as [Hi _]. rewrite <- Hc in Ho.
    destruct (overruns_leaves i b Hb' Hi Ho) as [?|(b' & ? & Eb)].
    + by left.
    + right. exists b'. split; [done|]. unfold size. lia.
  - intros Hl. destruct Hw as [? Hw]; [lia|]. by rewrite Et, Hw.
Qed.

Lemma log_stream_appends_witness :
  (∃ b, streams [IStr (B "x = "); IInt (-9223372036854775808); INull; IFloat (B "1.5"); IHex 48879] (FixedBuffer_new (replicate 100 "?"%char)) = Ok b ∧
    ToString b = Ok (B "x = -9223372036854775808(null)1.50xBEEF")) ∧
  (∃ b, streams [IStr (replicate 91 "m"%char)] (FixedBuffer_new (replicate 100 "?"%char)) = Ok b ∧
    stream (IHex (2 ^ 63)) b = Fault OutOfBounds).
Proof.
  split.
  - destruct (log_stream_appends (replicate 100 "?"%char) [IStr (B "x = "); IInt (-9223372036854775808); INull; IFloat (B "1.5"); IHex 48879])
      as (dn & rest & b & Eits & E & _ & _ & _ & Ht); [cbn; lia|cbn; lia|repeat (constructor; try (cbn; lia))|].
    destruct Ht as [-> Ht]; [clear; apply (bool_decide_unpack _); vm_compute; exact I|]. rewrite app_nil_r in Eits. rewrite <- Eits in E.
    exists b. split; [exact E|]. rewrite Ht. by vm_compute.
  - eexists. split; [vm_compute; reflexivity|]. vm_compute. reflexivity.
Defined.

(** A pointer is written when eight bytes are left, but takes up to
    eighteen. *)
Lemma hex_overflows :
  stream_hex (2 ^ 63) (Add 91 (FixedBuffer_new (replicate 100 nul))) = Fault OutOfBounds ∧
  GetAvail (Add 91 (FixedBuffer_new (replicate 100 nul))) = 8.
Proof. split; vm_compute; reflexivity. Qed.

(** ** A log line *)

Section lines.
Variables (now tid : bytes) (GetError : Z → bytes) (StackTrace : bytes).

Definition head_items (level : LogLevel) (errcode : Z) : list item :=
  [IStr (B "["); IStr now; IStr (B " "); IStr tid; IStr (B " "); IStr (kLogLevelName level)] ++
  (if decide (errcode ≠ 0)
   then [IStr (B " "); IStr (GetError errcode); IStr (B " (errno = "); IInt errcode; IStr (B ")")] else []) ++
  [IStr (B "] ")].

Definition tail_items (level : LogLevel) (file : bytes) (line : Z) (msg : bytes) : list item :=
  [IStr msg; IStr (B " "); IStr (SourceFile file); IStr (B " : "); IInt line; IStr ["010"%char]] ++
  (if decide (level_num kError ≤ level_num level)%nat then [IStr StackTrace] else []).

Lemma streams_app its its' b : streams (its ++ its') b = (b ← streams its b; streams its' b).
Proof.
  revert b. induction its as [|i its IH]; intros b; [done|]. cbn [app streams].
  destruct (stream i b); cbn [mbind res_bind]; [apply IH|done].
Qed.

Lemma level_string level b : Append (kLogLevelName level) 5 b = stream_string (kLogLevelName level) b.
Proof. by destruct level. Qed.

Ltac run_streams :=
  repeat (cbn [mbind res_bind streams stream app];
    match goal with
    | |- context [stream_string ?s ?b] => destruct (stream_string s b); [|done]
    | |- context [Append (kLogLevelName ?l) 5 ?b] => rewrite (level_string l b)
    | |- context [stream_int ?s ?b] => destruct (stream_int s b); [|done]
    end); cbn [mbind res_bind streams stream app]; try done.

Lemma new_streams junk file line level errcode :
  StackWritter_new now tid GetError junk file line level errcode =
  (b ← streams (head_items level errcode) (FixedBuffer_new junk); Ok (mkWritter b level (SourceFile file) line)).
Proof.
  unfold StackWritter_new, head_items. case_decide.
  - change (stream_cstr (Some (GetError errcode))) with (stream_string (GetError errcode)). run_streams.
  - run_streams.
Qed.

Lemma destroy_streams b level file line msg :
  (b ← stream_string msg b; StackWritter_destroy StackTrace (mkWritter b level (SourceFile file) line)) =
  (b ← streams (tail_items level file line msg) b; out ← ToString b; Ok (out, bool_decide (level = kFatal))).
Proof. unfold StackWritter_destroy, Finish, tail_items. cbn [log_stream_ level_ file_ line_]. case_decide; run_streams. Qed.

Definition no_pointer (i : item) : Prop := match i with IHex _ => False | _ => True end.

Lemma no_pointer_overruns C n i : no_pointer i → ¬ overruns C n i.
Proof. destruct i; cbn; tauto. Qed.

(** Without pointers the stream holds exactly what fits. *)
Lemma streams_cut its junk :
  Forall item_ok its → Forall no_pointer its → (0 < length junk)%nat → Z.of_nat (length junk) < 2 ^ 63 →
  ∃ b, streams its (FixedBuffer_new junk) = Ok b ∧ ToString b = Ok (fits (length junk - 1) 0 its).
Proof.
  intros Hi Hn Hj Hj'. assert (fb_ok (FixedBuffer_new junk)) as Hb by (split; cbn; lia).
  destruct (streams_spec its _ Hb Hi) as (dn & rest & b & -> & E & [[Hb1 _] _ Ec] & Hr & _). exists b.
  apply Forall_app in Hn as [_ Hn]. destruct Hr as [->|(i & rest' & -> & Ho)].
  - rewrite app_nil_r. split; [exact E|]. unfold ToString, read_mem. rewrite decide_True by (unfold size; lia).
    f_equal. exact Ec.
  - apply Forall_cons in Hn as [Hn _]. by apply no_pointer_overruns in Ho.
Qed.

Lemma fits_whole C its : ∀ n,
  Forall item_ok its → (n + length (texts its) + 48 ≤ C)%nat → fits C n its = texts its.
Proof.
  induction its as [|i its IH]; intros n Hi Hl; [done|]. apply Forall_cons in Hi as [Hi His].
  change (texts (i :: its)) with (text i ++ texts its) in *. rewrite length_app in Hl. cbn [fits].
  destruct (fit_whole C n i Hi) as [-> _]; [lia|]. rewrite IH by (done || lia). done.
Qed.

(** The text of a line, between its head and the end. *)
Definition errno_text (errcode : Z) : bytes :=
  if decide (errcode ≠ 0) then B " " ++ GetError errcode ++ B " (errno = " ++ digits errcode ++ B ")" else [].

Definition line_text (level : LogLevel) (errcode : Z) (file : bytes) (line : Z) (msg : bytes) : bytes :=
  B "[" ++ now ++ B " " ++ tid ++ B " " ++ kLogLevelName level ++ errno_text errcode ++ B "] " ++ msg ++ B " " ++
  SourceFile file ++ B " : " ++ digits line ++ ["010"%char] ++
  (if decide (level_num kError ≤ level_num level)%nat then StackTrace else []).

(** All that a line is made of; [pre] comes before the message. *)
Definition line_items (pre : list item) (level : LogLevel) (errcode : Z) (file : bytes) (line : Z) (msg : bytes) : list item :=
  (head_items level errcode ++ pre) ++ tail_items level file line msg.

(** The line in a stream of [n] bytes. *)
Definition line_cut (n : nat) (pre : list item) (level : LogLevel) (errcode : Z) (file : bytes) (line : Z) (msg : bytes) : bytes :=
  fits (n - 1) 0 (line_items pre level errcode file line msg).

Lemma line_items_texts pre level errcode file line m :
  texts (line_items pre level errcode file line m) = line_text level errcode file line (texts pre ++ m).
Proof.
  unfold line_items, texts, head_items, tail_items, line_text, errno_text. rewrite !fmap_app, !concat_app.
  destruct (decide (errcode ≠ 0)), (decide (level_num kError ≤ level_num level)%nat);
    cbn [app fmap list_fmap text concat]; rewrite ?app_nil_r, <- ?app_assoc; cbn [app]; rewrite ?app_nil_r; reflexivity.
Qed.

Lemma line_items_ok pre level errcode file line m :
  Forall item_ok pre → Forall no_pointer pre → Z.abs errcode < 10 ^ 20 → Z.abs line < 10 ^ 20 →
  Forall item_ok (line_items pre level errcode file line m) ∧ Forall no_pointer (line_items pre level errcode file line m).
Proof.
  intros. unfold line_items, head_items, tail_items. rewrite !Forall_app.
  split_and!; try done; try (case_decide; by repeat constructor); by repeat constructor.
Qed.

(** A line with 49 bytes to spare is whole. *)
Lemma line_cut_whole n pre level errcode file line m :
  Forall item_ok pre → Forall no_pointer pre → Z.abs errcode < 10 ^ 20 → Z.abs line < 10 ^ 20 →
  (length (line_text level errcode file line (texts pre ++ m)) + 49 ≤ n)%nat →
  line_cut n pre level errcode file line m = line_text level errcode file line (texts pre ++ m).
Proof.
  intros Hp Hp' He Hline Hl. rewrite <- line_items_texts in *. apply fits_whole; [|lia].
  by apply line_items_ok.
Qed.

Lemma line_run pre level errcode junk file line m :
  Forall item_ok pre → Forall no_pointer pre → Z.abs errcode < 10 ^ 20 → Z.abs line < 10 ^ 20 →
  (0 < length junk)%nat → Z.of_nat (length junk) < 2 ^ 63 →
  (b ← streams (head_items level errcode ++ pre) (FixedBuffer_new junk); b ← stream_string m b;
     StackWritter_destroy StackTrace (mkWritter b level (SourceFile file) line)) =
  Ok (line_cut (length junk) pre level errcode file line m, bool_decide (level = kFatal)).
Proof.
  intros Hpre Hpre' He Hline Hj Hj'.
  destruct (line_items_ok pre level errcode file line m) as [Hok Hok']; [done..|].
  destruct (streams_cut _ junk Hok Hok' Hj Hj') as (b & E & Es).
  unfold line_items in E. rewrite streams_app in E. destruct (streams (head_items level errcode ++ pre) _) as [b1|]; [|done].
  cbn [mbind res_bind] in *. rewrite destroy_streams, E. cbn [mbind res_bind]. by rewrite Es.
Qed.

(** A log line is the bracketed time, thread, level and error, the name of
    the function for the lower levels, the message, and the base name of the
    file with the line, as far as they fit in the buffer; a level below the
    logger's writes nothing; [Error] and [Fatal] append the stack trace, and
    [Fatal] aborts. *)
Lemma log_func_text threshold level junk file line func msg :
  Z.abs line < 10 ^ 20 → (0 < length junk)%nat → Z.of_nat (length junk) < 2 ^ 63 →
  log_func now tid GetError StackTrace threshold level junk file line func msg =
    Ok (if decide (level_num threshold ≤ level_num level)%nat
        then Some (line_cut (length junk) [IStr func; IStr (B ": ")] level 0 file line msg, bool_decide (level = kFatal)) else None).
Proof.
  intros Hline Hj Hj'. unfold log_func. case_decide; [|done]. unfold StackWritter_func. rewrite new_streams.
  pose proof (line_run [IStr func; IStr (B ": ")] level 0 junk file line msg
    ltac:(by repeat constructor) ltac:(by repeat constructor) eq_refl Hline Hj Hj') as H'.
  rewrite streams_app in H'.
  destruct (streams (head_items level 0) _) as [b1|]; [|done]. cbn [mbind res_bind log_stream_ streams stream] in *.
  change (stream_cstr (Some func)) with (stream_string func).
  destruct (stream_string func b1) as [b2|]; [|done]. cbn [mbind res_bind level_ file_ line_] in *.
  destruct (stream_string (B ": ") b2) as [b3|]; [|done]. cbn [mbind res_bind log_stream_ level_ file_ line_] in *.
  destruct (stream_string msg b3) as [b4|]; [|done]. cbn [mbind res_bind] in *. by rewrite H'.
Qed.

Lemma log_plain_text level errcode junk file line msg :
  Z.abs errcode < 10 ^ 20 → Z.abs line < 10 ^ 20 → (0 < length junk)%nat → Z.of_nat (length junk) < 2 ^ 63 →
  log_plain now tid GetError StackTrace level errcode junk file line msg =
    Ok (line_cut (length junk) [] level errcode file line msg, bool_decide (level = kFatal)).
Proof.
  intros He Hline Hj Hj'. unfold log_plain. rewrite new_streams.
  pose proof (line_run [] level errcode junk file line msg ltac:(constructor) ltac:(constructor) He Hline Hj Hj') as H'.
  rewrite app_nil_r in H'.
  destruct (streams (head_items level errcode) _) as [b1|]; [|done]. cbn [mbind res_bind log_stream_ level_ file_ line_] in *.
  exact H'.
Qed.
End lines.

(** The base name of a file keeps the slash before it. *)
Lemma source_file_keeps_slash : SourceFile (B "src/net/x.cc") = B "/x.cc".
Proof. reflexivity. Qed.

(** A message that fills the buffer cuts the file, the line and the newline
    off. *)
Lemma long_line_not_terminated :
  ∃ out, log_plain (B "12:00") (B "7") (λ _, []) [] kInfo 0 (replicate 60 "?"%char) (B "x.cc") 1 (replicate 60 "m"%char) = Ok (out, false) ∧
    length out = 59%nat ∧ last out = Some "m"%char.
Proof. eexists. split_and!; vm_compute; reflexivity. Qed.
