(* ===== verification/AsyncOutputer.v ===== *)
(** Logging in the background: [muzi/base/async_outputer.h] and
    [async_outputer.cc].  Threads append to buffers under a lock and one
    thread swaps the buffers out and writes them to the file: each atomic step
    is a labelled transition.  A buffer is its content. *)

From S2P Require Import Prelude.

Definition kLargeBuffSize : Z := 4096 * 1000.

Abbreviation LargeBuffer := bytes.

(** [FixedBuffer::GetAvail] and [Append]. *)
Definition GetAvail (b : LargeBuffer) : Z := kLargeBuffSize - Z.of_nat (length b) - 1.
Definition buf_append (msg : bytes) (b : LargeBuffer) : LargeBuffer :=
  b ++ take (Z.to_nat (Z.min (GetAvail b) (Z.of_nat (length msg)))) msg.

(** Where the writer is: at the test of [while], about to read [running_],
    about to take the lock, with the buffers to write, after the loop. *)
Inductive writer_pc := WTest | WRead | WLock | WWrite | WDone.
#[export] Instance writer_pc_eq_dec : EqDecision writer_pc.
Proof. solve_decision. Defined.

(** [file_] is what [log_file_] was given.  [out] is what has been output so
    far, [before_stop] what had been when [Stop] was called, [batches] the
    buffers the writer took at each swap it has dealt with. *)
Record AsyncOutputer := mkAsync {
  running_ : bool;
  current_buffer_ : option LargeBuffer;
  next_buffer_ : option LargeBuffer;
  buffers_ : list (option LargeBuffer);
  pc : writer_pc;
  last_write : bool;
  new_buffer1 : option LargeBuffer;
  new_buffer2 : option LargeBuffer;
  buffers_to_write : list (option LargeBuffer);
  file_ : bytes;
  out : bytes;
  before_stop : bytes;
  batches : list (list (option LargeBuffer))
}.

(** After the constructor and [Start]. *)
Definition Start : AsyncOutputer :=
  mkAsync true (Some []) (Some []) [] WTest true (Some []) (Some []) [] [] [] [] [].

(** [buffers_.push_back(std::move(current_buffer_))] and the replacement of
    the current buffer. *)
Definition next_current (s : AsyncOutputer) : AsyncOutputer :=
  mkAsync (running_ s)
    (match next_buffer_ s with Some b => Some b | None => Some [] end) None
    (buffers_ s ++ [current_buffer_ s]) (pc s) (last_write s) (new_buffer1 s) (new_buffer2 s)
    (buffers_to_write s) (file_ s) (out s) (before_stop s) (batches s).

Definition Flush (s : AsyncOutputer) : AsyncOutputer := next_current s.

Definition set_current (b : LargeBuffer) (o : bytes) (s : AsyncOutputer) : AsyncOutputer :=
  mkAsync (running_ s) (Some b) (next_buffer_ s) (buffers_ s) (pc s) (last_write s) (new_buffer1 s)
    (new_buffer2 s) (buffers_to_write s) (file_ s) o (before_stop s) (batches s).

Definition Output (buffer : bytes) (s : AsyncOutputer) : res AsyncOutputer :=
  cur ← deref NullDeref (current_buffer_ s);
  let s := if decide (GetAvail cur < Z.of_nat (length buffer))%Z then next_current s else s in
  cur ← deref NullDeref (current_buffer_ s);
  Ok (set_current (buf_append buffer cur) (out s ++ buffer) s).

(** The store of [Stop]; it then waits for the writer. *)
Definition Stop (s : AsyncOutputer) : AsyncOutputer :=
  mkAsync false (current_buffer_ s) (next_buffer_ s) (buffers_ s) (pc s) (last_write s) (new_buffer1 s)
    (new_buffer2 s) (buffers_to_write s) (file_ s) (out s)
    (if running_ s then out s else before_stop s) (batches s).

Definition set_pc (p : writer_pc) (lw : bool) (s : AsyncOutputer) : AsyncOutputer :=
  mkAsync (running_ s) (current_buffer_ s) (next_buffer_ s) (buffers_ s) p lw (new_buffer1 s)
    (new_buffer2 s) (buffers_to_write s) (file_ s) (out s) (before_stop s) (batches s).

(** The block under the lock; the wait before it can last any time. *)
Definition swap_buffers (s : AsyncOutputer) : AsyncOutputer :=
  mkAsync (running_ s) (new_buffer1 s)
    (match next_buffer_ s with Some b => Some b | None => new_buffer2 s end)
    (buffers_to_write s) WWrite (last_write s) None
    (match next_buffer_ s with Some _ => new_buffer2 s | None => None end)
    (buffers_ s ++ [current_buffer_ s]) (file_ s) (out s) (before_stop s) (batches s).

(** The loop over [buffers_to_write]. *)
Fixpoint append_all (bl : list (option LargeBuffer)) : res bytes :=
  match bl with
  | [] => Ok []
  | b :: bl => x ← deref NullDeref b; rest ← append_all bl; Ok (x ++ rest)
  end.

(** [std::move(back())], [pop_back()] and [clear()] of the buffer. *)
Definition take_back (bl : list (option LargeBuffer)) : res (option LargeBuffer * list (option LargeBuffer)) :=
  b ← deref OutOfBounds (last bl); _ ← deref NullDeref b; Ok (Some [], removelast bl).

Definition write_buffers (s : AsyncOutputer) : res AsyncOutputer :=
  let bl := if decide (25 < length (buffers_to_write s)) then take 2 (buffers_to_write s) else buffers_to_write s in
  data ← append_all bl;
  let bl := if decide (2 < length bl) then take 2 bl else bl in
  '(new1, bl) ← take_back bl;
  '(new2, bl) ← (match new_buffer2 s with Some b => Ok (Some b, bl) | None => take_back bl end);
  Ok (mkAsync (running_ s) (current_buffer_ s) (next_buffer_ s) (buffers_ s) WTest (last_write s) new1 new2 []
        (file_ s ++ data) (out s) (before_stop s) (batches s ++ [buffers_to_write s])).

(** One step of [Run]. *)
Definition writer_step (s : AsyncOutputer) : res AsyncOutputer :=
  match pc s with
  | WTest => Ok (set_pc (if running_ s || last_write s then WRead else WDone) (last_write s) s)
  | WRead => Ok (set_pc WLock (running_ s) s)
  | WLock => Ok (swap_buffers s)
  | WWrite => write_buffers s
  | WDone => Ok s
  end.

Inductive step := SOutput (msg : bytes) | SFlush | SStop | SWriter.

Definition run_step (l : step) (s : AsyncOutputer) : res AsyncOutputer :=
  match l with
  | SOutput msg => Output msg s
  | SFlush => Ok (Flush s)
  | SStop => Ok (Stop s)
  | SWriter => writer_step s
  end.

Fixpoint run_steps (ls : list step) (s : AsyncOutputer) : res AsyncOutputer :=
  match ls with [] => Ok s | l :: ls => s ← run_step l s; run_steps ls s end.

(** ** The invariant *)

Definition contents (bl : list (option LargeBuffer)) : bytes := concat (default [] <$> bl).

#[local] Arguments contents : simpl never.

Definition small (b : LargeBuffer) : Prop := (0 ≤ GetAvail b)%Z.

(** What the writer keeps of what it took: of more than 25 buffers, two. *)
Definition kept (bl : list (option LargeBuffer)) : list (option LargeBuffer) :=
  if decide (25 < length bl) then take 2 bl else bl.

(** All that the writer took, in order; and whether it kept all. *)
Definition taken (s : AsyncOutputer) : bytes := contents (concat (batches s)).
Definition kept_all (s : AsyncOutputer) : Prop := Forall (λ bl, length bl ≤ 25) (batches s).

(** What is still to be written, in order. *)
Definition pending (s : AsyncOutputer) : bytes :=
  contents (buffers_to_write s) ++ contents (buffers_ s) ++ default [] (current_buffer_ s).

Record async_inv (s : AsyncOutputer) : Prop := {
  ai_current : ∃ b, current_buffer_ s = Some b ∧ small b;
  ai_next : next_buffer_ s = Some [] ∨ (next_buffer_ s = None ∧ buffers_ s ≠ []);
  ai_buffers : Forall is_Some (buffers_ s);
  ai_writer : match pc s with
    | WWrite => Forall is_Some (buffers_to_write s) ∧ buffers_to_write s ≠ [] ∧
        (new_buffer2 s = Some [] ∨ (new_buffer2 s = None ∧ 2 ≤ length (buffers_to_write s)))
    | _ => buffers_to_write s = [] ∧ new_buffer1 s = Some [] ∧ new_buffer2 s = Some []
    end;
  ai_fifo : out s = taken s ++ pending s;
  ai_file : file_ s = contents (concat (kept <$> batches s))
}.

Lemma contents_app bl bl' : contents (bl ++ bl') = contents bl ++ contents bl'.
Proof. unfold contents. by rewrite fmap_app, concat_app. Qed.

Lemma contents_one b : contents [b] = default [] b.
Proof. unfold contents. cbn. apply app_nil_r. Qed.

Lemma contents_cons x bl : contents (Some x :: bl) = x ++ contents bl.
Proof. done. Qed.

Lemma kept_short bl : length bl ≤ 25 → kept bl = bl.
Proof. intros H. unfold kept. by rewrite decide_False by lia. Qed.

(** The file holds what was taken, when nothing was dropped. *)
Lemma kept_all_file s : async_inv s → kept_all s → file_ s = taken s.
Proof.
  intros Hi Hk. rewrite (ai_file s Hi). unfold taken. do 2 f_equal.
  induction Hk as [|bl bls Hb _ IH]; [done|]. cbn. by rewrite kept_short, IH.
Qed.

Lemma small_nil : small [].
Proof. done. Qed.

Lemma next_current_inv s : async_inv s → async_inv (next_current s).
Proof.
  intros [(b & Ec & Hb) Hn Hbf Hw Hf Hfl]. split; cbn; try done.
  - exists []. split; [destruct Hn as [->|[-> _]]; done|apply small_nil].
  - right. split; [done|]. by destruct (buffers_ s).
  - apply Forall_app. split; [done|]. apply Forall_singleton. by rewrite Ec.
  - rewrite Hf. unfold taken, pending. cbn. rewrite contents_app, contents_one, Ec.
    destruct Hn as [->|[-> _]]; cbn; by rewrite app_nil_r.
Qed.

Lemma Output_inv msg s :
  async_inv s → (Z.of_nat (length msg) < kLargeBuffSize)%Z →
  ∃ s', Output msg s = Ok s' ∧ async_inv s' ∧ out s' = out s ++ msg ∧ before_stop s' = before_stop s ∧
    running_ s' = running_ s ∧ file_ s' = file_ s ∧ pc s' = pc s ∧ last_write s' = last_write s ∧
    buffers_to_write s' = buffers_to_write s ∧ batches s' = batches s.
Proof.
  intros Hi Hm. destruct (ai_current s Hi) as (b & Ec & Hb). unfold Output. rewrite Ec. cbn [deref mbind res_bind].
  set (s1 := if decide _ then _ else s).
  assert (async_inv s1 ∧ ∃ b1, current_buffer_ s1 = Some b1 ∧ (Z.of_nat (length msg) ≤ GetAvail b1)%Z ∧ out s1 = out s ∧
    before_stop s1 = before_stop s ∧ running_ s1 = running_ s ∧ file_ s1 = file_ s ∧ pc s1 = pc s ∧
    last_write s1 = last_write s ∧ buffers_to_write s1 = buffers_to_write s ∧ batches s1 = batches s)
    as (Hi1 & b1 & Ec1 & Hb1 & Ho & Hrest).
  { unfold s1. case_decide; [|split; [done|]; exists b; split_and!; try done; lia].
    split; [by apply next_current_inv|]. exists []. split_and!; try done.
    - cbn. destruct (ai_next s Hi) as [->|[-> _]]; done.
    - unfold GetAvail in *. cbn. lia. }
  rewrite Ec1. cbn [deref mbind res_bind]. eexists. split; [reflexivity|].
  assert (buf_append msg b1 = b1 ++ msg) as Ea.
  { unfold buf_append. by rewrite Z.min_r, Nat2Z.id, take_ge by lia. }
  rewrite Ea. split; [|cbn; rewrite Ho; done]. destruct Hi1 as [_ Hn Hbf Hw Hf Hfl]. split; cbn; try done.
  - eexists. split; [done|]. unfold small, GetAvail in *. rewrite length_app. lia.
  - rewrite Hf. unfold taken, pending. cbn. rewrite Ec1. cbn. by rewrite !app_assoc.
Qed.

Lemma Stop_inv s : async_inv s → async_inv (Stop s).
Proof. intros [? ? ? ? ? ?]. by split. Qed.

Lemma append_all_spec bl : Forall is_Some bl → append_all bl = Ok (contents bl).
Proof.
  induction 1 as [|b bl [x ->] _ IH]; [done|]. cbn [append_all deref mbind res_bind]. by rewrite IH.
Qed.

Lemma take_back_spec bl :
  Forall is_Some bl → bl ≠ [] → take_back bl = Ok (Some [], removelast bl) ∧ Forall is_Some (removelast bl) ∧
    length (removelast bl) = length bl - 1.
Proof.
  intros Hbl Hne. destruct (exists_last Hne) as (l & b & ->). unfold take_back. rewrite removelast_last.
  apply Forall_app in Hbl as [Hl Hb]. apply Forall_singleton in Hb as [x ->].
  rewrite last_snoc. split_and!; [done|done|]. rewrite length_app. cbn. lia.
Qed.

Lemma swap_inv s : async_inv s → pc s = WLock → async_inv (swap_buffers s).
Proof.
  intros [(b & Ec & Hb) Hn Hbf Hw Hf Hfl] Hp. rewrite Hp in Hw. destruct Hw as (Ew & E1 & E2). split; cbn.
  - exists []. split; [done|apply small_nil].
  - left. rewrite E2. destruct Hn as [->|[-> _]]; done.
  - by rewrite Ew.
  - split; [apply Forall_app; split; [done|]; apply Forall_singleton; by rewrite Ec|].
    split; [by destruct (buffers_ s)|]. rewrite E2, length_app. cbn. destruct Hn as [->|[-> Hne]]; [by left|].
    right. split; [done|]. destruct (buffers_ s); [done|]. cbn. lia.
  - rewrite Hf. unfold taken, pending. cbn. rewrite Ew, E1, contents_app, contents_one. cbn.
    by rewrite app_nil_r.
  - done.
Qed.

Lemma write_buffers_inv s :
  async_inv s → pc s = WWrite →
  ∃ s', write_buffers s = Ok s' ∧ async_inv s' ∧ pc s' = WTest ∧ last_write s' = last_write s ∧
    running_ s' = running_ s ∧ before_stop s' = before_stop s ∧ out s' = out s ∧
    batches s' = batches s ++ [buffers_to_write s].
Proof.
  intros [Hc Hn Hbf Hw Hf Hfl] Hp. rewrite Hp in Hw. destruct Hw as (Hall & Hne & H2). unfold write_buffers.
  fold (kept (buffers_to_write s)). set (bl := kept _).
  assert (Forall is_Some bl ∧ bl ≠ [] ∧ (new_buffer2 s = Some [] ∨ (new_buffer2 s = None ∧ 2 ≤ length bl))) as (Hbl & Hne1 & H21).
  { unfold bl, kept. case_decide as Hd; [|done].
    split; [by apply Forall_take|]. split; [by destruct (buffers_to_write s)|].
    destruct H2 as [?|[? ?]]; [by left|]. right. split; [done|]. rewrite length_take. lia. }
  rewrite append_all_spec by done. cbn [mbind res_bind].
  set (bl2 := if decide (2 < length bl) then take 2 bl else bl).
  assert (Forall is_Some bl2 ∧ bl2 ≠ [] ∧ (new_buffer2 s = Some [] ∨ (new_buffer2 s = None ∧ 2 ≤ length bl2))) as (Hbl2 & Hne2 & H22).
  { unfold bl2. case_decide; [|done]. split; [by apply Forall_take|]. split; [by destruct bl|].
    destruct H21 as [?|[? ?]]; [by left|]. right. split; [done|]. rewrite length_take. lia. }
  destruct (take_back_spec bl2 Hbl2 Hne2) as (-> & Hr & El). cbn [mbind res_bind].
  assert (∃ l, (match new_buffer2 s with Some b => Ok (Some b, removelast bl2) | None => take_back (removelast bl2) end)
    = Ok (Some [], l)) as [l ->].
  { destruct H22 as [->|[-> Hl]]; [by eexists|]. destruct (take_back_spec (removelast bl2) Hr) as [-> _]; [|by eexists].
    intros E. rewrite E in El. cbn in El. lia. }
  cbn [mbind res_bind]. eexists. split; [reflexivity|]. split; [split; cbn; try done|].
  - rewrite Hf. unfold taken, pending. cbn. rewrite concat_app, contents_app. cbn.
    by rewrite app_nil_r, <- !app_assoc.
  - rewrite Hfl, fmap_app, concat_app, contents_app. cbn. by rewrite app_nil_r.
  - by cbn.
Qed.

(** ** Runs *)

Definition step_ok (l : step) : Prop :=
  match l with SOutput msg => (Z.of_nat (length msg) < kLargeBuffSize)%Z | _ => True end.

(** What the writer has seen of [Stop]: once it has read [running_] as false
    and swapped, everything output before [Stop] is in its hands. *)
Record stop_inv (s : AsyncOutputer) : Prop := {
  sp_out : running_ s = false → before_stop s `prefix_of` out s;
  sp_last : last_write s = false → running_ s = false;
  sp_written : last_write s = false → pc s = WTest ∨ pc s = WDone → before_stop s `prefix_of` taken s;
  sp_swapped : last_write s = false → pc s = WWrite → before_stop s `prefix_of` taken s ++ contents (buffers_to_write s);
  sp_read : pc s = WRead → last_write s = true;
  sp_done : pc s = WDone → last_write s = false
}.

Lemma run_step_inv l s :
  async_inv s → stop_inv s → step_ok l → ∃ s', run_step l s = Ok s' ∧ async_inv s' ∧ stop_inv s'.
Proof.
  intros Hi Hs Hl. destruct l as [msg| | |]; cbn [run_step].
  - destruct (Output_inv msg s Hi Hl) as (s' & E & Hi' & Eo & Eb & Er & Ef & Ep & El & Ew & Ed).
    exists s'. split_and!; [done|done|]. destruct Hs.
    assert (taken s' = taken s) as Et by (unfold taken; by rewrite Ed).
    split; rewrite ?Et;
      rewrite ?Eo, ?Eb, ?Er, ?Ep, ?El, ?Ew; try done.
    intros Hr. by apply prefix_app_r, sp_out0.
  - eexists. split; [reflexivity|]. split; [by apply next_current_inv|]. by destruct Hs.
  - eexists. split; [reflexivity|]. split; [by apply Stop_inv|]. destruct Hs.
    split; cbn; try done.
    + intros _. destruct (running_ s) eqn:Er; [done|by apply sp_out0].
    + intros Hl' Hp. rewrite (sp_last0 Hl'). by apply sp_written0.
    + intros Hl' Hp. rewrite (sp_last0 Hl'). by apply sp_swapped0.
  - unfold writer_step. destruct Hs. pose proof (ai_fifo s Hi) as Hf. destruct (pc s) eqn:Ep.
    + eexists. split; [reflexivity|]. split.
      * pose proof (ai_writer s Hi) as Hw. rewrite Ep in Hw. destruct Hi. split; cbn; try done.
        by destruct (running_ s || last_write s).
      * destruct (last_write s) eqn:El.
        -- rewrite orb_true_r. by split.
        -- rewrite (sp_last0 eq_refl). split; cbn; try done.
           intros _ _. apply sp_written0; [done|by left].
    + eexists. split; [reflexivity|]. split.
      * pose proof (ai_writer s Hi) as Hw. rewrite Ep in Hw. by destruct Hi; split.
      * split; cbn; try done. intros _ [?|?]; done.
    + eexists. split; [reflexivity|]. split; [by apply swap_inv|].
      split; cbn; try done; [by intros _ [?|?]|].
      intros Hl' _. pose proof (ai_writer s Hi) as Hw. rewrite Ep in Hw. destruct Hw as (Ew & _).
      rewrite Hf in sp_out0. unfold pending in sp_out0. rewrite Ew in sp_out0.
      change (taken (swap_buffers s)) with (taken s). rewrite contents_app, contents_one. apply sp_out0.
      by apply sp_last0.
    + destruct (write_buffers_inv s Hi Ep) as (s' & E & Hi' & Ep' & El' & Er' & Eb' & Eo' & Hd'). exists s'.
      split_and!; [done|done|]. assert (taken s' = taken s ++ contents (buffers_to_write s)) as Et.
      { unfold taken. rewrite Hd', concat_app, contents_app. cbn. by rewrite app_nil_r. }
      split; rewrite ?Ep', ?El', ?Er', ?Eb', ?Eo', ?Et; try done.
      intros Hl' _. by apply sp_swapped0.
    + exists s. split_and!; [done|done|by split; rewrite ?Ep].
Qed.

Lemma run_steps_inv ls : ∀ s,
  async_inv s → stop_inv s → Forall step_ok ls →
  ∃ s', run_steps ls s = Ok s' ∧ async_inv s' ∧ stop_inv s'.
Proof.
  induction ls as [|l ls IH]; intros s Hi Hs Hl; [by exists s|]. apply Forall_cons in Hl as [Hl Hls].
  destruct (run_step_inv l s Hi Hs Hl) as (s1 & E & Hi1 & Hs1). destruct (IH s1 Hi1 Hs1 Hls) as (s' & E' & ?).
  exists s'. cbn [run_steps]. by rewrite E.
Qed.

Lemma Start_inv : async_inv Start ∧ stop_inv Start.
Proof. split; [|by split]. split; try done; [by exists []|by left]. Qed.

Lemma run_steps_app ls ls' s : run_steps (ls ++ ls') s = (s ← run_steps ls s; run_steps ls' s).
Proof.
  revert s. induction ls as [|l ls IH]; intros s; [done|]. cbn [app run_steps].
  destruct (run_step l s); cbn [mbind res_bind]; [apply IH|done].
Qed.

(** What the threads have output. *)
Definition messages (ls : list step) : bytes :=
  concat ((λ l, match l with SOutput msg => msg | _ => [] end) <$> ls).

Lemma write_buffers_out s s' : write_buffers s = Ok s' → out s' = out s.
Proof.
  unfold write_buffers. destruct (append_all _) as [d|]; [|done]. cbn [mbind res_bind].
  destruct (take_back _) as [[n1 l]|]; [|done]. cbn [mbind res_bind].
  destruct (match new_buffer2 s with Some b => _ | None => _ end) as [[n2 l']|]; [|done]. cbn [mbind res_bind].
  by intros [= <-].
Qed.

Lemma run_step_out l s s' : run_step l s = Ok s' → out s' = out s ++ messages [l].
Proof.
  unfold messages. destruct l as [msg| | |]; cbn [run_step fmap list_fmap concat]; rewrite ?app_nil_r.
  - unfold Output. destruct (current_buffer_ s); [|done]. cbn [deref mbind res_bind].
    set (s1 := if decide _ then _ else s). assert (out s1 = out s) as Eo by (unfold s1; by case_decide).
    destruct (current_buffer_ s1); [|done]. cbn [deref mbind res_bind]. intros [= <-]. cbn. by rewrite Eo.
  - by intros [= <-].
  - by intros [= <-].
  - unfold writer_step. destruct (pc s); try (by intros [= <-]). apply write_buffers_out.
Qed.

Lemma run_steps_out ls : ∀ s s', run_steps ls s = Ok s' → out s' = out s ++ messages ls.
Proof.
  induction ls as [|l ls IH]; intros s s' H; cbn [run_steps] in H.
  { injection H as <-. unfold messages. cbn. by rewrite app_nil_r. }
  destruct (run_step l s) as [s1|] eqn:E; [|done]. rewrite (IH s1 s' H), (run_step_out l s s1 E), <- app_assoc.
  f_equal. unfold messages. cbn. by rewrite app_nil_r.
Qed.

(** C24: under every interleaving of threads that log lines below the size of
    a buffer, flush or stop with the steps of the writer, no null buffer is
    used and the vector of buffers is never popped empty.  The batches the
    writer took and the buffers still in memory are exactly the lines in the
    order of output, and the file is those batches, each whole when it has at
    most 25 buffers and cut to its first two buffers when it has more; so
    while no batch has more than 25, the file followed by the buffers in
    memory is the lines. *)
Theorem async_output_fifo ls :
  Forall step_ok ls →
  ∃ s, run_steps ls Start = Ok s ∧ messages ls = taken s ++ pending s ∧
    file_ s = contents (concat (kept <$> batches s)) ∧
    (kept_all s → messages ls = file_ s ++ pending s).
Proof.
  intros Hl. destruct Start_inv as [Hi0 Hs0]. destruct (run_steps_inv ls Start Hi0 Hs0 Hl) as (s & E & Hi & _).
  pose proof (run_steps_out ls Start s E) as Eo. cbn [out Start app] in Eo. rewrite <- Eo.
  exists s. split; [done|]. split; [apply (ai_fifo s Hi)|]. split; [apply (ai_file s Hi)|].
  intros Hk. rewrite (kept_all_file s Hi Hk). apply (ai_fifo s Hi).
Qed.

Lemma async_output_fifo_witness :
  ∃ s, run_steps [SOutput (B "one"); SWriter; SFlush; SOutput (B "two"); SWriter; SWriter; SOutput (B "three"); SWriter]
         Start = Ok s ∧ file_ s = B "onetwo" ∧ file_ s ++ pending s = B "onetwothree".
Proof.
  destruct (async_output_fifo [SOutput (B "one"); SWriter; SFlush; SOutput (B "two"); SWriter; SWriter;
    SOutput (B "three"); SWriter]) as (s & E & _); [repeat constructor|].
  exists s. split; [exact E|]. vm_compute in E. injection E as <-. by vm_compute.
Defined.

(** ** Stopping *)

(** How many steps of the writer are left once [running_] is false. *)
Definition steps_left (s : AsyncOutputer) : nat :=
  match pc s, last_write s with
  | WDone, _ => 0
  | WTest, false => 1
  | WWrite, false => 2
  | WLock, false => 3
  | WRead, _ => 4
  | WTest, true => 5
  | WWrite, true => 6
  | WLock, true => 7
  end.

Definition is_writer (l : step) : bool := match l with SWriter => true | _ => false end.

Fixpoint writer_steps (ls : list step) : nat :=
  match ls with [] => 0 | l :: ls => (if is_writer l then 1 else 0) + writer_steps ls end.

Lemma run_step_running l s s' : l ≠ SStop → run_step l s = Ok s' → running_ s' = running_ s.
Proof.
  intros Hl. destruct l as [msg| | |]; cbn [run_step]; try done; [| by intros [= <-] |].
  - unfold Output. destruct (current_buffer_ s); [|done]. cbn [deref mbind res_bind].
    set (s1 := if decide _ then _ else s). assert (running_ s1 = running_ s) as Eo by (unfold s1; by case_decide).
    destruct (current_buffer_ s1); [|done]. cbn [deref mbind res_bind]. intros [= <-]. done.
  - unfold writer_step. destruct (pc s); try (by intros [= <-]). unfold write_buffers.
    destruct (append_all _) as [d|]; [|done]. cbn [mbind res_bind].
    destruct (take_back _) as [[n1 l]|]; [|done]. cbn [mbind res_bind].
    destruct (match new_buffer2 s with Some b => _ | None => _ end) as [[n2 l']|]; [|done]. cbn [mbind res_bind].
    by intros [= <-].
Qed.

Lemma run_steps_running ls : ∀ s s', SStop ∉ ls → run_steps ls s = Ok s' → running_ s' = running_ s.
Proof.
  induction ls as [|l ls IH]; intros s s' Hl H; cbn [run_steps] in H; [by injection H as <-|].
  apply not_elem_of_cons in Hl as [Hl Hls]. destruct (run_step l s) as [s1|] eqn:E; [|done].
  rewrite (IH s1 s' Hls H). apply (run_step_running l); [by intros ->|done].
Qed.

(** Only the writer moves itself, and each of its steps brings it nearer to
    the end. *)
Lemma stopped_step l s s' :
  async_inv s → stop_inv s → step_ok l → running_ s = false → run_step l s = Ok s' →
  running_ s' = false ∧ before_stop s' = before_stop s ∧
    steps_left s' = steps_left s - (if is_writer l then 1 else 0).
Proof.
  intros Hi Hs Hl Hr H. destruct l as [msg| | |]; cbn [run_step is_writer] in *.
  - destruct (Output_inv msg s Hi Hl) as (s1 & E & _ & _ & Eb & Er & _ & Ep & El & _). rewrite E in H.
    injection H as <-. unfold steps_left. rewrite Eb, Er, Ep, El, Nat.sub_0_r. done.
  - injection H as <-. unfold steps_left. cbn. by rewrite Nat.sub_0_r.
  - injection H as <-. unfold steps_left. cbn. by rewrite Nat.sub_0_r, Hr.
  - unfold writer_step in H. unfold steps_left. destruct (pc s) eqn:Ep.
    + injection H as <-. cbn. rewrite Hr. by destruct (last_write s).
    + injection H as <-. cbn. by rewrite Hr.
    + injection H as <-. cbn. by destruct (last_write s).
    + destruct (write_buffers_inv s Hi Ep) as (s1 & E & _ & Ep1 & El & Er & Eb & _). rewrite E in H.
      injection H as <-. rewrite Ep1, El, Er, Eb. by destruct (last_write s).
    + injection H as <-. by rewrite Ep.
Qed.

Lemma stopped_steps ls : ∀ s s',
  async_inv s → stop_inv s → Forall step_ok ls → running_ s = false → run_steps ls s = Ok s' →
  before_stop s' = before_stop s ∧ steps_left s' = steps_left s - writer_steps ls.
Proof.
  induction ls as [|l ls IH]; intros s s' Hi Hs Hl Hr H; cbn [run_steps] in H.
  { injection H as <-. cbn. by rewrite Nat.sub_0_r. }
  apply Forall_cons in Hl as [Hl Hls]. destruct (run_step_inv l s Hi Hs Hl) as (s1 & E & Hi1 & Hs1).
  rewrite E in H. cbn [mbind res_bind] in H. destruct (stopped_step l s s1 Hi Hs Hl Hr E) as (Hr1 & Eb & En).
  destruct (IH s1 s' Hi1 Hs1 Hls Hr1 H) as (Eb' & En'). split; [congruence|]. rewrite En', En.
  cbn [writer_steps]. lia.
Qed.

(** C26: after [Stop] the writer ends within seven of its steps, whatever the
    other threads still do, and everything output before [Stop] is in the
    batches it took; these are in the file, each whole when it has at most 25
    buffers and cut to two when it has more.  So if no batch had more than 25
    buffers, everything output before [Stop] is in the file. *)
Theorem async_stop_terminates ls ls' :
  Forall step_ok ls → Forall step_ok ls' → SStop ∉ ls → 7 ≤ writer_steps ls' →
  ∃ s, run_steps (ls ++ SStop :: ls') Start = Ok s ∧ pc s = WDone ∧
    messages ls `prefix_of` taken s ∧ file_ s = contents (concat (kept <$> batches s)) ∧
    (kept_all s → messages ls `prefix_of` file_ s).
Proof.
  intros Hl Hl' Hns Hn. destruct Start_inv as [Hi0 Hs0].
  destruct (run_steps_inv ls Start Hi0 Hs0 Hl) as (s1 & E1 & Hi1 & Hs1).
  destruct (run_step_inv SStop s1 Hi1 Hs1 I) as (s2 & E2 & Hi2 & Hs2).
  destruct (run_steps_inv ls' s2 Hi2 Hs2 Hl') as (s & E & Hi & Hs). exists s.
  rewrite run_steps_app, E1. cbn [mbind res_bind run_steps]. rewrite E2. cbn [mbind res_bind]. split; [done|].
  injection E2 as <-.
  pose proof (run_steps_running ls _ _ Hns E1) as Hr1. cbn [running_ Start] in Hr1.
  destruct (stopped_steps ls' _ s Hi2 Hs2 Hl' eq_refl E) as (Eb & En).
  assert (steps_left (Stop s1) ≤ 7) by (unfold steps_left; destruct (pc (Stop s1)), (last_write (Stop s1)); lia).
  assert (pc s = WDone) as Hp by (unfold steps_left in En at 1; destruct (pc s), (last_write s); lia || done).
  split; [done|]. cbn [before_stop Stop] in Eb. rewrite Hr1, (run_steps_out ls Start s1 E1) in Eb.
  cbn [out Start app] in Eb. rewrite <- Eb.
  assert (before_stop s `prefix_of` taken s) as Hb by (apply (sp_written s Hs); [by apply (sp_done s Hs)|by right]).
  split; [done|]. split; [apply (ai_file s Hi)|]. intros Hk. by rewrite (kept_all_file s Hi Hk).
Qed.

Lemma async_stop_terminates_witness :
  ∃ s, run_steps ([SOutput (B "one"); SFlush; SWriter; SOutput (B "two")] ++ SStop ::
      [SWriter; SWriter; SOutput (B "three"); SWriter; SWriter; SFlush; SWriter; SWriter; SWriter; SWriter]) Start = Ok s ∧
    pc s = WDone ∧ B "onetwo" `prefix_of` file_ s.
Proof.
  destruct (async_stop_terminates [SOutput (B "one"); SFlush; SWriter; SOutput (B "two")]
    [SWriter; SWriter; SOutput (B "three"); SWriter; SWriter; SFlush; SWriter; SWriter; SWriter; SWriter])
    as (s & E & Hp & _ & _ & Hf).
  - repeat constructor.
  - repeat constructor.
  - intros H. repeat (apply elem_of_cons in H as [H|H]; [discriminate H|]). by apply elem_of_nil in H.
  - cbn. lia.
  - exists s. split; [exact E|]. split; [exact Hp|]. apply Hf. vm_compute in E. injection E as <-.
    apply (bool_decide_unpack _). vm_compute. exact I.
Defined.

(** Lines above 25 buffers: with the writer at its wait, 26 flushes make a
    batch of 27 buffers, of which the file gets two. *)
Definition overload : list step :=
  [SWriter; SWriter] ++ concat (replicate 26 [SOutput (B "x"); SFlush]) ++ [SWriter; SWriter].

Lemma overload_drops :
  ∃ s, run_steps overload Start = Ok s ∧ messages overload = B "xxxxxxxxxxxxxxxxxxxxxxxxxx" ∧ file_ s = B "xx" ∧
    pending s = [].
Proof. eexists. split; [vm_compute; reflexivity|]. split_and!; reflexivity. Qed.
