(* ===== verification/InetAddress.v ===== *)
(** Socket addresses: [muzi/net/address.h], [inet_address.h] and
    [inet_address.cc], [local_address.h], and the address functions of
    [socket_ops.cc].  An address is the memory of its struct; the library
    functions [inet_pton] and [inet_ntop] and what uninitialised memory holds
    are arguments. *)

From S2P Require Import Prelude Timestamp Endian.
From stdpp Require Import pretty.

(** ** Objects in memory *)

Definition read_at (off n : nat) (m : bytes) : res bytes := read_mem (drop off m) n.
Definition read_u16 (off : nat) (m : bytes) : res Z := b ← read_at off 2 m; Ok (le_val b).
Definition read_u32 (off : nat) (m : bytes) : res Z := b ← read_at off 4 m; Ok (le_val b).
Definition write_u16 (off : nat) (v : Z) (m : bytes) : res bytes := write_mem off (to_mem uint16_t v) m.
Definition write_u32 (off : nat) (v : Z) (m : bytes) : res bytes := write_mem off (to_mem uint32_t v) m.

(** [strlen], a [std::string] made from a [char *], and what [snprintf] and
    [strncpy] write. *)
Fixpoint strlen (s : bytes) : res nat :=
  match s with
  | [] => Fault OutOfBounds
  | c :: s => if decide (c = nul) then Ok 0 else n ← strlen s; Ok (S n)
  end.

Definition c_str (s : bytes) : res bytes := n ← strlen s; Ok (take n s).

Definition snprintf (off : nat) (n : Z) (s buf : bytes) : res bytes :=
  if decide (0 < n)%Z then write_mem off (take (Z.to_nat n - 1) s ++ [nul]) buf else Ok buf.

Definition strncpy (n : nat) (src : bytes) : res bytes :=
  match strlen (take n src) with
  | Ok k => Ok (take k src ++ replicate (n - k) nul)
  | Fault _ => read_mem src n
  end.

(** ** The structs *)

Definition AF_LOCAL : Z := 1.
Definition AF_INET : Z := 2.
Definition AF_INET6 : Z := 10.

(** [sockaddr] and [sockaddr_in]: family, port, address, padding.
    [sockaddr_in6]: family, port, flow information, address, scope.
    [sockaddr_un]: family, path. *)
Definition sizeof_sockaddr : nat := 16.
Definition sizeof_sockaddr_in : nat := 16.
Definition sizeof_sockaddr_in6 : nat := 28.
Definition sizeof_sun_path : nat := 108.
Definition sizeof_sockaddr_un : nat := 110.

Definition sa_family (m : bytes) : res Z := read_u16 0 m.
Definition sin_port (m : bytes) : res Z := read_u16 2 m.
Definition sin_addr (m : bytes) : res bytes := read_at 4 4 m.
Definition sin6_addr (m : bytes) : res bytes := read_at 8 16 m.

(** ** socket_ops *)

Section socket_ops.
Variable inet_pton : Z → bytes → option bytes.
Variable inet_ntop : Z → bytes → bytes.

Definition AbortNotInterNet (addr : bytes) : res unit :=
  f ← sa_family addr;
  if decide (f ≠ AF_INET ∧ f ≠ AF_INET6) then Fault Aborted else Ok tt.

(** The two overloads of [FromIpPort]. *)
Definition FromIpPort (ip : bytes) (port : Z) (addr : bytes) : res bytes :=
  addr ← write_u16 0 AF_INET addr;
  addr ← write_u16 2 (HostToNet uint16_t port) addr;
  match inet_pton AF_INET ip with Some a => write_mem 4 a addr | None => Ok addr end.

Definition FromIpPort6 (ip : bytes) (port : Z) (addr6 : bytes) : res bytes :=
  addr6 ← write_u16 0 AF_INET6 addr6;
  addr6 ← write_u16 2 (HostToNet uint16_t port) addr6;
  match inet_pton AF_INET6 ip with Some a => write_mem 8 a addr6 | None => Ok addr6 end.

(** [inet_ntop] into [buf] of [buf_len] bytes: it writes nothing when the
    text and its NUL do not fit. *)
Definition ntop_into (text buf : bytes) (buf_len : Z) : res bytes :=
  if decide (Z.of_nat (length text) < buf_len)%Z then write_mem 0 (text ++ [nul]) buf else Ok buf.

Definition ToIp (buf : bytes) (buf_len : Z) (addr : bytes) : res bytes :=
  _ ← AbortNotInterNet addr;
  f ← sa_family addr;
  if decide (f = AF_INET) then a ← sin_addr addr; ntop_into (inet_ntop AF_INET a) buf buf_len
  else a ← sin6_addr addr; ntop_into (inet_ntop AF_INET6 a) buf buf_len.

(** [off]: how far into [buf] the caller points. *)
Definition ToPort (off : nat) (buf : bytes) (buf_len : Z) (addr : bytes) : res bytes :=
  _ ← AbortNotInterNet addr;
  port_net ← sin_port addr;
  snprintf off buf_len (digits (NetToHost uint16_t port_net)) buf.

Definition ToIpPort (buf : bytes) (buf_len : Z) (addr : bytes) : res bytes :=
  _ ← AbortNotInterNet addr;
  buf ← ToIp buf buf_len addr;
  len ← strlen buf;
  if decide (buf_len - Z.of_nat len >= 6)%Z then
    buf ← write_mem len [":"%char] buf;
    ToPort (len + 1) buf (buf_len - Z.of_nat len - 1) addr
  else Ok buf.

(** [getsockname] and [getpeername] answer the address [k], cut to the size
    they are given, or fail. *)
Definition GetSockAddr (k : option bytes) : bytes :=
  let addr := replicate sizeof_sockaddr nul in
  match k with Some k => overwrite 0 (take sizeof_sockaddr k) addr | None => addr end.
Definition GetLocalAddr (getsockname : option bytes) : bytes := GetSockAddr getsockname.
Definition GetPeerAddr (getpeername : option bytes) : bytes := GetSockAddr getpeername.

(** The last comparison is between the answer of [memcpy], its destination,
    and 0. *)
Definition IsSelfConnect (getsockname getpeername : option bytes) : res bool :=
  let local_addr := GetLocalAddr getsockname in
  let peer_addr := GetPeerAddr getpeername in
  f ← sa_family local_addr;
  if decide (f = AF_INET) then
    p1 ← sin_port local_addr; p2 ← sin_port peer_addr;
    if decide (p1 = p2) then
      a1 ← sin_addr local_addr; a2 ← sin_addr peer_addr; Ok (bool_decide (a1 = a2))
    else Ok false
  else if decide (f = AF_INET6) then
    p1 ← sin_port local_addr; p2 ← sin_port peer_addr;
    if decide (p1 = p2) then a ← sin6_addr peer_addr; _ ← write_mem 8 a local_addr; Ok false
    else Ok false
  else Ok false.

(** What [accept4] leaves in the memory of the peer's address [k]. *)
Definition Accept_addr (k addr : bytes) : res bytes := write_mem 0 (take sizeof_sockaddr k) addr.
End socket_ops.

(** ** Address: the interface *)

(** [WriteAddr] is writing through the pointer of the second overload of
    [GetAddr]. *)
Class Address (A : Type) := {
  GetAddr : A → bytes;
  WriteAddr : (bytes → res bytes) → A → res A;
  SetAddr : bytes → A → res A;
  GetAddrStr : A → res bytes;
  GetFamily : A → res Z;
  GetProtoFamily : A → res Z;
  GetAddrSize : A → res nat;
  Copy : A → A
}.

(** ** InetAddress *)

(** The union of the two structs. *)
Record InetAddress := mkInet { addr6_ : bytes }.

Definition on_mem (f : bytes → res bytes) (a : InetAddress) : res InetAddress :=
  m ← f (addr6_ a); Ok (mkInet m).

Definition in6addr_any : bytes := replicate 16 nul.
Definition in6addr_loopback : bytes := replicate 15 nul ++ ["001"%char].
Definition INADDR_ANY : Z := 0.
Definition INADDR_LOOPBACK : Z := 2130706433.

Definition InetAddress_port (port : Z) (loop_back_only ipv6 : bool) (junk : bytes) : res InetAddress :=
  if ipv6 then
    m ← write_mem 0 (replicate sizeof_sockaddr_in6 nul) junk;
    m ← write_u16 0 AF_INET6 m;
    m ← write_u16 2 (HostToNet uint16_t port) m;
    m ← write_mem 8 (if loop_back_only then in6addr_loopback else in6addr_any) m; Ok (mkInet m)
  else
    m ← write_mem 0 (replicate sizeof_sockaddr_in nul) junk;
    m ← write_u16 0 AF_INET m;
    m ← write_u16 2 (HostToNet uint16_t port) m;
    m ← write_u32 4 (HostToNet uint32_t (if loop_back_only then INADDR_LOOPBACK else INADDR_ANY)) m;
    Ok (mkInet m).

Definition SetSockAddr (addr : bytes) (a : InetAddress) : res InetAddress :=
  on_mem (λ m, d ← read_mem addr sizeof_sockaddr_in; write_mem 0 d m) a.
Definition SetSockAddr6 (addr6 : bytes) (a : InetAddress) : res InetAddress :=
  on_mem (λ m, d ← read_mem addr6 sizeof_sockaddr_in6; write_mem 0 d m) a.

Definition InetAddress_in (addr junk : bytes) : res InetAddress := SetSockAddr addr (mkInet junk).
Definition InetAddress_in6 (addr6 junk : bytes) : res InetAddress := SetSockAddr6 addr6 (mkInet junk).

Definition Inet_GetFamily (a : InetAddress) : res Z := sa_family (addr6_ a).
Definition IsIpv4 (a : InetAddress) : res bool := f ← Inet_GetFamily a; Ok (bool_decide (f = AF_INET)).

Definition Inet_GetProtoFamily (a : InetAddress) : res Z :=
  f ← Inet_GetFamily a; if decide (f = AF_INET) then Ok AF_INET else Ok AF_INET6.

Definition Inet_GetAddrSize (a : InetAddress) : res nat :=
  f ← Inet_GetFamily a; if decide (f = AF_INET) then Ok sizeof_sockaddr_in else Ok sizeof_sockaddr_in6.

Definition Inet_SetAddr (addr : bytes) (a : InetAddress) : res InetAddress :=
  f ← sa_family addr; mine ← Inet_GetFamily a;
  if decide (f ≠ mine) then Ok a
  else if decide (f = AF_INET) then SetSockAddr addr a else SetSockAddr6 addr a.

Definition GetPortNetEndian (a : InetAddress) : res Z := sin_port (addr6_ a).
Definition GetPort (a : InetAddress) : res Z := p ← GetPortNetEndian a; Ok (NetToHost uint16_t p).

Definition GetIpv4NetEndian (a : InetAddress) : res Z :=
  v4 ← IsIpv4 a; if v4 : bool then read_u32 4 (addr6_ a) else Ok (cast uint32_t (-1)).

Definition SetScopeId (scoped_id : Z) (a : InetAddress) : res InetAddress :=
  f ← Inet_GetFamily a;
  if decide (f = AF_INET6) then on_mem (write_u32 24 scoped_id) a else Ok a.

(** [gethostbyname_r] fails, or answers the type and the memory of an
    address. *)
Definition ResolveHost (answer : option (Z * bytes)) (addr : option InetAddress) :
    res (bool * option InetAddress) :=
  match addr with
  | None => Ok (false, None)
  | Some a =>
      match answer with
      | None => Ok (false, Some a)
      | Some (h_addrtype, h_addr) =>
          if decide (h_addrtype ≠ AF_INET) then Ok (false, Some a)
          else a ← on_mem (λ m, d ← read_mem h_addr 4; write_mem 4 d m) a; Ok (true, Some a)
      end
  end.

Section inet_text.
Variable inet_pton : Z → bytes → option bytes.
Variable inet_ntop : Z → bytes → bytes.

Definition InetAddress_ip (ip : bytes) (port : Z) (ipv6 : bool) (junk : bytes) : res InetAddress :=
  if ipv6 then m ← FromIpPort6 inet_pton ip port junk; Ok (mkInet m)
  else m ← FromIpPort inet_pton ip port junk; Ok (mkInet m).

(** [buf]: what the local array of 64 bytes holds. *)
Definition GetIpStr (buf : bytes) (a : InetAddress) : res bytes :=
  buf ← ToIp inet_ntop buf (Z.of_nat (length buf)) (addr6_ a); c_str buf.
Definition GetIpPortStr (buf : bytes) (a : InetAddress) : res bytes :=
  buf ← ToIpPort inet_ntop buf (Z.of_nat (length buf)) (addr6_ a); c_str buf.

#[export] Instance InetAddress_Address (buf : bytes) : Address InetAddress := {
  GetAddr := addr6_;
  WriteAddr := on_mem;
  SetAddr := Inet_SetAddr;
  GetAddrStr := GetIpPortStr buf;
  GetFamily := Inet_GetFamily;
  GetProtoFamily := Inet_GetProtoFamily;
  GetAddrSize := Inet_GetAddrSize;
  Copy := λ a, a
}.
End inet_text.

(** ** LocalAddress *)

Record LocalAddress := mkLocal { addr_ : bytes }.

Definition LocalAddress_new (path junk : bytes) : res LocalAddress :=
  m ← write_u16 0 AF_LOCAL junk;
  p ← strncpy (sizeof_sun_path - 1) path;
  m ← write_mem 2 p m; Ok (mkLocal m).

Definition Local_SetAddr (addr : bytes) (a : LocalAddress) : res LocalAddress :=
  f ← sa_family addr; mine ← sa_family (addr_ a);
  if decide (f ≠ mine) then Ok a
  else path ← read_at 2 sizeof_sun_path addr; m ← write_mem 2 path (addr_ a); Ok (mkLocal m).

Definition Local_GetAddrStr (a : LocalAddress) : res bytes :=
  path ← read_at 2 sizeof_sun_path (addr_ a); c_str path.

#[export] Instance LocalAddress_Address : Address LocalAddress := {
  GetAddr := addr_;
  WriteAddr := λ f a, m ← f (addr_ a); Ok (mkLocal m);
  SetAddr := Local_SetAddr;
  GetAddrStr := Local_GetAddrStr;
  GetFamily := λ a, sa_family (addr_ a);
  GetProtoFamily := λ _, Ok AF_LOCAL;
  GetAddrSize := λ _, Ok sizeof_sockaddr_un;
  Copy := λ a, a
}.

(** ** Reading and writing memory *)

Lemma write_mem_ok off d l : off + length d ≤ length l → write_mem off d l = Ok (overwrite off d l).
Proof. intros. unfold write_mem. by rewrite decide_True. Qed.

Lemma read_at_ok off n m : off + n ≤ length m → read_at off n m = Ok (take n (drop off m)).
Proof.
  intros. unfold read_at, read_mem. rewrite decide_True; [done|]. rewrite length_drop. lia.
Qed.

Lemma read_at_same off d n l :
  off + length d ≤ length l → n = length d → read_at off n (overwrite off d l) = Ok d.
Proof.
  intros ? ->. rewrite read_at_ok by (rewrite length_overwrite; lia). f_equal.
  unfold overwrite. rewrite drop_app_length', take_app_length'; [done|done|]. rewrite length_take. lia.
Qed.

Lemma read_at_before off d o n l :
  off + length d ≤ length l → o + n ≤ off → read_at o n (overwrite off d l) = read_at o n l.
Proof.
  intros. rewrite !read_at_ok by (rewrite ?length_overwrite; lia). f_equal. unfold overwrite.
  rewrite drop_app_le by (rewrite length_take; lia). rewrite take_app_le by (rewrite length_drop, length_take; lia).
  rewrite !take_drop_commute, take_take. by rewrite Nat.min_l by lia.
Qed.

Lemma read_at_after off d o n l :
  off + length d ≤ o → o + n ≤ length l → read_at o n (overwrite off d l) = read_at o n l.
Proof.
  intros. rewrite !read_at_ok by (rewrite ?length_overwrite; lia). f_equal. unfold overwrite.
  rewrite drop_app_ge by (rewrite length_take; lia). rewrite drop_app_ge by (rewrite length_take; lia).
  rewrite drop_drop. do 2 f_equal. rewrite length_take. lia.
Qed.

(** Reading inside what was written. *)
Lemma read_at_inside off d o n l :
  off + length d ≤ length l → off ≤ o → o + n ≤ off + length d →
  read_at o n (overwrite off d l) = read_at (o - off) n d.
Proof.
  intros. rewrite !read_at_ok by (rewrite ?length_overwrite; lia). f_equal. unfold overwrite.
  rewrite drop_app_ge by (rewrite length_take; lia). rewrite length_take, Nat.min_l by lia.
  rewrite drop_app_le by lia. by rewrite take_app_le by (rewrite length_drop; lia).
Qed.

(** ** C strings *)

Lemma strlen_app s r : nul ∉ s → strlen (s ++ nul :: r) = Ok (length s).
Proof.
  induction s as [|c s IH]; intros Hs; [done|]. apply not_elem_of_cons in Hs as [Hc Hs]. cbn [app strlen length].
  rewrite decide_False by done. by rewrite IH.
Qed.

Lemma c_str_app s r : nul ∉ s → c_str (s ++ nul :: r) = Ok s.
Proof. intros Hs. unfold c_str. rewrite strlen_app by done. cbn [mbind res_bind]. by rewrite take_app_length. Qed.

Lemma strlen_none s : nul ∉ s → strlen s = Fault OutOfBounds.
Proof.
  induction s as [|c s IH]; intros Hs; [done|]. apply not_elem_of_cons in Hs as [Hc Hs]. cbn [strlen].
  rewrite decide_False by done. by rewrite IH.
Qed.

Lemma digits_no_nul v : (0 ≤ v)%Z → nul ∉ digits v.
Proof.
  intros Hv. unfold digits. destruct v as [|x|x]; [by vm_compute; intros H; apply list_elem_of_singleton in H| |lia].
  change (pretty (Z.pos x)) with (pretty (N.pos x)). unfold pretty, pretty_N. rewrite decide_False by done.
  assert (∀ y s, nul ∉ B s → nul ∉ B (pretty_N_go y s)) as Hgo; [|apply Hgo; cbn; apply not_elem_of_nil].
  intros y. induction (N.lt_wf_0 y) as [y _ IH]. intros s Hs.
  destruct (decide (y = 0%N)) as [->|]; [by rewrite pretty_N_go_0|].
  rewrite pretty_N_go_step by lia. apply IH; [apply N.div_lt; lia|].
  change (B (String ?c ?s)) with (c :: B s). apply not_elem_of_cons. split; [|done].
  unfold pretty_N_char. by repeat case_match.
Qed.

Lemma length_port v : (0 ≤ v < 65536)%Z → 0 < length (digits v) ≤ 5.
Proof. intros. apply length_digits; [lia|]. lia. Qed.


(** What [snprintf] leaves: the text cut to what fits. *)
Lemma snprintf_spec off n s buf :
  (0 < n)%Z → off + Z.to_nat n ≤ length buf →
  ∃ r, snprintf off n s buf = Ok (take off buf ++ take (Z.to_nat n - 1) s ++ nul :: r).
Proof.
  intros Hn Hb. unfold snprintf. rewrite decide_True by done.
  rewrite write_mem_ok by (rewrite length_app, length_take; cbn; lia). eexists.
  unfold overwrite. by rewrite <- app_assoc.
Qed.

(** ** What an address denotes *)

Definition addr_len (f : Z) : nat := if decide (f = AF_INET) then 4 else 16.
Definition addr_off (f : Z) : nat := if decide (f = AF_INET) then 4 else 8.

(** Family [f], port [p] in network order and address [a]. *)
Record denotes (m : bytes) (f p : Z) (a : bytes) : Prop := {
  dn_family : sa_family m = Ok f;
  dn_inet : f = AF_INET ∨ f = AF_INET6;
  dn_port : sin_port m = Ok p;
  dn_addr : read_at (addr_off f) (addr_len f) m = Ok a
}.

Lemma denotes_abort m f p a : denotes m f p a → AbortNotInterNet m = Ok tt.
Proof.
  intros [Ef Hf _ _]. unfold AbortNotInterNet. rewrite Ef. cbn [mbind res_bind].
  rewrite decide_False; [done|]. destruct Hf; intros [? ?]; congruence.
Qed.

Lemma read_at_length off n m a : read_at off n m = Ok a → length a = n ∧ off + n ≤ Nat.max (length m) off.
Proof.
  unfold read_at, read_mem. destruct (decide _) as [H|]; [|done]. intros [= <-].
  rewrite length_take, length_drop in *. lia.
Qed.

Lemma ToIp_spec ntop buf m f p a :
  denotes m f p a → length (ntop f a) < length buf →
  ToIp ntop buf (Z.of_nat (length buf)) m =
    Ok (ntop f a ++ nul :: drop (S (length (ntop f a))) buf).
Proof.
  intros Hd Hl. unfold ToIp. rewrite (denotes_abort m f p a Hd). cbn [mbind res_bind].
  destruct Hd as [-> Hf _ Ea]. cbn [mbind res_bind].
  assert (∀ t, length t < length buf →
    ntop_into t buf (Z.of_nat (length buf)) = Ok (t ++ nul :: drop (S (length t)) buf)) as Ht.
  { intros t Hlt. unfold ntop_into. rewrite decide_True by lia. rewrite write_mem_ok by (rewrite length_app; cbn; lia).
    f_equal. unfold overwrite. rewrite <- app_assoc, length_app. cbn. by rewrite Nat.add_1_r. }
  destruct Hf as [-> | ->].
  - rewrite decide_True by done. unfold sin_addr. change (read_at 4 4 m = Ok a) in Ea. rewrite Ea. by apply Ht.
  - rewrite decide_False by done. unfold sin6_addr. change (read_at 8 16 m = Ok a) in Ea. rewrite Ea. by apply Ht.
Qed.

(** [ToIpPort] into any buffer the text of the address fits in. *)
Lemma ToIpPort_spec ntop buf m f p a :
  denotes m f p a → nul ∉ ntop f a → length (ntop f a) < length buf → (0 ≤ NetToHost uint16_t p)%Z →
  ∃ r, ToIpPort ntop buf (Z.of_nat (length buf)) m = Ok r ∧
    c_str r = Ok (if decide (length (ntop f a) + 6 ≤ length buf)
                  then ntop f a ++ ":"%char :: take (length buf - length (ntop f a) - 2) (digits (NetToHost uint16_t p))
                  else ntop f a).
Proof.
  intros Hd Hn Hl Hp. unfold ToIpPort. rewrite (denotes_abort m f p a Hd). cbn [mbind res_bind].
  rewrite (ToIp_spec ntop buf m f p a Hd Hl). cbn [mbind res_bind]. set (t := ntop f a) in *.
  rewrite strlen_app by done. cbn [mbind res_bind].
  destruct (decide (length t + 6 ≤ length buf)) as [H6|H6].
  2:{ rewrite decide_False by lia. eexists. split; [reflexivity|]. by apply c_str_app. }
  rewrite decide_True by lia. rewrite write_mem_ok by (rewrite length_app; cbn; lia). cbn [mbind res_bind].
  unfold ToPort. rewrite (denotes_abort m f p a Hd). cbn [mbind res_bind].
  destruct Hd as [_ _ -> _]. cbn [mbind res_bind].
  unfold overwrite. rewrite take_app_length, drop_app_ge by lia.
  set (rest := drop _ (nul :: _)).
  assert (length rest = length buf - length t - 1) as Hr.
  { unfold rest. rewrite length_drop. cbn [length]. rewrite length_drop. lia. }
  destruct (snprintf_spec (length t + 1) (Z.of_nat (length buf) - Z.of_nat (length t) - 1)
    (digits (NetToHost uint16_t p)) (t ++ [":"%char] ++ rest)) as [r Er].
  { lia. }
  { rewrite !length_app. cbn. lia. }
  rewrite Er. eexists. split; [reflexivity|]. 
  assert (take (length t + 1) (t ++ [":"%char] ++ rest) = t ++ [":"%char]) as ->.
  { rewrite app_assoc. apply take_app_length'. by rewrite length_app. }
  rewrite app_assoc, c_str_app.
  - f_equal. rewrite <- !app_assoc. cbn [app]. do 3 f_equal. lia.
  - apply not_elem_of_app. split; [apply not_elem_of_app; split; [done|]|].
    + intros H. by apply list_elem_of_singleton in H.
    + intros H. apply (digits_no_nul _ Hp). apply elem_of_take in H as (i & H & _). by eapply list_elem_of_lookup_2.
Qed.

(** ** Well-formed addresses *)

Definition wf_mem (m : bytes) : Prop :=
  length m = sizeof_sockaddr_in6 ∧ ∃ f, sa_family m = Ok f ∧ (f = AF_INET ∨ f = AF_INET6).

Ltac mem_len :=
  repeat first
    [ rewrite length_overwrite by mem_len | rewrite length_to_mem | rewrite length_replicate
    | progress cbn [int_size length] ];
  unfold sizeof_sockaddr, sizeof_sockaddr_in, sizeof_sockaddr_in6, sizeof_sun_path, sizeof_sockaddr_un in *; lia.

(** Turn the writes of the goal into [overwrite], and read through them. *)
Ltac mem_write := rewrite write_mem_ok by mem_len; cbn [mbind res_bind].
Ltac mem_read :=
  repeat first
    [ rewrite read_at_same by mem_len
    | rewrite read_at_before by mem_len
    | rewrite read_at_after by mem_len ].

Lemma write_u16_ok off v m : off + 2 ≤ length m → write_u16 off v m = Ok (overwrite off (to_mem uint16_t v) m).
Proof. intros. unfold write_u16. by mem_write. Qed.

Lemma write_u32_ok off v m : off + 4 ≤ length m → write_u32 off v m = Ok (overwrite off (to_mem uint32_t v) m).
Proof. intros. unfold write_u32. by mem_write. Qed.

Lemma le_val_to_mem t v : is_signed t = false → (0 ≤ v < 2 ^ int_bits t)%Z → le_val (to_mem t v) = v.
Proof. intros Ht Hv. unfold to_mem. rewrite le_val_bytes, <- int_bits_pow. by apply Z.mod_small. Qed.

Lemma u16_range off m v : read_u16 off m = Ok v → (0 ≤ v < 65536)%Z.
Proof.
  unfold read_u16. destruct (read_at off 2 m) as [b|] eqn:E; [|done]. intros [= <-].
  apply read_at_length in E as [E _]. pose proof (le_val_range b) as H. by rewrite E in H.
Qed.

Lemma u16_swap p : (0 ≤ p < 65536)%Z → (0 ≤ HostToNet uint16_t p < 65536)%Z ∧ NetToHost uint16_t (HostToNet uint16_t p) = p.
Proof.
  intros Hp. split; [apply (bswap_range 2)|]. change (bswap 2 (bswap 2 p) = p). rewrite bswap_bswap.
  by apply Z.mod_small.
Qed.

Lemma addr_bounds f : f = AF_INET ∨ f = AF_INET6 → 4 ≤ addr_off f ∧ addr_off f + addr_len f ≤ 28.
Proof. intros [-> | ->]; vm_compute; lia. Qed.

Lemma wf_denotes m : wf_mem m → ∃ f p a, denotes m f p a ∧ (0 ≤ p < 65536)%Z ∧ length a = addr_len f.
Proof.
  intros (Hl & f & Ef & Hf). exists f, (le_val (take 2 (drop 2 m))), (take (addr_len f) (drop (addr_off f) m)).
  assert (sin_port m = Ok (le_val (take 2 (drop 2 m)))) as Ep.
  { unfold sin_port, read_u16. by rewrite read_at_ok by mem_len. }
  split; [split; [done|done|done|]|split; [exact (u16_range 2 m _ Ep)|]].
  - rewrite read_at_ok; [done|]. pose proof (addr_bounds f Hf). mem_len.
  - rewrite length_take, length_drop, Hl. pose proof (addr_bounds f Hf). mem_len.
Qed.

(** Reading the fields of a memory with family, port and address just
    written. *)
Lemma sa_family_same v m : 2 ≤ length m → (0 ≤ v < 65536)%Z → sa_family (overwrite 0 (to_mem uint16_t v) m) = Ok v.
Proof.
  intros. unfold sa_family, read_u16. mem_read. cbn [mbind res_bind]. f_equal. by apply le_val_to_mem.
Qed.

Lemma sin_port_same v m : 4 ≤ length m → (0 ≤ v < 65536)%Z → sin_port (overwrite 2 (to_mem uint16_t v) m) = Ok v.
Proof.
  intros. unfold sin_port, read_u16. mem_read. cbn [mbind res_bind]. f_equal. by apply le_val_to_mem.
Qed.

(** A write that starts after the family leaves it alone. *)
Lemma sa_family_after off d m : 2 ≤ off → off + length d ≤ length m → sa_family (overwrite off d m) = sa_family m.
Proof. intros. unfold sa_family, read_u16. by mem_read. Qed.

Lemma sin_port_after off d m : 4 ≤ off → off + length d ≤ length m → sin_port (overwrite off d m) = sin_port m.
Proof. intros. unfold sin_port, read_u16. by mem_read. Qed.

Lemma denotes_build m f p a :
  f = AF_INET ∨ f = AF_INET6 → (0 ≤ p < 65536)%Z → length m = sizeof_sockaddr_in6 → length a = addr_len f →
  denotes (overwrite (addr_off f) a (overwrite 2 (to_mem uint16_t p) (overwrite 0 (to_mem uint16_t f) m))) f p a.
Proof.
  intros Hf Hp Hm Ha.
  destruct (addr_bounds f Hf) as [H1 H2].
  split; [|done| |].
  - rewrite !sa_family_after by mem_len. apply sa_family_same; [mem_len|]. destruct Hf as [-> | ->]; done.
  - rewrite sin_port_after by mem_len. apply sin_port_same; [mem_len|done].
  - by mem_read.
Qed.

Lemma denotes_wf m f p a : length m = sizeof_sockaddr_in6 → denotes m f p a → wf_mem m.
Proof. intros Hl Hd. split; [done|]. exists f. by destruct Hd. Qed.

(** ** The operations on an address *)

Inductive addr_init :=
  | IPort (port : Z) (loop_back_only ipv6 : bool)
  | IIp (ip : bytes) (port : Z) (ipv6 : bool)
  | IIn (addr : bytes)
  | IIn6 (addr6 : bytes).

Inductive addr_op :=
  | OSetAddr (addr : bytes)
  | OSetSockAddr (addr : bytes)
  | OSetSockAddr6 (addr6 : bytes)
  | OSetScopeId (scoped_id : Z)
  | OResolve (answer : option (Z * bytes)).

Definition run_init (inet_pton : Z → bytes → option bytes) (junk : bytes) (i : addr_init) : res InetAddress :=
  match i with
  | IPort port lb v6 => InetAddress_port port lb v6 junk
  | IIp ip port v6 => InetAddress_ip inet_pton ip port v6 junk
  | IIn addr => InetAddress_in addr junk
  | IIn6 addr6 => InetAddress_in6 addr6 junk
  end.

Definition run_op (o : addr_op) (a : InetAddress) : res InetAddress :=
  match o with
  | OSetAddr addr => Inet_SetAddr addr a
  | OSetSockAddr addr => SetSockAddr addr a
  | OSetSockAddr6 addr6 => SetSockAddr6 addr6 a
  | OSetScopeId id => SetScopeId id a
  | OResolve answer => '(_, a') ← ResolveHost answer (Some a); deref NullDeref a'
  end.

Fixpoint run_ops (os : list addr_op) (a : InetAddress) : res InetAddress :=
  match os with [] => Ok a | o :: os => a ← run_op o a; run_ops os a end.

(** The arguments are ports and whole structs of their families. *)
Definition struct_ok (f : Z) (n : nat) (m : bytes) : Prop := sa_family m = Ok f ∧ n ≤ length m.

Definition init_ok (i : addr_init) : Prop :=
  match i with
  | IPort port _ _ | IIp _ port _ => (0 ≤ port < 65536)%Z
  | IIn addr => struct_ok AF_INET sizeof_sockaddr_in addr
  | IIn6 addr6 => struct_ok AF_INET6 sizeof_sockaddr_in6 addr6
  end.

Definition op_ok (o : addr_op) : Prop :=
  match o with
  | OSetAddr addr => struct_ok AF_INET sizeof_sockaddr_in addr ∨ struct_ok AF_INET6 sizeof_sockaddr_in6 addr
  | OSetSockAddr addr => struct_ok AF_INET sizeof_sockaddr_in addr
  | OSetSockAddr6 addr6 => struct_ok AF_INET6 sizeof_sockaddr_in6 addr6
  | OSetScopeId _ => True
  | OResolve answer => match answer with Some (t, a) => t = AF_INET → 4 ≤ length a | None => True end
  end.

Definition wf (a : InetAddress) : Prop := wf_mem (addr6_ a).

Lemma copy_struct_wf f n d m :
  f = AF_INET ∨ f = AF_INET6 → struct_ok f n d → 2 ≤ n ≤ sizeof_sockaddr_in6 → length m = sizeof_sockaddr_in6 →
  ∃ m', (d ← read_mem d n; write_mem 0 d m) = Ok m' ∧ wf_mem m'.
Proof.
  intros Hf [Ef Hd] Hn Hm. unfold read_mem. rewrite decide_True by done. cbn [mbind res_bind].
  assert (length (take n d) = n) as Ht by (rewrite length_take; lia).
  rewrite write_mem_ok by lia. eexists. split; [reflexivity|]. split; [rewrite length_overwrite; lia|].
  exists f. split; [|done]. rewrite <- Ef. unfold sa_family, read_u16. f_equal.
  rewrite read_at_inside by lia. rewrite !read_at_ok by (simpl; lia). f_equal. cbn [Nat.sub].
  rewrite !drop_0, take_take. by rewrite Nat.min_l by lia.
Qed.

Lemma set_struct_wf f n d a :
  f = AF_INET ∨ f = AF_INET6 → struct_ok f n d → 2 ≤ n ≤ sizeof_sockaddr_in6 → length (addr6_ a) = sizeof_sockaddr_in6 →
  ∃ a', on_mem (λ m, d ← read_mem d n; write_mem 0 d m) a = Ok a' ∧ wf a'.
Proof.
  intros Hf Hs Hn Ha. destruct (copy_struct_wf f n d (addr6_ a) Hf Hs Hn Ha) as (m' & E & Hw).
  unfold on_mem. rewrite E. by eexists.
Qed.

(** Writing past the family keeps an address well formed. *)
Lemma on_mem_wf g off d a :
  wf a → 2 ≤ off → off + length d ≤ sizeof_sockaddr_in6 → g (addr6_ a) = Ok (overwrite off d (addr6_ a)) →
  ∃ a', on_mem g a = Ok a' ∧ wf a'.
Proof.
  intros (Hl & f & Ef & Hf) Ho Hd Hg. unfold on_mem. rewrite Hg. eexists. split; [reflexivity|].
  split; [cbn; mem_len|]. exists f. split; [|done]. cbn [addr6_]. by rewrite sa_family_after by mem_len.
Qed.

Lemma run_op_wf o a : wf a → op_ok o → ∃ a', run_op o a = Ok a' ∧ wf a'.
Proof.
  intros Ha Ho. pose proof Ha as (Hl & f & Ef & Hf). destruct o as [d|d|d|id|answer]; cbn [run_op op_ok] in *.
  - unfold Inet_SetAddr, Inet_GetFamily. rewrite Ef. destruct Ho as [Hs|Hs]; pose proof Hs as [-> _]; cbn [mbind res_bind].
    + destruct (decide (AF_INET ≠ f)); [by exists a|]. rewrite decide_True by done.
      apply (set_struct_wf AF_INET); [by left|done|mem_len|done].
    + destruct (decide (AF_INET6 ≠ f)); [by exists a|]. rewrite decide_False by done.
      apply (set_struct_wf AF_INET6); [by right|done|mem_len|done].
  - apply (set_struct_wf AF_INET); [by left|done|mem_len|done].
  - apply (set_struct_wf AF_INET6); [by right|done|mem_len|done].
  - unfold SetScopeId, Inet_GetFamily. rewrite Ef. cbn [mbind res_bind]. case_decide; [|by exists a].
    apply (on_mem_wf _ 24 (to_mem uint32_t id)); [done|mem_len|mem_len|]. apply write_u32_ok. mem_len.
  - unfold ResolveHost. destruct answer as [[t h]|]; [|by exists a]. case_decide as Ht; [by exists a|].
    destruct (on_mem_wf (λ m, d ← read_mem h 4; write_mem 4 d m) 4 (take 4 h) a) as (a' & -> & Hw); [done|lia| | |by exists a'].
    + rewrite length_take. mem_len.
    + unfold read_mem. rewrite decide_True by by apply Ho. cbn [mbind res_bind]. apply write_mem_ok.
      rewrite length_take. mem_len.
Qed.

Lemma run_ops_wf os : ∀ a, wf a → Forall op_ok os → ∃ a', run_ops os a = Ok a' ∧ wf a'.
Proof.
  induction os as [|o os IH]; intros a Ha Hos; [by exists a|]. apply Forall_cons in Hos as [Ho Hos].
  destruct (run_op_wf o a Ha Ho) as (a1 & E & Ha1). destruct (IH a1 Ha1 Hos) as (a' & E' & ?).
  exists a'. cbn [run_ops]. by rewrite E.
Qed.

(** ** Text *)

Section text.
Variable inet_pton : Z → bytes → option bytes.
Variable inet_ntop : Z → bytes → bytes.
(** Both convert addresses of the size of their family, and the text fits in
    [INET6_ADDRSTRLEN] characters with its NUL. *)
Hypothesis pton_size : ∀ f s a, inet_pton f s = Some a → length a = addr_len f.
Hypothesis ntop_text : ∀ f a, length a = addr_len f → (nul ∉ inet_ntop f a) ∧ length (inet_ntop f a) < 46.

Lemma InetAddress_ip_denotes ip port (v6 : bool) junk a :
  let f := if v6 then AF_INET6 else AF_INET in
  inet_pton f ip = Some a → (0 ≤ port < 65536)%Z → length junk = sizeof_sockaddr_in6 →
  ∃ m, InetAddress_ip inet_pton ip port v6 junk = Ok (mkInet m) ∧ length m = sizeof_sockaddr_in6 ∧
    denotes m f (HostToNet uint16_t port) a.
Proof.
  cbn zeta. intros Ea Hp Hj. pose proof (pton_size _ _ _ Ea) as Hl. destruct (u16_swap port Hp) as [Hs _].
  assert (∀ f, f = AF_INET ∨ f = AF_INET6 → length a = addr_len f →
    length (overwrite (addr_off f) a (overwrite 2 (to_mem uint16_t (HostToNet uint16_t port)) (overwrite 0 (to_mem uint16_t f) junk))) = sizeof_sockaddr_in6 ∧
    denotes (overwrite (addr_off f) a (overwrite 2 (to_mem uint16_t (HostToNet uint16_t port)) (overwrite 0 (to_mem uint16_t f) junk)))
      f (HostToNet uint16_t port) a) as Hb.
  { intros f Hf Hlf. pose proof (addr_bounds f Hf). split; [mem_len|by apply denotes_build]. }
  unfold InetAddress_ip, FromIpPort, FromIpPort6. destruct v6; cbn [negb] in *.
  - change (length a = 16) in Hl. rewrite write_u16_ok by mem_len. cbn [mbind res_bind].
    rewrite write_u16_ok by mem_len. cbn [mbind res_bind]. rewrite Ea. mem_write. eexists. split; [reflexivity|].
    apply (Hb AF_INET6); [by right|done].
  - change (length a = 4) in Hl. rewrite write_u16_ok by mem_len. cbn [mbind res_bind].
    rewrite write_u16_ok by mem_len. cbn [mbind res_bind]. rewrite Ea. mem_write. eexists. split; [reflexivity|].
    apply (Hb AF_INET); [by left|done].
Qed.

Lemma run_init_wf i junk :
  init_ok i → length junk = sizeof_sockaddr_in6 → ∃ a, run_init inet_pton junk i = Ok a ∧ wf a.
Proof.
  intros Hi Hj. destruct i as [port lb v6|ip port v6|d|d]; cbn [run_init init_ok] in *.
  - destruct (u16_swap port Hi) as [Hs _]. unfold InetAddress_port. destruct v6.
    + mem_write. rewrite write_u16_ok by mem_len. cbn [mbind res_bind]. rewrite write_u16_ok by mem_len. cbn [mbind res_bind].
      set (ip := if lb then in6addr_loopback else in6addr_any). assert (length ip = 16) by by destruct lb.
      mem_write. eexists. split; [reflexivity|]. split; [cbn; mem_len|]. exists AF_INET6. split; [|by right].
      cbn [addr6_]. rewrite !sa_family_after by mem_len. apply sa_family_same; [mem_len|done].
    + mem_write. rewrite write_u16_ok by mem_len. cbn [mbind res_bind]. rewrite write_u16_ok by mem_len. cbn [mbind res_bind].
      rewrite write_u32_ok by mem_len. cbn [mbind res_bind].
      eexists. split; [reflexivity|]. split; [cbn; mem_len|]. exists AF_INET. split; [|by left].
      cbn [addr6_]. rewrite !sa_family_after by mem_len. apply sa_family_same; [mem_len|done].
  - destruct (inet_pton (if v6 then AF_INET6 else AF_INET) ip) as [a|] eqn:Ea.
    + destruct (InetAddress_ip_denotes ip port v6 junk a Ea Hi Hj) as (m & E & Hl & Hd). eexists. split; [exact E|].
      by eapply denotes_wf.
    + unfold InetAddress_ip, FromIpPort, FromIpPort6.
      destruct v6; rewrite write_u16_ok by mem_len; cbn [mbind res_bind]; rewrite write_u16_ok by mem_len;
        cbn [mbind res_bind]; rewrite Ea; (eexists; split; [reflexivity|]); (split; [cbn; mem_len|]).
      * exists AF_INET6. split; [|by right]. cbn [addr6_]. rewrite sa_family_after by mem_len.
        apply sa_family_same; [mem_len|done].
      * exists AF_INET. split; [|by left]. cbn [addr6_]. rewrite sa_family_after by mem_len.
        apply sa_family_same; [mem_len|done].
  - apply (set_struct_wf AF_INET); [by left|done|mem_len|done].
  - apply (set_struct_wf AF_INET6); [by right|done|mem_len|done].
Qed.

(** The text of an address. *)
Definition addr_text (f p : Z) (a : bytes) : bytes := inet_ntop f a ++ B ":" ++ digits (NetToHost uint16_t p).

Lemma denotes_text m f p a buf :
  denotes m f p a → (0 ≤ p < 65536)%Z → length a = addr_len f → length buf = 64 →
  GetIpPortStr inet_ntop buf (mkInet m) = Ok (addr_text f p a) ∧ GetIpStr inet_ntop buf (mkInet m) = Ok (inet_ntop f a).
Proof.
  intros Hd Hp Ha Hb. destruct (ntop_text f a Ha) as [Hn Hl].
  assert (0 ≤ NetToHost uint16_t p < 65536)%Z as Hh by apply (bswap_range 2). split.
  - destruct (ToIpPort_spec inet_ntop buf m f p a Hd Hn) as (r & E & Er); [lia|lia|].
    unfold GetIpPortStr. cbn [addr6_]. rewrite E. cbn [mbind res_bind]. rewrite Er, decide_True by lia.
    pose proof (length_port _ Hh). rewrite take_ge by lia. done.
  - unfold GetIpStr. cbn [addr6_]. rewrite (ToIp_spec inet_ntop buf m f p a Hd) by lia. cbn [mbind res_bind].
    by apply c_str_app.
Qed.

(** C29: an address stays well formed: whatever constructor makes it and
    whatever operations follow, it holds the struct of its family, its size
    and protocol are those of the family, and its text is the address, a
    colon and the port. *)
Theorem inet_address_well_formed i os junk buf :
  init_ok i → Forall op_ok os → length junk = sizeof_sockaddr_in6 → length buf = 64 →
  ∃ a f p addr, (a ← run_init inet_pton junk i; run_ops os a) = Ok a ∧ length (addr6_ a) = sizeof_sockaddr_in6 ∧
    denotes (addr6_ a) f p addr ∧ Inet_GetFamily a = Ok f ∧ Inet_GetProtoFamily a = Ok f ∧
    Inet_GetAddrSize a = Ok (if decide (f = AF_INET) then sizeof_sockaddr_in else sizeof_sockaddr_in6) ∧
    GetPort a = Ok (NetToHost uint16_t p) ∧ GetIpStr inet_ntop buf a = Ok (inet_ntop f addr) ∧
    GetIpPortStr inet_ntop buf a = Ok (addr_text f p addr).
Proof.
  intros Hi Hos Hj Hb. destruct (run_init_wf i junk Hi Hj) as (a0 & E0 & Ha0).
  destruct (run_ops_wf os a0 Ha0 Hos) as (a & E & Ha). destruct (wf_denotes _ Ha) as (f & p & addr & Hd & Hp & Hl).
  destruct (denotes_text _ f p addr buf Hd Hp Hl Hb) as [Et Ei]. destruct a as [m]. cbn [addr6_] in *. exists (mkInet m), f, p, addr.
  rewrite E0. cbn [mbind res_bind]. unfold Inet_GetProtoFamily, Inet_GetAddrSize, Inet_GetFamily, GetPort, GetPortNetEndian.
  cbn [addr6_]. rewrite (dn_family _ _ _ _ Hd), (dn_port _ _ _ _ Hd). cbn [mbind res_bind].
  split_and!; try done; [by destruct Ha| |by case_decide].
  case_decide; [congruence|]. by destruct (dn_inet _ _ _ _ Hd) as [?| ->].
Qed.

(** C31: an address made from the text of an address and a port gives back
    that text and that port, with either family and whatever the memory held
    before. *)
Theorem inet_address_text ip port (v6 : bool) junk buf a :
  inet_pton (if v6 then AF_INET6 else AF_INET) ip = Some a → inet_ntop (if v6 then AF_INET6 else AF_INET) a = ip →
  (0 ≤ port < 65536)%Z → length junk = sizeof_sockaddr_in6 → length buf = 64 →
  ∃ addr, InetAddress_ip inet_pton ip port v6 junk = Ok addr ∧ GetIpStr inet_ntop buf addr = Ok ip ∧
    GetPort addr = Ok port ∧ IsIpv4 addr = Ok (negb v6) ∧ GetIpPortStr inet_ntop buf addr = Ok (ip ++ B ":" ++ digits port).
Proof.
  intros Ea En Hp Hj Hb. destruct (InetAddress_ip_denotes ip port v6 junk a Ea Hp Hj) as (m & E & Hl & Hd).
  destruct (u16_swap port Hp) as [Hs Hr]. destruct (denotes_text _ _ _ _ buf Hd Hs (pton_size _ _ _ Ea) Hb) as [Et Ei].
  exists (mkInet m). unfold GetPort, GetPortNetEndian, IsIpv4, Inet_GetFamily. cbn [addr6_].
  rewrite (dn_family _ _ _ _ Hd), (dn_port _ _ _ _ Hd). cbn [mbind res_bind].
  split_and!; [done|by rewrite Ei, En|by rewrite Hr|by destruct v6|]. rewrite Et. unfold addr_text. by rewrite Hr, En.
Qed.
End text.

(** *** Two library functions for the examples *)

Definition pton_example (f : Z) (s : bytes) : option bytes :=
  if decide (f = AF_INET ∧ s = B "127.0.0.1") then Some ["127"; "000"; "000"; "001"]%char
  else if decide (f = AF_INET6 ∧ s = B "::1") then Some in6addr_loopback else None.

Definition ntop_example (f : Z) (a : bytes) : bytes :=
  if decide (f = AF_INET) then
    match a with
    | [b0; b1; b2; b3] => digits (val_of b0) ++ B "." ++ digits (val_of b1) ++ B "." ++ digits (val_of b2) ++ B "." ++ digits (val_of b3)
    | _ => []
    end
  else if decide (a = in6addr_loopback) then B "::1" else B "::".

Lemma pton_example_size f s a : pton_example f s = Some a → length a = addr_len f.
Proof.
  unfold pton_example. destruct (decide _) as [[-> _]|]; [by intros [= <-]|].
  destruct (decide _) as [[-> _]|]; [by intros [= <-]|done].
Qed.

Lemma ntop_example_text f a : length a = addr_len f → (nul ∉ ntop_example f a) ∧ length (ntop_example f a) < 46.
Proof.
  unfold ntop_example, addr_len. destruct (decide (f = AF_INET)) as [_|_].
  - intros Ha. destruct a as [|b0 [|b1 [|b2 [|b3 [|]]]]]; try done.
    assert (∀ b, nul ∉ digits (val_of b)) as Hd by (intros b; apply digits_no_nul; pose proof (val_of_range b); lia).
    assert (∀ b, length (digits (val_of b)) ≤ 3) as Hl.
    { intros b. apply (length_digits 3); [lia|]. pose proof (val_of_range b). lia. }
    assert (nul ∉ B ".") as Hdot by (vm_compute; intros H; by apply list_elem_of_singleton in H).
    split; [by rewrite !not_elem_of_app|]. rewrite !length_app.
    pose proof (Hl b0). pose proof (Hl b1). pose proof (Hl b2). pose proof (Hl b3). cbn. lia.
  - intros _. destruct (decide _); (split; [by apply (bool_decide_unpack _); vm_compute|cbn; lia]).
Qed.

Lemma inet_address_well_formed_witness :
  ∃ a, (a ← run_init pton_example (replicate 28 "?"%char) (IIp (B "127.0.0.1") 80 false);
        run_ops [OSetScopeId 3; OResolve (Some (AF_INET, ["010"; "000"; "000"; "007"]%char))] a) = Ok a ∧
    GetIpPortStr ntop_example (replicate 64 "?"%char) a = Ok (B "10.0.0.7:80").
Proof.
  destruct (inet_address_well_formed pton_example ntop_example pton_example_size ntop_example_text
    (IIp (B "127.0.0.1") 80 false) [OSetScopeId 3; OResolve (Some (AF_INET, ["010"; "000"; "000"; "007"]%char))]
    (replicate 28 "?"%char) (replicate 64 "?"%char)) as (a & f & p & addr & E & _).
  - cbn. lia.
  - repeat constructor.
  - done.
  - done.
  - exists a. split; [exact E|]. vm_compute in E. injection E as <-. vm_compute. reflexivity.
Defined.

Lemma inet_address_text_witness :
  ∃ addr, InetAddress_ip pton_example (B "::1") 8080 true (replicate 28 "?"%char) = Ok addr ∧
    GetPort addr = Ok 8080%Z ∧ GetIpPortStr ntop_example (replicate 64 "?"%char) addr = Ok (B "::1:8080").
Proof.
  destruct (inet_address_text pton_example ntop_example pton_example_size ntop_example_text (B "::1") 8080 true
    (replicate 28 "?"%char) (replicate 64 "?"%char) in6addr_loopback) as (addr & E & _ & Ep & _ & Et).
  - reflexivity.
  - reflexivity.
  - lia.
  - reflexivity.
  - reflexivity.
  - exists addr. split; [exact E|]. split; [exact Ep|]. rewrite Et. vm_compute. reflexivity.
Defined.

(** [ToIpPort] checks for six bytes of room, one too few: the last digit of a
    port of five digits is lost. *)
Lemma to_ip_port_off_by_one ntop buf m f p a :
  denotes m f p a → nul ∉ ntop f a → length buf = length (ntop f a) + 6 → (10000 ≤ NetToHost uint16_t p < 65536)%Z →
  ∃ r, ToIpPort ntop buf (Z.of_nat (length buf)) m = Ok r ∧
    c_str r = Ok (ntop f a ++ ":"%char :: take 4 (digits (NetToHost uint16_t p))).
Proof.
  intros Hd Hn Hl Hp. destruct (ToIpPort_spec ntop buf m f p a Hd Hn) as (r & E & Er); [lia|lia|].
  exists r. split; [done|]. rewrite Er, decide_True by lia. do 3 f_equal. f_equal. lia.
Qed.

(** [ResolveHost] on an IPv6 address reports success and leaves the address
    as it was: it writes the flow information. *)
Lemma resolve_ipv6_ignored h a :
  wf a → Inet_GetFamily a = Ok AF_INET6 → 4 ≤ length h →
  ∃ a', ResolveHost (Some (AF_INET, h)) (Some a) = Ok (true, Some a') ∧ sin6_addr (addr6_ a') = sin6_addr (addr6_ a).
Proof.
  intros [Hl _] _ Hh. unfold ResolveHost, on_mem, read_mem. rewrite decide_False by (by intros []). rewrite decide_True by done.
  cbn [mbind res_bind]. rewrite write_mem_ok by (rewrite length_take; mem_len). cbn [mbind res_bind].
  eexists. split; [reflexivity|]. cbn [addr6_]. unfold sin6_addr. apply read_at_after; rewrite ?length_take; mem_len.
Qed.

(** ** Connections to oneself *)

Lemma GetSockAddr_length k : length (GetSockAddr (Some k)) = sizeof_sockaddr.
Proof. unfold GetSockAddr. rewrite length_overwrite; [done|]. rewrite length_take, length_replicate. lia. Qed.

(** Fields inside the first 16 bytes survive [getsockname]. *)
Lemma GetSockAddr_read k o n : sizeof_sockaddr ≤ length k → o + n ≤ sizeof_sockaddr →
  read_at o n (GetSockAddr (Some k)) = read_at o n k.
Proof.
  intros Hk Ho. unfold GetSockAddr.
  assert (length (take sizeof_sockaddr k) = sizeof_sockaddr) as Ht by (rewrite length_take; lia).
  rewrite read_at_inside by (rewrite ?Ht, ?length_replicate; lia). rewrite Nat.sub_0_r.
  rewrite !read_at_ok by lia. f_equal. rewrite !take_drop_commute, take_take. by rewrite Nat.min_l by lia.
Qed.

Lemma GetSockAddr_family k : sizeof_sockaddr ≤ length k → sa_family (GetSockAddr (Some k)) = sa_family k.
Proof. intros Hk. unfold sa_family, read_u16. rewrite GetSockAddr_read; [done|done|mem_len]. Qed.

Lemma GetSockAddr_port k : sizeof_sockaddr ≤ length k → sin_port (GetSockAddr (Some k)) = sin_port k.
Proof. intros Hk. unfold sin_port, read_u16. rewrite GetSockAddr_read; [done|done|mem_len]. Qed.

(** C40: [IsSelfConnect] of an IPv4 socket tells whether its two ends have
    the same address and port.  Of an IPv6 socket it is wrong whenever it
    matters: when the ports are the same, it reads past the 16 bytes it asked
    for. *)
Theorem is_self_connect f f' p p' a a' k k' :
  sizeof_sockaddr ≤ length k → sizeof_sockaddr ≤ length k' → denotes k f p a → denotes k' f' p' a' → f = f' →
  IsSelfConnect (Some k) (Some k') =
    if decide (f = AF_INET) then Ok (bool_decide (p = p' ∧ a = a'))
    else if decide (p = p') then Fault OutOfBounds else Ok false.
Proof.
  intros Hk Hk' [Ef Hf Ep Ea] [Ef' _ Ep' Ea'] <-. unfold IsSelfConnect, GetLocalAddr, GetPeerAddr.
  rewrite GetSockAddr_family, Ef, !GetSockAddr_port, Ep, Ep' by done. cbn [mbind res_bind].
  destruct (decide (f = AF_INET)) as [->|Hn].
  - change (sin_addr k = Ok a) in Ea. change (sin_addr k' = Ok a') in Ea'.
    destruct (decide (p = p')) as [<-|Hp].
    + unfold sin_addr in *. rewrite !GetSockAddr_read by mem_len. rewrite Ea, Ea'. cbn [mbind res_bind]. f_equal.
      apply bool_decide_ext. split; [done|by intros [_ ?]].
    + by rewrite bool_decide_eq_false_2 by (by intros []).
  - rewrite decide_True by (by destruct Hf). destruct (decide (p = p')) as [<-|Hp]; [|done].
    unfold sin6_addr, read_at, read_mem. rewrite decide_False; [done|].
    rewrite length_drop, GetSockAddr_length. unfold sizeof_sockaddr. lia.
Qed.

Lemma is_self_connect_witness :
  IsSelfConnect (Some (B "" ++ ["002"; "000"; "031"; "144"; "127"; "000"; "000"; "001"]%char ++ replicate 8 nul))
    (Some (["002"; "000"; "031"; "144"; "127"; "000"; "000"; "001"]%char ++ replicate 8 nul)) = Ok true ∧
  IsSelfConnect (Some (["010"; "000"; "031"; "144"]%char ++ replicate 24 nul))
    (Some (["010"; "000"; "031"; "144"]%char ++ replicate 23 nul ++ ["001"]%char)) = Fault OutOfBounds.
Proof.
  split.
  - rewrite (is_self_connect AF_INET AF_INET 36895 36895 ["127"; "000"; "000"; "001"]%char ["127"; "000"; "000"; "001"]%char);
      [reflexivity|vm_compute; lia|vm_compute; lia| | |reflexivity];
      (split; [reflexivity|by left|reflexivity|reflexivity]).
  - rewrite (is_self_connect AF_INET6 AF_INET6 36895 36895 (replicate 16 nul) (replicate 16 nul));
      [reflexivity|vm_compute; lia|vm_compute; lia| | |reflexivity];
      (split; [reflexivity|by right|reflexivity|reflexivity]).
Defined.

(** [Accept] asks for 16 bytes as well: of an IPv6 peer the memory gets the
    first half of the address and keeps the rest of its own. *)
Lemma accept_truncates_ipv6 k m :
  length k = sizeof_sockaddr_in6 → length m = sizeof_sockaddr_in6 →
  ∃ m', Accept_addr k m = Ok m' ∧ m' = take 16 k ++ drop 16 m.
Proof.
  intros Hk Hm. unfold Accept_addr. rewrite write_mem_ok by (rewrite length_take; mem_len). eexists. split; [done|].
  unfold overwrite. by rewrite length_take, Hk.
Qed.

(** ** The laws of the interface *)

(** What the clients of an address rely on: its family is the one in its
    memory, its size does not exceed its memory, setting it to an address of
    its own family copies that address, setting it to another does nothing,
    and the kernel can write the head of an address of its family into it. *)
Class AddressLaws (A : Type) `{Address A} (ok : A → Prop) := {
  law_family a : ok a → GetFamily a = sa_family (GetAddr a) ∧ is_ok (GetFamily a) = true;
  law_size a : ok a → ∃ n, GetAddrSize a = Ok n ∧ n ≤ length (GetAddr a);
  law_copy a : Copy a = a;
  law_set_same a b : ok a → ok b → GetFamily a = GetFamily b →
    ∃ a' n, SetAddr (GetAddr b) a = Ok a' ∧ ok a' ∧ GetAddrSize b = Ok n ∧ take n (GetAddr a') = take n (GetAddr b);
  law_set_other a b : ok a → ok b → GetFamily a ≠ GetFamily b → SetAddr (GetAddr b) a = Ok a;
  law_write a d : ok a → 2 ≤ length d ≤ sizeof_sockaddr → sa_family d = GetFamily a →
    ∃ a', WriteAddr (write_mem 0 d) a = Ok a' ∧ ok a' ∧ GetFamily a' = GetFamily a ∧
      GetAddr a' = overwrite 0 d (GetAddr a)
}.

Lemma take_overwrite_self n d m : n = length d → n ≤ length m → take n (overwrite 0 d m) = d.
Proof. intros -> ?. unfold overwrite. rewrite take_0. exact (take_app_length d _). Qed.

Lemma sa_family_head d m : 2 ≤ length d ≤ length m → sa_family (overwrite 0 d m) = sa_family d.
Proof. intros. unfold sa_family, read_u16. by rewrite read_at_inside by lia. Qed.

#[export] Instance InetAddress_laws ntop buf : AddressLaws InetAddress (H := InetAddress_Address ntop buf) wf.
Proof.
  split; cbn [GetFamily GetAddr GetAddrSize Copy SetAddr InetAddress_Address]; unfold Inet_GetAddrSize, Inet_SetAddr, Inet_GetFamily.
  - intros a (_ & f & Ef & _). by rewrite Ef.
  - intros a (Hl & f & Ef & _). rewrite Ef. cbn [mbind res_bind]. case_decide; (eexists; split; [reflexivity|mem_len]).
  - done.
  - intros a b (Hl & f & Ef & Hf) (Hl' & f' & Ef' & _). rewrite Ef, Ef'. intros [= <-]. cbn [mbind res_bind].
    rewrite decide_False by (by intros []).
    assert (∀ n, n ≤ sizeof_sockaddr_in6 → 2 ≤ n → ∃ a', on_mem (λ m, d ← read_mem (addr6_ b) n; write_mem 0 d m) a = Ok a' ∧
      wf a' ∧ take n (addr6_ a') = take n (addr6_ b)) as Hc.
    { intros n Hn Hn2. destruct (set_struct_wf f n (addr6_ b) a Hf) as (a' & E & Hw);
        [split; [done|by rewrite Hl']|lia|done|]. exists a'. split_and!; [done|done|]. revert E. unfold on_mem, read_mem.
      rewrite decide_True by (by rewrite Hl'). cbn [mbind res_bind].
      rewrite write_mem_ok by (rewrite length_take; lia). cbn [mbind res_bind]. intros [= <-]. cbn [addr6_].
      apply take_overwrite_self; [rewrite length_take; lia|lia]. }
    destruct (decide (f = AF_INET)) as [->|Hn].
    + destruct (Hc sizeof_sockaddr_in) as (a' & E & Hw & Et); [mem_len|mem_len|]. by exists a', sizeof_sockaddr_in.
    + destruct (Hc sizeof_sockaddr_in6) as (a' & E & Hw & Et); [mem_len|mem_len|]. by exists a', sizeof_sockaddr_in6.
  - intros a b (_ & f & Ef & _) (_ & f' & Ef' & _). rewrite Ef, Ef'. intros Hne. cbn [mbind res_bind].
    rewrite decide_True; [done|congruence].
  - intros a d Ha Hd. pose proof Ha as (Hl & f & Ef & Hf). rewrite Ef. intros Ed. cbn [WriteAddr InetAddress_Address].
    unfold on_mem. rewrite write_mem_ok by mem_len. cbn [mbind res_bind]. eexists. split; [reflexivity|].
    cbn [addr6_]. rewrite sa_family_head, Ed by mem_len.
    split_and!; [split; [cbn; mem_len|]; exists f; cbn [addr6_]|done|done]. by rewrite sa_family_head, Ed by mem_len.
Qed.

Definition local_ok (a : LocalAddress) : Prop := length (addr_ a) = sizeof_sockaddr_un ∧ sa_family (addr_ a) = Ok AF_LOCAL.

#[export] Instance LocalAddress_laws : AddressLaws LocalAddress local_ok.
Proof.
  split; cbn [GetFamily GetAddr GetAddrSize Copy SetAddr LocalAddress_Address].
  - intros a [_ Ef]. by rewrite Ef.
  - intros a [Hl _]. exists sizeof_sockaddr_un. split; [done|lia].
  - done.
  - intros a b [Hl Ef] [Hl' Ef'] _. unfold Local_SetAddr. rewrite Ef, Ef'. cbn [mbind res_bind].
    rewrite decide_False by (by intros []). rewrite read_at_ok by mem_len. cbn [mbind res_bind].
    assert (take sizeof_sun_path (drop 2 (addr_ b)) = drop 2 (addr_ b)) as Et by (apply take_ge; rewrite length_drop; mem_len).
    assert (length (drop 2 (addr_ b)) = 108) as Hd by (rewrite length_drop; mem_len).
    rewrite Et, write_mem_ok by mem_len. cbn [mbind res_bind]. eexists _, sizeof_sockaddr_un. split; [reflexivity|].
    split_and!; [split; cbn [addr_]; [mem_len|by rewrite sa_family_after by mem_len]|done|]. cbn [addr_].
    rewrite !take_ge by mem_len. unfold overwrite. rewrite (drop_ge (addr_ a)), app_nil_r by mem_len.
    rewrite <- (take_drop 2 (addr_ b)) at 2. f_equal.
    unfold sa_family, read_u16 in Ef, Ef'. rewrite !read_at_ok, drop_0 in Ef, Ef' by mem_len. cbn [mbind res_bind] in Ef, Ef'.
    injection Ef as Ef. injection Ef' as Ef'. rewrite <- (le_bytes_val 2 (take 2 (addr_ a))) by (rewrite length_take; mem_len).
    rewrite <- (le_bytes_val 2 (take 2 (addr_ b))) by (rewrite length_take; mem_len). congruence.
  - intros a b [_ Ef] [_ Ef'] Hne. congruence.
  - intros a d [Hl Ef] Hd. rewrite Ef. intros Ed. cbn [WriteAddr LocalAddress_Address].
    rewrite write_mem_ok by mem_len. cbn [mbind res_bind]. eexists. split; [reflexivity|].
    cbn [addr_]. rewrite sa_family_head, Ed by mem_len.
    split_and!; [split; cbn [addr_]; [mem_len|by rewrite sa_family_head, Ed by mem_len]|done|done].
Qed.

(** The path of a Unix domain address. *)
Lemma local_address_path path junk :
  nul ∉ path → length path < sizeof_sun_path - 1 → length junk = sizeof_sockaddr_un →
  ∃ a, LocalAddress_new (path ++ [nul]) junk = Ok a ∧ local_ok a ∧ Local_GetAddrStr a = Ok path.
Proof.
  intros Hp Hl Hj. unfold LocalAddress_new. rewrite write_u16_ok by mem_len. cbn [mbind res_bind]. unfold strncpy.
  rewrite (take_ge (path ++ [nul])) by (rewrite length_app; mem_len). rewrite strlen_app by done.
  rewrite take_app_length. cbn [mbind res_bind].
  set (p := path ++ replicate _ nul). assert (length p = 107) as Hlp.
  { unfold p. rewrite length_app, length_replicate. mem_len. }
  rewrite write_mem_ok by mem_len. cbn [mbind res_bind]. eexists. split; [reflexivity|]. split.
  { split; cbn [addr_]; [mem_len|]. rewrite sa_family_after by mem_len. apply sa_family_same; [mem_len|done]. }
  unfold Local_GetAddrStr. cbn [addr_]. rewrite read_at_ok by mem_len. cbn [mbind res_bind].
  set (m := overwrite 0 _ junk). assert (length m = sizeof_sockaddr_un) as Hm by (unfold m; mem_len).
  unfold overwrite. rewrite drop_app_length' by (rewrite length_take; mem_len). rewrite take_app_ge by mem_len.
  unfold p. destruct (sizeof_sun_path - 1 - length path) as [|n] eqn:En; [lia|]. cbn [replicate].
  rewrite <- app_assoc. by apply c_str_app.
Qed.

(** The last byte of [sun_path] is never written: a path that fills the
    other 107 has no end when the memory held no zero there. *)
Lemma local_address_unterminated path c :
  nul ∉ path → length path = sizeof_sun_path - 1 → c ≠ nul →
  ∃ a, LocalAddress_new (path ++ [nul]) (replicate sizeof_sockaddr_un c) = Ok a ∧ Local_GetAddrStr a = Fault OutOfBounds.
Proof.
  intros Hp Hl Hc. unfold LocalAddress_new. rewrite write_u16_ok by mem_len. cbn [mbind res_bind]. unfold strncpy.
  rewrite take_app_length' by done. rewrite strlen_none by done. unfold read_mem. rewrite decide_True by (rewrite length_app; lia).
  rewrite take_app_length' by done. cbn [mbind res_bind].
  rewrite write_mem_ok by mem_len. cbn [mbind res_bind]. eexists. split; [reflexivity|].
  unfold Local_GetAddrStr. cbn [addr_]. rewrite read_at_ok by mem_len. cbn [mbind res_bind]. unfold c_str.
  rewrite strlen_none; [done|]. intros Hin. apply elem_of_take in Hin as (i & Hi & _).
  unfold overwrite at 1 in Hi. rewrite drop_app_length' in Hi by (rewrite length_take; mem_len).
  apply list_elem_of_lookup_2, elem_of_app in Hi as [Hi|Hi]; [done|]. unfold overwrite in Hi.
  rewrite drop_app_ge in Hi by (rewrite length_take; mem_len). rewrite drop_app_ge in Hi by (rewrite ?length_take; mem_len).
  rewrite drop_drop in Hi. apply list_elem_of_lookup_1 in Hi as [j Hj]. rewrite lookup_drop in Hj.
  by apply lookup_replicate_1 in Hj as [<- _].
Qed.
