(* ===== verification/Socket.v ===== *)
(** The socket object and the wrappers of the system calls: [net/socket.h],
    [socket.cc] and the functions of [socket_ops.cc] that do not deal with
    addresses (those are in [InetAddress] and [Acceptor]).  What the kernel
    answers to each call is a parameter, and so is what writing a log line
    does to [errno]. *)

From S2P Require Import Prelude Timestamp Endian InetAddress.

(** ** System calls *)

(** The fields of [struct tcp_info] that are printed. *)
Record tcp_info := mkInfo {
  tcpi_retransmits : Z; tcpi_rto : Z; tcpi_ato : Z; tcpi_snd_mss : Z; tcpi_rcv_mss : Z; tcpi_lost : Z;
  tcpi_retrans : Z; tcpi_rtt : Z; tcpi_rttvar : Z; tcpi_snd_ssthresh : Z; tcpi_snd_cwnd : Z; tcpi_total_retrans : Z
}.

Inductive option_name := TCP_NODELAY | SO_REUSEADDR | SO_REUSEPORT | SO_KEEPALIVE.
Inductive sock_level := SOL_TCP | SOL_SOCKET.

Inductive syscall :=
  | SysClose (fd : Z)
  | SysTcpInfo (fd : Z)
  | SysBind (fd : Z) (addr_len : Z)
  | SysListen (fd : Z)
  | SysConnect (fd : Z) (len : Z)
  | SysShutdownWrite (fd : Z)
  | SysSetSockOpt (fd : Z) (level : sock_level) (opt : option_name) (option : Z)
  | SysSocket (pf : Z) (nonblock : bool)
  | SysSockError (fd : Z)
  | SysWrite (fd : Z) (d : bytes)
  | SysRead (fd : Z) (len : nat)
  | SysSleep (seconds : Z).

(** The value a call returns, or its error. *)
Inductive answer := Ret (n : Z) | Err (e : Z).
#[export] Instance answer_eq_dec : EqDecision answer.
Proof. solve_decision. Defined.

(** What the process has asked of the kernel so far, and [errno]. *)
Record os := mkOs { errno : Z; asked : list syscall }.

Definition EINTR : Z := 4.
Definition EAGAIN : Z := 11.
Definition SOMAXCONN : Z := 4096.
Definition kMaxConnectWaitSecond : nat := 5.

Section socket.
Variable kernel : nat → syscall → answer   (** the answer to the n-th call *).
Variable info_at : nat → tcp_info   (** what the n-th call writes if it is [getsockopt(TCP_INFO)] *).
Variable error_at : nat → Z   (** or [getsockopt(SO_ERROR)] *).
Variable data_at : nat → bytes   (** or [read] *).
Variable log_errno : Z → Z   (** [errno] after a line was logged *).

Definition sys (c : syscall) (o : os) : Z * os :=
  match kernel (length (asked o)) c with
  | Ret n => (n, mkOs (errno o) (asked o ++ [c]))
  | Err e => ((-1)%Z, mkOs e (asked o ++ [c]))
  end.

(** [LOG_SYSERR] or [LOG_ERROR]. *)
Definition log (o : os) : os := mkOs (log_errno (errno o)) (asked o).

(** A wrapper that logs a failure and answers whether it succeeded. *)
Definition ask (c : syscall) (o : os) : bool * os :=
  let '(n, o) := sys c o in if decide (n < 0)%Z then (false, log o) else (true, o).

(** ** [socket_ops.cc] *)

Definition Close (fd : Z) (o : os) : os := (ask (SysClose fd) o).2.

(** The structure is zeroed first. *)
Definition GetTcpInfo (fd : Z) (o : os) : bool * tcp_info * os :=
  let '(n, o') := sys (SysTcpInfo fd) o in
  if decide (n ≠ 0%Z) then (false, mkInfo 0 0 0 0 0 0 0 0 0 0 0 0, log o')
  else (true, info_at (length (asked o)), o').

(** What the format of [snprintf] writes when there is room; [%u] of a field
    of at most 32 bits. *)
Definition tcp_info_text (i : tcp_info) : bytes :=
  B "unrecovered=" ++ digits (tcpi_retransmits i) ++ B " rto=" ++ digits (tcpi_rto i) ++ B " ato=" ++ digits (tcpi_ato i)
  ++ B " snd_mss=" ++ digits (tcpi_snd_mss i) ++ B " rcv_mss=" ++ digits (tcpi_rcv_mss i) ++ B " lost=" ++ digits (tcpi_lost i)
  ++ B " retrans=" ++ digits (tcpi_retrans i) ++ B " rtt=" ++ digits (tcpi_rtt i) ++ B " rttvar=" ++ digits (tcpi_rttvar i)
  ++ B " snd_ssthresh=" ++ digits (tcpi_snd_ssthresh i) ++ B " snd_cwnd=" ++ digits (tcpi_snd_cwnd i)
  ++ B " total_retrans=" ++ digits (tcpi_total_retrans i).

Definition GetTcpInfoString (fd : Z) (len : Z) (buf : bytes) (o : os) : res (bool * bytes * os) :=
  match GetTcpInfo fd o with
  | (false, _, o) => Ok (false, buf, o)
  | (true, i, o) => buf ← snprintf 0 len (tcp_info_text i) buf; Ok (true, buf, o)
  end.

(** [static_cast<socklen_t>] of a [size_t]. *)
Definition BindAddress (fd addr_len : Z) (o : os) : bool * os := ask (SysBind fd (cast uint32_t addr_len)) o.
Definition Listen (fd : Z) (o : os) : bool * os := ask (SysListen fd) o.
Definition Connect (fd len : Z) (o : os) : Z * os := sys (SysConnect fd (cast uint32_t len)) o.
Definition ShutDownOnWrite (fd : Z) (o : os) : bool * os := ask (SysShutdownWrite fd) o.
Definition SetSockOpt (fd : Z) (level : sock_level) (opt : option_name) (on : bool) (o : os) : bool * os :=
  ask (SysSetSockOpt fd level opt (if on then 1 else 0)) o.

(** [LOG_SYSFAT] aborts. *)
Definition CreateSockOrDie (nonblock : bool) (pf : Z) (o : os) : res (Z * os) :=
  let '(sock, o) := sys (SysSocket pf nonblock) o in
  if decide (sock < 0)%Z then Fault Aborted else Ok (sock, o).
Definition CreateBlockingSockOrDie : Z → os → res (Z * os) := CreateSockOrDie false.
Definition CreateNonBlockingSockOrDie : Z → os → res (Z * os) := CreateSockOrDie true.

(** [uninit] is what the uninitialised [optval] holds. *)
Definition GetSocketError (uninit : Z) (fd : Z) (o : os) : Z * os :=
  let '(n, o') := sys (SysSockError fd) o in
  if decide (n < 0)%Z then (uninit, log o') else (error_at (length (asked o)), o').

(** The answer goes through an [int]. *)
Definition Write (fd : Z) (buf : bytes) (len : nat) (o : os) : res (Z * os) :=
  d ← read_mem buf len;
  let '(n, o) := sys (SysWrite fd d) o in
  let ret := cast int32_t n in
  Ok (if decide (ret < 0)%Z then (ret, log o) else (ret, o)).

(** [memory]: what the buffer holds after. *)
Definition Read (fd : Z) (buf : bytes) (len : nat) (o : os) : res (Z * bytes * os) :=
  let '(n, o') := sys (SysRead fd len) o in
  let ret := cast int32_t n in
  memory ← (if decide (0 < n)%Z then write_mem 0 (take (Z.to_nat n) (data_at (length (asked o)))) buf else Ok buf);
  Ok (if decide (ret < 0)%Z then (ret, memory, log o') else (ret, memory, o')).

(** ** [Socket] *)

Record Socket := mkSocket { sock_fd_ : Z }.

Definition GetFd (s : Socket) : Z := sock_fd_ s.
Definition Socket_destroy (s : Socket) (o : os) : os := Close (sock_fd_ s) o.

(** [char buf[512]]: [stack] is what it holds before. *)
Definition Socket_GetTcpInfo (stack : bytes) (s : Socket) (o : os) : res (bytes * os) :=
  '(ok, buf, o) ← GetTcpInfoString (sock_fd_ s) 512 stack o;
  if ok : bool then text ← c_str buf; Ok (text, o) else Ok (B "Unknown Info", log o).

(** [LOG_FATAL] aborts. *)
Definition or_fatal (r : bool * os) : res os := if r.1 then Ok r.2 else Fault Aborted.
Definition Socket_BindAddress (addr_len : Z) (s : Socket) (o : os) : res os := or_fatal (BindAddress (sock_fd_ s) addr_len o).
Definition Socket_Listen (s : Socket) (o : os) : res os := or_fatal (Listen (sock_fd_ s) o).

(** [tries] is [kMaxConnectWaitSecond - cur_time]. *)
Fixpoint Connect_loop (tries : nat) (fd len : Z) (o : os) : Z * os :=
  let '(ret, o) := Connect fd len o in
  if decide (ret < 0)%Z then
    match tries with
    | S tries => Connect_loop tries fd len (sys (SysSleep 1) o).2
    | O => (ret, log o)
    end
  else (0%Z, o).
Definition Socket_Connect (addr_len : Z) (s : Socket) (o : os) : Z * os :=
  Connect_loop kMaxConnectWaitSecond (sock_fd_ s) addr_len o.

(** The loop goes on as long as the kernel says so. *)
Fixpoint Send (fuel : nat) (buf : bytes) (len : nat) (s : Socket) (o : os) : res (Z * os) :=
  match fuel with
  | O => Fault OutOfFuel
  | S fuel =>
      '(ret, o) ← Write (sock_fd_ s) buf len o;
      if decide (ret < 0)%Z then
        if decide (errno o = EAGAIN ∨ errno o = EINTR) then Send fuel buf len s o else Ok (ret, log o)
      else Ok (ret, o)
  end.

Definition Recv (buf : bytes) (len : nat) (s : Socket) (o : os) : res (Z * bytes * os) := Read (sock_fd_ s) buf len o.

Definition Socket_ShutDownOnWrite (s : Socket) (o : os) : os := (ShutDownOnWrite (sock_fd_ s) o).2.
Definition SetTcpNoDelay (on : bool) (s : Socket) (o : os) : os := (SetSockOpt (sock_fd_ s) SOL_TCP TCP_NODELAY on o).2.
Definition SetReuseAddr (on : bool) (s : Socket) (o : os) : os := (SetSockOpt (sock_fd_ s) SOL_SOCKET SO_REUSEADDR on o).2.
Definition SetReusePort (on : bool) (s : Socket) (o : os) : os := (SetSockOpt (sock_fd_ s) SOL_SOCKET SO_REUSEPORT on o).2.
Definition SetKeepAlive (on : bool) (s : Socket) (o : os) : os := (SetSockOpt (sock_fd_ s) SOL_SOCKET SO_KEEPALIVE on o).2.
End socket.

(** ** What they do *)

Section proofs.
Variable kernel : nat → syscall → answer.
Variable info_at : nat → tcp_info.
Variable log_errno : Z → Z.
Implicit Types (s : Socket) (o : os).

Definition failed (n : nat) (c : syscall) : Prop :=
  match kernel n c with Ret r => (r < 0)%Z | Err _ => True end.

Lemma sys_spec c o : ∃ n e, sys kernel c o = (n, mkOs e (asked o ++ [c])) ∧ ((n < 0)%Z ↔ failed (length (asked o)) c).
Proof. unfold sys, failed. destruct (kernel _ c); eexists _, _; (split; [reflexivity|done]). Qed.

Definition attempt (fd len : Z) : list syscall := [SysConnect fd (cast uint32_t len); SysSleep 1].

Lemma Connect_loop_spec tries fd len : ∀ o,
  ∃ k ret e, Connect_loop kernel log_errno tries fd len o =
      (ret, mkOs e (asked o ++ concat (replicate k (attempt fd len)) ++ [SysConnect fd (cast uint32_t len)])) ∧
    k ≤ tries ∧ (∀ i, i < k → failed (length (asked o) + 2 * i) (SysConnect fd (cast uint32_t len))) ∧
    ((ret < 0)%Z ↔ failed (length (asked o) + 2 * k) (SysConnect fd (cast uint32_t len))) ∧
    ((ret < 0)%Z → k = tries) ∧ (ret <= 0)%Z.
Proof.
  induction tries as [|tries IH]; intros o; cbn [Connect_loop]; unfold Connect;
    destruct (sys_spec (SysConnect fd (cast uint32_t len)) o) as (n & e & -> & Hn).
  - destruct (decide (n < 0)%Z) as [H|H]; eexists 0, _, _; (split; [reflexivity|]); rewrite Nat.add_0_r;
      (split_and!; [lia|lia| |done|lia]); [done|rewrite <- Hn; lia].
  - destruct (decide (n < 0)%Z) as [H|H].
    + set (o1 := (sys kernel (SysSleep 1) _).2).
      assert (∃ e1, o1 = mkOs e1 (asked o ++ attempt fd len)) as [e1 E1].
      { subst o1. destruct (sys_spec (SysSleep 1) (mkOs e (asked o ++ [SysConnect fd (cast uint32_t len)]))) as (n' & e' & -> & _).
        eexists. cbn [snd asked]. by rewrite <- app_assoc. }
      destruct (IH o1) as (k & ret & e2 & -> & Hk & Hall & Hret & Hlast & Hle). rewrite E1 in *. cbn [asked] in *.
      assert (∀ i, length (asked o ++ attempt fd len) + 2 * i = length (asked o) + 2 * S i) as Hlen
        by (intros i; rewrite length_app; cbn; lia).
      exists (S k), ret, e2. split_and!; [|lia| |by rewrite <- Hlen| |done].
      * cbn [replicate concat]. by rewrite <- !app_assoc.
      * intros [|i] Hi; [rewrite Nat.add_0_r; by apply Hn|]. rewrite <- Hlen. apply Hall. lia.
      * intros Hr. by rewrite (Hlast Hr).
    + eexists 0, _, _. split; [reflexivity|]. rewrite Nat.add_0_r. split_and!; [lia|lia| |lia|done].
      rewrite <- Hn. lia.
Qed.

(** Connecting a socket makes at most six attempts, a second apart, and
    returns: the attempts before the last failed, the result is 0 if the last
    one succeeded and negative only when all six failed. *)
Lemma socket_connect_spec addr_len s o :
  let c := SysConnect (sock_fd_ s) (cast uint32_t addr_len) in
  ∃ k ret e, Socket_Connect kernel log_errno addr_len s o =
      (ret, mkOs e (asked o ++ concat (replicate k [c; SysSleep 1]) ++ [c])) ∧
    k ≤ 5 ∧ (∀ i, i < k → failed (length (asked o) + 2 * i) c) ∧
    ((ret < 0)%Z ↔ failed (length (asked o) + 2 * k) c) ∧ (ret = 0%Z ∨ (ret < 0)%Z ∧ k = 5).
Proof.
  unfold Socket_Connect, kMaxConnectWaitSecond.
  destruct (Connect_loop_spec 5 (sock_fd_ s) addr_len o) as (k & ret & e & -> & Hk & Hall & Hret & Hlast & Hle).
  exists k, ret, e. split_and!; try done. destruct (decide (ret < 0)%Z); [right; auto|left; lia].
Qed.

(** [write] takes part of the bytes, at most [0x7ffff000] of them. *)
Hypothesis write_law : ∀ n fd d r,
  kernel n (SysWrite fd d) = Ret r → (0 <= r <= Z.of_nat (length d))%Z ∧ (r <= 2147479552)%Z.

(** [write] fails, and after the line about it was logged [errno] says that
    it was interrupted or that the socket is full. *)
Definition interrupted (n : nat) (c : syscall) : Prop :=
  match kernel n c with Ret _ => False | Err e => log_errno e = EAGAIN ∨ log_errno e = EINTR end.
#[export] Instance interrupted_dec n c : Decision (interrupted n c).
Proof. unfold interrupted. destruct (kernel n c); apply _. Defined.

Lemma Write_spec fd buf len o :
  len ≤ length buf →
  let c := SysWrite fd (take len buf) in
  Write kernel log_errno fd buf len o =
    match kernel (length (asked o)) c with
    | Ret r => Ok (r, mkOs (errno o) (asked o ++ [c]))
    | Err e => Ok ((-1)%Z, mkOs (log_errno e) (asked o ++ [c]))
    end.
Proof.
  intros Hl c. unfold Write, read_mem. rewrite decide_True by done. cbn [mbind res_bind]. unfold sys. fold c.
  destruct (kernel _ c) as [r|e] eqn:E; unfold c in E.
  - apply write_law in E as [? ?]. assert (cast int32_t r = r) as ->.
    { unfold cast, swrap. cbn [is_signed]. change (int_bits int32_t) with 32%Z. rewrite Z.mod_small; lia. }
    by rewrite decide_False by lia.
  - change (cast int32_t (-1)) with (-1)%Z. by rewrite decide_True by lia.
Qed.

(** Sending goes on, with the same bytes, while [errno], after the log line,
    says that it was interrupted or that the socket is full, and answers what
    the kernel answers then. *)
Lemma Send_retries k buf len s : ∀ o fuel,
  len ≤ length buf → k < fuel →
  let c := SysWrite (sock_fd_ s) (take len buf) in
  (∀ i, i < k → interrupted (length (asked o) + i) c) → ¬ interrupted (length (asked o) + k) c →
  ∃ e, Send kernel log_errno fuel buf len s o =
    Ok (match kernel (length (asked o) + k) c with Ret r => r | Err _ => (-1)%Z end,
        mkOs e (asked o ++ replicate (S k) c)).
Proof.
  induction k as [|k IH]; intros o [|fuel] Hl Hf c Hi Hn; try lia; cbn [Send]; rewrite Write_spec by done; fold c.
  - rewrite Nat.add_0_r in *. unfold interrupted in Hn. destruct (kernel _ c) as [r|e] eqn:E; cbn [mbind res_bind].
    + apply write_law in E as [? _]. rewrite decide_False by lia. by eexists.
    + rewrite decide_True by lia. cbn [errno]. rewrite decide_False by done. by eexists.
  - pose proof (Hi 0 ltac:(lia)) as H0. rewrite Nat.add_0_r in H0. unfold interrupted in H0.
    destruct (kernel (length (asked o)) c) as [|e]; [done|].
    cbn [mbind res_bind errno]. rewrite !decide_True by (lia || done).
    assert (∀ j, length (asked o ++ [c]) + j = length (asked o) + S j) as Hlen by (intros j; rewrite length_app; cbn; lia).
    destruct (IH (mkOs (log_errno e) (asked o ++ [c])) fuel Hl ltac:(lia)) as [e' ->]; cbn [asked]; fold c.
    + intros i Hik. rewrite Hlen. apply Hi. lia.
    + by rewrite Hlen.
    + exists e'. rewrite Hlen. by rewrite <- app_assoc.
Qed.
End proofs.

(** ** The description of a connection *)

Definition info_fields (i : tcp_info) : list Z :=
  [tcpi_retransmits i; tcpi_rto i; tcpi_ato i; tcpi_snd_mss i; tcpi_rcv_mss i; tcpi_lost i; tcpi_retrans i; tcpi_rtt i;
   tcpi_rttvar i; tcpi_snd_ssthresh i; tcpi_snd_cwnd i; tcpi_total_retrans i].

Definition info_labels : list bytes :=
  B <$> ["unrecovered="; " rto="; " ato="; " snd_mss="; " rcv_mss="; " lost="; " retrans="; " rtt="; " rttvar=";
         " snd_ssthresh="; " snd_cwnd="; " total_retrans="]%string.

Definition info_ok (i : tcp_info) : Prop := Forall (λ z, 0 <= z < 2 ^ 32)%Z (info_fields i).

Lemma tcp_info_text_concat i :
  tcp_info_text i = concat (zip_with (λ l z, l ++ digits z) info_labels (info_fields i)).
Proof.
  unfold tcp_info_text, info_labels, info_fields. cbn [fmap list_fmap zip_with concat].
  by rewrite <- !app_assoc, app_nil_r.
Qed.

Lemma labelled_length (labels : list bytes) zs :
  Forall (λ z, 0 <= z < 2 ^ 32)%Z zs → Forall (λ l, nul ∉ l) labels →
  length (concat (zip_with (λ l z, l ++ digits z) labels zs)) ≤ sum_list (length <$> labels) + 10 * length zs ∧
  nul ∉ concat (zip_with (λ l z, l ++ digits z) labels zs).
Proof.
  intros Hz. revert labels. induction Hz as [|z zs Hz _ IH]; intros [|l labels] Hl; cbn [zip_with concat];
    try (split; [cbn; lia|apply not_elem_of_nil]).
  apply Forall_cons in Hl as [Hl Hls]. destruct (IH labels Hls) as [Hlen Hn].
  pose proof (length_digits 10 z ltac:(lia) ltac:(lia)). rewrite !length_app, !not_elem_of_app.
  split_and!; [|done|apply digits_no_nul; lia|done].
  change (sum_list (length <$> l :: labels)) with (length l + sum_list (length <$> labels)).
  change (length (z :: zs)) with (S (length zs)). lia.
Qed.

Lemma tcp_info_text_fits i : info_ok i → length (tcp_info_text i) < 512 ∧ nul ∉ tcp_info_text i.
Proof.
  intros Hi. rewrite tcp_info_text_concat. destruct (labelled_length info_labels (info_fields i) Hi) as [Hl Hn].
  { apply (bool_decide_unpack _). by vm_compute. }
  split; [|done]. eapply Nat.le_lt_trans; [exact Hl|]. apply (bool_decide_unpack _). by vm_compute.
Qed.

(** The description of a connection is never cut off; without one the text is
    "Unknown Info". *)
Lemma Socket_GetTcpInfo_spec kernel info_at log_errno stack s o :
  length stack = 512 → info_ok (info_at (length (asked o))) →
  ∃ e, Socket_GetTcpInfo kernel info_at log_errno stack s o =
    Ok (if decide (kernel (length (asked o)) (SysTcpInfo (sock_fd_ s)) = Ret 0)
        then tcp_info_text (info_at (length (asked o))) else B "Unknown Info",
        mkOs e (asked o ++ [SysTcpInfo (sock_fd_ s)])).
Proof.
  intros Hs Hi. destruct (tcp_info_text_fits _ Hi) as [Hlen Hn]. unfold Socket_GetTcpInfo, GetTcpInfoString, GetTcpInfo, sys.
  destruct (kernel _ _) as [n|e] eqn:E; [destruct (decide (n ≠ 0%Z)) as [Hz|Hz]|].
  - cbn [mbind res_bind]. eexists. rewrite decide_False by congruence. done.
  - assert (n = 0%Z) as -> by lia. rewrite decide_True by done.
    destruct (snprintf_spec 0 512 (tcp_info_text (info_at (length (asked o)))) stack) as [r ->]; [lia|rewrite Hs; lia|].
    cbn [mbind res_bind]. change (Z.to_nat 512 - 1) with 511. rewrite (take_ge (tcp_info_text _)) by lia. change (take 0 stack) with (@nil ascii). cbn [app]. rewrite c_str_app by done. by eexists.
  - rewrite (decide_True (P := ((-1)%Z ≠ 0%Z))) by done. cbn [mbind res_bind]. by eexists.
Qed.

(** ** Options, and what goes wrong *)

(** A setter asks for its option once; a failure is only logged. *)
Lemma set_option_asks kernel log_errno fd level opt on o :
  ∃ ok e, SetSockOpt kernel log_errno fd level opt on o =
    (ok, mkOs e (asked o ++ [SysSetSockOpt fd level opt (if on then 1 else 0)%Z])).
Proof.
  unfold SetSockOpt, ask, sys. destruct (kernel _ _); [destruct (decide _)|]; by eexists _, _.
Qed.

(** When logging the failure changes [errno], a full socket is taken for a
    broken one: [Send] gives up at the first [EAGAIN]. *)
Lemma send_errno_clobbered buf len s o fuel :
  len ≤ length buf →
  Send (λ n _, if decide (n = length (asked o)) then Err EAGAIN else Ret 1) (λ _, 25%Z) (S fuel) buf len s o =
  Ok ((-1)%Z, mkOs 25 (asked o ++ [SysWrite (sock_fd_ s) (take len buf)])).
Proof.
  intros Hl. cbn [Send]. unfold Write, read_mem. rewrite decide_True by done. cbn [mbind res_bind]. unfold sys.
  rewrite decide_True by done. reflexivity.
Qed.

(** [GetSocketError] answers what an uninitialised variable holds when its
    call fails. *)
Lemma socket_error_uninitialised error_at uninit fd o :
  (GetSocketError (λ _ _, Err 9) error_at (λ e, e) uninit fd o).1 = uninit.
Proof. done. Qed.

(** ** A run *)

(** The third attempt succeeds; the first write is interrupted, the second
    finds the socket full. *)
Definition kernel_example (n : nat) (c : syscall) : answer :=
  match c with
  | SysConnect _ _ => if decide (n < 4) then Err 111 else Ret 0
  | SysWrite _ d => if decide (n = 0) then Err EINTR else if decide (n = 1) then Err EAGAIN else Ret (Z.of_nat (length d) - 1)
  | _ => Ret 0
  end.

Example connect_third_attempt :
  Socket_Connect kernel_example (λ e, e) 16 (mkSocket 5) (mkOs 0 []) =
    (0%Z, mkOs 111 [SysConnect 5 16; SysSleep 1; SysConnect 5 16; SysSleep 1; SysConnect 5 16]).
Proof. by vm_compute. Qed.

Example send_third_attempt :
  Send kernel_example (λ e, e) 3 (B "abcd") 3 (mkSocket 5) (mkOs 0 []) =
    Ok (2%Z, mkOs EAGAIN (replicate 3 (SysWrite 5 (B "abc")))).
Proof. by vm_compute. Qed.

Example tcp_info_example :
  tcp_info_text (mkInfo 0 204000 40000 1448 536 0 0 27 13 2147483647 10 0) =
  B "unrecovered=0 rto=204000 ato=40000 snd_mss=1448 rcv_mss=536 lost=0 retrans=0 rtt=27 rttvar=13 snd_ssthresh=2147483647 snd_cwnd=10 total_retrans=0".
Proof. by vm_compute. Qed.
