(* ===== verification/SocketLife.v ===== *)
(** The life of a [Socket] ([net/socket.h], [socket.cc]) from the creation of
    its descriptor to the destructor that closes it: what any sequence of its
    operations asks of the kernel, and what they answer. *)

From S2P Require Import Prelude Timestamp Endian InetAddress Socket.

(** ** Running a socket *)

Inductive sock_op :=
  | OpBind (addr_len : Z)
  | OpListen
  | OpConnect (addr_len : Z)
  | OpSend (buf : bytes) (len : nat)
  | OpRecv (buf : bytes) (len : nat)
  | OpShutDown
  | OpNoDelay (on : bool)
  | OpReuseAddr (on : bool)
  | OpReusePort (on : bool)
  | OpKeepAlive (on : bool)
  | OpTcpInfo (stack : bytes).

(** What an operation answers: nothing, a number, a number with the memory of
    the buffer, a text. *)
Inductive sock_out := NoOut | IntOut (ret : Z) | DataOut (ret : Z) (memory : bytes) | TextOut (text : bytes).

Section life.
Variable kernel : nat → syscall → answer.
Variable info_at : nat → tcp_info.
Variable data_at : nat → bytes.
Variable log_errno : Z → Z.
(** How often the loop of [Send] may go round. *)
Variable fuel : nat.
Implicit Types (s : Socket) (o : os).

Definition run_op (op : sock_op) s o : res (sock_out * os) :=
  match op with
  | OpBind len => o ← Socket_BindAddress kernel log_errno len s o; Ok (NoOut, o)
  | OpListen => o ← Socket_Listen kernel log_errno s o; Ok (NoOut, o)
  | OpConnect len => let '(ret, o) := Socket_Connect kernel log_errno len s o in Ok (IntOut ret, o)
  | OpSend buf len => '(ret, o) ← Send kernel log_errno fuel buf len s o; Ok (IntOut ret, o)
  | OpRecv buf len => '(ret, memory, o) ← Recv kernel data_at log_errno buf len s o; Ok (DataOut ret memory, o)
  | OpShutDown => Ok (NoOut, Socket_ShutDownOnWrite kernel log_errno s o)
  | OpNoDelay on => Ok (NoOut, SetTcpNoDelay kernel log_errno on s o)
  | OpReuseAddr on => Ok (NoOut, SetReuseAddr kernel log_errno on s o)
  | OpReusePort on => Ok (NoOut, SetReusePort kernel log_errno on s o)
  | OpKeepAlive on => Ok (NoOut, SetKeepAlive kernel log_errno on s o)
  | OpTcpInfo stack => '(text, o) ← Socket_GetTcpInfo kernel info_at log_errno stack s o; Ok (TextOut text, o)
  end.

Fixpoint run_ops (ops : list sock_op) s o : res (list sock_out * os) :=
  match ops with
  | [] => Ok ([], o)
  | op :: ops => '(out, o) ← run_op op s o; '(outs, o) ← run_ops ops s o; Ok (out :: outs, o)
  end.

(** From the system call to the destructor. *)
Definition socket_life (nonblock : bool) (pf : Z) (ops : list sock_op) o : res (list sock_out * os) :=
  '(fd, o) ← (if nonblock then CreateNonBlockingSockOrDie else CreateBlockingSockOrDie) kernel pf o;
  '(outs, o) ← run_ops ops (mkSocket fd) o;
  Ok (outs, Socket_destroy kernel log_errno (mkSocket fd) o).

(** ** What a socket promises *)

(** Calls that end the process when they fail. *)
Definition fatal (fd : Z) (op : sock_op) : option syscall :=
  match op with
  | OpBind len => Some (SysBind fd (cast uint32_t len))
  | OpListen => Some (SysListen fd)
  | _ => None
  end.

(** Calls whose failure is only logged. *)
Definition tolerant (fd : Z) (op : sock_op) : option syscall :=
  let opt level name (on : bool) := Some (SysSetSockOpt fd level name (if on then 1 else 0)%Z) in
  match op with
  | OpShutDown => Some (SysShutdownWrite fd)
  | OpNoDelay on => opt SOL_TCP TCP_NODELAY on
  | OpReuseAddr on => opt SOL_SOCKET SO_REUSEADDR on
  | OpReusePort on => opt SOL_SOCKET SO_REUSEPORT on
  | OpKeepAlive on => opt SOL_SOCKET SO_KEEPALIVE on
  | _ => None
  end.

(** An operation, when [n] calls were made before, answers [out] and makes
    these calls. *)
Inductive asks (fd : Z) (n : nat) : sock_op → sock_out → list syscall → Prop :=
  | AsksFatal op c : fatal fd op = Some c → ¬ failed kernel n c → asks fd n op NoOut [c]
  | AsksTolerant op c : tolerant fd op = Some c → asks fd n op NoOut [c]
  | AsksConnect len k ret :
      let c := SysConnect fd (cast uint32_t len) in
      k ≤ 5 → (∀ i, i < k → failed kernel (n + 2 * i) c) → ((ret < 0)%Z ↔ failed kernel (n + 2 * k) c) →
      (ret = 0%Z ∨ (ret < 0)%Z ∧ k = 5) →
      asks fd n (OpConnect len) (IntOut ret) (concat (replicate k [c; SysSleep 1]) ++ [c])
  | AsksSend buf len k :
      let c := SysWrite fd (take len buf) in
      (∀ i, i < k → interrupted kernel log_errno (n + i) c) → ¬ interrupted kernel log_errno (n + k) c →
      asks fd n (OpSend buf len) (IntOut (match kernel (n + k) c with Ret r => r | Err _ => -1 end)) (replicate (S k) c)
  | AsksRecv buf len :
      let c := SysRead fd len in
      asks fd n (OpRecv buf len)
        (match kernel n c with
         | Ret r => DataOut r (take (Z.to_nat r) (data_at n) ++ drop (Z.to_nat r) buf)
         | Err _ => DataOut (-1) buf
         end) [c]
  | AsksTcpInfo stack :
      let c := SysTcpInfo fd in
      asks fd n (OpTcpInfo stack)
        (TextOut (if decide (kernel n c = Ret 0%Z) then tcp_info_text (info_at n) else B "Unknown Info")) [c].

Inductive asks_all (fd : Z) : nat → list sock_op → list sock_out → list syscall → Prop :=
  | AsksNil n : asks_all fd n [] [] []
  | AsksCons n op ops out outs cs cs' :
      asks fd n op out cs → asks_all fd (n + length cs) ops outs cs' → asks_all fd n (op :: ops) (out :: outs) (cs ++ cs').

(** Memory of the sizes given, and a kernel that lets each write through
    before the fuel is spent. *)
Definition op_ok (fd : Z) (op : sock_op) : Prop :=
  match op with
  | OpSend buf len => len ≤ length buf ∧ ∀ n, ∃ k, k < fuel ∧ ¬ interrupted kernel log_errno (n + k) (SysWrite fd (take len buf))
  | OpRecv buf len => len ≤ length buf
  | OpTcpInfo stack => length stack = 512
  | _ => True
  end.

Hypothesis write_law : ∀ n fd d r,
  kernel n (SysWrite fd d) = Ret r → (0 <= r <= Z.of_nat (length d))%Z ∧ (r <= 2147479552)%Z.
(** [read] gives at most the bytes asked for. *)
Hypothesis read_law : ∀ n fd len r,
  kernel n (SysRead fd len) = Ret r → (0 <= r <= Z.of_nat len)%Z ∧ (r <= 2147479552)%Z ∧ (r <= Z.of_nat (length (data_at n)))%Z.
Hypothesis info_law : ∀ n, info_ok (info_at n).

Lemma ask_spec c o : ∃ ok e, ask kernel log_errno c o = (ok, mkOs e (asked o ++ [c])) ∧ (ok = false ↔ failed kernel (length (asked o)) c).
Proof.
  unfold ask. destruct (sys_spec kernel c o) as (n & e & -> & Hn). destruct (decide (n < 0)%Z) as [Hlt|Hge].
  - exists false, (log_errno e). split; [done|]. by rewrite <- Hn.
  - exists true, e. split; [done|]. rewrite <- Hn. split; [done|]. intros ?. lia.
Qed.

(** The first attempt that is not interrupted. *)
Lemma first_through n c : (∃ k, k < fuel ∧ ¬ interrupted kernel log_errno (n + k) c) →
  ∃ k, k < fuel ∧ (∀ i, i < k → interrupted kernel log_errno (n + i) c) ∧ ¬ interrupted kernel log_errno (n + k) c.
Proof.
  intros (k & Hk & Hn). revert Hn. induction (lt_wf k) as [k _ IH]. intros Hn.
  assert ((∀ i, i < k → interrupted kernel log_errno (n + i) c) ∨ ∃ i, i < k ∧ ¬ interrupted kernel log_errno (n + i) c) as [Hall|(i & Hi & Hni)].
  { clear. induction k as [|k [IH|(i & Hi & Hni)]]; [left; lia| |right; exists i; split; [lia|done]].
    destruct (decide (interrupted kernel log_errno (n + k) c)) as [H|H].
    - left. intros i Hi. destruct (decide (i = k)) as [->|]; [done|]. apply IH. lia.
    - right. exists k. split; [lia|done]. }
  - by exists k.
  - apply (IH i); [lia|lia|done].
Qed.

Lemma Recv_spec buf len s o :
  len ≤ length buf →
  let c := SysRead (sock_fd_ s) len in
  ∃ e, Recv kernel data_at log_errno buf len s o =
    Ok (match kernel (length (asked o)) c with
        | Ret r => (r, take (Z.to_nat r) (data_at (length (asked o))) ++ drop (Z.to_nat r) buf)
        | Err _ => ((-1)%Z, buf)
        end, mkOs e (asked o ++ [c])).
Proof.
  intros Hl c. unfold Recv, Read, sys. fold c. destruct (kernel _ c) as [r|e] eqn:E; unfold c in E.
  - apply read_law in E as (Hr & Hm & Hd). assert (cast int32_t r = r) as ->.
    { unfold cast, swrap. cbn [is_signed]. change (int_bits int32_t) with 32%Z. rewrite Z.mod_small; lia. }
    destruct (decide (0 < r)%Z).
    + unfold write_mem. rewrite length_take. rewrite decide_True by lia. cbn [mbind res_bind]. rewrite decide_False by lia.
      eexists. repeat f_equal. unfold overwrite. rewrite firstn_O, length_take. cbn [app]. do 2 f_equal. lia.
    + cbn [mbind res_bind]. rewrite decide_False by lia. assert (r = 0%Z) as -> by lia. by eexists.
  - rewrite (decide_False (P := (0 < -1)%Z)) by lia. cbn [mbind res_bind]. change (cast int32_t (-1)) with (-1)%Z.
    rewrite decide_True by lia. by eexists.
Qed.

Lemma fatal_spec fd op c o :
  fatal fd op = Some c → (∀ o', run_op op (mkSocket fd) o' = (o ← or_fatal (ask kernel log_errno c o'); Ok (NoOut, o))) →
  (∃ out cs e, run_op op (mkSocket fd) o = Ok (out, mkOs e (asked o ++ cs)) ∧ asks fd (length (asked o)) op out cs) ∨
  (failed kernel (length (asked o)) c ∧ run_op op (mkSocket fd) o = Fault Aborted).
Proof.
  intros Hf Hr. rewrite Hr. destruct (ask_spec c o) as (ok & e & -> & Hok). unfold or_fatal. cbn [fst snd]. destruct ok.
  - left. exists NoOut, [c], e. split; [done|]. apply AsksFatal; [done|]. intros H. by apply Hok in H.
  - right. split; [by apply Hok|done].
Qed.

Lemma tolerant_spec fd op c o :
  tolerant fd op = Some c → (∀ o', run_op op (mkSocket fd) o' = Ok (NoOut, (ask kernel log_errno c o').2)) →
  ∃ out cs e, run_op op (mkSocket fd) o = Ok (out, mkOs e (asked o ++ cs)) ∧ asks fd (length (asked o)) op out cs.
Proof.
  intros Hf Hr. rewrite Hr. destruct (ask_spec c o) as (ok & e & -> & _).
  exists NoOut, [c], e. split; [done|]. by apply AsksTolerant.
Qed.

Lemma sock_op_asks fd op o :
  op_ok fd op →
  (∃ out cs e, run_op op (mkSocket fd) o = Ok (out, mkOs e (asked o ++ cs)) ∧ asks fd (length (asked o)) op out cs) ∨
  (∃ c, fatal fd op = Some c ∧ failed kernel (length (asked o)) c ∧ run_op op (mkSocket fd) o = Fault Aborted).
Proof.
  intros Hok. destruct op as [len| |len|buf len|buf len| |on|on|on|on|stack]; cbn [op_ok] in Hok;
    try (left; by eapply tolerant_spec).
  - destruct (fatal_spec fd (OpBind len) _ o eq_refl (λ _, eq_refl)) as [?|?]; [by left|by right; eexists].
  - destruct (fatal_spec fd OpListen _ o eq_refl (λ _, eq_refl)) as [?|?]; [by left|by right; eexists].
  - left. cbn [run_op]. destruct (socket_connect_spec kernel log_errno len (mkSocket fd) o) as (k & ret & e & -> & H1 & H2 & H3 & H4).
    eexists _, _, e. split; [done|]. by apply AsksConnect.
  - left. destruct Hok as [Hl Hk]. destruct (first_through _ _ (Hk (length (asked o)))) as (k & Hf & Hi & Hn). cbn [run_op].
    destruct (Send_retries kernel log_errno write_law k buf len (mkSocket fd) o fuel Hl Hf Hi Hn) as (e & ->).
    cbn [mbind res_bind]. eexists _, _, e. split; [done|]. by apply AsksSend.
  - left. cbn [run_op]. destruct (Recv_spec buf len (mkSocket fd) o Hok) as (e & ->). cbn [sock_fd_].
    pose proof (AsksRecv fd (length (asked o)) buf len) as Ha. cbn zeta in Ha.
    destruct (kernel (length (asked o)) (SysRead fd len)); cbn [mbind res_bind]; eexists _, _, e; (split; [done|exact Ha]).
  - left. cbn [run_op]. destruct (Socket_GetTcpInfo_spec kernel info_at log_errno stack (mkSocket fd) o Hok (info_law _)) as (e & ->).
    cbn [mbind res_bind]. eexists _, _, e. split; [done|]. apply AsksTcpInfo.
Qed.

Lemma sock_ops_ask fd ops : ∀ o,
  Forall (op_ok fd) ops →
  ∃ done outs cs, asks_all fd (length (asked o)) done outs cs ∧
    ((done = ops ∧ ∃ e, run_ops ops (mkSocket fd) o = Ok (outs, mkOs e (asked o ++ cs))) ∨
     (∃ op rest c, ops = done ++ op :: rest ∧ fatal fd op = Some c ∧ failed kernel (length (asked o) + length cs) c ∧
        run_ops ops (mkSocket fd) o = Fault Aborted)).
Proof.
  induction ops as [|op ops IH]; intros o Hok.
  - exists [], [], []. split; [constructor|]. left. split; [done|]. exists (errno o). rewrite app_nil_r. by destruct o.
  - apply Forall_cons in Hok as [Hop Hok]. cbn [run_ops]. destruct (sock_op_asks fd op o Hop) as [(out & cs & e & -> & Ha)|(c & Hf & Hx & ->)].
    + cbn [mbind res_bind]. destruct (IH (mkOs e (asked o ++ cs)) Hok) as (dn & outs & cs' & Has & Hend). cbn [asked] in *.
      rewrite length_app in *. exists (op :: dn), (out :: outs), (cs ++ cs'). split; [by constructor|].
      destruct Hend as [(-> & e' & ->)|(op' & rest & c & -> & Hf & Hx & ->)].
      * left. split; [done|]. exists e'. cbn [mbind res_bind]. by rewrite <- app_assoc.
      * right. exists op', rest, c. split_and!; try done. by rewrite length_app, Nat.add_assoc.
    + exists [], [], []. split; [constructor|]. right. exists op, ops, c. rewrite Nat.add_0_r. by split_and!.
Qed.

(** C38: the life of a socket: it makes the calls its operations ask for, on
    its own descriptor, in order, and closes that descriptor once, at the
    end.  Connecting makes at most six attempts, a second apart, and answers 0
    if the last one succeeded, a negative number only when all six failed;
    sending goes on, with the same bytes, while the error that [errno] holds
    after the line about the failed write was logged (whatever logging does
    to it) is that it was interrupted or that the socket is full; a failing
    option or half-close is only logged; and the process is ended exactly by a
    socket that cannot be created, or a [bind] or [listen] that fails. *)
Theorem socket_life_spec nonblock pf ops o :
  (∀ fd, Forall (op_ok fd) ops) →
  let create := SysSocket pf nonblock in
  let n := S (length (asked o)) in
  (failed kernel (length (asked o)) create ∧ socket_life nonblock pf ops o = Fault Aborted) ∨
  ∃ fd, kernel (length (asked o)) create = Ret fd ∧ (0 <= fd)%Z ∧
    ∃ done outs cs, asks_all fd n done outs cs ∧
      ((done = ops ∧ ∃ e, socket_life nonblock pf ops o = Ok (outs, mkOs e (asked o ++ create :: cs ++ [SysClose fd]))) ∨
       (∃ op rest c, ops = done ++ op :: rest ∧ fatal fd op = Some c ∧ failed kernel (n + length cs) c ∧
          socket_life nonblock pf ops o = Fault Aborted)).
Proof.
  intros Hok create n. unfold socket_life.
  assert (∀ o, (if nonblock then CreateNonBlockingSockOrDie else CreateBlockingSockOrDie) kernel pf o = CreateSockOrDie kernel nonblock pf o)
    as -> by (by destruct nonblock).
  unfold CreateSockOrDie, sys, failed. fold create. destruct (kernel (length (asked o)) create) as [fd|e] eqn:E; [|by left].
  destruct (decide (fd < 0)%Z) as [Hlt|Hge]; [by left|]. right. exists fd. split; [done|]. split; [lia|].
  cbn [mbind res_bind]. destruct (sock_ops_ask fd ops (mkOs (errno o) (asked o ++ [create])) (Hok fd)) as (dn & outs & cs & Ha & Hend).
  cbn [asked] in *. assert (length (asked o ++ [create]) = n) as El by (rewrite length_app; cbn; lia). rewrite El in *.
  exists dn, outs, cs. split; [done|]. destruct Hend as [(-> & e & ->)|(op & rest & c & -> & Hf & Hx & ->)].
  - left. split; [done|]. cbn [mbind res_bind]. unfold Socket_destroy, Close.
    destruct (ask_spec (SysClose fd) (mkOs e ((asked o ++ [create]) ++ cs))) as (ok & e' & Ea & _). cbn [sock_fd_]. rewrite Ea.
    exists e'. cbn [snd asked]. by rewrite <- !app_assoc.
  - right. by exists op, rest, c.
Qed.
End life.

(** ** A run *)

(** The kernel gives descriptor 5, refuses the first connection, and
    interrupts every second write. *)
Definition life_kernel (n : nat) (c : syscall) : answer :=
  match c with
  | SysSocket _ _ => Ret 5
  | SysConnect _ _ => if decide (n = 2) then Err 111 else Ret 0
  | SysWrite _ d => if Nat.odd n then Err EINTR else Ret (Z.of_nat (Nat.min (length d) 9))
  | SysRead _ len => Ret (Z.of_nat (Nat.min len 3))
  | _ => Ret 0
  end.
Definition life_data (n : nat) : bytes := B "abc".
Definition life_info (n : nat) : tcp_info := mkInfo 0 0 0 0 0 0 0 0 0 0 0 0.

Definition life_ops : list sock_op :=
  [OpNoDelay true; OpConnect 16; OpSend (B "hello") 4; OpRecv (B "12345") 5; OpShutDown].

Lemma socket_life_spec_witness : ∃ outs cs e,
  asks_all life_kernel life_info life_data (λ e, e) 5 1 life_ops outs cs ∧
  socket_life life_kernel life_info life_data (λ e, e) 2 false 2 life_ops (mkOs 0 []) =
    Ok (outs, mkOs e (SysSocket 2 false :: cs ++ [SysClose 5])) ∧
  outs = [NoOut; IntOut 0; IntOut 4; DataOut 3 (B "abc45"); NoOut] ∧
  cs = [SysSetSockOpt 5 SOL_TCP TCP_NODELAY 1; SysConnect 5 16; SysSleep 1; SysConnect 5 16;
        SysWrite 5 (B "hell"); SysWrite 5 (B "hell"); SysRead 5 5; SysShutdownWrite 5].
Proof.
  assert (∀ n fd d r, life_kernel n (SysWrite fd d) = Ret r → (0 <= r <= Z.of_nat (length d))%Z ∧ (r <= 2147479552)%Z) as Hw.
  { intros n fd d r E. cbn [life_kernel] in E. destruct (Nat.odd n); [done|]. injection E as <-. lia. }
  assert (∀ n fd len r, life_kernel n (SysRead fd len) = Ret r →
    (0 <= r <= Z.of_nat len)%Z ∧ (r <= 2147479552)%Z ∧ (r <= Z.of_nat (length (life_data n)))%Z) as Hr.
  { intros n fd len r E. cbn [life_kernel] in E. injection E as <-. change (length (life_data n)) with 3. lia. }
  assert (∀ n, info_ok (life_info n)) as Hi by (intros n; apply (bool_decide_unpack _); by vm_compute).
  assert (∀ fd, Forall (op_ok life_kernel (λ e, e) 2 fd) life_ops) as Hops.
  { intros fd. repeat constructor; cbn; try lia. intros n. destruct (Nat.odd n) eqn:E.
    - exists 1. split; [lia|]. unfold interrupted. cbn [life_kernel].
      rewrite Nat.add_1_r, Nat.odd_succ, <- Nat.negb_odd, E. cbn. tauto.
    - exists 0. split; [lia|]. unfold interrupted. cbn [life_kernel]. rewrite Nat.add_0_r, E. cbn. tauto. }
  pose proof (socket_life_spec life_kernel life_info life_data (λ e, e) 2 Hw Hr Hi false 2 life_ops (mkOs 0 []) Hops) as H.
  destruct H as [[Hf _]|(fd & Efd & _ & dn & outs & cs & Ha & Hend)]; [by vm_compute in Hf|].
  injection Efd as <-. destruct Hend as [(-> & e & E)|(op & rest & c & _ & _ & _ & E)]; [|by vm_compute in E].
  exists outs, cs, e. split; [exact Ha|]. split; [exact E|].
  vm_compute in E. injection E as <- _ E. symmetry in E. apply (app_inj_tail cs [_; _; _; _; _; _; _; _]) in E as [-> _]. by split.
Defined.
