(* ===== verification/Acceptor.v ===== *)
(** Accepting connections: [muzi/net/acceptor.h] and [acceptor.cc], and the
    wrappers of the system calls they use in [socket.h], [socket.cc] and
    [socket_ops.cc].  The answers of the system calls are arguments; the
    descriptors the process holds and the address objects it shares are
    state. *)

From S2P Require Import Prelude Poller TimerQueue Endian InetAddress.

Definition EINTR : Z := 4.
Definition EAGAIN : Z := 11.
Definition EMFILE : Z := 24.
Definition ECONNABORTED : Z := 103.

(** What [accept4] answers: a descriptor and the address of the peer, or an
    error.  After [EMFILE] the acceptor also calls [accept] and [open]: the
    descriptors they answer, if any, come along. *)
Inductive accept_answer :=
  | AConn (fd : Z) (k : bytes)
  | AEmfile (fd : option Z) (idle : option Z)
  | AErr (errno : Z).

Inductive sock_opt := SO_REUSEADDR | SO_REUSEPORT.

Section acceptor.
Context {A : Type} `{Address A}.

(** The descriptors that are open, the address objects made by [Copy], and
    the calls of the callback: the socket and which address object. *)
Record world := mkWorld {
  fds : gset Z;
  addrs : list A;
  given : list (Z * nat)
}.

Record Acceptor := mkAcceptor {
  accept_socket_ : Z;
  opts : list sock_opt;
  cb_ : bool;
  start_listen_cb_ : bool;
  local_addr_ : A;
  chanel_ : chan_abs;
  listening_ : bool;
  dummy_fd_ : Z;
  w : world
}.

(** *** The system calls *)

(** [socket::Close]: of a descriptor that is not open it only logs. *)
Definition Close (fd : Z) (x : world) : world := mkWorld (fds x ∖ {[fd]}) (addrs x) (given x).
Definition opened (fd : Z) (x : world) : world := mkWorld ({[fd]} ∪ fds x) (addrs x) (given x).

(** A wrapper that dies when its call fails: [CreateNonBlockingSockOrDie],
    [OpenIdleFile]. *)
Definition open_or_die (answer : option Z) (x : world) : res (Z * world) :=
  match answer with Some fd => Ok (fd, opened fd x) | None => Fault Aborted end.
Definition CreateNonBlockingSockOrDie : option Z → world → res (Z * world) := open_or_die.
Definition OpenIdleFile : option Z → world → res (Z * world) := open_or_die.

(** [Socket::BindAddress] and [Socket::Listen]. *)
Definition BindAddress (ok : bool) : res unit := if ok then Ok tt else Fault Aborted.
Definition Socket_Listen (ok : bool) : res unit := if ok then Ok tt else Fault Aborted.
Definition SetSockOpt (o : sock_opt) (on : bool) (l : list sock_opt) : list sock_opt := if on then l ++ [o] else l.

(** *** Setters *)

Definition set_world (f : world → world) (s : Acceptor) : Acceptor :=
  mkAcceptor (accept_socket_ s) (opts s) (cb_ s) (start_listen_cb_ s) (local_addr_ s) (chanel_ s)
    (listening_ s) (dummy_fd_ s) (f (w s)).
Definition set_dummy (fd : Z) (s : Acceptor) : Acceptor :=
  mkAcceptor (accept_socket_ s) (opts s) (cb_ s) (start_listen_cb_ s) (local_addr_ s) (chanel_ s)
    (listening_ s) fd (w s).
Definition set_chanel (c : chan_abs) (s : Acceptor) : Acceptor :=
  mkAcceptor (accept_socket_ s) (opts s) (cb_ s) (start_listen_cb_ s) (local_addr_ s) c
    (listening_ s) (dummy_fd_ s) (w s).
Definition set_listening (b : bool) (s : Acceptor) : Acceptor :=
  mkAcceptor (accept_socket_ s) (opts s) (cb_ s) (start_listen_cb_ s) (local_addr_ s) (chanel_ s)
    b (dummy_fd_ s) (w s).
Definition SetNewConnectionCallBack (b : bool) (s : Acceptor) : Acceptor :=
  mkAcceptor (accept_socket_ s) (opts s) b (start_listen_cb_ s) (local_addr_ s) (chanel_ s)
    (listening_ s) (dummy_fd_ s) (w s).
Definition SetStartListenCallback (b : bool) (s : Acceptor) : Acceptor :=
  mkAcceptor (accept_socket_ s) (opts s) (cb_ s) b (local_addr_ s) (chanel_ s)
    (listening_ s) (dummy_fd_ s) (w s).

(** *** The operations *)

(** [sock], [idle] and [bound]: the answers of [socket], [open] and
    [bind]. *)
Definition Acceptor_new (listen_addr : A) (reuse_port : bool) (sock idle : option Z) (bound : bool) (x : world) :
    res Acceptor :=
  '(fd, x) ← CreateNonBlockingSockOrDie sock x;
  '(dummy, x) ← OpenIdleFile idle x;
  let o := SetSockOpt SO_REUSEADDR true [] in
  let o := if reuse_port then SetSockOpt SO_REUSEPORT true o else o in
  _ ← BindAddress bound;
  Ok (mkAcceptor fd o false false listen_addr (mkAbs fd kNoneEvent Fresh) false dummy x).

Definition Listen (in_loop : bool) (listen_ok : bool) (s : Acceptor) : res Acceptor :=
  _ ← AssertInLoopThread in_loop;
  let s := set_listening true s in
  _ ← Socket_Listen listen_ok;
  c ← chan_enable_reading (chanel_ s);
  Ok (set_chanel c s).

Definition StopInLoop (in_loop : bool) (s : Acceptor) : res Acceptor :=
  _ ← AssertInLoopThread in_loop;
  c ← chan_disable_all (chanel_ s);
  c ← chan_remove c;
  Ok (set_chanel c s).

(** The destructor, in the loop; then those of the members: [~Channel]
    asserts that the poller has let the channel go, [~Socket] closes. *)
Definition Acceptor_destroy (in_loop : bool) (s : Acceptor) : res Acceptor :=
  s ← (if listening_ s then StopInLoop in_loop s else Ok s);
  let s := set_listening false s in
  let s := set_world (Close (dummy_fd_ s)) s in
  _ ← assert (negb (bool_decide (a_status (chanel_ s) = Registered)));
  Ok (set_world (Close (accept_socket_ s)) s).

(** [cb_(peer_sock, peer_addr)], or closing the socket. *)
Definition give (fd : Z) (addr : nat) (s : Acceptor) : Acceptor :=
  if cb_ s then set_world (λ x, mkWorld (fds x) (addrs x) (given x ++ [(fd, addr)])) s
  else set_world (Close fd) s.

(** The branch for [EMFILE]. *)
Definition shed (fd idle : option Z) (s : Acceptor) : res Acceptor :=
  let s := set_world (Close (dummy_fd_ s)) s in
  let s := match fd with
           | Some fd => set_dummy fd (set_world (opened fd) s)
           | None => set_dummy (-1) s
           end in
  let s := set_world (Close (dummy_fd_ s)) s in
  '(fd, x) ← OpenIdleFile idle (w s);
  Ok (set_dummy fd (set_world (λ _, x) s)).

(** The peer's address, written into the address object. *)
Definition write_peer (k : bytes) (addr : nat) (s : Acceptor) : res Acceptor :=
  a ← deref NullDeref (addrs (w s) !! addr);
  a ← WriteAddr (Accept_addr k) a;
  Ok (set_world (λ x, mkWorld (fds x) (<[addr := a]> (addrs x)) (given x)) s).

(** The loop of [HandleRead] with the tests of [socket::Accept]; when there
    are no more answers, there is no more connection ([EAGAIN]). *)
Fixpoint accept_loop (addr : nat) (answers : list accept_answer) (s : Acceptor) : res Acceptor :=
  match answers with
  | [] => Ok s
  | AConn fd k :: answers =>
      s ← write_peer k addr (set_world (opened fd) s);
      if decide (fd = 0%Z) then Ok s else accept_loop addr answers (give fd addr s)
  | AEmfile fd idle :: answers => s ← shed fd idle s; accept_loop addr answers s
  | AErr e :: answers =>
      if decide (e = EAGAIN) then Ok s
      else if decide (e = EINTR ∨ e = ECONNABORTED) then accept_loop addr answers (give (-1) addr s)
      else Fault Aborted
  end.

Definition HandleRead (in_loop : bool) (answers : list accept_answer) (s : Acceptor) : res Acceptor :=
  _ ← AssertInLoopThread in_loop;
  let addr := length (addrs (w s)) in
  let s := set_world (λ x, mkWorld (fds x) (addrs x ++ [Copy (local_addr_ s)]) (given x)) s in
  accept_loop addr answers s.
End acceptor.
Arguments world : clear implicits.
Arguments Acceptor : clear implicits.

(** ** What the kernel answers *)

(** The answers with which the loop of [HandleRead] ends: no connection is
    left, or descriptor 0. *)
Definition ends (a : accept_answer) : bool :=
  match a with AConn fd _ => (fd =? 0)%Z | AErr e => (e =? EAGAIN)%Z | AEmfile _ _ => false end.

(** Those with which the process aborts: an error not foreseen, or no idle
    descriptor any more. *)
Definition fatal (a : accept_answer) : bool :=
  match a with
  | AErr e => negb (bool_decide (e ∈ [EAGAIN; EINTR; ECONNABORTED]))
  | AEmfile _ None => true
  | _ => false
  end.

(** What the callback is given: the sockets, but not descriptor 0, and -1 for
    an [accept4] that was interrupted or aborted. *)
Definition handed (answers : list accept_answer) : list Z :=
  omap (λ a, match a with
             | AConn fd _ => if (fd =? 0)%Z then None else Some fd
             | AErr e => if bool_decide (e ∈ [EINTR; ECONNABORTED]) then Some (-1)%Z else None
             | AEmfile _ _ => None
             end) answers.

(** The sockets that stay open: those given to the callback, and descriptor 0,
    which nobody closes. *)
Definition left_open (cb : bool) (answers : list accept_answer) : list Z :=
  omap (λ a, match a with AConn fd _ => if cb || (fd =? 0)%Z then Some fd else None | _ => None end) answers.

Definition peers (answers : list accept_answer) : list bytes :=
  omap (λ a, match a with AConn _ k => Some k | _ => None end) answers.

(** What the peers leave in the memory of the address object. *)
Definition peer_mem (m : bytes) (answers : list accept_answer) : bytes :=
  foldl (λ m k, overwrite 0 (take sizeof_sockaddr k) m) m (peers answers).

(** The open descriptors and the idle one after an answer; [cb]: the sockets
    are kept. *)
Definition fds_step (cb : bool) (a : accept_answer) (p : gset Z * Z) : gset Z * Z :=
  let '(F, d) := p in
  match a with
  | AConn fd _ => (if cb || (fd =? 0)%Z then {[fd]} ∪ F else F, d)
  | AEmfile _ idle => match idle with Some i => ({[i]} ∪ F ∖ {[d]}, i) | None => (F, d) end
  | AErr _ => (F, d)
  end.

(** A new descriptor is not in use, and not negative; the address of the peer
    is of the family of the socket.  The errors are any. *)
Definition answer_ok (family : res Z) (p : gset Z * Z) (a : accept_answer) : Prop :=
  let '(F, d) := p in
  match a with
  | AConn fd k => (fd ∉ F) ∧ (0 <= fd)%Z ∧ sa_family k = family ∧ 2 ≤ length k
  | AEmfile fd idle =>
      (∀ i, idle = Some i → (i ∉ F ∖ {[d]}) ∧ (0 <= i)%Z) ∧ (∀ c, fd = Some c → (c ∉ F ∖ {[d]}) ∧ (0 <= c)%Z)
  | AErr _ => True
  end.

(** The answers of one [HandleRead]: none after the one that ends it. *)
Fixpoint answers_ok (cb : bool) (family : res Z) (p : gset Z * Z) (answers : list accept_answer) : Prop :=
  match answers with
  | [] => True
  | a :: answers =>
      answer_ok family p a ∧ (ends a || fatal a = true → answers = []) ∧ answers_ok cb family (fds_step cb a p) answers
  end.

Definition fds_after (cb : bool) (p : gset Z * Z) (answers : list accept_answer) : gset Z * Z :=
  foldl (λ p a, fds_step cb a p) p answers.

Fixpoint reads_ok (cb : bool) (family : res Z) (p : gset Z * Z) (reads : list (list accept_answer)) : Prop :=
  match reads with
  | [] => True
  | r :: reads => answers_ok cb family p r ∧ reads_ok cb family (fds_after cb p r) reads
  end.

Section proofs.
Context {A : Type} `{Address A} {ok : A → Prop} `{!AddressLaws A ok}.
Implicit Types s : Acceptor A.

Definition pool (s : Acceptor A) : gset Z * Z := (fds (w s), dummy_fd_ s).

(** What accepting leaves alone. *)
Record same_but_fds (s s' : Acceptor A) : Prop := {
  sb_socket : accept_socket_ s' = accept_socket_ s;
  sb_cb : cb_ s' = cb_ s;
  sb_local : local_addr_ s' = local_addr_ s;
  sb_chanel : chanel_ s' = chanel_ s;
  sb_listening : listening_ s' = listening_ s
}.

Lemma same_refl s : same_but_fds s s.
Proof. done. Qed.

Lemma same_trans s1 s2 s3 : same_but_fds s1 s2 → same_but_fds s2 s3 → same_but_fds s1 s3.
Proof. intros [] []. split; congruence. Qed.

Lemma sa_family_take k : 2 ≤ length k → sa_family (take sizeof_sockaddr k) = sa_family k.
Proof.
  intros Hk. unfold sa_family, read_u16. f_equal. rewrite !read_at_ok by (rewrite ?length_take; mem_len).
  f_equal. by rewrite !drop_0, take_take.
Qed.

Lemma write_peer_spec k i s a :
  addrs (w s) !! i = Some a → ok a → sa_family k = GetFamily a → 2 ≤ length k →
  ∃ s' a', write_peer k i s = Ok s' ∧ same_but_fds s s' ∧ pool s' = pool s ∧ given (w s') = given (w s) ∧
    addrs (w s') = <[i := a']> (addrs (w s)) ∧ ok a' ∧ GetFamily a' = GetFamily a ∧
    GetAddr a' = overwrite 0 (take sizeof_sockaddr k) (GetAddr a).
Proof.
  intros Hi Ha Hk Hl. unfold write_peer. rewrite Hi. cbn [deref mbind res_bind].
  destruct (law_write a (take sizeof_sockaddr k) Ha) as (a' & E & Ha' & Ef & Em).
  { rewrite length_take. mem_len. }
  { by rewrite sa_family_take. }
  change (Accept_addr k) with (write_mem 0 (take sizeof_sockaddr k)). rewrite E. cbn [mbind res_bind].
  by eexists _, a'.
Qed.

Lemma give_spec fd i s :
  same_but_fds s (give fd i s) ∧ dummy_fd_ (give fd i s) = dummy_fd_ s ∧ addrs (w (give fd i s)) = addrs (w s) ∧
  fds (w (give fd i s)) = (if cb_ s then fds (w s) else fds (w s) ∖ {[fd]}) ∧
  given (w (give fd i s)) = given (w s) ++ (if cb_ s then [(fd, i)] else []).
Proof. unfold give. destruct (cb_ s) eqn:E; (split; [by split|]); cbn; by rewrite ?app_nil_r. Qed.

(** The branch for [EMFILE] closes one pending connection and ends with an
    idle descriptor again. *)
Lemma shed_spec fd i s :
  answer_ok (Ok 0%Z) (pool s) (AEmfile fd (Some i)) → dummy_fd_ s ∈ fds (w s) → (-1)%Z ∉ fds (w s) →
  ∃ s', shed fd (Some i) s = Ok s' ∧ same_but_fds s s' ∧ pool s' = fds_step (cb_ s) (AEmfile fd (Some i)) (pool s) ∧
    addrs (w s') = addrs (w s) ∧ given (w s') = given (w s).
Proof.
  intros [Hi Hc] Hd Hm. destruct (Hi i eq_refl) as [Hi' _]. unfold shed.
  destruct fd as [c|]; [destruct (Hc c eq_refl) as [Hc' _]|]; cbn [OpenIdleFile open_or_die mbind res_bind]; (eexists; split; [reflexivity|]);
    (split; [by split|]); (split; [|done]); unfold pool; cbn; f_equal; apply leibniz_equiv; set_solver.
Qed.

(** Accepting one connection. *)
Lemma accept_one fd k i s a :
  addrs (w s) !! i = Some a → ok a → answer_ok (GetFamily a) (pool s) (AConn fd k) → (fd =? 0)%Z = false →
  ∃ s1 a1, write_peer k i (set_world (opened fd) s) = Ok s1 ∧ same_but_fds s (give fd i s1) ∧
    pool (give fd i s1) = fds_step (cb_ s) (AConn fd k) (pool s) ∧
    addrs (w (give fd i s1)) = <[i := a1]> (addrs (w s)) ∧ ok a1 ∧ GetFamily a1 = GetFamily a ∧
    GetAddr a1 = overwrite 0 (take sizeof_sockaddr k) (GetAddr a) ∧
    given (w (give fd i s1)) = given (w s) ++ (if cb_ s then [(fd, i)] else []).
Proof.
  intros Hi Ha (Hf & _ & Hk & Hl) Hz.
  destruct (write_peer_spec k i (set_world (opened fd) s) a Hi Ha Hk Hl) as (s1 & a1 & E & Hs1 & Hp1 & Hg1 & Had1 & Ha1 & Ef1 & Em1).
  destruct (give_spec fd i s1) as (Hs2 & Hd2 & Had2 & Hf2 & Hg2).
  injection Hp1 as Hf1 Hd1. cbn in Hf1, Hd1, Hg1, Had1.
  assert (cb_ s1 = cb_ s) as Ecb by by destruct Hs1. rewrite Ecb in Hf2, Hg2.
  exists s1, a1. split_and!; try done; [|unfold pool| |].
  - apply (same_trans s s1); [|done]. by destruct Hs1.
  - cbn [fds_step]. rewrite Hd2, Hf2, Hd1, Hf1, Hz, orb_false_r. destruct (cb_ s); [done|]. f_equal. apply leibniz_equiv. set_solver.
  - by rewrite Had2, Had1.
  - by rewrite Hg2, Hg1.
Qed.

(** What an answer leaves open. *)
Lemma fds_step_pool family cb a F d :
  answer_ok family (F, d) a → fatal a = false → d ∈ F → (-1)%Z ∉ F →
  (fds_step cb a (F, d)).2 ∈ (fds_step cb a (F, d)).1 ∧ (-1)%Z ∉ (fds_step cb a (F, d)).1.
Proof.
  intros Ha Hf Hd Hm. destruct a as [fd k|fd [i|]|e]; cbn [fds_step fatal] in *; try done.
  - destruct Ha as (_ & Hfd & _). destruct (_ || _); cbn; [|done].
    split; [set_solver|]. apply not_elem_of_union. split; [|done]. apply not_elem_of_singleton. lia.
  - destruct Ha as [Hi _]. destruct (Hi i eq_refl) as [_ Hi']. cbn. split; [set_solver|].
    apply not_elem_of_union. split; [apply not_elem_of_singleton; lia|set_solver].
Qed.

Lemma accept_loop_spec answers : ∀ i s a,
  addrs (w s) !! i = Some a → ok a → dummy_fd_ s ∈ fds (w s) → (-1)%Z ∉ fds (w s) →
  answers_ok (cb_ s) (GetFamily a) (pool s) answers →
  if existsb fatal answers then accept_loop i answers s = Fault Aborted else
  ∃ s' a', accept_loop i answers s = Ok s' ∧ same_but_fds s s' ∧ pool s' = fds_after (cb_ s) (pool s) answers ∧
    dummy_fd_ s' ∈ fds (w s') ∧ (-1)%Z ∉ fds (w s') ∧
    addrs (w s') = <[i := a']> (addrs (w s)) ∧ ok a' ∧ GetAddr a' = peer_mem (GetAddr a) answers ∧
    given (w s') = given (w s) ++ (if cb_ s then (λ fd, (fd, i)) <$> handed answers else []).
Proof.
  induction answers as [|x answers IH]; intros i s a Hi Ha Hd Hm Hok; cbn [accept_loop existsb].
  { exists s, a. rewrite list_insert_id by done. split_and!; try done. by destruct (cb_ s); rewrite app_nil_r. }
  destruct Hok as (Hx & Hend & Hok). destruct (fatal x) eqn:Efat; cbn [orb].
  { destruct x as [fd k|fd [i'|]|e]; cbn [fatal] in Efat; try done.
    apply negb_true_iff, bool_decide_eq_false in Efat. rewrite !elem_of_cons in Efat. by rewrite !decide_False by tauto. }
  destruct (fds_step_pool (GetFamily a) (cb_ s) x _ _ Hx Efat Hd Hm) as [Hd1 Hm1].
  (* after an answer that does not end the loop *)
  assert (∀ s1 a1 (g : list Z), ends x = false → same_but_fds s s1 → pool s1 = fds_step (cb_ s) x (pool s) →
    addrs (w s1) = <[i := a1]> (addrs (w s)) → ok a1 → GetFamily a1 = GetFamily a →
    GetAddr a1 = peer_mem (GetAddr a) [x] → handed [x] = g →
    given (w s1) = given (w s) ++ (if cb_ s then (λ fd, (fd, i)) <$> g else []) →
    if existsb fatal answers then accept_loop i answers s1 = Fault Aborted else
    ∃ s' a', accept_loop i answers s1 = Ok s' ∧ same_but_fds s s' ∧ pool s' = fds_after (cb_ s) (pool s) (x :: answers) ∧
      dummy_fd_ s' ∈ fds (w s') ∧ (-1)%Z ∉ fds (w s') ∧
      addrs (w s') = <[i := a']> (addrs (w s)) ∧ ok a' ∧ GetAddr a' = peer_mem (GetAddr a) (x :: answers) ∧
      given (w s') = given (w s) ++ (if cb_ s then (λ fd, (fd, i)) <$> handed (x :: answers) else [])) as Hgo.
  { intros s1 a1 g Hends Hs1 Hp1 Had1 Ha1 Ef1 Em1 Hh Hg1.
    assert (fds (w s1) = (fds_step (cb_ s) x (pool s)).1 ∧ dummy_fd_ s1 = (fds_step (cb_ s) x (pool s)).2) as [Hpf Hpd] by (by rewrite <- Hp1).
    specialize (IH i s1 a1). rewrite (sb_cb _ _ Hs1), Had1, Ef1 in IH.
    rewrite Hp1, Hpf, Hpd in IH.
    specialize (IH ltac:(apply list_lookup_insert_eq; by eapply lookup_lt_Some) Ha1 Hd1 Hm1 Hok).
    destruct (existsb fatal answers); [done|]. destruct IH as (s' & a' & E' & Hs' & Hp' & Hd' & Hm' & Had' & Ha' & Em' & Hg').
    exists s', a'. split_and!; try done.
    - by apply (same_trans s s1).
    - by rewrite Had', list_insert_insert_eq.
    - rewrite Em', Em1. unfold peer_mem. rewrite <- foldl_app. unfold peers. cbn [omap list_omap]. by destruct x.
    - rewrite Hg', Hg1, <- app_assoc. destruct (cb_ s); [|done]. f_equal. rewrite <- fmap_app, <- Hh. unfold handed.
      cbn [omap list_omap]. by destruct (match x with AConn _ _ => _ | AEmfile _ _ => _ | AErr _ => _ end). }
  assert (ends x = true → answers = []) as Hlast by (intros Ee; apply Hend; by rewrite Ee).
  destruct x as [fd k|fd [i'|]|e]; cbn [ends fatal] in *; try done.
  - destruct (fd =? 0)%Z eqn:Ez.
    + apply Z.eqb_eq in Ez as ->. rewrite (Hlast eq_refl). cbn [existsb].
      destruct Hx as (Hf & _ & Hk & Hl).
      destruct (write_peer_spec k i (set_world (opened 0) s) a Hi Ha Hk Hl) as (s1 & a1 & E & Hs1 & Hp1 & Hg1 & Had1 & Ha1 & _ & Em1).
      rewrite E. cbn [mbind res_bind]. rewrite decide_True by done. injection Hp1 as Hf1 Hd1'. exists s1, a1.
      split_and!; try done; [by destruct Hs1|..].
      * unfold pool. cbn. rewrite orb_true_r, Hf1, Hd1'. done.
      * rewrite Hf1, Hd1'. cbn. set_solver.
      * rewrite Hf1. cbn. set_solver.
      * cbn. destruct (cb_ s); by rewrite app_nil_r.
    + destruct (accept_one fd k i s a Hi Ha Hx Ez) as (s1 & a1 & E & Hs1 & Hp1 & Had1 & Ha1 & Ef1 & Em1 & Hg1).
      rewrite E. cbn [mbind res_bind]. rewrite decide_False by (by apply Z.eqb_neq).
      apply (Hgo (give fd i s1) a1 [fd]); try done. unfold handed. cbn [omap list_omap]. by rewrite Ez.
  - destruct (shed_spec fd i' s Hx Hd Hm) as (s1 & E & Hs1 & Hp1 & Had1 & Hg1). rewrite E. cbn [mbind res_bind].
    apply (Hgo s1 a []); try done; [by rewrite Had1, list_insert_id|]. rewrite Hg1. destruct (cb_ s); by rewrite app_nil_r.
  - apply negb_false_iff, bool_decide_eq_true in Efat. destruct (e =? EAGAIN)%Z eqn:Ee.
    + apply Z.eqb_eq in Ee as ->. rewrite (Hlast eq_refl). cbn [existsb]. rewrite decide_True by done. exists s, a.
      rewrite list_insert_id by done. split_and!; try done. by destruct (cb_ s); rewrite app_nil_r.
    + apply Z.eqb_neq in Ee. rewrite elem_of_cons in Efat. destruct Efat as [|Efat]; [done|].
      rewrite decide_False by done.
      assert (e = EINTR ∨ e = ECONNABORTED) as He by (rewrite !elem_of_cons, elem_of_nil in Efat; tauto).
      rewrite decide_True by done. destruct (give_spec (-1) i s) as (Hs2 & Hd2 & Had2 & Hf2 & Hg2).
      apply (Hgo (give (-1) i s) a [(-1)%Z]); try done.
      * unfold pool. cbn. rewrite Hd2, Hf2. destruct (cb_ s); [done|]. f_equal. apply leibniz_equiv. set_solver.
      * by rewrite Had2, list_insert_id.
      * unfold handed. cbn [omap list_omap]. by rewrite bool_decide_true.
Qed.

(** ** The life of an acceptor *)

Fixpoint run_reads (reads : list (list accept_answer)) (s : Acceptor A) : res (Acceptor A) :=
  match reads with
  | [] => Ok s
  | r :: reads => s ← HandleRead true r s; run_reads reads s
  end.

(** The calls of the callback: those of one [HandleRead] share one address
    object. *)
Fixpoint calls (n : nat) (reads : list (list accept_answer)) : list (Z * nat) :=
  match reads with
  | [] => []
  | r :: reads => ((λ fd, (fd, n)) <$> handed r) ++ calls (S n) reads
  end.

Definition aborts (reads : list (list accept_answer)) : bool := existsb (existsb fatal) reads.

Lemma acceptor_HandleRead_spec r s :
  ok (local_addr_ s) → dummy_fd_ s ∈ fds (w s) → (-1)%Z ∉ fds (w s) →
  answers_ok (cb_ s) (GetFamily (local_addr_ s)) (pool s) r →
  if existsb fatal r then HandleRead true r s = Fault Aborted else
  ∃ s', HandleRead true r s = Ok s' ∧ same_but_fds s s' ∧ pool s' = fds_after (cb_ s) (pool s) r ∧
    dummy_fd_ s' ∈ fds (w s') ∧ (-1)%Z ∉ fds (w s') ∧ length (addrs (w s')) = S (length (addrs (w s))) ∧
    (∃ a', addrs (w s') !! length (addrs (w s)) = Some a' ∧ GetAddr a' = peer_mem (GetAddr (local_addr_ s)) r) ∧
    given (w s') = given (w s) ++ (if cb_ s then (λ fd, (fd, length (addrs (w s)))) <$> handed r else []).
Proof.
  intros Ha Hd Hm Hr. unfold HandleRead. cbn [AssertInLoopThread assert mbind res_bind].
  set (s0 := set_world _ s).
  pose proof (accept_loop_spec r (length (addrs (w s))) s0 (local_addr_ s)) as Hloop.
  assert (addrs (w s0) !! length (addrs (w s)) = Some (local_addr_ s)) as Hi0.
  { cbn. rewrite law_copy, lookup_app_r, Nat.sub_diag by lia. done. }
  specialize (Hloop Hi0 Ha Hd Hm Hr). destruct (existsb fatal r); [done|].
  destruct Hloop as (s' & a' & E & Hs & Hp & Hd' & Hm' & Had & _ & Em & Hg). exists s'.
  split_and!; try done; [by destruct Hs| |].
  { rewrite Had, length_insert. cbn. rewrite length_app. cbn. lia. }
  exists a'. split; [|done]. rewrite Had. apply list_lookup_insert_eq. cbn. rewrite length_app. cbn. lia.
Qed.

Lemma run_reads_spec reads : ∀ s,
  ok (local_addr_ s) → dummy_fd_ s ∈ fds (w s) → (-1)%Z ∉ fds (w s) →
  reads_ok (cb_ s) (GetFamily (local_addr_ s)) (pool s) reads →
  if aborts reads then run_reads reads s = Fault Aborted else
  ∃ s', run_reads reads s = Ok s' ∧ same_but_fds s s' ∧ dummy_fd_ s' ∈ fds (w s') ∧
    pool s' = foldl (fds_after (cb_ s)) (pool s) reads ∧
    given (w s') = given (w s) ++ (if cb_ s then calls (length (addrs (w s))) reads else []).
Proof.
  induction reads as [|r reads IH]; intros s Ha Hd Hm Hr.
  { exists s. split_and!; try done. by destruct (cb_ s); rewrite app_nil_r. }
  destruct Hr as [Hr Hrs]. pose proof (acceptor_HandleRead_spec r s Ha Hd Hm Hr) as Hread.
  unfold aborts. cbn [existsb run_reads]. destruct (existsb fatal r); cbn [orb]; [by rewrite Hread|].
  destruct Hread as (s1 & E & Hs1 & Hp1 & Hd1 & Hm1 & Hl1 & _ & Hg1). rewrite E. cbn [mbind res_bind].
  specialize (IH s1). rewrite (sb_local _ _ Hs1), (sb_cb _ _ Hs1), Hp1 in IH. specialize (IH Ha Hd1 Hm1 Hrs). unfold aborts in IH.
  destruct (existsb (existsb fatal) reads); [done|]. destruct IH as (s' & E' & Hs' & Hd' & Hp' & Hg').
  exists s'. split_and!; try done; [by apply (same_trans s s1)|].
  rewrite Hg', Hg1, Hl1, <- app_assoc. by destruct (cb_ s).
Qed.

(** What stays open besides the idle descriptor. *)
Lemma fds_after_held cb answers : ∀ family F d,
  d ∈ F → (-1)%Z ∉ F → answers_ok cb family (F, d) answers → existsb fatal answers = false →
  let '(F', d') := fds_after cb (F, d) answers in
  d' ∈ F' ∧ (-1)%Z ∉ F' ∧ F' ∖ {[d']} = list_to_set (left_open cb answers) ∪ F ∖ {[d]} ∧
    list_to_set (left_open cb answers) ## F ∖ {[d]}.
Proof.
  induction answers as [|x answers IH]; intros family F d Hd Hm Hok Hfat.
  { cbn. split_and!; [done|done|apply leibniz_equiv; set_solver|set_solver]. }
  destruct Hok as (Hx & _ & Hok). cbn [existsb] in Hfat. apply orb_false_iff in Hfat as [Hfx Hfat].
  pose proof (fds_step_pool family cb x F d Hx Hfx Hd Hm) as Hstep.
  cbn [fds_after foldl]. fold (fds_after cb). destruct (fds_step cb x (F, d)) as [F1 d1] eqn:E1. cbn [fst snd] in Hstep.
  destruct Hstep as [Hd1 Hm1]. specialize (IH family F1 d1 Hd1 Hm1 Hok Hfat). unfold fds_after in *.
  destruct (foldl _ _ answers) as [F' d']. destruct IH as (? & ? & -> & Hdis). split; [done|]. split; [done|].
  destruct x as [fd k|fd [i|]|e]; cbn [fds_step left_open omap list_omap] in *; [..|done|];
    change (omap _ answers) with (left_open cb answers).
  - destruct Hx as (Hf & _). destruct (cb || (fd =? 0)%Z); injection E1 as <- <-;
      (split; [apply leibniz_equiv; cbn; set_solver|cbn; set_solver]).
  - destruct Hx as [Hi _]. destruct (Hi i eq_refl) as [Hi' _]. injection E1 as <- <-.
    split; [apply leibniz_equiv; set_solver|set_solver].
  - injection E1 as <- <-. done.
Qed.

Lemma reads_held cb reads : ∀ family F d,
  d ∈ F → (-1)%Z ∉ F → reads_ok cb family (F, d) reads → aborts reads = false →
  let '(F', d') := foldl (fds_after cb) (F, d) reads in
  d' ∈ F' ∧ F' ∖ {[d']} = list_to_set (reads ≫= left_open cb) ∪ F ∖ {[d]} ∧
    list_to_set (reads ≫= left_open cb) ## F ∖ {[d]}.
Proof.
  induction reads as [|r reads IH]; intros family F d Hd Hm Hok Hfat.
  { cbn. split; [done|]. split; [apply leibniz_equiv; set_solver|set_solver]. }
  destruct Hok as [Hr Hrs]. unfold aborts in Hfat. cbn [existsb] in Hfat. apply orb_false_iff in Hfat as [Hfr Hfat].
  pose proof (fds_after_held cb r family F d Hd Hm Hr Hfr) as H1. cbn [foldl].
  destruct (fds_after cb (F, d) r) as [F1 d1] eqn:E1. destruct H1 as (Hd1 & Hm1 & E1' & H1).
  specialize (IH family F1 d1 Hd1 Hm1 Hrs Hfat). destruct (foldl _ _ reads) as [F' d']. destruct IH as (? & -> & IH).
  split; [done|]. rewrite E1' in *. cbn [mbind list_bind]. rewrite list_to_set_app_L.
  split; [apply leibniz_equiv; set_solver|set_solver].
Qed.

(** C23: whatever [accept4] answers, and however often the process runs out of
    descriptors, an acceptor gives its callback each accepted socket once and
    in order, and when it is destroyed the descriptors left open are those
    that were open before it and the sockets it gave; but the callback also
    gets -1 for each call that was interrupted or aborted, a connection with
    descriptor 0 is neither given nor closed and ends the reading
    ([handed], [left_open]), and an error that is not foreseen, or no idle
    descriptor any more, aborts the process ([fatal]). *)
Theorem acceptor_runs addr reuse_port cb start_cb sock idle x reads :
  ok addr → sock ∉ fds x → idle ∉ {[sock]} ∪ fds x → (-1)%Z ∉ {[idle]} ∪ ({[sock]} ∪ fds x) →
  reads_ok cb (GetFamily addr) ({[idle]} ∪ ({[sock]} ∪ fds x), idle) reads →
  let result :=
    s ← Acceptor_new addr reuse_port (Some sock) (Some idle) true x;
    s ← Listen true true (SetNewConnectionCallBack cb (SetStartListenCallback start_cb s));
    s ← run_reads reads s;
    Acceptor_destroy true s in
  if aborts reads then result = Fault Aborted else
  ∃ s, result = Ok s ∧
    given (w s) = given x ++ (if cb then calls (length (addrs x)) reads else []) ∧
    fds (w s) = list_to_set (reads ≫= left_open cb) ∪ fds x ∧
    listening_ s = false.
Proof.
  intros Ha Hsock Hidle Hm Hr. cbv zeta. unfold Acceptor_new, CreateNonBlockingSockOrDie, OpenIdleFile, open_or_die.
  cbn [mbind res_bind BindAddress]. unfold Listen. cbn [AssertInLoopThread assert mbind res_bind Socket_Listen].
  cbn [SetNewConnectionCallBack SetStartListenCallback set_listening chanel_ chan_enable_reading chan_update a_status mbind res_bind].
  set (s0 := set_chanel _ _).
  pose proof (run_reads_spec reads s0 Ha ltac:(set_solver) Hm Hr) as Hruns. destruct (aborts reads) eqn:Eab; [by rewrite Hruns|].
  destruct Hruns as (s1 & -> & Hs1 & Hd1 & Hp1 & Hg1).
  cbn [mbind res_bind]. unfold Acceptor_destroy. rewrite (sb_listening _ _ Hs1). cbn [listening_ s0 set_chanel].
  unfold StopInLoop. cbn [AssertInLoopThread assert mbind res_bind]. rewrite (sb_chanel _ _ Hs1).
  cbn [s0 set_chanel chanel_ chan_disable_all chan_update a_status mbind res_bind].
  unfold chan_remove. rewrite bool_decide_true by done. cbn [mbind res_bind a_fd a_events].
  eexists. split; [reflexivity|].
  cbn [w fds given listening_]. split; [exact Hg1|]. split; [|done].
  pose proof (reads_held cb reads (GetFamily addr) ({[idle]} ∪ ({[sock]} ∪ fds x)) idle ltac:(set_solver) Hm Hr Eab) as Hh.
  change (cb_ s0) with cb in Hp1. change (pool s0) with ({[idle]} ∪ ({[sock]} ∪ fds x), idle) in Hp1.
  rewrite <- Hp1 in Hh. cbn in Hh. destruct Hh as (_ & Hh & Hdis). cbn. rewrite Hh. rewrite (sb_socket _ _ Hs1). cbn.
  apply leibniz_equiv. set_solver.
Qed.

Lemma peer_mem_last m answers k :
  last (peers answers) = Some k → sizeof_sockaddr ≤ length k → sizeof_sockaddr ≤ length m →
  take sizeof_sockaddr (peer_mem m answers) = take sizeof_sockaddr k.
Proof.
  intros Hk Hl Hm. unfold peer_mem. apply last_Some in Hk as [l ->]. rewrite foldl_snoc.
  set (m' := foldl _ m l). assert (sizeof_sockaddr ≤ length m') as Hm'.
  { unfold m'. clear -Hm. revert m Hm. induction l as [|x l IH]; intros m Hm; [done|]. cbn [foldl]. apply IH.
    rewrite length_overwrite; [done|]. rewrite length_take. lia. }
  apply take_overwrite_self; rewrite ?length_take; lia.
Qed.

(** All the connections accepted by one [HandleRead] carry the same
    address object, and it holds the address of the last of them. *)
Theorem accept_shares_address r s k :
  ok (local_addr_ s) → sizeof_sockaddr ≤ length (GetAddr (local_addr_ s)) → dummy_fd_ s ∈ fds (w s) → (-1)%Z ∉ fds (w s) → cb_ s = true →
  existsb fatal r = false → answers_ok true (GetFamily (local_addr_ s)) (pool s) r → last (peers r) = Some k → sizeof_sockaddr ≤ length k →
  ∃ s' n a, HandleRead true r s = Ok s' ∧ given (w s') = given (w s) ++ ((λ fd, (fd, n)) <$> handed r) ∧
    addrs (w s') !! n = Some a ∧ take sizeof_sockaddr (GetAddr a) = take sizeof_sockaddr k.
Proof.
  intros Ha Hm Hd Hn Hcb Hf Hr Hk Hl. pose proof (acceptor_HandleRead_spec r s Ha Hd Hn) as Hread. rewrite Hcb, Hf in Hread.
  destruct (Hread Hr) as (s' & E & _ & _ & _ & _ & _ & (a & Ea & Em) & Hg). exists s', (length (addrs (w s))), a. split_and!; [done|done|done|].
  rewrite Em. by apply peer_mem_last.
Qed.
End proofs.

(** ** Examples *)

#[local] Instance example_address : Address InetAddress := InetAddress_Address ntop_example (replicate 64 nul).
#[local] Instance example_laws : AddressLaws InetAddress wf := InetAddress_laws ntop_example (replicate 64 nul).

(** 0.0.0.0:80, and the peers 10.0.0.[x]:[40000]. *)
Definition listen_example : InetAddress := mkInet (["002"; "000"; "000"; "080"]%char ++ replicate 24 nul).
Definition peer_example (x : ascii) : bytes := ["002"; "000"; "156"; "064"; "010"; "000"; "000"; x]%char ++ replicate 8 nul.

Definition reads_example : list (list accept_answer) :=
  [[AConn 5 (peer_example "001"); AEmfile (Some 4%Z) (Some 4%Z); AErr EINTR; AConn 6 (peer_example "002")]; [AErr EAGAIN];
   [AEmfile None (Some 4%Z); AConn 7 (peer_example "003"); AErr EAGAIN]].

Lemma listen_example_wf : wf listen_example.
Proof. split; [done|]. exists AF_INET. split; [by vm_compute|by left]. Qed.

Ltac answers_ok_solve := repeat first
  [ exact I | reflexivity | progress cbn [answer_ok fds_step fds_after foldl]
  | match goal with
    | |- _ ∧ _ => split
    | |- ∀ i, Some ?j = Some i → _ => intros ? [= <-]
    | |- ∀ i, None = Some i → _ => discriminate
    | |- (ends _ || fatal _ = true → _) => first [intros _; reflexivity | let E := fresh in intros E; vm_compute in E; discriminate E]
    | |- (_ <= _)%Z => lia
    | |- _ ≤ _ => vm_compute; lia
    end
  | apply (bool_decide_unpack _); vm_compute; exact I ].

Lemma acceptor_runs_witness :
  ∃ s, (s ← Acceptor_new listen_example true (Some 3%Z) (Some 4%Z) true (mkWorld {[0%Z; 1%Z; 2%Z]} [] []);
        s ← Listen true true (SetNewConnectionCallBack true (SetStartListenCallback false s));
        s ← run_reads reads_example s;
        Acceptor_destroy true s) = Ok s ∧
    given (w s) = [(5%Z, 0); ((-1)%Z, 0); (6%Z, 0); (7%Z, 2)] ∧ listening_ s = false.
Proof.
  pose proof (acceptor_runs listen_example true true false 3 4 (mkWorld {[0%Z; 1%Z; 2%Z]} [] []) reads_example) as H.
  cbv zeta in H. replace (aborts reads_example) with false in H by (vm_compute; reflexivity).
  destruct H as (s & E & Hg & _ & Hl).
  - exact listen_example_wf.
  - apply (bool_decide_unpack _). vm_compute. exact I.
  - apply (bool_decide_unpack _). vm_compute. exact I.
  - apply (bool_decide_unpack _). vm_compute. exact I.
  - cbn [reads_example reads_ok answers_ok]. answers_ok_solve.
  - exists s. split; [exact E|]. split; [rewrite Hg; reflexivity|exact Hl].
Defined.

(** Two clients, and both connections get the address of the second. *)
Definition two_clients : Acceptor InetAddress :=
  mkAcceptor 3 [] true false listen_example (mkAbs 3 kReadEvent Registered) true 4
    (mkWorld {[0%Z; 1%Z; 2%Z; 3%Z; 4%Z]} [] []).

Lemma accept_shares_address_witness :
  ∃ s n a, HandleRead true [AConn 5 (peer_example "001"); AConn 6 (peer_example "002"); AErr EAGAIN] two_clients = Ok s ∧
    given (w s) = [(5%Z, n); (6%Z, n)] ∧ addrs (w s) !! n = Some a ∧ GetAddrStr a = Ok (B "10.0.0.2:40000").
Proof.
  destruct (accept_shares_address [AConn 5 (peer_example "001"); AConn 6 (peer_example "002"); AErr EAGAIN] two_clients
    (peer_example "002")) as (s & n & a & E & Hg & Ha & _).
  - exact listen_example_wf.
  - vm_compute. lia.
  - apply (bool_decide_unpack _). vm_compute. exact I.
  - apply (bool_decide_unpack _). vm_compute. exact I.
  - reflexivity.
  - reflexivity.
  - unfold pool, two_clients. cbn [answers_ok]. answers_ok_solve.
  - reflexivity.
  - vm_compute. lia.
  - exists s, n, a. split; [exact E|]. split; [exact Hg|]. split; [exact Ha|].
    vm_compute in E. injection E as <-. cbn in Hg. injection Hg as <- _. injection Ha as <-. vm_compute. reflexivity.
Defined.

(** An interrupted or aborted [accept4] reaches the callback as a connection
    with descriptor -1. *)
Lemma handle_read_passes_errors :
  ∃ s, HandleRead true [AErr EINTR; AErr ECONNABORTED; AErr EAGAIN] two_clients = Ok s ∧
    given (w s) = [((-1)%Z, 0); ((-1)%Z, 0)].
Proof. eexists. split; vm_compute; reflexivity. Qed.

(** The loop takes descriptor 0 for its end: that connection is neither
    handed over nor closed. *)
Lemma handle_read_stops_at_zero :
  let s0 := set_world (Close 0) two_clients in
  ∃ s, HandleRead true [AConn 0 (peer_example "001"); AConn 5 (peer_example "002")] s0 = Ok s ∧
    given (w s) = [] ∧ 0%Z ∈ fds (w s).
Proof.
  eexists. split; [vm_compute; reflexivity|]. split; [reflexivity|]. apply (bool_decide_unpack _). vm_compute. exact I.
Qed.

(** [ENFILE], the whole system out of descriptors, is fatal. *)
Lemma enfile_aborts : HandleRead true [AErr 23] two_clients = Fault Aborted.
Proof. vm_compute. reflexivity. Qed.
