(* ===== verification/LogFile.v ===== *)
(** The log file: [muzi/base/log_file.h], [log_file.cc] and
    [file_utils.h].  The clock, the host name, the text of a local time and
    the answers of [fopen] are arguments; the file system is a map from names
    to contents, behind which the C library may hold bytes back. *)

From S2P Require Import Prelude.

Definition kLogPath : bytes := B "./log/".
Definition kRollSize : Z := 32 * 1024 * 1024.
Definition kCheckEveryN : Z := 1024.
Definition kFlushIntervalSeconds : Z := 3.
Definition kRollIntervalSeconds : Z := 60 * 60 * 24.

(** ** UnlockedWriteFile *)

(** An open stream: the name of its file and what it has not yet written. *)
Record stream := mkStream { st_name : bytes; st_pending : bytes }.

Record UnlockedWriteFile := mkFile { fp : option stream; fs : gmap bytes bytes }.

Definition file_append (msg : bytes) (f : UnlockedWriteFile) : res UnlockedWriteFile :=
  st ← deref NullDeref (fp f);
  Ok (mkFile (Some (mkStream (st_name st) (st_pending st ++ msg))) (fs f)).

Definition write_out (st : stream) (m : gmap bytes bytes) : gmap bytes bytes :=
  <[st_name st := default [] (m !! st_name st) ++ st_pending st]> m.

(** [fflush] of the null pointer flushes all streams: here there is none. *)
Definition file_flush (f : UnlockedWriteFile) : UnlockedWriteFile :=
  match fp f with
  | Some st => mkFile (Some (mkStream (st_name st) [])) (write_out st (fs f))
  | None => f
  end.

Definition file_close (f : UnlockedWriteFile) : res UnlockedWriteFile :=
  st ← deref NullDeref (fp f); Ok (mkFile None (write_out st (fs f))).

Definition IsOpen (f : UnlockedWriteFile) : bool := match fp f with None => true | Some _ => false end.

Section log_file.
(** Can the file be opened; the text of a time; [GetHostName]. *)
Variables (fopen : bytes → bool) (time_text : Z → bytes) (host : bytes).

(** [fopen(..., "w")] makes the file empty. *)
Definition Reset (file_name : bytes) (f : UnlockedWriteFile) : res UnlockedWriteFile :=
  f ← (match fp f with Some _ => file_close f | None => Ok f end);
  if fopen file_name then Ok (mkFile (Some (mkStream file_name [])) (<[file_name := []]> (fs f)))
  else Fault Aborted.

(** ** LogFile *)

(** [rolled]: the names of the files so far. *)
Record LogFile := mkLogFile {
  base_name_ : bytes;
  written_bytes_ : Z;
  last_roll_ : Z;
  last_flush_ : Z;
  file_ : UnlockedWriteFile;
  count_ : Z;
  rolled : list bytes
}.

Definition GetLogFileName (base_name : bytes) (now : Z) : bytes :=
  base_name ++ time_text now ++ host ++ B ".log".

Definition SetBaseName (base_name : bytes) : res bytes :=
  c ← (if decide (base_name ≠ []) then deref OutOfBounds (last kLogPath) else Ok "/"%char);
  let b := if decide (base_name ≠ [] ∧ c ≠ "/"%char) then kLogPath ++ B "/" else kLogPath in
  Ok (b ++ base_name).

Definition set_file (f : UnlockedWriteFile) (s : LogFile) : LogFile :=
  mkLogFile (base_name_ s) (written_bytes_ s) (last_roll_ s) (last_flush_ s) f (count_ s) (rolled s).
Definition set_written (n : Z) (s : LogFile) : LogFile :=
  mkLogFile (base_name_ s) n (last_roll_ s) (last_flush_ s) (file_ s) (count_ s) (rolled s).
Definition set_count (n : Z) (s : LogFile) : LogFile :=
  mkLogFile (base_name_ s) (written_bytes_ s) (last_roll_ s) (last_flush_ s) (file_ s) n (rolled s).
Definition set_last_flush (n : Z) (s : LogFile) : LogFile :=
  mkLogFile (base_name_ s) (written_bytes_ s) (last_roll_ s) n (file_ s) (count_ s) (rolled s).

Definition Flush (s : LogFile) : LogFile := set_file (file_flush (file_ s)) s.

Definition RollFile (now : Z) (s : LogFile) : res LogFile :=
  let file_name := GetLogFileName (base_name_ s) now in
  let s := Flush s in
  f ← Reset file_name (file_ s);
  Ok (mkLogFile (base_name_ s) (written_bytes_ s) now now f (count_ s) (rolled s ++ [file_name])).

(** [now] is the clock at the check, [now'] in [RollFile]. *)
Definition Append (msg : bytes) (now now' : Z) (s : LogFile) : res LogFile :=
  f ← file_append msg (file_ s);
  let s := set_written (written_bytes_ s + Z.of_nat (length msg)) (set_file f s) in
  if decide (kRollSize ≤ written_bytes_ s)%Z then RollFile now' (set_written 0 s)
  else
    let s := set_count (count_ s + 1) s in
    if decide (kCheckEveryN ≤ count_ s)%Z then
      let s := set_count 0 s in
      if decide (kRollIntervalSeconds ≤ now - last_roll_ s)%Z then RollFile now' s
      else if decide (kFlushIntervalSeconds ≤ now - last_flush_ s)%Z then Ok (Flush (set_last_flush now s))
      else Ok s
    else Ok s.

Definition LogFile_new (base_name : bytes) (now : Z) (m : gmap bytes bytes) : res LogFile :=
  b ← SetBaseName base_name;
  RollFile now (mkLogFile b 0 0 0 (mkFile None m) 0 []).

Inductive op := OAppend (msg : bytes) (now now' : Z) | OFlush | ORoll (now : Z).

Definition run_op (o : op) (s : LogFile) : res LogFile :=
  match o with
  | OAppend msg now now' => Append msg now now' s
  | OFlush => Ok (Flush s)
  | ORoll now => RollFile now s
  end.

Fixpoint run_ops (os : list op) (s : LogFile) : res LogFile :=
  match os with [] => Ok s | o :: os => s ← run_op o s; run_ops os s end.
End log_file.

(** ** The files and the messages *)

Definition file_of (m : gmap bytes bytes) (name : bytes) : bytes := default [] (m !! name).

(** What each creation of a file was given: its name and its bytes, in order.
    A name created again has the bytes of its last creation. *)
Definition created (m : gmap bytes bytes) (chunks : list (bytes * bytes)) : gmap bytes bytes :=
  foldl (λ m c, <[c.1 := c.2]> m) m chunks.

Section proofs.
Variables (fopen : bytes → bool) (time_text : Z → bytes) (host : bytes).
(** The name given to the constructor, the files there were before, a bound
    on the messages. *)
Variables (base_name : bytes) (m0 : gmap bytes bytes) (L : nat).
Implicit Types s : LogFile.

(** A name of a log file of this object. *)
Definition log_name (t : Z) : bytes := GetLogFileName time_text host (B "./log/" ++ base_name) t.

Definition pending s : bytes := match fp (file_ s) with Some st => st_pending st | None => [] end.

(** What a file has and is still to get. *)
Definition holds s (name : bytes) : bytes :=
  file_of (fs (file_ s)) name ++
  match fp (file_ s) with Some st => if decide (name = st_name st) then st_pending st else [] | None => [] end.

(** [out]: the bytes appended so far. *)
Record log_inv (out : bytes) s : Prop := {
  lg_base : base_name_ s = B "./log/" ++ base_name;
  lg_open : ∃ st, fp (file_ s) = Some st ∧ last (rolled s) = Some (st_name st);
  lg_out : ∃ chunks, chunks.*1 = rolled s ∧ concat chunks.*2 = out ∧
    ∀ name, holds s name = file_of (created m0 chunks) name;
  lg_size : ∀ st, fp (file_ s) = Some st →
    (Z.of_nat (length (file_of (fs (file_ s)) (st_name st)) + length (st_pending st)) ≤ written_bytes_ s < kRollSize)%Z;
  lg_sizes : ∀ name, name ∈ rolled s → (Z.of_nat (length (file_of (fs (file_ s)) name)) < kRollSize + Z.of_nat L)%Z;
  lg_count : (0 ≤ count_ s < kCheckEveryN)%Z
}.

(** A run goes well, or a roll cannot open its file and aborts. *)
Definition log_result (out : bytes) (r : res LogFile) : Prop :=
  match r with
  | Ok s => log_inv out s
  | Fault e => e = Aborted ∧ ∃ t, fopen (log_name t) = false
  end.

Lemma file_of_write st m name :
  file_of (write_out st m) name = if decide (name = st_name st) then file_of m name ++ st_pending st else file_of m name.
Proof.
  unfold file_of, write_out. case_decide as E; [subst; by rewrite lookup_insert_eq|]. by rewrite lookup_insert_ne.
Qed.

Lemma file_of_insert m name b name' :
  file_of (<[name := b]> m) name' = if decide (name' = name) then b else file_of m name'.
Proof.
  unfold file_of. case_decide as E; [subst; by rewrite lookup_insert_eq|]. by rewrite lookup_insert_ne.
Qed.

Lemma created_snoc m chunks name b : created m (chunks ++ [(name, b)]) = <[name := b]> (created m chunks).
Proof. unfold created. by rewrite foldl_app. Qed.

(** The stream in use is that of the last creation. *)
Lemma last_chunk s (chunks : list (bytes * bytes)) name :
  chunks.*1 = rolled s → last (rolled s) = Some name → ∃ init b, chunks = init ++ [(name, b)].
Proof.
  intros <- Hl. rewrite fmap_last in Hl. destruct (last chunks) as [[n b]|] eqn:E; [|done]. cbn in Hl.
  injection Hl as ->. apply last_Some in E as [init ->]. by exists init, b.
Qed.

(** Names used once keep all they were given. *)
Lemma created_once m chunks :
  NoDup chunks.*1 → concat (file_of (created m chunks) <$> chunks.*1) = concat chunks.*2.
Proof.
  induction chunks as [|[name b] chunks IH] using rev_ind; [done|].
  rewrite (fmap_app fst), (fmap_app snd). change ([(name, b)].*1) with [name]. change ([(name, b)].*2) with [b].
  intros (Hn & Hd & _)%NoDup_app. rewrite fmap_app, !concat_app, <- IH by done. cbn. rewrite !app_nil_r. f_equal.
  - f_equal. apply list_fmap_ext. intros i name' Hi. rewrite created_snoc, file_of_insert, decide_False; [done|].
    intros ->. apply (Hd name); [by eapply list_elem_of_lookup_2|by apply list_elem_of_singleton].
  - by rewrite created_snoc, file_of_insert, decide_True.
Qed.

Lemma holds_flush st s name :
  fp (file_ s) = Some st → file_of (write_out st (fs (file_ s))) name = holds s name.
Proof. intros Ef. unfold holds. rewrite Ef, file_of_write. case_decide; [done|by rewrite app_nil_r]. Qed.

Lemma Flush_holds s name : holds (Flush s) name = holds s name.
Proof.
  destruct (fp (file_ s)) as [st|] eqn:Ef; [|unfold Flush, file_flush; by rewrite Ef].
  rewrite <- (holds_flush st s name Ef). unfold Flush, file_flush, holds. rewrite Ef.
  cbn [set_file file_ fp fs st_name st_pending]. case_decide; by rewrite app_nil_r.
Qed.

Lemma Flush_inv out s : log_inv out s → log_inv out (Flush s).
Proof.
  intros Hi. pose proof (Flush_holds s) as Hh. destruct Hi as [Hb (st & Ef & El) (chunks & E1 & E2 & E3) Hz Hzs Hc].
  pose proof (Hz st Ef) as Hz1. split; [done| |exists chunks| | |done].
  - unfold Flush, file_flush. rewrite Ef. by eexists.
  - split_and!; [done|done|]. intros name. by rewrite Hh.
  - unfold Flush, file_flush. rewrite Ef. intros st' [= <-]. cbn [set_file file_ fs st_name st_pending length].
    rewrite file_of_write, decide_True, length_app by done. cbn [set_file written_bytes_]. lia.
  - unfold Flush, file_flush. rewrite Ef. cbn [set_file file_ fs rolled]. intros name Hin. rewrite file_of_write.
    case_decide as E; [|by apply Hzs]. subst. rewrite length_app. lia.
Qed.

(** Rolling: the bytes held back go to the old file, and a new one, empty,
    is opened. *)
Lemma RollFile_inv out now s st :
  base_name_ s = B "./log/" ++ base_name →
  fp (file_ s) = Some st →
  (∃ chunks, chunks.*1 = rolled s ∧ concat chunks.*2 = out ∧ ∀ name, holds s name = file_of (created m0 chunks) name) →
  (Z.of_nat (length (file_of (fs (file_ s)) (st_name st)) + length (st_pending st)) < kRollSize + Z.of_nat L)%Z →
  (∀ name, name ∈ rolled s → (Z.of_nat (length (file_of (fs (file_ s)) name)) < kRollSize + Z.of_nat L)%Z) →
  (0 ≤ count_ s < kCheckEveryN)%Z → (0 ≤ written_bytes_ s < kRollSize)%Z →
  log_result out (RollFile fopen time_text host now s).
Proof.
  intros Hb Ef (chunks & E1 & E2 & E3) Hz Hzs Hc Hw. unfold RollFile, Reset, Flush, file_flush. rewrite Ef.
  cbn [set_file file_ fp file_close deref mbind res_bind fs base_name_]. rewrite Hb. fold (log_name now).
  destruct (fopen (log_name now)) eqn:Eo; cbn [mbind res_bind]; [|split; [done|by exists now]].
  set (m := write_out (mkStream (st_name st) []) _). assert (∀ name, file_of m name = holds s name) as Hm.
  { intros name. unfold m. rewrite file_of_write. cbn [st_name st_pending]. rewrite app_nil_r, (holds_flush st s name Ef).
    by case_decide. }
  clearbody m. split; cbn [file_ rolled fs fp written_bytes_ count_ base_name_]; [done| | | | |done].
  - eexists. split; [done|]. by rewrite last_snoc.
  - exists (chunks ++ [(log_name now, [])]). rewrite !fmap_app, concat_app, E1, E2. cbn. rewrite app_nil_r.
    split_and!; [done|done|]. intros name. unfold holds. cbn [file_ fs fp st_name st_pending].
    rewrite created_snoc, !file_of_insert, Hm, E3. case_decide; by rewrite app_nil_r.
  - intros st' [= <-]. cbn [st_name st_pending]. rewrite file_of_insert, decide_True by done. cbn. lia.
  - intros name Hin. rewrite file_of_insert. case_decide as Hn; [cbn; unfold kRollSize; lia|].
    apply elem_of_app in Hin as [Hin|Hin]; [|by apply list_elem_of_singleton in Hin].
    rewrite Hm. unfold holds. rewrite Ef. case_decide; [subst; rewrite length_app; lia|].
    rewrite app_nil_r. by apply Hzs.
Qed.

(** Appending keeps the message back in the stream. *)
Lemma Append_inv out msg now now' s :
  log_inv out s → length msg ≤ L → log_result (out ++ msg) (Append fopen time_text host msg now now' s).
Proof.
  intros [Hb (st & Ef & El) (chunks & E1 & E2 & E3) Hz Hzs Hc] Hm. specialize (Hz st Ef).
  destruct (last_chunk s chunks (st_name st) E1 El) as (init & b & ->).
  unfold Append, file_append. rewrite Ef. cbn [deref mbind res_bind set_file set_written written_bytes_ base_name_ file_].
  set (st1 := mkStream (st_name st) (st_pending st ++ msg)). set (f1 := mkFile (Some st1) _).
  assert (∀ wb lr lf c, ∃ chunks, chunks.*1 = rolled s ∧ concat chunks.*2 = out ++ msg ∧
    ∀ name, holds (mkLogFile (base_name_ s) wb lr lf f1 c (rolled s)) name = file_of (created m0 chunks) name) as Ho1.
  { intros wb lr lf c. exists (init ++ [(st_name st, b ++ msg)]). rewrite !fmap_app, concat_app in *. cbn in *.
    rewrite app_nil_r in *. split_and!; [done|by rewrite <- E2, app_assoc|]. intros name. specialize (E3 name).
    unfold holds in *. rewrite Ef in E3. cbn [file_ fs fp f1 st_name st_pending st1].
    rewrite created_snoc, file_of_insert in *. case_decide; [|done]. by rewrite app_assoc, E3. }
  assert (∀ c lf, (0 ≤ c < kCheckEveryN)%Z → (written_bytes_ s + Z.of_nat (length msg) < kRollSize)%Z →
    log_inv (out ++ msg) (mkLogFile (base_name_ s) (written_bytes_ s + Z.of_nat (length msg)) (last_roll_ s) lf
      f1 c (rolled s))) as Hput.
  { intros c lf Hcc Hw. split; cbn [fp file_ rolled fs written_bytes_ count_ f1]; [done|by eexists|apply Ho1| |done|done].
    intros st' [= <-]. cbn. rewrite length_app. lia. }
  case_decide as Hroll.
  { eapply (RollFile_inv _ _ _ st1); cbn [set_written file_ fp rolled fs count_ written_bytes_]; try done.
    - apply Ho1.
    - cbn. rewrite length_app. lia. }
  cbn [set_count set_written set_file count_ written_bytes_ base_name_ last_roll_ last_flush_ rolled file_] in *.
  case_decide as Hcheck; [|apply Hput; lia].
  case_decide as Hday.
  { eapply (RollFile_inv _ _ _ st1); cbn [set_count file_ fp rolled fs count_ written_bytes_]; try done; try lia.
    all: first [apply Ho1|cbn; rewrite ?length_app; lia]. }
  case_decide as Hfl; [apply Flush_inv|]; (apply Hput; [done|lia]).
Qed.

Definition op_ok (o : op) : Prop := match o with OAppend msg _ _ => length msg ≤ L | _ => True end.
Definition op_msg (o : op) : bytes := match o with OAppend msg _ _ => msg | _ => [] end.

Lemma run_op_inv out o s :
  log_inv out s → op_ok o → log_result (out ++ op_msg o) (run_op fopen time_text host o s).
Proof.
  intros Hi Ho. destruct o as [msg now now'| |now]; cbn [run_op op_msg op_ok] in *.
  - by apply Append_inv.
  - rewrite app_nil_r. by apply Flush_inv.
  - rewrite app_nil_r. pose proof Hi as [Hb (st & Ef & El) Hout Hz Hzs Hc]. specialize (Hz st Ef).
    by eapply (RollFile_inv _ _ _ st); try done; lia.
Qed.

Lemma run_ops_inv os : ∀ out s,
  log_inv out s → Forall op_ok os →
  log_result (out ++ concat (op_msg <$> os)) (run_ops fopen time_text host os s).
Proof.
  induction os as [|o os IH]; intros out s Hi Hos; [simpl; by rewrite app_nil_r|].
  apply Forall_cons in Hos as [Ho Hos]. pose proof (run_op_inv out o s Hi Ho) as H1. cbn [run_ops].
  destruct (run_op fopen time_text host o s) as [s1|e]; cbn [mbind res_bind]; [|done].
  simpl. rewrite app_assoc. by apply IH.
Qed.

Lemma LogFile_new_inv now : log_result [] (LogFile_new fopen time_text host base_name now m0).
Proof.
  unfold LogFile_new, SetBaseName.
  assert ((if decide (base_name ≠ []) then deref OutOfBounds (last kLogPath) else Ok "/"%char) = Ok "/"%char) as ->
    by by case_decide.
  cbn [mbind res_bind]. rewrite decide_False by (by intros [_ ?]).
  unfold RollFile, Reset, Flush, file_flush. cbn [set_file file_ fp mbind res_bind fs base_name_].
  change kLogPath with (B "./log/"). fold (log_name now).
  destruct (fopen (log_name now)) eqn:Eo; cbn [mbind res_bind]; [|split; [done|by exists now]].
  assert (file_of (<[log_name now := []]> m0) (log_name now) = []) as En by (by rewrite file_of_insert, decide_True).
  split; cbn [file_ rolled fs fp written_bytes_ count_ base_name_ app]; [done|by eexists| | | |done].
  - exists [(log_name now, [])]. split_and!; [done|done|]. intros name. unfold holds.
    cbn [file_ fs fp st_name st_pending]. case_decide; by rewrite app_nil_r.
  - intros st' [= <-]. cbn [st_name st_pending]. rewrite En. done.
  - intros name Hin. apply list_elem_of_singleton in Hin as ->. rewrite En. unfold kRollSize. cbn. lia.
Qed.

(** C27: a run aborts only if a file with one of the object's names cannot be
    opened.  Otherwise the messages are cut into pieces, in order, one for
    each roll, and every file has, or is still to get from the stream, the
    piece of the last roll to its name (the other files are as they were): a
    name used twice, by two rolls in one second, loses the earlier piece, and
    when no name is used twice the files in the order of their creation are
    the messages.  No file reaches the roll size plus one message, and the
    counter of the checks stays in range. *)
Theorem log_file_refines_bytes now os :
  Forall op_ok os →
  match (s ← LogFile_new fopen time_text host base_name now m0; run_ops fopen time_text host os s) with
  | Fault e => e = Aborted ∧ ∃ t, fopen (log_name t) = false
  | Ok s =>
      (∃ pieces, length pieces = length (rolled s) ∧ concat pieces = concat (op_msg <$> os) ∧
        ∀ name, holds s name = file_of (created m0 (zip (rolled s) pieces)) name) ∧
      (NoDup (rolled s) → concat (holds s <$> rolled s) = concat (op_msg <$> os)) ∧
      (∀ name, name ∈ rolled s → (Z.of_nat (length (file_of (fs (file_ s)) name)) < kRollSize + Z.of_nat L)%Z) ∧
      (0 ≤ count_ s < kCheckEveryN)%Z
  end.
Proof.
  intros Hos. pose proof (LogFile_new_inv now) as H0. destruct (LogFile_new _ _ _ _ _ _) as [s0|e]; [|exact H0].
  cbn [mbind res_bind]. pose proof (run_ops_inv os [] s0 H0 Hos) as H1.
  destruct (run_ops fopen time_text host os s0) as [s|e]; [|exact H1].
  destruct H1 as [_ _ (chunks & E1 & E2 & E3) _ Hz Hc]. split; [|split; [|done]].
  - exists chunks.*2. rewrite <- E1, !length_fmap. split; [done|]. split; [done|]. intros name.
    by rewrite E3, zip_fst_snd.
  - intros Hn. change ([] ++ ?x) with x in E2. rewrite <- E1 in Hn |- *. rewrite <- E2, <- (created_once m0 chunks Hn). f_equal.
    apply list_fmap_ext. intros i name _. apply E3.
Qed.
End proofs.

(** *** An example *)

(** The text of a time, and the operations of a day. *)
Definition text_example (now : Z) : bytes := if decide (now = 7)%Z then B ".7." else B ".9.".

Definition day_example : list op :=
  [OAppend (B "one") 7 7; OAppend (B "two") 8 8; ORoll 9; OAppend (B "three") 9 9; OFlush; OAppend (B "four") 10 10].

Lemma log_file_refines_bytes_witness :
  ∃ s, (s ← LogFile_new (λ _, true) text_example (B "h") (B "a") 7 ∅;
        run_ops (λ _, true) text_example (B "h") day_example s) = Ok s ∧
    rolled s = [B "./log/a.7.h.log"; B "./log/a.9.h.log"] ∧ concat (holds s <$> rolled s) = B "onetwothreefour" ∧
    file_of (fs (file_ s)) (B "./log/a.7.h.log") = B "onetwo" ∧ pending s = B "four".
Proof.
  pose proof (log_file_refines_bytes (λ _, true) text_example (B "h") (B "a") ∅ 5 7 day_example
    ltac:(repeat constructor; vm_compute; lia)) as H.
  destruct (LogFile_new _ _ _ _ _ _) as [s0|] eqn:E0; [|destruct H as (_ & t & Ht); discriminate Ht].
  cbn [mbind res_bind] in *.
  destruct (run_ops _ _ _ day_example s0) as [s|] eqn:E; [|destruct H as (_ & t & Ht); discriminate Ht].
  destruct H as (_ & Hn & _). exists s. split; [reflexivity|].
  vm_compute in E0. injection E0 as <-. vm_compute in E. injection E as <-. split; [reflexivity|].
  split; [|split; reflexivity].
  rewrite Hn; [reflexivity|]. apply (bool_decide_unpack _). vm_compute. exact I.
Defined.

(** Two rolls in one second open the same file: the second empties it. *)
Lemma same_second_truncates :
  ∃ s, (s ← LogFile_new (λ _, true) (λ _, B ".7.") (B "h") (B "a") 7 ∅;
        run_ops (λ _, true) (λ _, B ".7.") (B "h") [OAppend (B "one") 7 7; ORoll 7; OFlush] s) = Ok s ∧
    holds s (B "./log/a.7.h.log") = [].
Proof. eexists. split; [vm_compute; reflexivity|]. reflexivity. Qed.

(** A file that cannot be opened ends the program at the first roll to it. *)
Lemma unopened_aborts :
  (s ← LogFile_new (λ name, bool_decide (name = B "./log/a.7.h.log")) text_example (B "h") (B "a") 7 ∅;
   run_ops (λ name, bool_decide (name = B "./log/a.7.h.log")) text_example (B "h") day_example s) = Fault Aborted.
Proof. vm_compute. reflexivity. Qed.

(** [IsOpen] answers the opposite. *)
Lemma is_open_inverted st m : IsOpen (mkFile (Some st) m) = false ∧ IsOpen (mkFile None m) = true.
Proof. done. Qed.

(** Closing a file that was never opened passes the null pointer to
    [fclose]; the destructor does. *)
Lemma close_unopened m : file_close (mkFile None m) = Fault NullDeref.
Proof. done. Qed.

(** A roll by time keeps the count of the bytes: the new file rolls as if it
    held what the old one did. *)
Lemma timed_roll_keeps_count fopen time_text host now s s' :
  RollFile fopen time_text host now s = Ok s' → written_bytes_ s' = written_bytes_ s.
Proof.
  unfold RollFile. destruct (Reset _ _ _) as [f|]; [|done]. cbn [mbind res_bind]. by intros [= <-].
Qed.
