(* ===== verification/ThreadPool.v ===== *)
(** The task pool: [muzi/base/thread_pool.h] and [thread_pool.cc].  Workers,
    callers of [Run] and the caller of [Stop] are threads whose atomic steps
    interleave freely; locking, waiting and being woken are steps of their
    own, so that a notification can be missed. *)

From S2P Require Import Prelude.

(** Where a worker is in [RunThread], and where a caller is in [Run]: at the
    test of [running_], about to lock, at the test of the inner loop with the
    lock, in [Wait] before it releases the lock, asleep, woken and about to
    lock, at the test of [running_] after [Wait], about to notify, done. *)
Inductive worker_pc :=
  | WTest | WLock | WCheck | WSleep | WWaiting | WWoken | WAfterWait
  | WNotify (task : Z) | WRun (task : Z) | WDone.

Inductive caller_pc :=
  | CTest (task : option Z) | CLock (task : Z) | CCheck (task : Z) | CSleep (task : Z) | CWaiting (task : Z)
  | CWoken (task : Z) | CAfterWait (task : Z) | CNotify | CDone.

Inductive stop_pc := SIdle | SNotifyEmpty | SNotifyFull | SJoin | SDone.

#[export] Instance worker_pc_eq_dec : EqDecision worker_pc.
Proof. solve_decision. Defined.
#[export] Instance caller_pc_eq_dec : EqDecision caller_pc.
Proof. solve_decision. Defined.
#[export] Instance stop_pc_eq_dec : EqDecision stop_pc.
Proof. solve_decision. Defined.

Inductive owner := OWorker (i : nat) | OCaller (k : nat).
#[export] Instance owner_eq_dec : EqDecision owner.
Proof. solve_decision. Defined.

(** [pushed], [taken] and [executed]: the tasks that entered the queue, left
    it and ran, in order. *)
Record ThreadPool := mkPool {
  max_queue_size : Z;
  lock_ : option owner;
  running_ : bool;
  queue_ : list Z;
  workers : list worker_pc;
  callers : list caller_pc;
  stopper : stop_pc;
  pushed : list Z;
  taken : list Z;
  executed : list Z
}.

Definition ThreadPool_new : ThreadPool := mkPool (-1) None false [] [] [] SIdle [] [] [].

Definition SetMaxQueueSize (size : Z) (s : ThreadPool) : ThreadPool :=
  mkPool (swrap 32 size) (lock_ s) (running_ s) (queue_ s) (workers s) (callers s) (stopper s)
    (pushed s) (taken s) (executed s).

Definition Start (thread_num : nat) (s : ThreadPool) : ThreadPool :=
  if running_ s then s
  else mkPool (max_queue_size s) (lock_ s) true (queue_ s) (workers s ++ replicate thread_num WTest)
         (callers s) (stopper s) (pushed s) (taken s) (executed s).

Definition IsFull (s : ThreadPool) : bool :=
  bool_decide (0 < max_queue_size s ∧ max_queue_size s ≤ Z.of_nat (length (queue_ s)))%Z.

(** Thread [i] or [k] moves to [pc], with the lock as given. *)
Definition set_worker (i : nat) (pc : worker_pc) (l : option owner) (s : ThreadPool) : ThreadPool :=
  mkPool (max_queue_size s) l (running_ s) (queue_ s) (<[i := pc]> (workers s)) (callers s)
    (stopper s) (pushed s) (taken s) (executed s).
Definition set_caller (k : nat) (pc : caller_pc) (l : option owner) (s : ThreadPool) : ThreadPool :=
  mkPool (max_queue_size s) l (running_ s) (queue_ s) (workers s) (<[k := pc]> (callers s))
    (stopper s) (pushed s) (taken s) (executed s).
Definition set_stopper (b : bool) (pc : stop_pc) (s : ThreadPool) : ThreadPool :=
  mkPool (max_queue_size s) (lock_ s) b (queue_ s) (workers s) (callers s) pc
    (pushed s) (taken s) (executed s).

(** What a signal does to a thread. *)
Definition wake_worker (pc : worker_pc) : worker_pc := match pc with WWaiting => WWoken | _ => pc end.
Definition wake_caller (pc : caller_pc) : caller_pc := match pc with CWaiting t => CWoken t | _ => pc end.

Definition worker_waits (pc : worker_pc) : bool := match pc with WWaiting => true | _ => false end.
Definition caller_waits (pc : caller_pc) : bool := match pc with CWaiting _ => true | _ => false end.

(** [not_empty_cond_.Notify()]: one waiting worker, [j], is woken; when none
    waits, nothing happens. *)
Definition notify_worker (j : nat) (s : ThreadPool) : option ThreadPool :=
  if existsb worker_waits (workers s) then
    pc ← workers s !! j;
    if worker_waits pc then Some (set_worker j WWoken (lock_ s) s) else None
  else Some s.

Definition notify_caller (j : nat) (s : ThreadPool) : option ThreadPool :=
  if existsb caller_waits (callers s) then
    pc ← callers s !! j;
    if caller_waits pc then Some (set_caller j (wake_caller pc) (lock_ s) s) else None
  else Some s.

(** [queue_.front()] and [pop_front()]; [queue_.push_back()]. *)
Definition take_task (t : Z) (q : list Z) (s : ThreadPool) : ThreadPool :=
  mkPool (max_queue_size s) (lock_ s) (running_ s) q (workers s) (callers s) (stopper s)
    (pushed s) (taken s ++ [t]) (executed s).
Definition push_task (t : Z) (s : ThreadPool) : ThreadPool :=
  mkPool (max_queue_size s) (lock_ s) (running_ s) (queue_ s ++ [t]) (workers s) (callers s) (stopper s)
    (pushed s ++ [t]) (taken s) (executed s).
Definition run_task (t : Z) (s : ThreadPool) : ThreadPool :=
  mkPool (max_queue_size s) (lock_ s) (running_ s) (queue_ s) (workers s) (callers s) (stopper s)
    (pushed s) (taken s) (executed s ++ [t]).

(** One step of worker [i] in [RunThread]; [j] is whom it wakes. *)
Definition RunThread (i j : nat) (s : ThreadPool) : option ThreadPool :=
  pc ← workers s !! i;
  match pc with
  | WTest => Some (set_worker i (if running_ s then WLock else WDone) (lock_ s) s)
  | WLock => match lock_ s with None => Some (set_worker i WCheck (Some (OWorker i)) s) | Some _ => None end
  | WCheck =>
      match queue_ s with
      | [] => Some (set_worker i WSleep (lock_ s) s)
      | t :: q => Some (set_worker i (WNotify t) None (take_task t q s))
      end
  | WSleep => Some (set_worker i WWaiting None s)
  | WWaiting => None
  | WWoken => match lock_ s with None => Some (set_worker i WAfterWait (Some (OWorker i)) s) | Some _ => None end
  | WAfterWait =>
      if running_ s then Some (set_worker i WCheck (lock_ s) s) else Some (set_worker i WDone None s)
  | WNotify t => notify_caller j (set_worker i (WRun t) (lock_ s) s)
  | WRun t => Some (set_worker i WTest (lock_ s) (run_task t s))
  | WDone => None
  end.

(** One step of caller [k] in [Run]; [j] is whom it wakes.  An empty
    [std::function] is [None]. *)
Definition Run (k j : nat) (s : ThreadPool) : option ThreadPool :=
  pc ← callers s !! k;
  match pc with
  | CTest task =>
      if negb (running_ s) then Some (set_caller k CDone (lock_ s) s)
      else match task with
           | None => Some (set_caller k CDone (lock_ s) s)
           | Some t => Some (set_caller k (CLock t) (lock_ s) s)
           end
  | CLock t => match lock_ s with None => Some (set_caller k (CCheck t) (Some (OCaller k)) s) | Some _ => None end
  | CCheck t =>
      if IsFull s then Some (set_caller k (CSleep t) (lock_ s) s)
      else Some (set_caller k CNotify None (push_task t s))
  | CSleep t => Some (set_caller k (CWaiting t) None s)
  | CWaiting _ => None
  | CWoken t => match lock_ s with None => Some (set_caller k (CAfterWait t) (Some (OCaller k)) s) | Some _ => None end
  | CAfterWait t =>
      if running_ s then Some (set_caller k (CCheck t) (lock_ s) s) else Some (set_caller k CDone None s)
  | CNotify => notify_worker j (set_caller k CDone (lock_ s) s)
  | CDone => None
  end.

Definition notify_all (w : bool) (s : ThreadPool) : ThreadPool :=
  mkPool (max_queue_size s) (lock_ s) (running_ s) (queue_ s)
    (if w then wake_worker <$> workers s else workers s)
    (if w then callers s else wake_caller <$> callers s)
    (stopper s) (pushed s) (taken s) (executed s).

(** One step of [Stop]. *)
Definition Stop (s : ThreadPool) : option ThreadPool :=
  match stopper s with
  | SIdle => if running_ s then Some (set_stopper false SNotifyEmpty s) else Some (set_stopper false SDone s)
  | SNotifyEmpty => Some (set_stopper (running_ s) SNotifyFull (notify_all true s))
  | SNotifyFull => Some (set_stopper (running_ s) SJoin (notify_all false s))
  | SJoin => if forallb (λ pc, bool_decide (pc = WDone)) (workers s) then Some (set_stopper (running_ s) SDone s) else None
  | SDone => None
  end.

(** The last two are wake-ups without a notification. *)
Inductive label :=
  | LWorker (i j : nat) | LCaller (k j : nat) | LCall (task : option Z) | LStop
  | LSpuriousWorker (i : nat) | LSpuriousCaller (k : nat).
#[export] Instance label_eq_dec : EqDecision label.
Proof. solve_decision. Defined.

Definition step (l : label) (s : ThreadPool) : option ThreadPool :=
  match l with
  | LWorker i j => RunThread i j s
  | LCaller k j => Run k j s
  | LCall task =>
      Some (mkPool (max_queue_size s) (lock_ s) (running_ s) (queue_ s) (workers s) (callers s ++ [CTest task])
              (stopper s) (pushed s) (taken s) (executed s))
  | LStop => Stop s
  | LSpuriousWorker i =>
      pc ← workers s !! i; if worker_waits pc then Some (set_worker i WWoken (lock_ s) s) else None
  | LSpuriousCaller k =>
      pc ← callers s !! k; if caller_waits pc then Some (set_caller k (wake_caller pc) (lock_ s) s) else None
  end.

Fixpoint run (ls : list label) (s : ThreadPool) : option ThreadPool :=
  match ls with [] => Some s | l :: ls => s ← step l s; run ls s end.

(** ** What the threads hold *)

Lemma omap_insert_perm {A B : Type} (f : A → option B) i x y l :
  l !! i = Some x → omap f (<[i := y]> l) ++ option_list (f x) ≡ₚ omap f l ++ option_list (f y).
Proof.
  revert i. induction l as [|z l IH]; intros [|i] Hi; try done.
  - injection Hi as ->. cbn. destruct (f x), (f y); cbn; solve_Permutation.
  - change (<[S i := y]> (z :: l)) with (z :: <[i := y]> l). specialize (IH i Hi).
    cbn [omap list_omap]. destruct (f z); cbn; [by rewrite IH|done].
Qed.

(** ** The invariant *)

Definition w_holds (pc : worker_pc) : bool := match pc with WCheck | WSleep | WAfterWait => true | _ => false end.
Definition c_holds (pc : caller_pc) : bool := match pc with CCheck _ | CSleep _ | CAfterWait _ => true | _ => false end.

(** A worker that will look at the queue again, one that is about to signal
    that there is room; a caller that will look whether there is room, one
    that is about to signal a task. *)
Definition w_awake (pc : worker_pc) : bool := match pc with WSleep | WWaiting | WDone => false | _ => true end.
Definition w_notifying (pc : worker_pc) : bool := match pc with WNotify _ => true | _ => false end.
Definition c_awake (pc : caller_pc) : bool :=
  match pc with CLock _ | CCheck _ | CWoken _ | CAfterWait _ => true | _ => false end.
Definition c_notifying (pc : caller_pc) : bool := match pc with CNotify => true | _ => false end.

(** The task a worker holds. *)
Definition in_flight (pc : worker_pc) : option Z := match pc with WNotify t | WRun t => Some t | _ => None end.

Definition room (s : ThreadPool) : Z := max_queue_size s - Z.of_nat (length (queue_ s)).

Record pool_inv (s : ThreadPool) : Prop := {
  pi_fifo : pushed s = taken s ++ queue_ s;
  pi_once : taken s ≡ₚ executed s ++ omap in_flight (workers s);
  pi_max : (0 < max_queue_size s)%Z → (0 ≤ room s)%Z;
  pi_wlock : ∀ i pc, workers s !! i = Some pc → w_holds pc = true → lock_ s = Some (OWorker i);
  pi_clock : ∀ k pc, callers s !! k = Some pc → c_holds pc = true → lock_ s = Some (OCaller k);
  pi_wsleep : ∀ i, workers s !! i = Some WSleep → queue_ s = [];
  pi_csleep : ∀ k t, callers s !! k = Some (CSleep t) → IsFull s = true;
  pi_waitmax : 1 ≤ countb caller_waits (callers s) → (0 < max_queue_size s)%Z;
  pi_workers : 0 < length (workers s);
  pi_done : running_ s = true → ∀ i, workers s !! i ≠ Some WDone;
  pi_empty : running_ s = true → queue_ s ≠ [] → 1 ≤ countb w_awake (workers s) + countb c_notifying (callers s);
  pi_full : running_ s = true → 1 ≤ countb caller_waits (callers s) →
    (room s ≤ Z.of_nat (countb w_notifying (workers s)) + Z.of_nat (countb c_awake (callers s)))%Z
}.

Lemma IsFull_true s : (0 < max_queue_size s)%Z → (0 ≤ room s)%Z → IsFull s = true ↔ (0 < max_queue_size s)%Z ∧ room s = 0%Z.
Proof. intros. unfold IsFull, room in *. rewrite bool_decide_eq_true. lia. Qed.

Ltac count_all f i y H :=
  let E := fresh in pose proof (countb_insert f i _ y _ H) as E; cbn in E.

(** A worker moves, the queue stays. *)
Lemma set_worker_inv i pc pc' l s :
  pool_inv s → workers s !! i = Some pc →
  (w_holds pc' = true → l = Some (OWorker i)) → (l = lock_ s ∨ lock_ s = None ∨ lock_ s = Some (OWorker i)) →
  in_flight pc' = in_flight pc → (pc' = WSleep → queue_ s = []) → (running_ s = true → pc' ≠ WDone) →
  (running_ s = true → queue_ s ≠ [] → w_awake pc = true → w_awake pc' = true) →
  (running_ s = true → 1 ≤ countb caller_waits (callers s) → w_notifying pc = true →
     w_notifying pc' = true ∨
     (room s + 1 ≤ Z.of_nat (countb w_notifying (workers s)) + Z.of_nat (countb c_awake (callers s)))%Z) →
  pool_inv (set_worker i pc' l s).
Proof.
  intros [] Hi Hh Hl Hf Hs Hd Ha Hn.
  pose proof (countb_insert w_awake i pc pc' _ Hi) as Ca. pose proof (countb_insert w_notifying i pc pc' _ Hi) as Cn.
  split; cbn [set_worker pushed taken queue_ executed workers callers lock_ running_ max_queue_size]; try done.
  - rewrite pi_once0. f_equiv. pose proof (omap_insert_perm in_flight i pc pc' _ Hi) as E. rewrite Hf in E.
    symmetry. by apply Permutation_app_inv_r in E.
  - intros j q Hj Hq. thread_cases; [by apply Hh|]. pose proof (pi_wlock0 j q Hj Hq). destruct Hl as [|[|]]; congruence.
  - intros k q Hk Hq. pose proof (pi_clock0 k q Hk Hq). destruct Hl as [|[|]]; congruence.
  - intros j Hj. thread_cases; [by apply Hs|]. by eapply pi_wsleep0.
  - by rewrite length_insert.
  - intros Hr j Hj. thread_cases; [by apply Hd|]. by eapply pi_done0.
  - intros Hr Hq. specialize (pi_empty0 Hr Hq). specialize (Ha Hr Hq). destruct (w_awake pc), (w_awake pc'); try lia.
  - intros Hr Hw. specialize (pi_full0 Hr Hw). specialize (Hn Hr Hw). unfold room in *. cbn.
    destruct (w_notifying pc), (w_notifying pc'); try lia.
Qed.

(** A caller moves, the queue stays. *)
Lemma set_caller_inv k pc pc' l s :
  pool_inv s → callers s !! k = Some pc →
  (c_holds pc' = true → l = Some (OCaller k)) → (l = lock_ s ∨ lock_ s = None ∨ lock_ s = Some (OCaller k)) →
  (∀ t, pc' = CSleep t → IsFull s = true) →
  (caller_waits pc' = true → (0 < max_queue_size s)%Z ∧ (room s ≤ 0)%Z) →
  (running_ s = true → c_awake pc = true → c_awake pc' = true ∨ (room s ≤ 0)%Z) →
  (running_ s = true → queue_ s ≠ [] → c_notifying pc = true → 1 ≤ countb w_awake (workers s)) →
  pool_inv (set_caller k pc' l s).
Proof.
  intros [] Hi Hh Hl Hs Hw Ha Hn.
  pose proof (countb_insert c_awake k pc pc' _ Hi) as Ca. pose proof (countb_insert c_notifying k pc pc' _ Hi) as Cn.
  pose proof (countb_insert caller_waits k pc pc' _ Hi) as Cw.
  split; cbn [set_caller pushed taken queue_ executed workers callers lock_ running_ max_queue_size]; try done.
  - intros j q Hj Hq. pose proof (pi_wlock0 j q Hj Hq). destruct Hl as [|[|]]; congruence.
  - intros j q Hj Hq. thread_cases; [by apply Hh|]. pose proof (pi_clock0 j q Hj Hq). destruct Hl as [|[|]]; congruence.
  - intros j t Hj. thread_cases; [by apply (Hs t)|]. by eapply pi_csleep0.
  - intros Hc. destruct (caller_waits pc') eqn:E; [by apply Hw|]. apply pi_waitmax0. destruct (caller_waits pc); lia.
  - intros Hr Hq. specialize (pi_empty0 Hr Hq). specialize (Hn Hr Hq). destruct (c_notifying pc), (c_notifying pc'); try lia.
  - intros Hr Hc. unfold room in *. cbn in *. destruct (caller_waits pc') eqn:E; [destruct (Hw eq_refl); lia|].
    assert (1 ≤ countb caller_waits (callers s)) as Hc0 by (destruct (caller_waits pc); lia).
    specialize (pi_full0 Hr Hc0). specialize (Ha Hr). destruct (c_awake pc), (c_awake pc'); try lia.
Qed.

(** *** The signals *)

Lemma wake_worker_inv j s : pool_inv s → workers s !! j = Some WWaiting → pool_inv (set_worker j WWoken (lock_ s) s).
Proof. intros Hi Hj. apply (set_worker_inv j WWaiting); try done; by left. Qed.

Lemma wake_caller_inv j t s : pool_inv s → callers s !! j = Some (CWaiting t) → pool_inv (set_caller j (CWoken t) (lock_ s) s).
Proof. intros Hi Hj. apply (set_caller_inv j (CWaiting t)); try done; by left. Qed.

(** When no worker sleeps, the queue is not empty and the pool runs, every
    worker is awake. *)
Lemma all_awake s : pool_inv s → existsb worker_waits (workers s) = false → running_ s = true → queue_ s ≠ [] →
  1 ≤ countb w_awake (workers s).
Proof.
  intros [] Hw Hr Hq. destruct (lookup_lt_is_Some_2 (workers s) 0 pi_workers0) as [pc Hpc].
  apply (countb_elem _ 0 pc); [done|]. destruct pc; try done.
  - by destruct (pi_wsleep0 _ Hpc).
  - rewrite existsb_count in Hw. apply bool_decide_eq_false in Hw. by pose proof (countb_elem worker_waits 0 _ _ Hpc eq_refl).
  - by destruct (pi_done0 Hr _ Hpc).
Qed.

Lemma caller_notify_inv k j s s' :
  pool_inv s → callers s !! k = Some CNotify → notify_worker j (set_caller k CDone (lock_ s) s) = Some s' → pool_inv s'.
Proof.
  intros Hi Hk. unfold notify_worker. cbn [set_caller workers lock_]. destruct (existsb worker_waits (workers s)) eqn:Ew.
  - destruct (workers s !! j) as [pc|] eqn:Ej; [|done]. cbn [mbind option_bind]. destruct pc; try done. intros [= <-].
    pose proof (wake_worker_inv j s Hi Ej) as Hi1.
    apply (set_caller_inv k CNotify CDone (lock_ s) (set_worker j WWoken (lock_ s) s)); try done; [by left|].
    intros _ _ _. apply (countb_elem _ j WWoken); [|done]. cbn. apply list_lookup_insert_eq. by eapply lookup_lt_Some.
  - intros [= <-]. apply (set_caller_inv k CNotify); try done; [by left|]. intros Hr Hq _. by apply all_awake.
Qed.

Lemma worker_notify_inv i j t s s' :
  pool_inv s → workers s !! i = Some (WNotify t) → notify_caller j (set_worker i (WRun t) (lock_ s) s) = Some s' → pool_inv s'.
Proof.
  intros Hi Hw. unfold notify_caller. cbn [set_worker callers lock_]. destruct (existsb caller_waits (callers s)) eqn:Ew.
  - destruct (callers s !! j) as [pc|] eqn:Ej; [|done]. cbn [mbind option_bind]. destruct pc; try done. cbn [caller_waits wake_caller].
    intros [= <-]. pose proof (wake_caller_inv j _ s Hi Ej) as Hi1.
    apply (set_worker_inv i (WNotify t) (WRun t) (lock_ s) (set_caller j (CWoken task) (lock_ s) s)); try done; [by left|].
    intros Hr _ _. right. cbn [set_caller workers callers]. rewrite existsb_count in Ew. apply bool_decide_eq_true in Ew.
    pose proof (pi_full s Hi Hr Ew). pose proof (countb_insert c_awake j (CWaiting task) (CWoken task) _ Ej) as C. cbn in C.
    unfold room in *. cbn. lia.
  - intros [= <-]. apply (set_worker_inv i (WNotify t)); try done; [by left|].
    intros _ Hc. rewrite existsb_count in Ew. by apply bool_decide_eq_false in Ew.
Qed.

(** *** The queue *)

Lemma take_inv i t q s :
  pool_inv s → workers s !! i = Some WCheck → queue_ s = t :: q → pool_inv (set_worker i (WNotify t) None (take_task t q s)).
Proof.
  intros [] Hi Hq. pose proof (pi_wlock0 i WCheck Hi eq_refl) as Hlock.
  pose proof (countb_insert w_awake i WCheck (WNotify t) _ Hi) as Ca.
  pose proof (countb_insert w_notifying i WCheck (WNotify t) _ Hi) as Cn. cbn in Ca, Cn.
  assert (∀ k u, callers s !! k ≠ Some (CSleep u)) as Hcs.
  { intros k u Hk. pose proof (pi_clock0 k _ Hk eq_refl). congruence. }
  split; unfold room in *; rewrite ?Hq in *; cbn [set_worker take_task pushed taken queue_ executed workers callers lock_ running_ max_queue_size length] in *.
  - by rewrite pi_fifo0, <- app_assoc.
  - rewrite pi_once0, <- app_assoc. f_equiv. pose proof (omap_insert_perm in_flight i WCheck (WNotify t) _ Hi) as E. cbn in E.
    rewrite app_nil_r in E. symmetry. exact E.
  - lia.
  - intros j pc Hj Hh. thread_cases; [done|]. pose proof (pi_wlock0 j pc Hj Hh). congruence.
  - intros k pc Hk Hh. pose proof (pi_clock0 k pc Hk Hh). congruence.
  - intros j Hj. thread_cases; [done|]. by pose proof (pi_wsleep0 j Hj).
  - intros k u Hk. by destruct (Hcs k u).
  - done.
  - by rewrite length_insert.
  - intros Hr j Hj. thread_cases; [done|]. by eapply pi_done0.
  - intros Hr _. pose proof (countb_elem w_awake i (WNotify t) (<[i := WNotify t]> (workers s))) as C.
    rewrite list_lookup_insert_eq in C by (by eapply lookup_lt_Some). specialize (C eq_refl eq_refl). lia.
  - intros Hr Hc. specialize (pi_full0 Hr Hc). lia.
Qed.

Lemma push_inv k t s :
  pool_inv s → callers s !! k = Some (CCheck t) → IsFull s = false → pool_inv (set_caller k CNotify None (push_task t s)).
Proof.
  intros [] Hk Hf. pose proof (pi_clock0 k (CCheck t) Hk eq_refl) as Hlock.
  pose proof (countb_insert c_awake k (CCheck t) CNotify _ Hk) as Ca. pose proof (countb_insert c_notifying k (CCheck t) CNotify _ Hk) as Cn.
  pose proof (countb_insert caller_waits k (CCheck t) CNotify _ Hk) as Cw. cbn in Ca, Cn, Cw.
  assert (∀ i, workers s !! i ≠ Some WSleep) as Hws.
  { intros i Hi. pose proof (pi_wlock0 i _ Hi eq_refl). congruence. }
  unfold IsFull in Hf. apply bool_decide_eq_false in Hf.
  split; unfold room in *; cbn [set_caller push_task pushed taken queue_ executed workers callers lock_ running_ max_queue_size] in *;
    rewrite ?length_app in *; cbn [length] in *.
  - by rewrite pi_fifo0, app_assoc.
  - done.
  - lia.
  - intros i pc Hi Hh. pose proof (pi_wlock0 i pc Hi Hh). congruence.
  - intros j pc Hj Hh. thread_cases; [done|]. pose proof (pi_clock0 j pc Hj Hh). congruence.
  - intros i Hi. by destruct (Hws i).
  - intros j u Hj. thread_cases; [done|]. pose proof (pi_clock0 j _ Hj eq_refl). congruence.
  - intros Hc. apply pi_waitmax0. lia.
  - done.
  - done.
  - intros Hr _. lia.
  - intros Hr Hc. assert (1 ≤ countb caller_waits (callers s)) as Hc0 by lia. specialize (pi_full0 Hr Hc0). lia.
Qed.

Lemma tp_run_task_inv i t s : pool_inv s → workers s !! i = Some (WRun t) → pool_inv (set_worker i WTest (lock_ s) (run_task t s)).
Proof.
  intros [] Hi. pose proof (countb_insert w_awake i (WRun t) WTest _ Hi) as Ca.
  pose proof (countb_insert w_notifying i (WRun t) WTest _ Hi) as Cn. cbn in Ca, Cn.
  split; unfold room in *; cbn [set_worker run_task pushed taken queue_ executed workers callers lock_ running_ max_queue_size] in *; try done.
  - rewrite pi_once0, <- app_assoc. f_equiv. pose proof (omap_insert_perm in_flight i (WRun t) WTest _ Hi) as E. cbn in E.
    rewrite app_nil_r in E. rewrite <- E. apply Permutation_app_comm.
  - intros j pc Hj Hh. thread_cases; [done|]. by eapply pi_wlock0.
  - intros j Hj. thread_cases; [done|]. by eapply pi_wsleep0.
  - by rewrite length_insert.
  - intros Hr j Hj. thread_cases; [done|]. by eapply pi_done0.
  - intros Hr Hq. specialize (pi_empty0 Hr Hq). lia.
  - intros Hr Hc. specialize (pi_full0 Hr Hc). lia.
Qed.

(** ** Every step keeps the invariant *)

Lemma RunThread_inv i j s s' : pool_inv s → RunThread i j s = Some s' → pool_inv s'.
Proof.
  intros Hi. unfold RunThread. destruct (workers s !! i) as [pc|] eqn:E; [|done]. cbn [mbind option_bind].
  destruct pc.
  - intros [= <-]. destruct (running_ s) eqn:Er.
    + apply (set_worker_inv i WTest); try done. by left.
    + apply (set_worker_inv i WTest); try done; rewrite ?Er; try done. by left.
  - destruct (lock_ s) eqn:El; [done|]. intros [= <-]. apply (set_worker_inv i WLock); try done. right. by left.
  - pose proof (pi_wlock s Hi i _ E eq_refl) as El. destruct (queue_ s) as [|t q] eqn:Eq; intros [= <-].
    + apply (set_worker_inv i WCheck); try done; try (by left); by rewrite Eq.
    + by apply take_inv.
  - intros [= <-]. pose proof (pi_wlock s Hi i _ E eq_refl) as El.
    apply (set_worker_inv i WSleep); try done. by right; right.
  - done.
  - destruct (lock_ s) eqn:El; [done|]. intros [= <-]. apply (set_worker_inv i WWoken); try done. right. by left.
  - pose proof (pi_wlock s Hi i _ E eq_refl) as El. destruct (running_ s) eqn:Er; intros [= <-].
    + apply (set_worker_inv i WAfterWait); try done. by left.
    + apply (set_worker_inv i WAfterWait); try done; rewrite ?Er; try done. by right; right.
  - by apply worker_notify_inv.
  - intros [= <-]. by apply tp_run_task_inv.
  - done.
Qed.

Lemma Run_inv k j s s' : pool_inv s → Run k j s = Some s' → pool_inv s'.
Proof.
  intros Hi. unfold Run. destruct (callers s !! k) as [pc|] eqn:E; [|done]. cbn [mbind option_bind].
  destruct pc as [[t|]|t|t|t|t|t|t| |].
  - destruct (running_ s) eqn:Er; cbn [negb]; intros [= <-]; apply (set_caller_inv k (CTest (Some t))); try done; by left.
  - destruct (running_ s) eqn:Er; cbn [negb]; intros [= <-]; apply (set_caller_inv k (CTest None)); try done; by left.
  - destruct (lock_ s) eqn:El; [done|]. intros [= <-]. apply (set_caller_inv k (CLock t)); try done; [right; by left|by left].
  - pose proof (pi_clock s Hi k _ E eq_refl) as El. destruct (IsFull s) eqn:Ef; intros [= <-].
    + apply (set_caller_inv k (CCheck t)); try done; [by left|]. intros _ _. right.
      unfold IsFull in Ef. apply bool_decide_eq_true in Ef. unfold room. lia.
    + by apply push_inv.
  - intros [= <-]. pose proof (pi_clock s Hi k _ E eq_refl) as El. pose proof (pi_csleep s Hi k t E) as Ef.
    unfold IsFull in Ef. apply bool_decide_eq_true in Ef.
    apply (set_caller_inv k (CSleep t)); try done; [by right; right|]. intros _. unfold room. lia.
  - done.
  - destruct (lock_ s) eqn:El; [done|]. intros [= <-]. apply (set_caller_inv k (CWoken t)); try done; [right; by left|by left].
  - pose proof (pi_clock s Hi k _ E eq_refl) as El. destruct (running_ s) eqn:Er; intros [= <-].
    + apply (set_caller_inv k (CAfterWait t)); try done; by left.
    + apply (set_caller_inv k (CAfterWait t)); try done; rewrite ?Er; try done. by right; right.
  - by apply caller_notify_inv.
  - done.
Qed.

(** [Stop] only stores, signals and waits. *)
Lemma wake_all_inv b s : pool_inv s → running_ s = false → pool_inv (notify_all b s).
Proof.
  intros [] Hr. destruct b; split; cbn [notify_all pushed taken queue_ executed workers callers lock_ running_ max_queue_size] in *;
    try done; try (by rewrite Hr).
  - rewrite pi_once0. f_equiv. clear. induction (workers s) as [|pc l IH]; [done|]. destruct pc; cbn; rewrite IH; done.
  - intros i pc Hi. apply list_lookup_fmap_Some in Hi as (q & -> & Hi). intros Hh. apply (pi_wlock0 i q Hi). by destruct q.
  - intros i Hi. apply list_lookup_fmap_Some in Hi as (q & Hq & Hi). apply (pi_wsleep0 i). by destruct q.
  - by rewrite length_fmap.
  - intros k pc Hk. apply list_lookup_fmap_Some in Hk as (q & -> & Hk). intros Hh. apply (pi_clock0 k q Hk). by destruct q.
  - intros k t Hk. apply list_lookup_fmap_Some in Hk as (q & Hq & Hk). destruct q; try done. injection Hq as ->. by eapply pi_csleep0.
  - intros Hc. exfalso. revert Hc. clear. induction (callers s) as [|pc l IH]; [cbn; lia|]. destruct pc; cbn; done.
Qed.

Lemma set_stopper_inv b pc s : pool_inv s → (b = true → running_ s = true) → pool_inv (set_stopper b pc s).
Proof. intros [] Hb. split; cbn [set_stopper pushed taken queue_ executed workers callers lock_ running_ max_queue_size]; auto. Qed.

(** The caller of [Stop] is past the store of [running_]. *)
Definition stop_ok (s : ThreadPool) : Prop := stopper s ≠ SIdle → running_ s = false.

Lemma tp_Stop_inv s s' : pool_inv s → stop_ok s → Stop s = Some s' → pool_inv s' ∧ stop_ok s'.
Proof.
  intros Hi Ho. unfold Stop, stop_ok in *. destruct (stopper s) eqn:Es.
  - destruct (running_ s) eqn:Er; intros [= <-]; (split; [by apply set_stopper_inv|done]).
  - specialize (Ho ltac:(done)). intros [= <-]. split; [|done]. apply set_stopper_inv; [by apply wake_all_inv|by rewrite Ho].
  - specialize (Ho ltac:(done)). intros [= <-]. split; [|done]. apply set_stopper_inv; [by apply wake_all_inv|by rewrite Ho].
  - specialize (Ho ltac:(done)). destruct (forallb _ _); [|done]. intros [= <-]. split; [|done]. by apply set_stopper_inv.
  - done.
Qed.

(** Threads other than the one in [Stop] leave [running_] alone. *)
Lemma notify_worker_frame j s s' : notify_worker j s = Some s' → running_ s' = running_ s ∧ stopper s' = stopper s ∧ max_queue_size s' = max_queue_size s.
Proof.
  unfold notify_worker. destruct (existsb _ _); [|by intros [= <-]]. destruct (workers s !! j); [|done]. cbn.
  destruct (worker_waits _); [|done]. by intros [= <-].
Qed.
Lemma notify_caller_frame j s s' : notify_caller j s = Some s' → running_ s' = running_ s ∧ stopper s' = stopper s ∧ max_queue_size s' = max_queue_size s.
Proof.
  unfold notify_caller. destruct (existsb _ _); [|by intros [= <-]]. destruct (callers s !! j); [|done]. cbn.
  destruct (caller_waits _); [|done]. by intros [= <-].
Qed.

Lemma step_frame l s s' : l ≠ LStop → step l s = Some s' → running_ s' = running_ s ∧ stopper s' = stopper s ∧ max_queue_size s' = max_queue_size s.
Proof.
  intros Hl H. destruct l as [i j|k j|task| |i|k]; cbn [step] in H; try done.
  - unfold RunThread in H. destruct (workers s !! i) as [pc|]; [|done]. cbn [mbind option_bind] in H.
    destruct pc; try (by injection H as <-); try done.
    + destruct (lock_ s); [done|]. by injection H as <-.
    + destruct (queue_ s); by injection H as <-.
    + destruct (lock_ s); [done|]. by injection H as <-.
    + destruct (running_ s) eqn:E; injection H as <-; by cbn.
    + by apply notify_caller_frame in H.
  - unfold Run in H. destruct (callers s !! k) as [pc|]; [|done]. cbn [mbind option_bind] in H.
    destruct pc as [task|t|t|t|t|t|t| |]; try (by injection H as <-); try done.
    + destruct (running_ s) eqn:E; cbn in H; [destruct task|]; injection H as <-; by cbn.
    + destruct (lock_ s); [done|]. by injection H as <-.
    + destruct (IsFull s); by injection H as <-.
    + destruct (lock_ s); [done|]. by injection H as <-.
    + destruct (running_ s) eqn:E; injection H as <-; by cbn.
    + by apply notify_worker_frame in H.
  - by injection H as <-.
  - destruct (workers s !! i); [|done]. cbn in H. destruct (worker_waits _); [|done]. by injection H as <-.
  - destruct (callers s !! k); [|done]. cbn in H. destruct (caller_waits _); [|done]. by injection H as <-.
Qed.

Lemma tp_step_inv l s s' : pool_inv s → stop_ok s → step l s = Some s' → pool_inv s' ∧ stop_ok s'.
Proof.
  intros Hi Ho H. destruct (decide (l = LStop)) as [->|Hl]; [by apply (tp_Stop_inv s)|].
  destruct (step_frame l s s' Hl H) as (Er & Es & _). split; [|unfold stop_ok in *; by rewrite Er, Es].
  destruct l as [i j|k j|task| |i|k]; cbn [step] in H; try done.
  - by eapply RunThread_inv.
  - by eapply Run_inv.
  - injection H as <-. destruct Hi. split; cbn [pushed taken queue_ executed workers callers lock_ running_ max_queue_size] in *; try done.
    + intros k pc [Hk|[_ Hk]]%lookup_app_Some; [by apply pi_clock0|]. apply list_lookup_singleton_Some in Hk as [_ <-]. done.
    + intros k t [Hk|[_ Hk]]%lookup_app_Some; [by eapply pi_csleep0|]. by apply list_lookup_singleton_Some in Hk as [_ ?].
    + rewrite countb_app. cbn. intros. apply pi_waitmax0. lia.
    + intros Hr Hq. specialize (pi_empty0 Hr Hq). rewrite countb_app. lia.
    + rewrite !countb_app. cbn. intros Hr Hc. rewrite Nat.add_0_r in Hc. specialize (pi_full0 Hr Hc). unfold room in *. cbn in *. lia.
  - destruct (workers s !! i) as [pc|] eqn:E; [|done]. cbn in H. destruct pc; try done. injection H as <-. by apply wake_worker_inv.
  - destruct (callers s !! k) as [pc|] eqn:E; [|done]. cbn in H. destruct pc; try done. injection H as <-. by apply wake_caller_inv.
Qed.

Lemma tp_run_inv ls : ∀ s s', pool_inv s → stop_ok s → run ls s = Some s' → pool_inv s' ∧ stop_ok s'.
Proof.
  induction ls as [|l ls IH]; intros s s' Hi Ho H; [by injection H as <-|]. cbn [run] in H.
  destruct (step l s) as [s1|] eqn:E; [|done]. destruct (tp_step_inv l s s1 Hi Ho E) as [Hi1 Ho1]. by apply (IH s1).
Qed.

Lemma tp_started_inv n size : 0 < n → pool_inv (Start n (SetMaxQueueSize size ThreadPool_new)).
Proof.
  intros Hn. unfold Start. cbn. split; cbn; try done.
  - clear. induction n as [|n IH]; done.
  - unfold room. cbn. lia.
  - intros i pc Hi. apply lookup_replicate_1 in Hi as [-> _]. done.
  - lia.
  - by rewrite length_replicate.
  - intros _ i Hi. by apply lookup_replicate_1 in Hi as [? _].
  - lia.
Qed.

(** C22: whatever the interleaving of the workers, of any number of callers
    and of [Stop], tasks leave the queue in the order in which they entered
    it and each is run once, by the worker that took it; the queue never
    exceeds its maximum; and while the pool runs no signal is lost: a task in
    the queue has a worker that will look at it or a caller about to signal
    it, and a caller asleep while there is room has a worker about to signal
    it or another caller that will look. *)
Theorem pool_misses_no_signal n size ls s :
  0 < n → run ls (Start n (SetMaxQueueSize size ThreadPool_new)) = Some s →
  pushed s = taken s ++ queue_ s ∧
  taken s ≡ₚ executed s ++ omap in_flight (workers s) ∧
  ((0 < swrap 32 size)%Z → (Z.of_nat (length (queue_ s)) ≤ swrap 32 size)%Z) ∧
  (running_ s = true → queue_ s ≠ [] →
     existsb w_awake (workers s) = true ∨ existsb c_notifying (callers s) = true) ∧
  (running_ s = true → existsb caller_waits (callers s) = true → IsFull s = false →
     existsb w_notifying (workers s) = true ∨ existsb c_awake (callers s) = true).
Proof.
  intros Hn H. assert (max_queue_size s = swrap 32 size) as Em.
  { change (swrap 32 size) with (max_queue_size (Start n (SetMaxQueueSize size ThreadPool_new))). revert H.
    generalize (Start n (SetMaxQueueSize size ThreadPool_new)). induction ls as [|l ls IH]; intros s0 H; [by injection H as <-|].
    cbn [run] in H. destruct (step l s0) as [s1|] eqn:E; [|done]. rewrite (IH s1 H). destruct (decide (l = LStop)) as [->|Hl].
    - cbn [step] in E. unfold Stop in E. destruct (stopper s0); try done; [destruct (running_ s0)| | |destruct (forallb _ _); [|done]];
        by injection E as <-.
    - by destruct (step_frame l s0 s1 Hl E) as (_ & _ & ?). }
  destruct (tp_run_inv ls _ s (tp_started_inv n size Hn) (λ H0, False_ind _ (H0 eq_refl)) H) as [[] _].
  split_and!; [done|done| | |].
  - rewrite <- Em. intros Hm. specialize (pi_max0 Hm). unfold room in pi_max0. lia.
  - intros Hr Hq. specialize (pi_empty0 Hr Hq). rewrite !existsb_count, !bool_decide_eq_true. lia.
  - intros Hr Hc Hf. rewrite existsb_count, bool_decide_eq_true in Hc. specialize (pi_full0 Hr Hc).
    specialize (pi_waitmax0 Hc). rewrite !existsb_count, !bool_decide_eq_true.
    unfold IsFull in Hf. apply bool_decide_eq_false in Hf. unfold room in pi_full0. lia.
Qed.

Lemma pool_misses_no_signal_witness :
  ∃ s, run [LCall (Some 7%Z); LCaller 0 0; LCaller 0 0; LCaller 0 0; LCall (Some 8%Z); LWorker 0 0; LWorker 0 0; LCaller 1 0;
            LWorker 0 0; LCaller 0 0; LWorker 0 0; LCaller 1 0; LCaller 1 0]
         (Start 2 (SetMaxQueueSize 1 ThreadPool_new)) = Some s ∧
    pushed s = [7%Z; 8%Z] ∧ taken s ≡ₚ executed s ++ omap in_flight (workers s) ∧
    (existsb w_awake (workers s) = true ∨ existsb c_notifying (callers s) = true).
Proof.
  destruct (run [LCall (Some 7%Z); LCaller 0 0; LCaller 0 0; LCaller 0 0; LCall (Some 8%Z); LWorker 0 0; LWorker 0 0; LCaller 1 0;
            LWorker 0 0; LCaller 0 0; LWorker 0 0; LCaller 1 0; LCaller 1 0]
         (Start 2 (SetMaxQueueSize 1 ThreadPool_new))) as [s|] eqn:E; [|vm_compute in E; discriminate E].
  destruct (pool_misses_no_signal 2 1 _ s ltac:(lia) E) as (_ & Ho & _ & He & _). exists s.
  split; [reflexivity|]. vm_compute in E. injection E as <-.
  split; [reflexivity|]. split; [exact Ho|]. apply He; [reflexivity|discriminate].
Defined.

(** [Stop] stores and signals without the lock: a worker between its test
    and its wait misses both and sleeps for ever, and [Stop] waits for it. *)
Lemma stop_can_hang :
  ∃ s, run [LWorker 0 0; LWorker 0 0; LWorker 0 0; LStop; LStop; LStop; LWorker 0 0] (Start 1 ThreadPool_new) = Some s ∧
    stopper s = SJoin ∧ workers s = [WWaiting] ∧ step LStop s = None ∧ (∀ i j, step (LWorker i j) s = None).
Proof.
  eexists. split; [vm_compute; reflexivity|]. split; [reflexivity|]. split; [reflexivity|]. split; [reflexivity|].
  intros [|i] j; reflexivity.
Qed.

(** Tasks that are still queued when the pool stops never run. *)
Lemma stop_drops_tasks :
  ∃ s, run [LCall (Some 7%Z); LCaller 0 0; LCaller 0 0; LCaller 0 0; LStop; LStop; LStop; LCaller 0 0; LWorker 0 0; LStop]
         (Start 1 ThreadPool_new) = Some s ∧
    stopper s = SDone ∧ callers s = [CDone] ∧ workers s = [WDone] ∧ queue_ s = [7%Z] ∧ executed s = [].
Proof. eexists. split; [vm_compute; reflexivity|]. repeat split. Qed.
