(* ===== verification/StringProxy.v ===== *)
(** String views: [muzi/base/string_proxy.h].  A view is a pointer, given by
    the memory from it on or null, and a length; every access checks that the
    memory holds what it reads. *)

From S2P Require Import Prelude Endian InetAddress.
Local Open Scope Z_scope.

Record StringProxy := mkProxy { ptr_ : option bytes; length_ : nat }.

(** ** Construction and access *)

Definition StringProxy_null : StringProxy := mkProxy None 0.
Definition StringProxy_cstr (ptr : bytes) : res StringProxy := n ← strlen ptr; Ok (mkProxy (Some ptr) n).
(** From an array of [N] characters. *)
Definition StringProxy_array (msg : bytes) : StringProxy := mkProxy (Some msg) (length msg - 1).
(** An [int] converted to [size_t]. *)
Definition StringProxy_len (ptr : bytes) (len : Z) : StringProxy := mkProxy (Some ptr) (Z.to_nat (wrap 64 len)).
Definition StringProxy_string (str : bytes) : StringProxy := mkProxy (Some str) (length str).

Definition data (p : StringProxy) : option bytes := ptr_ p.
Definition empty (p : StringProxy) : bool := bool_decide (length_ p = 0%nat).
Definition size (p : StringProxy) : nat := length_ p.

Definition reset_null (p : StringProxy) : StringProxy := StringProxy_null.
Definition reset_cstr (ptr : bytes) (p : StringProxy) : res StringProxy := StringProxy_cstr ptr.
Definition reset_len (ptr : bytes) (len : Z) (p : StringProxy) : StringProxy := StringProxy_len ptr len.
Definition reset_string (str : bytes) (p : StringProxy) : StringProxy := StringProxy_string str.

(** [n] bytes through a pointer; nothing is read of the null pointer when
    [n] is 0. *)
Definition read_ptr (ptr : option bytes) (n : nat) : res bytes :=
  if decide (n = 0%nat) then Ok [] else m ← deref NullDeref ptr; read_mem m n.

Definition at_index (index : nat) (p : StringProxy) : res ascii :=
  m ← deref NullDeref (ptr_ p); deref OutOfBounds (m !! index).

Definition ToString (p : StringProxy) : res bytes := read_ptr (ptr_ p) (length_ p).
Definition CopyToString (str : bytes) (p : StringProxy) : res bytes := read_ptr (ptr_ p) (length_ p).

(** ** Comparison *)

(** The difference of the first bytes that differ, as unsigned characters. *)
Fixpoint mem_diff (a b : bytes) : Z :=
  match a, b with
  | x :: a, y :: b => if decide (x = y) then mem_diff a b else val_of x - val_of y
  | _, _ => 0
  end.

Definition memcmp (a b : option bytes) (n : nat) : res Z :=
  x ← read_ptr a n; y ← read_ptr b n; Ok (mem_diff x y).

Definition shorter (p rhs : StringProxy) : nat :=
  if decide (length_ rhs < length_ p)%nat then length_ rhs else length_ p.

Definition op_eq (p rhs : StringProxy) : res bool :=
  if decide (length_ p = length_ rhs) then r ← memcmp (ptr_ p) (ptr_ rhs) (length_ p); Ok (bool_decide (r = 0))
  else Ok false.

Definition op_ne (p rhs : StringProxy) : res bool := b ← op_eq p rhs; Ok (negb b).

Definition compare (p rhs : StringProxy) : res Z :=
  r ← memcmp (ptr_ p) (ptr_ rhs) (shorter p rhs);
  if decide (r = 0) then
    if decide (length_ rhs < length_ p)%nat then Ok 1
    else if decide (length_ p < length_ rhs)%nat then Ok (-1) else Ok r
  else Ok r.

(** [COMPARE_OPERATOR(op, aux_op)]. *)
Definition compare_operator (op : nat → nat → bool) (aux_op : Z → bool) (p rhs : StringProxy) : res bool :=
  r ← memcmp (ptr_ p) (ptr_ rhs) (shorter p rhs);
  Ok (aux_op r || (bool_decide (r = 0) && op (length_ p) (length_ rhs))).

Definition op_lt := compare_operator (λ a b, bool_decide (a < b)%nat) (λ r, bool_decide (r < 0)).
Definition op_le := compare_operator (λ a b, bool_decide (a ≤ b)%nat) (λ r, bool_decide (r < 0)).
Definition op_gt := compare_operator (λ a b, bool_decide (b < a)%nat) (λ r, bool_decide (0 < r)).
Definition op_ge := compare_operator (λ a b, bool_decide (b ≤ a)%nat) (λ r, bool_decide (0 < r)).

(** ** The reference: lexicographic order of unsigned bytes *)

Fixpoint lex (a b : bytes) : comparison :=
  match a, b with
  | [], [] => Eq
  | [], _ :: _ => Lt
  | _ :: _, [] => Gt
  | x :: a, y :: b => match val_of x ?= val_of y with Eq => lex a b | c => c end
  end.

(** A view of the bytes [s]. *)
Definition views (p : StringProxy) (s : bytes) : Prop := ToString p = Ok s.

Lemma views_read p s n : views p s → (n ≤ length_ p)%nat → read_ptr (ptr_ p) n = Ok (take n s) ∧ length s = length_ p.
Proof.
  unfold views, ToString, read_ptr. intros H Hn. destruct (decide (length_ p = 0%nat)) as [E|E].
  { injection H as <-. rewrite E. destruct (decide (n = 0%nat)); [by subst|lia]. }
  destruct (ptr_ p) as [m|]; [|done]. cbn [deref mbind res_bind] in *. unfold read_mem in *.
  destruct (decide (length_ p ≤ length m)%nat); [|done]. injection H as <-. split; [|rewrite length_take; lia].
  destruct (decide (n = 0%nat)) as [->|]; [done|]. rewrite decide_True by lia. by rewrite take_take, Nat.min_l by lia.
Qed.

Lemma val_of_inj x y : val_of x = val_of y → x = y.
Proof. unfold val_of. intros E. rewrite <- (ascii_N_embedding x), <- (ascii_N_embedding y). f_equal. lia. Qed.

(** The two ways to compare: bytes over the common length, then lengths. *)
Lemma lex_spec a : ∀ b,
  let n := Nat.min (length a) (length b) in
  let r := mem_diff (take n a) (take n b) in
  lex a b = (if decide (r < 0) then Lt else if decide (0 < r) then Gt else Nat.compare (length a) (length b)).
Proof.
  induction a as [|x a IH]; intros [|y b]; cbn zeta; [done|done|done|]. cbn [lex length Nat.min take mem_diff].
  destruct (decide (x = y)) as [->|Hne].
  - rewrite Z.compare_refl. apply IH.
  - assert (val_of x ≠ val_of y) as Hv by (by intros ?%val_of_inj).
    destruct (Z.compare_spec (val_of x) (val_of y)); [done| |].
    + by rewrite decide_True by lia.
    + by rewrite decide_False, decide_True by lia.
Qed.

(** What [memcmp] over the shorter length tells. *)
Lemma memcmp_views p q a b :
  views p a → views q b →
  memcmp (ptr_ p) (ptr_ q) (shorter p q) =
    Ok (mem_diff (take (Nat.min (length a) (length b)) a) (take (Nat.min (length a) (length b)) b)).
Proof.
  intros Ha Hb. assert (shorter p q ≤ length_ p ∧ shorter p q ≤ length_ q)%nat as [Hp Hq].
  { unfold shorter. case_decide; lia. }
  destruct (views_read p a _ Ha Hp) as [Ea La]. destruct (views_read q b _ Hb Hq) as [Eb Lb].
  unfold memcmp. rewrite Ea, Eb. cbn [mbind res_bind].
  replace (Nat.min (length a) (length b)) with (shorter p q); [done|]. unfold shorter. rewrite La, Lb. case_decide; lia.
Qed.

Definition cmp_lt (c : comparison) : bool := match c with Lt => true | _ => false end.
Definition cmp_gt (c : comparison) : bool := match c with Gt => true | _ => false end.
Definition cmp_eq (c : comparison) : bool := match c with Eq => true | _ => false end.

Lemma lex_eq a b : lex a b = Eq ↔ a = b.
Proof.
  revert b. induction a as [|x a IH]; intros [|y b]; try done. cbn [lex].
  destruct (Z.compare_spec (val_of x) (val_of y)) as [E|E|E].
  - rewrite IH. apply val_of_inj in E as ->. split; [by intros ->|by intros [= ->]].
  - split; [done|]. intros [= -> ->]. lia.
  - split; [done|]. intros [= -> ->]. lia.
Qed.

Lemma mem_diff_refl a : mem_diff a a = 0.
Proof. induction a as [|x a IH]; [done|]. cbn. by rewrite decide_True. Qed.

Lemma mem_diff_eq a b : length a = length b → mem_diff a b = 0 → a = b.
Proof.
  revert b. induction a as [|x a IH]; intros [|y b]; cbn [length mem_diff]; try done. intros [= Hl].
  case_decide as E; [subst; intros H; f_equal; by apply IH|]. intros H. destruct E. apply val_of_inj. lia.
Qed.

Lemma operators_lex p q a b :
  views p a → views q b →
  (∃ r, compare p q = Ok r ∧ (r ?= 0) = lex a b) ∧
  op_eq p q = Ok (cmp_eq (lex a b)) ∧ op_ne p q = Ok (negb (cmp_eq (lex a b))) ∧
  op_lt p q = Ok (cmp_lt (lex a b)) ∧ op_le p q = Ok (negb (cmp_gt (lex a b))) ∧
  op_gt p q = Ok (cmp_gt (lex a b)) ∧ op_ge p q = Ok (negb (cmp_lt (lex a b))).
Proof.
  intros Ha Hb. pose proof (memcmp_views p q a b Ha Hb) as Em. pose proof (lex_spec a b) as El. cbn zeta in El.
  set (r := mem_diff _ _) in *. clearbody r.
  destruct (views_read p a (length_ p) Ha (le_n _)) as [Ea La]. destruct (views_read q b (length_ q) Hb (le_n _)) as [Eb Lb].
  assert (op_eq p q = Ok (cmp_eq (lex a b))) as Eeq.
  { unfold op_eq. destruct (decide (length_ p = length_ q)) as [Hl|Hl].
    - unfold memcmp. rewrite Ea, Hl, Eb. cbn [mbind res_bind]. rewrite !take_ge by lia.
      f_equal. case_bool_decide as Hd.
      + apply mem_diff_eq in Hd as ->; [|lia]. by rewrite (proj2 (lex_eq b b) eq_refl).
      + destruct (lex a b) eqn:E; try done. apply lex_eq in E as ->. destruct Hd. apply mem_diff_refl.
    - destruct (lex a b) eqn:E; try done. apply lex_eq in E as ->. congruence. }
  split; [|split; [done|split; [unfold op_ne; by rewrite Eeq|]]].
  - unfold compare. rewrite Em. cbn [mbind res_bind]. rewrite <- La, <- Lb.
    destruct (decide (r = 0)) as [->|H0].
    + rewrite decide_False, decide_False in El by lia. rewrite El.
      destruct (decide (length b < length a)%nat); [|destruct (decide (length a < length b)%nat)];
        (eexists; split; [reflexivity|]); symmetry.
      * by apply Nat.compare_gt_iff.
      * by apply Nat.compare_lt_iff.
      * apply Nat.compare_eq_iff. lia.
    + exists r. split; [done|]. rewrite El. destruct (decide (r < 0)); [by apply Z.compare_lt_iff|].
      rewrite decide_True by lia. apply Z.compare_gt_iff. lia.
  - unfold op_lt, op_le, op_gt, op_ge, compare_operator. rewrite Em. cbn [mbind res_bind]. rewrite <- La, <- Lb, El.
    destruct (decide (r < 0)); [repeat case_bool_decide; try lia; done|].
    destruct (decide (0 < r)); [repeat case_bool_decide; try lia; done|].
    destruct (Nat.compare_spec (length a) (length b)); repeat case_bool_decide; try lia; done.
Qed.

(** C39: [compare] and the six comparison operators are the lexicographic
    order of the bytes viewed, as unsigned characters. *)
Theorem string_proxy_compares p q a b :
  views p a → views q b →
  (∃ r, compare p q = Ok r ∧ (r ?= 0) = lex a b) ∧
  op_eq p q = Ok (cmp_eq (lex a b)) ∧ op_ne p q = Ok (negb (cmp_eq (lex a b))) ∧
  op_lt p q = Ok (cmp_lt (lex a b)) ∧ op_le p q = Ok (negb (cmp_gt (lex a b))) ∧
  op_gt p q = Ok (cmp_gt (lex a b)) ∧ op_ge p q = Ok (negb (cmp_lt (lex a b))).
Proof. apply operators_lex. Qed.

Lemma string_proxy_compares_witness :
  op_lt (StringProxy_string (B "ab")) (mkProxy (Some (["a"; "255"]%char)) 2) = Ok true ∧
  op_ge (StringProxy_string (B "abc")) (StringProxy_array (B "ab" ++ [nul])) = Ok true ∧
  op_eq StringProxy_null (StringProxy_string []) = Ok true.
Proof.
  split; [|split].
  - apply (string_proxy_compares _ _ (B "ab") ["a"; "255"]%char); reflexivity.
  - apply (string_proxy_compares _ _ (B "abc") (B "ab")); reflexivity.
  - apply (string_proxy_compares _ _ [] []); reflexivity.
Defined.

(** A view of an array takes in what follows the terminator. *)
Lemma array_keeps_nul : ToString (StringProxy_array (B "ab" ++ [nul; nul])) = Ok (B "ab" ++ [nul]).
Proof. reflexivity. Qed.
