(* ===== verification/Calendar.v ===== *)
(** The calendar behind the time zones of [muzi/base/timezone.h]: [gmtime_r]
    as POSIX defines it, the zones as they use it, and the order of the texts
    that [Timestamp::ToFormatString] makes with them. *)

From S2P Require Import Prelude Endian Timestamp StringProxy.
From stdpp Require Import pretty.
Local Open Scope Z_scope.

(** Division and modulus by constants are linear here. *)
Ltac Zify.zify_post_hook ::= Z.to_euclidean_division_equations.

(** ** Broken-down time *)

Definition leap (y : Z) : bool := (y mod 4 =? 0) && (negb (y mod 100 =? 0) || (y mod 400 =? 0)).
Definition year_days (y : Z) : Z := if leap y then 366 else 365.

(** The lengths of the months. *)
Definition months (y : Z) : list Z := [31; if leap y then 29 else 28; 31; 30; 31; 30; 31; 31; 30; 31; 30; 31].

(** The days from 1 January 1970 to that of the year [y]: the terms of the
    "seconds since the epoch" of POSIX that count years. *)
Definition days_before_year (y : Z) : Z := 365 * (y - 1970) + (y - 1969) / 4 - (y - 1901) / 100 + (y - 1601) / 400.

Definition days_before_month (y m : Z) : Z := foldr Z.add 0 (take (Z.to_nat m) (months y)).

(** POSIX: "seconds since the epoch", with [tm_yday] from the month and its
    day. *)
Definition seconds_of (b : tm) : Z :=
  let y := tm_year b + 1900 in
  tm_sec b + tm_min b * 60 + tm_hour b * 3600
  + (days_before_month y (tm_mon b) + tm_mday b - 1 + days_before_year y) * 86400.

(** A date of the calendar and a time of the day. *)
Definition tm_valid (b : tm) : Prop :=
  (∃ d, months (tm_year b + 1900) !! Z.to_nat (tm_mon b) = Some d ∧ 1 <= tm_mday b <= d) ∧ 0 <= tm_mon b ∧
  0 <= tm_hour b <= 23 ∧ 0 <= tm_min b <= 59 ∧ 0 <= tm_sec b <= 59.

(** The year of a day: the mean length of a year finds it up to one. *)
Definition year_of_day (days : Z) : Z :=
  let y := 1970 + 400 * days / 146097 in
  if days <? days_before_year y then y - 1 else if days_before_year (y + 1) <=? days then y + 1 else y.

(** The month of a day of the year, from 0, and what is left of it. *)
Fixpoint month_of_yday (l : list Z) (m yday : Z) : Z * Z :=
  match l with
  | d :: (_ :: _) as l => if yday <? d then (m, yday) else month_of_yday l (m + 1) (yday - d)
  | _ => (m, yday)
  end.

(** [gmtime_r]. *)
Definition gmtime (sec : Z) : tm :=
  let days := sec / 86400 in
  let rest := sec mod 86400 in
  let y := year_of_day days in
  let '(m, d) := month_of_yday (months y) 0 (days - days_before_year y) in
  mkTm (y - 1900) m (d + 1) (rest / 3600) (rest mod 3600 / 60) (rest mod 60).

(** ** Time zones *)

(** [TimeZone]: its virtual functions. *)
Record TimeZone := mkZone {
  Convert_tm : Z → tm;
  Convert_time : Z → Z;
  GetTzName : bytes
}.

(** The C library gives [localtime_r], [tzname] and [timezone]. *)
Definition LocalTimeZone (localtime_r : Z → tm) (tzname : list bytes) : option TimeZone :=
  name ← head tzname; Some (mkZone localtime_r LocalTimeZone_Convert name).
Definition UtcTimeZone (timezone : Z) : TimeZone := mkZone gmtime (UtcTimeZone_Convert timezone) (B "UTC").

(** ** Proofs *)

Lemma months_cases y : months y = [31; 28; 31; 30; 31; 30; 31; 31; 30; 31; 30; 31] ∧ year_days y = 365 ∧ leap y = false ∨
  months y = [31; 29; 31; 30; 31; 30; 31; 31; 30; 31; 30; 31] ∧ year_days y = 366 ∧ leap y = true.
Proof. unfold months, year_days. destruct (leap y); auto. Qed.

Lemma days_before_year_succ y : days_before_year (y + 1) = days_before_year y + year_days y.
Proof.
  unfold days_before_year, year_days, leap.
  destruct (Z.eqb_spec (y mod 4) 0), (Z.eqb_spec (y mod 100) 0), (Z.eqb_spec (y mod 400) 0); cbn [negb andb orb]; lia.
Qed.

Lemma year_days_bounds y : 365 <= year_days y <= 366.
Proof. unfold year_days. destruct (leap y); lia. Qed.

Lemma year_of_day_spec days :
  let y := year_of_day days in days_before_year y <= days < days_before_year y + year_days y.
Proof.
  cbn zeta. rewrite <- days_before_year_succ. unfold year_of_day. set (y := 1970 + _).
  assert (146097 * (y - 1970) <= 400 * days < 146097 * (y - 1970) + 146097) as Hy by (subst y; lia).
  clearbody y. destruct (Z.ltb_spec days (days_before_year y)); [|destruct (Z.leb_spec (days_before_year (y + 1)) days)].
  - replace (y - 1 + 1) with y by lia. split; [|lia]. unfold days_before_year in *. lia.
  - split; [lia|]. unfold days_before_year in *. lia.
  - lia.
Qed.

Lemma month_of_yday_spec l : ∀ m yday,
  0 <= yday < foldr Z.add 0 l →
  ∃ k d len, month_of_yday l m yday = (m + Z.of_nat k, d) ∧ l !! k = Some len ∧ 0 <= d < len ∧
    foldr Z.add 0 (take k l) + d = yday.
Proof.
  induction l as [|d [|d' l] IH]; intros m yday Hy; cbn [foldr] in Hy; [lia| |].
  - exists 0%nat, yday, d. split_and!; try done; try lia. cbn [month_of_yday]. f_equal. lia.
  - cbn [month_of_yday]. destruct (Z.ltb_spec yday d).
    + exists 0%nat, yday, d. split_and!; try done; try lia. f_equal. lia.
    + destruct (IH (m + 1) (yday - d)) as (k & x & len & E & Hk & Hx & Hs); [cbn [foldr]; lia|].
      exists (S k), x, len. split_and!; try done; try lia; [|cbn [take foldr]; lia].
      change (month_of_yday (d' :: l) (m + 1) (yday - d) = (m + Z.of_nat (S k), x)). rewrite E. f_equal. lia.
Qed.

Lemma months_sum y : foldr Z.add 0 (months y) = year_days y.
Proof. destruct (months_cases y) as [(-> & -> & _)|(-> & -> & _)]; reflexivity. Qed.

(** [gmtime] gives the date whose "seconds since the epoch" it was given. *)
Lemma gmtime_spec sec : tm_valid (gmtime sec) ∧ seconds_of (gmtime sec) = sec.
Proof.
  unfold gmtime. set (days := sec / 86400). set (rest := sec mod 86400).
  assert (sec = days * 86400 + rest ∧ 0 <= rest < 86400) as [Es Hr] by lia. clearbody days rest. subst sec.
  pose proof (year_of_day_spec days) as Hy. cbn zeta in Hy. set (y := year_of_day days) in *. clearbody y.
  destruct (month_of_yday_spec (months y) 0 (days - days_before_year y)) as (k & d & len & -> & Hk & Hd & Hs);
    [rewrite months_sum; lia|].
  unfold tm_valid, seconds_of, days_before_month. cbn [tm_year tm_mon tm_mday tm_hour tm_min tm_sec].
  replace (y - 1900 + 1900) with y by lia. rewrite Z.add_0_l, Nat2Z.id. split.
  - split_and!; try lia. exists len. split; [done|lia].
  - assert (rest mod 60 + rest mod 3600 / 60 * 60 + rest / 3600 * 3600 = rest) by lia. lia.
Qed.

(** *** The order of dates *)

Abbreviation then_by c d := (match c with Eq => d | r => r end).

(** The order of the texts: by year, month, day and time of the day. *)
Definition tm_compare (a b : tm) : comparison :=
  then_by (tm_year a ?= tm_year b) (then_by (tm_mon a ?= tm_mon b) (then_by (tm_mday a ?= tm_mday b)
    (then_by (tm_hour a ?= tm_hour b) (then_by (tm_min a ?= tm_min b) (tm_sec a ?= tm_sec b))))).

(** A comparison by a more and then a less significant part. *)
Lemma compare_parts a b u v c :
  (a < b → u < v) → (b < a → v < u) → (a = b → (u ?= v) = c) → (u ?= v) = then_by (a ?= b) c.
Proof.
  intros H1 H2 H3. destruct (Z.compare_spec a b) as [E|E|E]; [by apply H3|by apply Z.compare_lt_iff, H1|by apply Z.compare_gt_iff, H2].
Qed.

Lemma days_before_year_mono i j : i < j → days_before_year i + 365 <= days_before_year j.
Proof.
  intros H. pose proof (days_before_year_succ i). pose proof (year_days_bounds i).
  unfold days_before_year in *. lia.
Qed.

Lemma months_pos y i d : months y !! i = Some d → 0 < d.
Proof.
  intros H. assert (Forall (λ d, 0 < d) (months y)) as Hf by (unfold months; destruct (leap y); by repeat constructor).
  by apply (Forall_lookup_1 _ _ _ _ Hf H).
Qed.

(** Months before another end before it. *)
Lemma sum_take_lt (l : list Z) (i j : nat) d :
  Forall (λ d, 0 < d) l → l !! i = Some d → (i < j)%nat → foldr Z.add 0 (take i l) + d <= foldr Z.add 0 (take j l).
Proof.
  intros Hl. revert i j. induction l as [|x l IH]; intros i j Hi Hij; [done|]. apply Forall_cons in Hl as [Hx Hl].
  assert (∀ k, 0 <= foldr Z.add 0 (take k l)) as Hnn.
  { intros k. clear -Hl. revert k. induction Hl as [|y l Hy _ IH]; intros [|k]; cbn; try lia. specialize (IH k). lia. }
  destruct j as [|j]; [lia|]. destruct i as [|i]; cbn in Hi |- *.
  - injection Hi as ->. specialize (Hnn j). lia.
  - specialize (IH Hl i j Hi). lia.
Qed.

Lemma months_forall y : Forall (λ d, 0 < d) (months y).
Proof. apply Forall_lookup. intros i d. apply months_pos. Qed.

(** A day of a month is a day of its year. *)
Lemma yday_bounds y m d :
  months y !! m = Some d → 0 <= foldr Z.add 0 (take m (months y)) ∧ foldr Z.add 0 (take m (months y)) + d <= year_days y.
Proof.
  intros H. pose proof (sum_take_lt _ _ (length (months y)) _ (months_forall y) H (lookup_lt_Some _ _ _ H)) as Hs.
  rewrite firstn_all, months_sum in Hs. split; [|done].
  destruct m as [|m]; [cbn; lia|]. destruct (months y !! 0%nat) as [x|] eqn:E; [|by destruct (leap y)].
  pose proof (sum_take_lt _ _ (S m) _ (months_forall y) E ltac:(lia)). pose proof (months_pos _ _ _ E). cbn in *. lia.
Qed.

(** Dates are ordered as their seconds. *)
Lemma seconds_compare a b : tm_valid a → tm_valid b → (seconds_of a ?= seconds_of b) = tm_compare a b.
Proof.
  intros ((da & Ha & Hda) & Hma & Hta & Hna & Hsa) ((db & Hb & Hdb) & Hmb & Htb & Hnb & Hsb).
  destruct (yday_bounds _ _ _ Ha) as [Ha0 Ha1]. destruct (yday_bounds _ _ _ Hb) as [Hb0 Hb1].
  unfold seconds_of, tm_compare, days_before_month in *.
  destruct a as [ya ma dya ha mia sa], b as [yb mb dyb hb mib sb]. cbn [tm_year tm_mon tm_mday tm_hour tm_min tm_sec] in *.
  set (za := foldr _ _ (take _ (months (ya + 1900)))) in *. set (zb := foldr _ _ (take _ (months (yb + 1900)))) in *.
  pose proof (days_before_year_succ (ya + 1900)). pose proof (days_before_year_succ (yb + 1900)).
  pose proof (year_days_bounds (ya + 1900)). pose proof (year_days_bounds (yb + 1900)).
  apply compare_parts.
  { intros Hlt. assert (days_before_year (ya + 1900 + 1) <= days_before_year (yb + 1900)) by (unfold days_before_year; lia). lia. }
  { intros Hlt. assert (days_before_year (yb + 1900 + 1) <= days_before_year (ya + 1900)) by (unfold days_before_year; lia). lia. }
  intros <-. subst za zb. generalize dependent (days_before_year (ya + 1900)). intros D _ _. apply compare_parts.
  { intros Hlt. pose proof (sum_take_lt _ _ (Z.to_nat mb) _ (months_forall _) Ha ltac:(lia)). lia. }
  { intros Hlt. pose proof (sum_take_lt _ _ (Z.to_nat ma) _ (months_forall _) Hb ltac:(lia)). lia. }
  intros <-. generalize (foldr Z.add 0 (take (Z.to_nat ma) (months (ya + 1900)))). intros M.
  apply compare_parts; [lia..|]. intros <-. apply compare_parts; [lia..|]. intros <-.
  apply compare_parts; [lia..|]. intros <-. destruct (Z.compare_spec sa sb); [subst; apply Z.compare_refl|apply Z.compare_lt_iff; lia|apply Z.compare_gt_iff; lia].
Qed.

Lemma tm_compare_eq a b : tm_compare a b = Eq → a = b.
Proof.
  unfold tm_compare. destruct a as [ya ma dya ha mia sa], b as [yb mb dyb hb mib sb]. cbn.
  repeat match goal with |- context [?x ?= ?y] => destruct (Z.compare_spec x y) as [->| |]; [|done..] end. done.
Qed.

(** There is one date for each second. *)
Lemma gmtime_seconds_of b : tm_valid b → gmtime (seconds_of b) = b.
Proof.
  intros Hb. destruct (gmtime_spec (seconds_of b)) as [Hv Hs]. apply tm_compare_eq.
  rewrite <- seconds_compare, Hs by done. apply Z.compare_refl.
Qed.

Lemma tm_compare_gmtime s1 s2 : tm_compare (gmtime s1) (gmtime s2) = (s1 ?= s2).
Proof.
  destruct (gmtime_spec s1) as [H1 E1]. destruct (gmtime_spec s2) as [H2 E2].
  by rewrite <- seconds_compare, E1, E2.
Qed.

(** The seconds of the years from 1970 to 9999. *)
Definition year_10000 : Z := 253402300800.

Lemma gmtime_year s : 0 <= s < year_10000 → 1970 <= tm_year (gmtime s) + 1900 <= 9999.
Proof.
  intros Hs. destruct (gmtime_spec s) as (((d & Hm & Hd) & Hmon & Hh & Hmi & Hse) & E).
  destruct (yday_bounds _ _ _ Hm) as [H0 H1]. unfold seconds_of, days_before_month, year_10000 in *.
  pose proof (year_days_bounds (tm_year (gmtime s) + 1900)). pose proof (days_before_year_succ (tm_year (gmtime s) + 1900)).
  unfold days_before_year in *. lia.
Qed.

Lemma gmtime_tm_ok s : 0 <= s < year_10000 → tm_ok (gmtime s).
Proof.
  intros Hs. pose proof (gmtime_year s Hs). destruct (gmtime_spec s) as (((d & Hm & Hd) & Hmon & Hh & Hmi & Hse) & _).
  pose proof (lookup_lt_Some _ _ _ Hm) as Hl. change (length _) with 12%nat in Hl.
  assert (Forall (λ d, d <= 31) (months (tm_year (gmtime s) + 1900))) as Hf by (unfold months; destruct (leap _); by repeat constructor).
  pose proof (Forall_lookup_1 _ _ _ _ Hf Hm) as Hd31. cbn beta in Hd31. unfold tm_ok. lia.
Qed.

(** *** Numbers as texts of a fixed width *)

(** The last [n] decimal digits. *)
Fixpoint dec (n : nat) (z : Z) : bytes :=
  match n with O => [] | S n => dec n (z / 10) ++ [pretty_N_char (Z.to_N (z mod 10))] end.

Lemma length_dec n : ∀ z, length (dec n z) = n.
Proof. induction n as [|n IH]; intros z; [done|]. cbn. rewrite length_app, IH. cbn. lia. Qed.

Lemma pretty_dec n : ∀ x s, (x < 10 ^ N.of_nat n)%N → ∃ k, dec n (Z.of_N x) ++ B s = replicate k "0"%char ++ B (pretty_N_go x s).
Proof.
  induction n as [|n IH]; intros x s Hx.
  - assert (x = 0%N) as -> by (cbn in Hx; lia). exists 0%nat. by rewrite pretty_N_go_0.
  - rewrite Nat2N.inj_succ, N.pow_succ_r' in Hx. cbn [dec].
    replace (Z.of_N x / 10) with (Z.of_N (x / 10)) by (rewrite N2Z.inj_div; done).
    replace (Z.to_N (Z.of_N x mod 10)) with (x mod 10)%N by (rewrite <- (N2Z.id (x mod 10)), N2Z.inj_mod; done).
    rewrite <- app_assoc. change ([pretty_N_char (x mod 10)%N] ++ B s) with (B (String (pretty_N_char (x mod 10)%N) s)).
    destruct (decide (x = 0%N)) as [->|Hne].
    + destruct (IH 0%N (String (pretty_N_char 0) s)) as (k & E); [lia|]. change (0 / 10)%N with 0%N. change (0 mod 10)%N with 0%N.
      rewrite E. rewrite !pretty_N_go_0. exists (S k). change (B (String (pretty_N_char 0) s)) with ("0"%char :: B s).
      rewrite cons_middle, app_assoc. f_equal. by rewrite <- (replicate_cons_app k "0"%char).
    + rewrite (pretty_N_go_step x s) by lia. apply IH. apply N.Div0.div_lt_upper_bound. lia.
Qed.

Lemma digits_dec (n : nat) z : (0 < n)%nat → 0 <= z < 10 ^ Z.of_nat n → ∃ k, dec n z = replicate k "0"%char ++ digits z.
Proof.
  intros Hn Hz. destruct z as [|p|p]; [| |lia].
  - destruct (pretty_dec (n - 1) 0 "0") as (k & E); [cbn; lia|]. rewrite pretty_N_go_0 in E. exists k.
    change (digits 0) with (B "0"). rewrite <- E. destruct n as [|n]; [lia|]. cbn [dec]. replace (S n - 1)%nat with n by lia. done.
  - destruct (pretty_dec n (Npos p) "") as (k & E).
    { apply N2Z.inj_lt. rewrite N2Z.inj_pow, nat_N_Z. cbn. lia. }
    rewrite app_nil_r in E. exists k. change (Z.of_N (N.pos p)) with (Z.pos p) in E. rewrite E. f_equal.
Qed.

(** [%0<n>d] of a number of at most [n] digits. *)
Lemma fmt_0d_dec (n : nat) z : (0 < n)%nat → 0 <= z < 10 ^ Z.of_nat n → fmt_0d n z = dec n z.
Proof.
  intros Hn Hz. destruct (digits_dec n z Hn Hz) as (k & E). pose proof (length_dec n z) as Hd. rewrite E, length_app, length_replicate in Hd.
  unfold fmt_0d, pad_with. destruct (Z.ltb_spec z 0); [lia|]. rewrite E. f_equal. f_equal. lia.
Qed.

Lemma val_of_digit d : 0 <= d < 10 → val_of (pretty_N_char (Z.to_N d)) = 48 + d.
Proof.
  intros Hd. assert (d ∈ seqZ 0 10) as Hin by (apply elem_of_seqZ; lia). clear Hd.
  revert d Hin. apply Forall_forall. by repeat constructor.
Qed.

(** [%4d] of a number of four digits. *)
Lemma fmt_d_year z : 1000 <= z <= 9999 → fmt_d 4 z = dec 4 z.
Proof.
  intros Hz. destruct (digits_dec 4 z) as ([|k] & E); [lia..| |].
  - pose proof (length_dec 4 z) as Hd. rewrite E in *. cbn in Hd |- *. unfold fmt_d, pad_with. by rewrite Hd.
  - exfalso. cbn [dec app replicate] in E. injection E as E _. apply (f_equal val_of) in E.
    rewrite val_of_digit in E by lia. change (val_of "0") with 48 in E. lia.
Qed.

Lemma lex_app a b x y : length a = length b → lex (a ++ x) (b ++ y) = then_by (lex a b) (lex x y).
Proof.
  revert b. induction a as [|c a IH]; intros [|d b] Hl; try done. cbn in Hl |- *. rewrite IH by lia. by destruct (_ ?= _).
Qed.

(** Texts of equal width are ordered as their numbers. *)
Lemma lex_dec n : ∀ x y, 0 <= x < 10 ^ Z.of_nat n → 0 <= y < 10 ^ Z.of_nat n → lex (dec n x) (dec n y) = (x ?= y).
Proof.
  induction n as [|n IH]; intros x y Hx Hy.
  - assert (x = 0 ∧ y = 0) as [-> ->] by (cbn in *; lia). done.
  - rewrite Nat2Z.inj_succ, Z.pow_succ_r in Hx, Hy by lia. cbn [dec]. rewrite lex_app by (by rewrite !length_dec).
    rewrite IH by lia. cbn [lex]. rewrite !val_of_digit by lia.
    assert (x = x / 10 * 10 + x mod 10 ∧ y = y / 10 * 10 + y mod 10) as [Ex Ey] by lia.
    symmetry. apply compare_parts; [lia..|]. intros E.
    destruct (Z.compare_spec (48 + x mod 10) (48 + y mod 10)); [apply Z.compare_eq_iff|apply Z.compare_lt_iff|apply Z.compare_gt_iff]; lia.
Qed.

(** *** The order of the texts *)

Lemma lex_field n x y a b :
  0 <= x < 10 ^ Z.of_nat n → 0 <= y < 10 ^ Z.of_nat n → lex (dec n x ++ a) (dec n y ++ b) = then_by (x ?= y) (lex a b).
Proof. intros Hx Hy. rewrite lex_app, lex_dec by (by rewrite ?length_dec). done. Qed.

Lemma compare_shift x y k : (x + k ?= y + k) = (x ?= y).
Proof. destruct (Z.compare_spec x y); [subst; apply Z.compare_refl|apply Z.compare_lt_iff; lia|apply Z.compare_gt_iff; lia]. Qed.

Lemma lex_same s a b : lex (s ++ a) (s ++ b) = lex a b.
Proof. by rewrite lex_app, (proj2 (lex_eq s s) eq_refl). Qed.

Lemma lex_time_format a b u v :
  tm_ok a → tm_ok b → 1000 <= tm_year a + 1900 → 1000 <= tm_year b + 1900 → 0 <= u < 10 ^ 6 → 0 <= v < 10 ^ 6 →
  lex (time_format a u) (time_format b v) = then_by (tm_compare a b) (u ?= v).
Proof.
  intros (?&?&?&?&?&?) (?&?&?&?&?&?) ? ? Hu Hv. unfold time_format, tm_compare.
  rewrite !fmt_d_year, !fmt_0d_dec by lia.
  do 3 rewrite lex_field by lia. rewrite lex_same. rewrite lex_field by lia. rewrite lex_same. rewrite lex_field by lia.
  rewrite lex_same. rewrite lex_field by lia. rewrite lex_same, lex_dec by lia. rewrite !compare_shift.
  by repeat match goal with |- context [?x ?= ?y] => destruct (x ?= y) end.
Qed.

Lemma time_stamp_compare t1 t2 :
  0 <= t1 → 0 <= t2 → then_by (GetSecs t1 ?= GetSecs t2) (GetUsecs t1 ?= GetUsecs t2) = (t1 ?= t2).
Proof.
  intros H1 H2. destruct (timestamp_parts t1) as (_ & E1 & _ & U1 & _). destruct (timestamp_parts t2) as (_ & E2 & _ & U2 & _).
  destruct (U1 H1) as (? & ? & _). destruct (U2 H2) as (? & ? & _). unfold kMicrosecondsPerSecond in *.
  pose proof (Z.rem_bound_pos t1 (1000 * 1000) H1 ltac:(lia)). pose proof (Z.rem_bound_pos t2 (1000 * 1000) H2 ltac:(lia)).
  unfold GetUsecs, kMicrosecondsPerSecond in *. symmetry. apply compare_parts; [lia..|]. intros E.
  rewrite E1, E2, E at 1. rewrite !(Z.add_comm (GetSecs t2 * _)). apply compare_shift.
Qed.

(** The text a time stamp is shown with, as the view [ToFormatString]
    returns. *)
Definition stamp_view (Convert : Z → tm) (t : Z) (st : FmtState) : StringProxy :=
  StringProxy_len (t_fmt_buf (ToFormatString Convert t st).2) 24.

(** C36: in UTC, the time zone the library sets, on a thread whose cached
    second, if any, was formatted in UTC too, the text of a time stamp from
    the second second of 1970 to the end of 9999 has 24 characters; its date
    is the one of the calendar whose seconds since the epoch, with the
    microseconds, are the time stamp; and two such texts, on whatever threads
    and after whatever was formatted there, compare as strings exactly as the
    times they show: sorting lines by their text sorts them by time. *)
Theorem utc_text_order timezone t1 t2 st1 st2 :
  let Convert := Convert_tm (UtcTimeZone timezone) in
  fmt_cache_ok Convert st1 → fmt_cache_ok Convert st2 →
  kMicrosecondsPerSecond <= t1 < year_10000 * kMicrosecondsPerSecond →
  kMicrosecondsPerSecond <= t2 < year_10000 * kMicrosecondsPerSecond →
  (∃ b u, ToString (stamp_view Convert t1 st1) = Ok (time_format b u) ∧ length (time_format b u) = 24%nat ∧ tm_valid b ∧
     0 <= u < kMicrosecondsPerSecond ∧ seconds_of b * kMicrosecondsPerSecond + u = t1) ∧
  op_lt (stamp_view Convert t1 st1) (stamp_view Convert t2 st2) = Ok (t1 <? t2) ∧
  op_eq (stamp_view Convert t1 st1) (stamp_view Convert t2 st2) = Ok (t1 =? t2).
Proof.
  cbn zeta. cbn [Convert_tm UtcTimeZone]. intros Hc1 Hc2 Ht1 Ht2.
  assert (∀ t st, fmt_cache_ok gmtime st → kMicrosecondsPerSecond <= t < year_10000 * kMicrosecondsPerSecond →
    let b := gmtime (GetSecs t) in
    views (stamp_view gmtime t st) (time_format b (GetUsecs t)) ∧ length (time_format b (GetUsecs t)) = 24%nat ∧
    tm_ok b ∧ 1000 <= tm_year b + 1900 ∧ 0 <= GetUsecs t < 10 ^ 6) as Hv.
  { clear. intros t st Hc Ht. cbn zeta. destruct (timestamp_parts t) as (_ & E & _ & U & _). destruct U as (U1 & U2 & _); [unfold kMicrosecondsPerSecond in *; lia|].
    pose proof (Z.rem_bound_pos t kMicrosecondsPerSecond) as Hu. change (Z.rem t _) with (GetUsecs t) in Hu.
    assert (0 <= GetSecs t < year_10000) as Hs by (unfold kMicrosecondsPerSecond in *; lia).
    pose proof (gmtime_tm_ok _ Hs) as Hok. pose proof (gmtime_year _ Hs).
    destruct (timestamp_format_exact gmtime t st Hc) as (E1 & E2 & [Hl _]); [lia|done|].
    split_and!; [|by rewrite <- E1|done|lia|lia|unfold kMicrosecondsPerSecond in *; lia].
    unfold views, ToString, stamp_view, StringProxy_len, read_ptr. cbn [ptr_ length_].
    change (Z.to_nat (wrap 64 24)) with 24%nat. rewrite decide_False by done. cbn [deref mbind res_bind].
    unfold read_mem. rewrite decide_True by lia. by rewrite <- E1. }
  destruct (Hv t1 st1 Hc1 Ht1) as (V1 & L1 & O1 & Y1 & U1). destruct (Hv t2 st2 Hc2 Ht2) as (V2 & _ & O2 & Y2 & U2).
  destruct (operators_lex _ _ _ _ V1 V2) as (_ & Eeq & _ & Elt & _).
  rewrite Eeq, Elt, lex_time_format, tm_compare_gmtime, time_stamp_compare by (done || unfold kMicrosecondsPerSecond in *; lia). split.
  - exists (gmtime (GetSecs t1)), (GetUsecs t1). destruct (gmtime_spec (GetSecs t1)) as [Hval Hsec]. rewrite Hsec.
    destruct (timestamp_parts t1) as (_ & E1 & _). split_and!; [exact V1|done|done|lia|unfold kMicrosecondsPerSecond; lia|lia].
  - unfold Z.ltb. rewrite Z.eqb_compare. by destruct (t1 ?= t2).
Qed.

Lemma utc_text_order_witness :
  ToString (stamp_view gmtime 1704164645000042 FmtState_init) = Ok (B "20240102 03:04:05.000042") ∧
  op_lt (stamp_view gmtime 951782399999999 FmtState_init) (stamp_view gmtime 951782400000000 FmtState_init) = Ok true ∧
  (∃ b u, ToString (stamp_view gmtime 951782399999999 FmtState_init) = Ok (time_format b u) ∧
     seconds_of b * kMicrosecondsPerSecond + u = 951782399999999).
Proof.
  assert (fmt_cache_ok gmtime FmtState_init) as H by (split; [reflexivity|intros Hn; exfalso; apply Hn; reflexivity]).
  destruct (utc_text_order 0 951782399999999 951782400000000 FmtState_init FmtState_init H H) as ((b & u & E & _ & _ & _ & Es) & El & _);
    [split; [discriminate|reflexivity]..|].
  split; [vm_compute; reflexivity|]. split; [exact El|]. exists b, u. split; [exact E|exact Es].
Defined.

(** The texts of that witness: the last microsecond of 28 February 2000 and
    the leap day after it. *)
Lemma leap_day_text :
  ToString (stamp_view gmtime 951782399999999 FmtState_init) = Ok (B "20000228 23:59:59.999999") ∧
  ToString (stamp_view gmtime 951782400000000 FmtState_init) = Ok (B "20000229 00:00:00.000000").
Proof. split; vm_compute; reflexivity. Qed.

(** [SetTimeZone] leaves the cached second of each thread: a time stamp of the
    second that was formatted last is shown in the time zone of before. *)
Lemma zone_change_stale Convert Convert' t st :
  fmt_cache_ok Convert st → kMicrosecondsPerSecond <= t → tm_ok (Convert (GetSecs t)) →
  (ToFormatString Convert' t (ToFormatString Convert t st).2).1 = (ToFormatString Convert t st).1.
Proof.
  intros Hc Ht Hok. destruct (timestamp_format_exact Convert t st Hc Ht Hok) as (E & _ & Hc').
  destruct (timestamp_format_exact Convert t _ Hc' Ht Hok) as (E' & _). rewrite E, <- E'.
  assert (last_second (ToFormatString Convert t st).2 = GetSecs t) as El.
  { unfold ToFormatString. cbn [snd last_second]. destruct (Z.eqb_spec (GetSecs t) (last_second st)); cbn [negb last_second]; congruence. }
  unfold ToFormatString at 1 3. by rewrite El, Z.eqb_refl.
Qed.

(** Before the epoch the division rounds towards it and the microseconds are
    negative: a second and a half before 1970 is 23:59:58.5. *)
Lemma before_epoch_text :
  ToString (stamp_view gmtime (-1500000) FmtState_init) = Ok (B "19691231 23:59:59.-50000").
Proof. vm_compute. reflexivity. Qed.
