(* ===== verification/Environment.v ===== *)
(** What the process finds around it: the log directory that the static object
    of [base/config.cc] makes sure of, the host name of [base/process_info.cc],
    and the variable by which [net/poller/default_poller.cc] chooses a
    poller. *)

From S2P Require Import Prelude InetAddress.

(** ** The host name *)

(** [gethostname] writes [name] into [buf] and answers [ret]; POSIX leaves open
    whether a name that is cut off ends in a NUL. *)
Definition GetHostName (ret : Z) (name buf : bytes) : res bytes :=
  if decide (ret = 0%Z) then
    buf ← write_mem 0 name buf;
    buf ← write_mem (length buf - 1) [nul] buf;
    c_str buf
  else Ok (B "unknownhost").

(** Whatever fits in the buffer is read up to its first NUL, or all but the
    last byte of a buffer. *)
Lemma GetHostName_spec name buf :
  length buf = 256 → length name ≤ 256 →
  ∃ s, GetHostName 0 name buf = Ok s ∧ nul ∉ s ∧ length s ≤ 255 ∧
    (∀ h, nul ∉ h → length h ≤ 255 → name = h ++ [nul] → s = h) ∧
    (nul ∉ name → length name = 256 → s = take 255 name).
Proof.
  intros Hb Hn. unfold GetHostName. rewrite decide_True by done.
  rewrite write_mem_ok by lia. cbn [mbind res_bind]. set (b1 := overwrite _ _ _).
  assert (b1 = name ++ drop (length name) buf) as E1 by (unfold b1, overwrite; by rewrite take_0).
  assert (length b1 = 256) as L1 by (rewrite E1, length_app, length_drop; lia).
  rewrite write_mem_ok by (rewrite L1; cbn; lia). cbn [mbind res_bind].
  assert (overwrite (length b1 - 1) [nul] b1 = take 255 b1 ++ [nul]) as ->.
  { unfold overwrite. rewrite L1. cbn [length]. rewrite (drop_ge b1) by (rewrite L1; lia). by rewrite app_nil_r. }
  assert (∀ l : bytes, ∃ s r, l ++ [nul] = s ++ nul :: r ∧ nul ∉ s ∧ length s ≤ length l) as Hcut.
  { intros l. induction l as [|c l (s & r & E & Hs & Hl)]; [exists [], []; cbn; split_and!; [done|apply not_elem_of_nil|lia]|].
    destruct (decide (c = nul)) as [->|Hc].
    - exists [], (l ++ [nul]). cbn. split_and!; [done|apply not_elem_of_nil|lia].
    - exists (c :: s), r. cbn. rewrite E, not_elem_of_cons. split_and!; [done|done|done|lia]. }
  assert (∀ h r, nul ∉ h → take 255 b1 ++ [nul] = h ++ nul :: r → c_str (take 255 b1 ++ [nul]) = Ok h) as Hc
    by (intros h r Hh ->; by apply c_str_app).
  destruct (Hcut (take 255 b1)) as (s & r & E & Hs & Hl). rewrite (Hc s r Hs E). exists s.
  rewrite length_take in Hl. split_and!; [done|done|lia| |].
  - intros h Hh Hlh ->. assert (Ok s = Ok h) as [= ->]; [|done].
    rewrite <- (Hc s r Hs E). apply (Hc h (match 255 - length h with 0 => [] | S m => take m (drop (length h + 1) buf) ++ [nul] end)); [done|].
    rewrite E1, <- app_assoc, length_app, take_app_ge by done. cbn [length app]. rewrite <- app_assoc. f_equal.
    by destruct (255 - length h).
  - intros Hnn Hl256. rewrite E1, drop_ge, app_nil_r in E, Hc by lia.
    assert (nul ∉ take 255 name) as Ht by (intros Hin; apply Hnn; rewrite <- (take_drop 255 name); apply elem_of_app; by left).
    assert (Ok s = Ok (take 255 name)) as [= ->]; [|done]. rewrite <- (Hc s r Hs E). by apply (Hc _ [] Ht).
Qed.

(** ** The log directory *)

Inductive dir_state := DirExists | DirAbsent | DirUnusable.

(** The constructor of [config]: the state of the directory and the number of
    open descriptors afterwards. *)
Definition config_new (d : dir_state) (mkdir_ok : bool) (open : nat) : res (dir_state * nat) :=
  match d with
  | DirExists => Ok (DirExists, S open)
  | _ => if mkdir_ok then Ok (DirExists, open) else Fault Aborted
  end.

(** Either the directory is there afterwards or the process has ended; a
    directory that was there stays open. *)
Lemma config_new_spec d mkdir_ok open :
  match config_new d mkdir_ok open with
  | Ok (d', open') => d' = DirExists ∧ open' = match d with DirExists => S open | _ => open end
  | Fault f => f = Aborted ∧ mkdir_ok = false ∧ d ≠ DirExists
  end.
Proof. by destruct d, mkdir_ok. Qed.

(** ** The poller *)

Inductive poller_kind := EpollPoller.

(** [getenv] finds [MUZI_USE_POLL] or not. *)
Definition NewDefaultPoller (use_poll : bool) : res poller_kind :=
  if use_poll then _ ← assert false; Fault NullDeref else Ok EpollPoller.

Lemma use_poll_aborts : NewDefaultPoller true = Fault AssertFail.
Proof. reflexivity. Qed.
