(* ===== verification/StackTrace.v ===== *)
(** Stack traces and the exception that carries one: [base/stacktrace.h],
    [stacktrace.cc] and [base/traced_exception.h], [traced_exception.cc].  The
    lines [backtrace_symbols] gives and the demangler are arguments. *)

From S2P Require Import Prelude InetAddress StringProxy.

(** ** The lines of a trace *)

Section stacktrace.
(** [abi::__cxa_demangle]: the name, or a status that is not 0. *)
Variable demangle : bytes → option bytes.

(** The loop over the characters, [p] being the index of the next one and
    [mem] the memory from there on; the pointers are indices. *)
Fixpoint scan (p : nat) (mem : bytes) (begin_name begin_offset : option nat) :
    res (option nat * option nat * option nat) :=
  match mem with
  | [] => Fault OutOfBounds
  | c :: mem =>
      if decide (c = nul) then Ok (begin_name, begin_offset, None)
      else if decide (c = "("%char) then scan (S p) mem (Some p) begin_offset
      else if decide (c = "+"%char) then scan (S p) mem begin_name (Some p)
      else if decide (c = ")"%char ∧ is_Some begin_offset) then Ok (begin_name, begin_offset, Some p)
      else scan (S p) mem begin_name begin_offset
  end.

(** What is printed of one line, the array [mem] being [symbollist[i]]. *)
Definition format_line (mem : bytes) : res bytes :=
  '(begin_name, begin_offset, end_offset) ← scan 0 mem None None;
  match begin_name, begin_offset, end_offset with
  | Some n, Some o, Some e =>
      if decide (n < o) then
        mem ← write_mem n [nul] mem;
        mem ← write_mem o [nul] mem;
        mem ← write_mem e [nul] mem;
        line ← c_str mem;
        name ← c_str (drop (S n) mem);
        offset ← c_str (drop (S o) mem);
        match demangle name with
        | Some funcname => Ok (B "  " ++ line ++ B " : " ++ funcname ++ B "+" ++ offset ++ ["010"%char])
        | None => Ok (B "  " ++ line ++ B " : " ++ name ++ B "()+" ++ offset ++ ["010"%char])
        end
      else line ← c_str mem; Ok (line ++ ["010"%char])
  | _, _, _ => line ← c_str mem; Ok (line ++ ["010"%char])
  end.

Fixpoint format_lines (symbollist : list bytes) : res bytes :=
  match symbollist with
  | [] => Ok []
  | mem :: symbollist => t ← format_line mem; ts ← format_lines symbollist; Ok (t ++ ts)
  end.

(** [frames] are the lines of the whole stack, of which [backtrace] finds as
    many as the array [addrlist] has room for; the first is this function's
    own. *)
Definition StackTrace (max_frames : nat) (frames : list bytes) : res bytes :=
  let symbollist := take (max_frames + 1) frames in
  let os := B "stack trace:" ++ ["010"%char] in
  match symbollist with
  | [] => Ok (os ++ B "  <empty, possibly corrupt>" ++ ["010"%char])
  | _ :: lines => t ← format_lines lines; Ok (os ++ t)
  end.

(** ** [Exception] *)

Record Exception := mkException { message_ : bytes; stack_ : bytes }.

(** [message_(what.data())]: the length of the view is not used. *)
Definition Exception_new (what : StringProxy) (frames : list bytes) : res Exception :=
  ptr ← deref NullDeref (data what);
  message ← c_str ptr;
  stack ← StackTrace 63 frames;
  Ok (mkException message stack).

Definition what (e : Exception) : bytes := message_ e.
Definition GetStackTrace (e : Exception) : bytes := stack_ e.

(** ** What a line says *)

(** [module(name+offset)rest]. *)
Definition symbol_line (module name offset rest : bytes) : bytes :=
  module ++ "("%char :: name ++ "+"%char :: offset ++ ")"%char :: rest.

Definition pretty (module name offset : bytes) : bytes :=
  B "  " ++ module ++ B " : " ++ match demangle name with Some f => f | None => name ++ B "()" end ++ B "+" ++ offset ++ ["010"%char].

(** The last character [c] of [pre] is at [i]; what follows it is free of the
    characters of [l]. *)
Definition last_at (c : ascii) (l : list ascii) (pre : bytes) (i : option nat) : Prop :=
  match i with
  | Some i => ∃ a b, pre = a ++ c :: b ∧ length a = i ∧ c ∉ b ∧ Forall (λ d, d ∉ b) l
  | None => c ∉ pre
  end.

Lemma last_at_snoc c l d pre i :
  last_at c l pre i → d ≠ c → (is_Some i → d ∉ l) → last_at c l (pre ++ [d]) i.
Proof.
  intros H Hd Hl. destruct i as [i|]; cbn in *.
  - destruct H as (a & b & -> & Ha & Hb & Hf). exists a, (b ++ [d]). rewrite <- app_assoc. cbn. split_and!; [done|done| |].
    + rewrite not_elem_of_app, list_elem_of_singleton. split; [done|congruence].
    + rewrite Forall_forall in *. intros x Hx. rewrite not_elem_of_app, list_elem_of_singleton. split; [by apply Hf|].
      intros ->. by apply Hl.
  - rewrite not_elem_of_app, list_elem_of_singleton. split; [done|congruence].
Qed.

Lemma last_at_here c l pre : last_at c l (pre ++ [c]) (Some (length pre)).
Proof. exists pre, []. split_and!; [done|done|apply not_elem_of_nil|]. apply Forall_forall. intros x _. apply not_elem_of_nil. Qed.

(** What the loop finds: the last parenthesis and the last plus sign before
    the first closing parenthesis that follows a plus sign. *)
Lemma scan_spec s r : ∀ pre bn bo,
  nul ∉ s → last_at "(" [] pre bn → last_at "+" [")"%char] pre bo →
  ∃ bn' bo' e, scan (length pre) (s ++ nul :: r) bn bo = Ok (bn', bo', e) ∧
    match e with
    | Some e => ∃ p t, pre ++ s = p ++ ")"%char :: t ∧ e = length p ∧ last_at "(" [] p bn' ∧ last_at "+" [")"%char] p bo'
    | None => True
    end.
Proof.
  induction s as [|c s IH]; intros pre bn bo Hs Hn Ho; cbn [app scan].
  { rewrite decide_True by done. by eexists _, _, None. }
  apply not_elem_of_cons in Hs as [Hc0 Hs]. rewrite decide_False by done.
  replace (S (length pre)) with (length (pre ++ [c])) by (rewrite length_app; cbn; lia).
  assert (pre ++ c :: s = (pre ++ [c]) ++ s) as -> by (by rewrite <- app_assoc).
  destruct (decide (c = "("%char)) as [->|H1]; [|destruct (decide (c = "+"%char)) as [->|H2]; [|destruct (decide (_ ∧ _)) as [[-> Hb]|H3]]].
  - apply IH; [done|apply last_at_here|]. by apply last_at_snoc; [| |intros _ ?%list_elem_of_singleton].
  - apply IH; [done| |apply last_at_here]. apply last_at_snoc; [done|done|intros _; apply not_elem_of_nil].
  - eexists _, _, _. split; [done|]. exists pre, s. by rewrite <- app_assoc.
  - apply IH; [done|apply last_at_snoc; [done|done|intros _; apply not_elem_of_nil]|].
    apply last_at_snoc; [done|done|]. intros Hb ->%list_elem_of_singleton. by apply H3.
Qed.

(** Overwriting one character. *)
Lemma write_one (a b : bytes) x y : write_mem (length a) [y] (a ++ x :: b) = Ok (a ++ y :: b).
Proof.
  unfold write_mem. rewrite decide_True by (rewrite length_app; cbn; lia). unfold overwrite. f_equal.
  rewrite take_app_length. f_equal. cbn [length app]. f_equal.
  by rewrite Nat.add_1_r, <- (Nat.add_1_r (length a)), <- drop_drop, drop_app_length.
Qed.

(** A line cut at its three places. *)
Lemma format_cut module name offset rest r :
  nul ∉ symbol_line module name offset rest →
  scan 0 (symbol_line module name offset rest ++ nul :: r) None None =
    Ok (Some (length module), Some (S (length module + length name)), Some (S (S (length module + length name + length offset)))) →
  format_line (symbol_line module name offset rest ++ nul :: r) = Ok (pretty module name offset).
Proof.
  intros Hn E. unfold format_line. rewrite E. cbn [mbind res_bind]. rewrite decide_True by lia. clear E.
  unfold symbol_line in *. rewrite not_elem_of_app, not_elem_of_cons, not_elem_of_app, not_elem_of_cons, not_elem_of_app in Hn.
  destruct Hn as (Hm & _ & Hname & _ & Ho & _).
  rewrite <- app_assoc. cbn [app]. rewrite write_one. cbn [mbind res_bind]. rewrite <- app_assoc. cbn [app].
  pose proof (write_one (module ++ nul :: name) (offset ++ ")"%char :: rest ++ nul :: r) "+"%char nul) as E1.
  pose proof (write_one (module ++ nul :: name ++ nul :: offset) (rest ++ nul :: r) ")"%char nul) as E2.
  repeat (rewrite length_app in E1 || rewrite <- app_assoc in E1 || cbn [app length] in E1).
  repeat (rewrite length_app in E2 || rewrite <- app_assoc in E2 || cbn [app length] in E2).
  rewrite <- app_assoc. cbn [app]. rewrite Nat.add_succ_r in E1. rewrite E1. cbn [mbind res_bind].
  replace (S (S (length module + length name + length offset))) with (length module + S (length name + S (length offset))) by lia.
  rewrite E2. cbn [mbind res_bind]. rewrite c_str_app by done. cbn [mbind res_bind].
  replace (S (length module)) with (length (module ++ [nul])) by (rewrite length_app; cbn; lia).
  assert (∀ x, module ++ nul :: x = (module ++ [nul]) ++ x) as Ea by (intros; by rewrite <- app_assoc).
  rewrite (Ea (name ++ _)), drop_app_length, c_str_app by done. cbn [mbind res_bind].
  replace (S (S (length module + length name))) with (length ((module ++ [nul]) ++ name ++ [nul]))
    by (rewrite !length_app; cbn; lia).
  assert (∀ x, (module ++ [nul]) ++ name ++ nul :: x = ((module ++ [nul]) ++ name ++ [nul]) ++ x) as Eb
    by (intros; by rewrite <- !app_assoc).
  rewrite (Eb (offset ++ _)), drop_app_length, c_str_app by done. cbn [mbind res_bind]. unfold pretty.
  destruct (demangle name); [done|]. by rewrite <- !app_assoc.
Qed.

(** Every line is printed, as it is or taken apart at the right places. *)
Lemma format_line_spec line r :
  nul ∉ line →
  format_line (line ++ nul :: r) = Ok (line ++ ["010"%char]) ∨
  ∃ module name offset rest, line = symbol_line module name offset rest ∧
    "("%char ∉ name ∧ "("%char ∉ offset ∧ "+"%char ∉ offset ∧ ")"%char ∉ offset ∧
    format_line (line ++ nul :: r) = Ok (pretty module name offset).
Proof.
  intros Hn. destruct (scan_spec line r [] None None Hn (not_elem_of_nil _) (not_elem_of_nil _)) as (bn & bo & e & E & He).
  cbn [length] in E. assert (c_str (line ++ nul :: r) = Ok line) as Hc by (by apply c_str_app).
  destruct bn as [n|]; [destruct bo as [o|]; [destruct e as [e|]; [destruct (decide (n < o)) as [Hlt|Hge]|]|]|];
    try (left; unfold format_line; rewrite E; cbn [mbind res_bind]; rewrite ?decide_False by lia; rewrite Hc; done).
  right. destruct He as (p & t & El & -> & (a & b & Ea & Hla & Hb & _) & (a' & b' & Ea' & Hla' & Hb' & Hf)). cbn [app] in El.
  assert (∃ c, a' = a ++ "("%char :: c ∧ b = c ++ "+"%char :: b') as (c & -> & ->).
  { subst p. apply app_eq_inv in Ea' as [(k & Ek & Ek2)|(k & Ek & Ek2)].
    - destruct k as [|y k]; [rewrite app_nil_r in Ek; subst; lia|]. cbn in Ek2. injection Ek2 as <- Ek2. subst a. rewrite length_app in *. cbn in *; lia.
    - destruct k as [|y k]; [rewrite app_nil_r in Ek; subst; lia|]. cbn in Ek2. injection Ek2 as <- Ek2. by exists k. }
  rewrite Forall_cons in Hf. destruct Hf as [Hf _]. rewrite not_elem_of_app, not_elem_of_cons in Hb. destruct Hb as (Hb1 & _ & Hb2).
  exists a, c, b', t. assert (line = symbol_line a c b' t) as Eline.
  { rewrite El, Ea'. unfold symbol_line. by rewrite <- !app_assoc. }
  split_and!; try done. rewrite Eline in *. apply format_cut; [done|]. rewrite E. do 3 f_equal; f_equal.
  - by rewrite Hla.
  - rewrite <- Hla', length_app. cbn. lia.
  - rewrite Ea', !length_app. cbn. lia.
Qed.

(** Characters the loop has nothing to do with. *)
Lemma scan_skip s t : ∀ p bn bo,
  nul ∉ s → "("%char ∉ s → "+"%char ∉ s → ")"%char ∉ s ∨ bo = None →
  scan p (s ++ t) bn bo = scan (p + length s) t bn bo.
Proof.
  induction s as [|c s IH]; intros p bn bo H0 H1 H2 H3; cbn [app scan length]; [by rewrite Nat.add_0_r|].
  apply not_elem_of_cons in H0 as [Hc0 H0], H1 as [Hc1 H1], H2 as [Hc2 H2].
  rewrite !decide_False by done. rewrite decide_False.
  - rewrite IH; [f_equal; lia|done..|]. destruct H3 as [H3|]; [|by right]. left. apply not_elem_of_cons in H3. tauto.
  - intros [-> Hb]. destruct H3 as [H3| ->]; [|by destruct Hb]. apply H3. left.
Qed.

(** A path without parentheses: a plus sign in it does no harm. *)
Lemma scan_path s t : ∀ p bn bo,
  nul ∉ s → ")"%char ∉ s → ∃ bn' bo', scan p (s ++ t) bn bo = scan (p + length s) t bn' bo'.
Proof.
  induction s as [|c s IH]; intros p bn bo H0 H3; cbn [app scan length]; [exists bn, bo; by rewrite Nat.add_0_r|].
  apply not_elem_of_cons in H0 as [Hc0 H0], H3 as [Hc3 H3]. rewrite decide_False by done. rewrite <- Nat.add_succ_comm.
  destruct (decide (c = _)); [by apply IH|]. destruct (decide (c = _)); [by apply IH|].
  rewrite decide_False by (intros [? _]; done). by apply IH.
Qed.

(** A line as [backtrace_symbols] writes it: a path without a closing
    parenthesis, a mangled name and an offset. *)
Record frame := mkFrame { f_module : bytes; f_name : bytes; f_offset : bytes; f_rest : bytes }.

Definition plain (s : bytes) : Prop := nul ∉ s ∧ "("%char ∉ s ∧ "+"%char ∉ s ∧ ")"%char ∉ s.

Definition frame_ok (f : frame) : Prop :=
  nul ∉ f_module f ∧ ")"%char ∉ f_module f ∧ plain (f_name f) ∧ plain (f_offset f) ∧ nul ∉ f_rest f.

Definition frame_line (f : frame) : bytes := symbol_line (f_module f) (f_name f) (f_offset f) (f_rest f).
Definition frame_text (f : frame) : bytes := pretty (f_module f) (f_name f) (f_offset f).

Lemma format_frame f : frame_ok f → format_line (frame_line f ++ [nul]) = Ok (frame_text f).
Proof.
  intros (Hm & Hp & (N0 & N1 & N2 & N3) & (O0 & O1 & O2 & O3) & Hr). unfold frame_line, frame_text. apply format_cut.
  - unfold symbol_line. rewrite not_elem_of_app, not_elem_of_cons, not_elem_of_app, not_elem_of_cons, not_elem_of_app, not_elem_of_cons.
    split_and!; done.
  - unfold symbol_line. rewrite <- app_assoc. destruct (scan_path (f_module f)
      (("("%char :: f_name f ++ "+"%char :: f_offset f ++ ")"%char :: f_rest f) ++ [nul]) 0 None None Hm Hp) as (bn & bo & ->).
    cbn [app]. rewrite <- app_assoc. cbn [app]. rewrite <- app_assoc. cbn [app scan].
    rewrite decide_False by done. rewrite decide_True by done.
    assert (scan (S (0 + length (f_module f))) (f_name f ++ "+"%char :: f_offset f ++ ")"%char :: f_rest f ++ [nul]) (Some (0 + length (f_module f))) bo =
      scan (S (0 + length (f_module f)) + length (f_name f)) ("+"%char :: f_offset f ++ ")"%char :: f_rest f ++ [nul]) (Some (0 + length (f_module f))) bo)
      as -> by (apply scan_skip; auto).
    cbn [scan]. rewrite decide_False, decide_False, decide_True by done.
    rewrite scan_skip by auto. cbn [scan]. rewrite !decide_False by done. rewrite decide_True by (split; [done|by eexists]).
    do 4 f_equal; lia.
Qed.

(** A stack trace is printed completely and without leaving its memory:
    every frame below the caller's own is one line with the module, the
    demangled name, or the raw one with "()" when it cannot be demangled, and
    the offset; at most [max_frames] frames are printed. *)
Theorem stack_trace_text max_frames fs :
  Forall frame_ok fs →
  StackTrace max_frames ((λ f, frame_line f ++ [nul]) <$> fs) =
    Ok (B "stack trace:" ++ ["010"%char] ++
        match fs with
        | [] => B "  <empty, possibly corrupt>" ++ ["010"%char]
        | _ :: fs => concat (frame_text <$> take max_frames fs)
        end).
Proof.
  intros Hf. unfold StackTrace. rewrite Nat.add_1_r. destruct fs as [|f fs]; [done|]. cbn [fmap list_fmap take].
  apply Forall_cons in Hf as [_ Hf]. rewrite <- fmap_take.
  assert (∀ l, Forall frame_ok l → format_lines ((λ f, frame_line f ++ [nul]) <$> l) = Ok (concat (frame_text <$> l))) as ->.
  { intros l Hl. induction Hl as [|g l Hg _ IH]; [done|]. cbn [fmap list_fmap format_lines concat].
    rewrite format_frame by done. cbn [mbind res_bind]. rewrite IH. done. }
  - by rewrite app_assoc.
  - by apply Forall_take.
Qed.

(** The message of an exception is the C string the view points to, whatever
    its length. *)
Lemma exception_message m r len frames stack :
  nul ∉ m → StackTrace 63 frames = Ok stack →
  Exception_new (mkProxy (Some (m ++ nul :: r)) len) frames = Ok (mkException m stack).
Proof. intros Hm Hs. unfold Exception_new. cbn [data ptr_ deref mbind res_bind]. rewrite c_str_app by done. cbn [mbind res_bind]. by rewrite Hs. Qed.
End stacktrace.

(** ** Examples *)

(** Of a view of the first four characters the exception keeps the whole
    string; of a view without a NUL behind it, it reads past the end. *)
Lemma exception_ignores_length :
  let trace := B "stack trace:" ++ ["010"%char] ++ B "  <empty, possibly corrupt>" ++ ["010"%char] in
  Exception_new (λ _, None) (mkProxy (Some (B "file not found" ++ [nul])) 4) [] = Ok (mkException (B "file not found") trace) ∧
  Exception_new (λ _, None) (mkProxy (Some (B "file")) 4) [] = Fault OutOfBounds.
Proof. by vm_compute. Qed.

Definition demangle_example (name : bytes) : option bytes :=
  if decide (name = B "_ZN4muzi9EventLoop4LoopEv") then Some (B "muzi::EventLoop::Loop()") else None.

Definition frames_example : list frame :=
  [mkFrame (B "./server") (B "_ZN4muzi10StackTraceEj") (B "0x4e") (B " [0x5581]");
   mkFrame (B "./server") (B "_ZN4muzi9EventLoop4LoopEv") (B "0x1a4") (B " [0x5582]");
   mkFrame (B "/lib/libstdc++.so.6") (B "") (B "0xd6df4") (B " [0x7f01]");
   mkFrame (B "./server") (B "main") (B "0x9c") (B " [0x5583]")].

Lemma stack_trace_text_witness :
  Forall frame_ok frames_example ∧
  StackTrace demangle_example 2 ((λ f, frame_line f ++ [nul]) <$> frames_example) =
    Ok (B "stack trace:" ++ ["010"%char] ++ B "  ./server : muzi::EventLoop::Loop()+0x1a4" ++ ["010"%char] ++
        B "  /lib/libstdc++.so.6 : ()+0xd6df4" ++ ["010"%char]).
Proof.
  assert (Forall frame_ok frames_example) as Hf.
  { repeat constructor; apply (bool_decide_unpack _); by vm_compute. }
  split; [exact Hf|]. rewrite (stack_trace_text demangle_example 2 frames_example Hf). by vm_compute.
Defined.
