(* ===== verification/Logger.v ===== *)
(** Loggers and the outputers they write to: [base/logger.h], [logger.cc] and
    [base/outputer.h], [outputer.cc].  A log statement builds its line with the
    writer of [LogStream] and the trace of [StackTrace], and hands it to the
    outputer of its logger. *)

From S2P Require Import Prelude InetAddress StringProxy StackTrace LogStream.
Local Open Scope Z_scope.

(** ** Outputers *)

(** A [FILE]: what the C library holds back and what the file has. *)
Record FILE := mkFILE { held : bytes; file : bytes }.

(** [spill]: how many of the bytes the library holds it passes on. *)
Definition fwrite (spill : bytes → nat) (d : bytes) (f : FILE) : FILE :=
  let all := held f ++ d in mkFILE (drop (spill all) all) (file f ++ take (spill all) all).
Definition fflush (f : FILE) : FILE := mkFILE [] (file f ++ held f).

Record Std := mkStd { stdout : FILE; stderr : FILE }.
Definition on_stdout (f : FILE → FILE) (st : Std) : Std := mkStd (f (stdout st)) (stderr st).
Definition on_stderr (f : FILE → FILE) (st : Std) : Std := mkStd (stdout st) (f (stderr st)).

(** The virtual functions of [Outputer]. *)
Record OutputerOps := mkOutputer {
  Output : bytes → Std → Std;
  Flush : Std → Std;
  destroy : Std → Std
}.

Section outputers.
Variable spill_out spill_err : bytes → nat.

Definition Outputer : OutputerOps :=
  {| Output := λ d, on_stdout (fwrite spill_out d); Flush := on_stdout fflush; destroy := on_stdout fflush |}.

(** The destructors of the derived classes end in that of the base. *)
Definition StderrOuputer : OutputerOps :=
  {| Output := λ d, on_stderr (fwrite spill_err d); Flush := on_stderr fflush;
     destroy := λ st, destroy Outputer (on_stderr fflush st) |}.
Definition ClosedOuputer : OutputerOps :=
  {| Output := λ _ st, st; Flush := λ st, st; destroy := destroy Outputer |}.
End outputers.

(** What a logger relies on: the stream it looks at by [view] takes every line
    in order, and flushing leaves nothing behind. *)
Class OutputerLaws (o : OutputerOps) (view : Std → FILE) : Prop := {
  Output_law d st : ∃ s, file (view (Output o d st)) = file (view st) ++ s ∧
                         s ++ held (view (Output o d st)) = held (view st) ++ d;
  Flush_law st : view (Flush o st) = fflush (view st);
  destroy_law st : view (destroy o st) = fflush (view st)
}.

Lemma fwrite_law spill d f : ∃ s, file (fwrite spill d f) = file f ++ s ∧ s ++ held (fwrite spill d f) = held f ++ d.
Proof. eexists. split; [done|]. apply take_drop. Qed.

#[export] Instance Outputer_laws spill : OutputerLaws (Outputer spill) stdout.
Proof. split; [intros; apply fwrite_law|done..]. Qed.
#[export] Instance StderrOuputer_laws spill_out spill_err : OutputerLaws (StderrOuputer spill_out spill_err) stderr.
Proof. split; [intros; apply fwrite_law|done..]. Qed.

(** ** Loggers *)

Record Logger := mkLogger { outputer_ : OutputerOps; log_level_ : LogLevel }.

Definition GetLogLevel (l : Logger) : LogLevel := log_level_ l.
Definition SetLogLevel (level : LogLevel) (l : Logger) : Logger := mkLogger (outputer_ l) level.
Definition SetOutputer (o : OutputerOps) (l : Logger) : Logger := mkLogger o (log_level_ l).

(** [gDefaultLogger] and [gStderrLogger]. *)
Definition gDefaultLogger (spill : bytes → nat) : Logger := mkLogger (Outputer spill) kTrace.
Definition gStderrLogger (spill_out spill_err : bytes → nat) : Logger := mkLogger (StderrOuputer spill_out spill_err) kTrace.

(** The macros. *)
Inductive macro := LOG_TRACE | LOG_DEBUG | LOG_INFO | LOG_WARN | LOG_ERROR | LOG_FATAL | LOG_SYSERR | LOG_SYSFAT.

Definition level_of (m : macro) : LogLevel :=
  match m with
  | LOG_TRACE => kTrace | LOG_DEBUG => kDebug | LOG_INFO => kInfo | LOG_WARN => kWarn
  | LOG_ERROR | LOG_SYSERR => kError | LOG_FATAL | LOG_SYSFAT => kFatal
  end.

(** The macros test the level of the logger up to [LOG_WARN]. *)
Definition enabled (m : macro) (threshold : LogLevel) : bool :=
  match m with
  | LOG_TRACE | LOG_DEBUG | LOG_INFO | LOG_WARN => bool_decide (level_num threshold ≤ level_num (level_of m))%nat
  | _ => true
  end.

(** A statement with what it finds: the message, the time, the thread's
    number, the memory of the stream, the place in the source, [errno] and the
    lines of the call stack. *)
Record site := mkSite {
  s_macro : macro; s_msg : bytes; s_now : bytes; s_tid : bytes; s_junk : bytes;
  s_file : bytes; s_line : Z; s_func : bytes; s_errno : Z; s_frames : list bytes
}.

Section logging.
Variable GetError : Z → bytes.
Variable demangle : bytes → option bytes.
Implicit Types (l : Logger) (s : site).

(** The trace is made by the destructor of the writer, for an error. *)
Definition trace_of s : res bytes :=
  if decide (level_num kError ≤ level_num (level_of (s_macro s)))%nat
  then StackTrace.StackTrace demangle 63 (s_frames s) else Ok [].

(** The line, and whether the program aborts; nothing if the level of the
    logger is higher. *)
Definition log_line l s : res (option (bytes * bool)) :=
  trace ← (if enabled (s_macro s) (log_level_ l) then trace_of s else Ok []);
  let plain level errcode :=
    r ← log_plain (s_now s) (s_tid s) GetError trace level errcode (s_junk s) (s_file s) (s_line s) (s_msg s); Ok (Some r) in
  let with_func level :=
    log_func (s_now s) (s_tid s) GetError trace (GetLogLevel l) level (s_junk s) (s_file s) (s_line s) (s_func s) (s_msg s) in
  match s_macro s with
  | LOG_TRACE => with_func kTrace
  | LOG_DEBUG => with_func kDebug
  | LOG_INFO => if decide (level_num (GetLogLevel l) ≤ level_num kInfo)%nat then plain kInfo 0 else Ok None
  | LOG_WARN => if decide (level_num (GetLogLevel l) ≤ level_num kWarn)%nat then plain kWarn 0 else Ok None
  | LOG_ERROR => plain kError 0
  | LOG_FATAL => plain kFatal 0
  | LOG_SYSERR => plain kError (s_errno s)
  | LOG_SYSFAT => plain kFatal (s_errno s)
  end.

(** The statement: what becomes of the streams, and whether it aborts. *)
Definition log l s (st : Std) : res (Std * bool) :=
  r ← log_line l s;
  match r with
  | None => Ok (st, false)
  | Some (buf, fatal) =>
      let st := Output (outputer_ l) buf st in
      if (fatal : bool) then Ok (Flush (outputer_ l) st, true) else Ok (st, false)
  end.

Inductive log_event := ELog (s : site) | ESetLevel (level : LogLevel) | EFlush.

(** A program that logs, up to the statement that aborts it. *)
Fixpoint log_run (es : list log_event) l (st : Std) : res (Std * bool) :=
  match es with
  | [] => Ok (st, false)
  | ELog s :: es => '(st, aborted) ← log l s st; if (aborted : bool) then Ok (st, true) else log_run es l st
  | ESetLevel level :: es => log_run es (SetLogLevel level l) st
  | EFlush :: es => log_run es l (Flush (outputer_ l) st)
  end.

(** ** What is logged *)

Definition errcode_of s : Z := match s_macro s with LOG_SYSERR | LOG_SYSFAT => s_errno s | _ => 0 end.

Definition message_of s : bytes :=
  match s_macro s with LOG_TRACE | LOG_DEBUG => s_func s ++ B ": " ++ s_msg s | _ => s_msg s end.

Definition func_items s : list item :=
  match s_macro s with LOG_TRACE | LOG_DEBUG => [IStr (s_func s); IStr (B ": ")] | _ => [] end.

(** The trace of a stack. *)
Definition stack_text (fs : list frame) : bytes :=
  B "stack trace:" ++ ["010"%char] ++
  match fs with
  | [] => B "  <empty, possibly corrupt>" ++ ["010"%char]
  | _ :: fs => concat (frame_text demangle <$> take 63 fs)
  end.

(** The text of a statement whose stack is [fs], and what of it fits in the
    buffer of the stream. *)
Definition site_text s (fs : list frame) : bytes :=
  line_text (s_now s) (s_tid s) GetError (stack_text fs)
    (level_of (s_macro s)) (errcode_of s) (s_file s) (s_line s) (message_of s).

Definition site_line s (fs : list frame) : bytes :=
  line_cut (s_now s) (s_tid s) GetError (stack_text fs) (length (s_junk s))
    (func_items s) (level_of (s_macro s)) (errcode_of s) (s_file s) (s_line s) (s_msg s).

(** The numbers are numbers of 64 bits, the stream has a buffer, and the
    lines of the stack are those of the C library. *)
Record site_ok s (fs : list frame) : Prop := {
  ft_errno : Z.abs (s_errno s) < 10 ^ 20;
  ft_line : Z.abs (s_line s) < 10 ^ 20;
  ft_junk : (0 < length (s_junk s))%nat ∧ Z.of_nat (length (s_junk s)) < 2 ^ 63;
  ft_frames : s_frames s = (λ f, frame_line f ++ [nul]) <$> fs;
  ft_frames_ok : Forall frame_ok fs
}.

Lemma errcode_of_ok s fs : site_ok s fs → Z.abs (errcode_of s) < 10 ^ 20.
Proof. intros []. unfold errcode_of. by destruct (s_macro s). Qed.

(** With 49 bytes to spare the line is whole. *)
Lemma site_line_whole s fs :
  site_ok s fs → (length (site_text s fs) + 49 ≤ length (s_junk s))%nat → site_line s fs = site_text s fs.
Proof.
  intros Hok Hl. pose proof (errcode_of_ok s fs Hok). destruct Hok.
  assert (texts (func_items s) ++ s_msg s = message_of s) as Em.
  { unfold func_items, message_of. destruct (s_macro s); try done.
    all: change (texts [IStr (s_func s); IStr (B ": ")]) with (s_func s ++ B ": "); by rewrite <- app_assoc. }
  unfold site_line, site_text in *. rewrite <- Em in *.
  apply line_cut_whole; try done; unfold func_items; destruct (s_macro s); by repeat constructor.
Qed.

(** Below [Error] the trace does not matter. *)
Lemma line_cut_trace now tid t t' n pre level errcode f line m :
  (level_num level < level_num kError)%nat →
  line_cut now tid GetError t n pre level errcode f line m = line_cut now tid GetError t' n pre level errcode f line m.
Proof. intros H. unfold line_cut, line_items, tail_items. by rewrite !decide_False by lia. Qed.

Lemma trace_of_spec s fs :
  site_ok s fs → ∃ t, trace_of s = Ok t ∧
    ∀ n pre errcode f line m,
      line_cut (s_now s) (s_tid s) GetError t n pre (level_of (s_macro s)) errcode f line m =
      line_cut (s_now s) (s_tid s) GetError (stack_text fs) n pre (level_of (s_macro s)) errcode f line m.
Proof.
  intros []. unfold trace_of. case_decide as Hd.
  - rewrite ft_frames0, stack_trace_text by done. by eexists.
  - exists []. split; [done|]. intros. apply line_cut_trace. lia.
Qed.

Lemma log_line_spec l s fs :
  site_ok s fs →
  log_line l s =
    Ok (if enabled (s_macro s) (log_level_ l) then Some (site_line s fs, bool_decide (level_of (s_macro s) = kFatal)) else None).
Proof.
  intros Hok. pose proof (errcode_of_ok s fs Hok) as He. destruct (trace_of_spec s fs Hok) as (t & Et & Ht).
  destruct Hok as [_ Hl [Hj Hj'] _ _]. unfold log_line. rewrite Et. clear Et.
  replace (if enabled (s_macro s) (log_level_ l) then Ok t else Ok [])
    with (Ok (if enabled (s_macro s) (log_level_ l) then t else [])) by by destruct (enabled _ _).
  cbn [mbind res_bind]. unfold site_line. rewrite <- Ht. clear Ht.
  unfold errcode_of, func_items, GetLogLevel in *. destruct (s_macro s); cbn [level_of enabled] in *.
  1,2: rewrite log_func_text by done; case_bool_decide; case_decide; done.
  1,2: case_bool_decide; case_decide; try done; rewrite log_plain_text by done; done.
  all: rewrite log_plain_text by done; done.
Qed.

(** The lines a program logs and whether it aborts; [stack] gives the call
    stack of a statement. *)
Fixpoint expected (stack : site → list frame) (es : list log_event) (level : LogLevel) : bytes * bool :=
  match es with
  | [] => ([], false)
  | ELog s :: es =>
      if enabled (s_macro s) level then
        if decide (level_of (s_macro s) = kFatal) then (site_line s (stack s), true)
        else let r := expected stack es level in (site_line s (stack s) ++ r.1, r.2)
      else expected stack es level
  | ESetLevel level :: es => expected stack es level
  | EFlush :: es => expected stack es level
  end.

(** C37: a program that logs through any outputer that keeps its bytes, its
    stack lines in the format of the C library: what the library holds and
    the file together are exactly the lines of the statements whose level the
    logger lets through at that moment, in order, with the call stack after an
    error, whenever the library writes and the program flushes; the file only
    grows.  The line of a statement is what fits in the buffer of its stream:
    strings are cut where it ends and a number is left out when fewer than 48
    bytes are left; a line that leaves 49 bytes of the buffer is whole.  The
    first fatal statement aborts the program, and then everything logged is in
    the file. *)
Theorem logging_writes es l st view stack :
  OutputerLaws (outputer_ l) view →
  (∀ s, ELog s ∈ es → site_ok s (stack s)) →
  ∃ st', log_run es l st = Ok (st', (expected stack es (log_level_ l)).2) ∧
    file (view st') ++ held (view st') = file (view st) ++ held (view st) ++ (expected stack es (log_level_ l)).1 ∧
    (∃ new, file (view st') = file (view st) ++ new) ∧
    ((expected stack es (log_level_ l)).2 = true → held (view st') = []) ∧
    (∀ s, ELog s ∈ es → (length (site_text s (stack s)) + 49 ≤ length (s_junk s))%nat →
      site_line s (stack s) = site_text s (stack s)).
Proof.
  intros Hlaws Hfits.
  enough (∃ st', log_run es l st = Ok (st', (expected stack es (log_level_ l)).2) ∧
    file (view st') ++ held (view st') = file (view st) ++ held (view st) ++ (expected stack es (log_level_ l)).1 ∧
    (∃ new, file (view st') = file (view st) ++ new) ∧
    ((expected stack es (log_level_ l)).2 = true → held (view st') = [])) as (st' & ? & ? & ? & ?).
  { exists st'. split_and!; try done. intros s Hs. by apply site_line_whole, Hfits. }
  revert l st Hlaws Hfits. induction es as [|e es IH]; intros l st Hlaws Hfits; cbn [log_run expected].
  { exists st. cbn. rewrite !app_nil_r. split_and!; try done. exists []. by rewrite app_nil_r. }
  assert (∀ s, ELog s ∈ es → site_ok s (stack s)) as Hfits' by (intros s Hs; apply Hfits; by right).
  destruct e as [s|level|].
  - unfold log. rewrite (log_line_spec l s (stack s)) by (apply Hfits; left). cbn [mbind res_bind].
    destruct (enabled _ _); [|by apply IH]. set (buf := site_line s (stack s)).
    destruct (Output_law (OutputerLaws := Hlaws) buf st) as (new & Ef & Eh). case_decide as Hfat.
    + rewrite bool_decide_true by done. cbn [mbind res_bind fst snd]. eexists. split; [done|].
      rewrite Flush_law. unfold fflush. cbn [held file]. rewrite app_nil_r, Ef. split_and!; [|by eexists; rewrite <- app_assoc|done].
      by rewrite <- app_assoc, Eh.
    + rewrite bool_decide_false by done. cbn [mbind res_bind].
      destruct (IH l (Output (outputer_ l) buf st) Hlaws Hfits') as (st' & -> & Ec & (new' & Ep) & Ha).
      exists st'. cbn [fst snd]. rewrite Ec, Ef, Ep, Ef. split_and!; [done| |by eexists; rewrite <- app_assoc|done].
      rewrite <- app_assoc. f_equal. rewrite (app_assoc new), Eh. by rewrite <- app_assoc.
  - destruct (IH (SetLogLevel level l) st Hlaws Hfits') as (st' & E & H). by exists st'.
  - destruct (IH l (Flush (outputer_ l) st) Hlaws Hfits') as (st' & E & Ec & (new & Ep) & Ha).
    exists st'. rewrite Flush_law in Ec, Ep. cbn [fflush file held] in Ec, Ep. split; [done|]. rewrite Ec.
    split_and!; [by rewrite app_nil_l, <- app_assoc|by eexists; rewrite Ep, <- app_assoc|done].
Qed.
End logging.

(** A debug line that the level hides, a warning, and a fatal line with its
    stack; the library writes nothing by itself. *)
Definition demo_frame : frame := mkFrame (B "./app") (B "main") (B "0x1c") (B " [0x40]").
Lemma demo_frame_ok : frame_ok demo_frame.
Proof. unfold frame_ok, plain. split_and!; apply (bool_decide_unpack _); vm_compute; exact I. Qed.

Definition demo_site (m : macro) (msg : bytes) : site :=
  mkSite m msg (B "12:00") (B "7") (replicate 256 "?"%char) (B "app.cc") 3 (B "main") 2
    [frame_line demo_frame ++ [nul]; frame_line demo_frame ++ [nul]].
Definition demo_log : list log_event :=
  [ESetLevel kInfo; ELog (demo_site LOG_DEBUG (B "hidden")); ELog (demo_site LOG_WARN (B "low"));
   ELog (demo_site LOG_SYSFAT (B "gone")); ELog (demo_site LOG_INFO (B "never"))].

Lemma logging_writes_witness : ∃ st,
  log_run (λ _, B "No such file") (λ _, None) demo_log (gDefaultLogger (λ _, 0%nat)) (mkStd (mkFILE [] []) (mkFILE [] [])) = Ok (st, true) ∧
  held (stdout st) = [] ∧
  file (stdout st) =
    B "[12:00 7 Warn ] low app.cc : 3" ++ ["010"%char] ++
    B "[12:00 7 Fatal No such file (errno = 2)] gone app.cc : 3" ++ ["010"%char] ++
    B "stack trace:" ++ ["010"%char] ++ B "  ./app : main()+0x1c" ++ ["010"%char].
Proof.
  destruct (logging_writes (λ _, B "No such file") (λ _, None) demo_log (gDefaultLogger (λ _, 0%nat))
    (mkStd (mkFILE [] []) (mkFILE [] [])) stdout (λ _, [demo_frame; demo_frame]) (Outputer_laws _)) as (st & E & Ec & _ & Ha & _).
  - intros s Hs. unfold demo_log in Hs.
    assert (∀ m msg, site_ok (demo_site m msg) [demo_frame; demo_frame]) as Hf.
    { intros m msg. split; [reflexivity|reflexivity|split; [cbn; lia|vm_compute; reflexivity]|reflexivity|].
      repeat constructor; apply demo_frame_ok. }
    rewrite !elem_of_cons, elem_of_nil in Hs.
    destruct Hs as [[=]|[[= ->]|[[= ->]|[[= ->]|[[= ->]|[]]]]]]; apply Hf.
  - exists st. split; [exact E|]. specialize (Ha eq_refl). split; [exact Ha|]. rewrite Ha, app_nil_r in Ec. rewrite Ec. by vm_compute.
Defined.

(** The streams of [log] and of [Output] are separate: a logger on standard
    error leaves standard output alone. *)
Lemma stderr_logger_stdout spill_out spill_err d st :
  stdout (Output (StderrOuputer spill_out spill_err) d st) = stdout st.
Proof. done. Qed.
