(* ===== verification/EventLoopThread.v ===== *)
(** A loop in a thread of its own: [muzi/net/event_loop_thread.h] and
    [event_loop_thread.cc].  The loop's thread, a thread in [StartLoop] and a
    thread in [Stop] interleave; of the loop itself, see [EventLoop], only
    [looping_] and [quit_] matter here. *)

From S2P Require Import Prelude.

(** The loop's thread in [ThreadFunc]: not created, before the first lock,
    with it, in the callback, before [Loop], in it, before the second lock,
    with it, returned. *)
Inductive thread_pc := TNone | TLock | TPublish | TInit | TLoop | TLooping | TLock2 | TClear | TDone.

(** A thread in [StartLoop]: not there, before the lock, at the test of
    [loop_], in [Wait] before it unlocks, asleep, woken, returned. *)
Inductive start_pc := SNone | SLock | SCheck | SSleep | SWait | SWoken | SDone.

(** A thread in [Stop]: not there, before the lock, at the first test of
    [loop_], inside [Quit], at the test of the loop around [Wait], in it,
    asleep, woken, returned. *)
Inductive stop_pc := PNone | PLock | PTest | PQuit | PCheck | PSleep | PWait | PWoken | PDone.

#[export] Instance thread_pc_eq_dec : EqDecision thread_pc.
Proof. solve_decision. Defined.
#[export] Instance start_pc_eq_dec : EqDecision start_pc.
Proof. solve_decision. Defined.
#[export] Instance stop_pc_eq_dec : EqDecision stop_pc.
Proof. solve_decision. Defined.

Inductive owner := OThread | OStart | OStop.
#[export] Instance owner_eq_dec : EqDecision owner.
Proof. solve_decision. Defined.

(** [loop_]: the pointer is not null.  [inits]: how often the callback ran. *)
Record EventLoopThread := mkELT {
  lock_ : option owner;
  loop_ : bool;
  started_ : bool;
  looping_ : bool;
  quit_ : bool;
  thread : thread_pc;
  start : start_pc;
  stop : stop_pc;
  inits : nat
}.

Definition EventLoopThread_new : EventLoopThread := mkELT None false false false false TNone SNone PNone 0.

Definition set_thread (l : option owner) (pc : thread_pc) (s : EventLoopThread) : EventLoopThread :=
  mkELT l (loop_ s) (started_ s) (looping_ s) (quit_ s) pc (start s) (stop s) (inits s).
Definition set_start (l : option owner) (pc : start_pc) (s : EventLoopThread) : EventLoopThread :=
  mkELT l (loop_ s) (started_ s) (looping_ s) (quit_ s) (thread s) pc (stop s) (inits s).
Definition set_stop (l : option owner) (pc : stop_pc) (s : EventLoopThread) : EventLoopThread :=
  mkELT l (loop_ s) (started_ s) (looping_ s) (quit_ s) (thread s) (start s) pc (inits s).
Definition set_loop (b : bool) (s : EventLoopThread) : EventLoopThread :=
  mkELT (lock_ s) b (started_ s) (looping_ s) (quit_ s) (thread s) (start s) (stop s) (inits s).
Definition set_looping (b : bool) (s : EventLoopThread) : EventLoopThread :=
  mkELT (lock_ s) (loop_ s) (started_ s) b (quit_ s) (thread s) (start s) (stop s) (inits s).
Definition set_quit (b : bool) (s : EventLoopThread) : EventLoopThread :=
  mkELT (lock_ s) (loop_ s) (started_ s) (looping_ s) b (thread s) (start s) (stop s) (inits s).

Definition wake_start (pc : start_pc) : start_pc := match pc with SWait => SWoken | _ => pc end.
Definition wake_stop (pc : stop_pc) : stop_pc := match pc with PWait => PWoken | _ => pc end.

(** [cond_.Notify()] wakes one waiting thread: [first] picks the one in
    [StartLoop] when both wait.  [cond_.NotifyAll()] wakes both. *)
Definition Notify (first : bool) (s : EventLoopThread) : EventLoopThread :=
  if bool_decide (start s = SWait) && (first || negb (bool_decide (stop s = PWait)))
  then set_start (lock_ s) SWoken s else set_stop (lock_ s) (wake_stop (stop s)) s.
Definition NotifyAll (s : EventLoopThread) : EventLoopThread :=
  set_stop (lock_ s) (wake_stop (stop s)) (set_start (lock_ s) (wake_start (start s)) s).

Definition acquire (o : owner) (s : EventLoopThread) : option (option owner) :=
  match lock_ s with None => Some (Some o) | Some _ => None end.

(** One step of the loop's thread.  A handler can call [Quit] in the loop,
    see [LQuitInLoop]. *)
Definition ThreadFunc (callback first : bool) (s : EventLoopThread) : option EventLoopThread :=
  match thread s with
  | TNone => None
  | TLock => l ← acquire OThread s; Some (set_thread l TPublish s)
  | TPublish => Some (set_thread None TInit (Notify first (set_loop true s)))
  | TInit =>
      Some (mkELT (lock_ s) (loop_ s) (started_ s) (looping_ s) (quit_ s) TLoop (start s) (stop s)
              (if callback then S (inits s) else inits s))
  | TLoop => Some (set_thread (lock_ s) TLooping (set_looping true s))
  | TLooping => if quit_ s then Some (set_thread (lock_ s) TLock2 (set_looping false s)) else None
  | TLock2 => l ← acquire OThread s; Some (set_thread l TClear s)
  | TClear => Some (set_thread None TDone (NotifyAll (set_loop false s)))
  | TDone => None
  end.

(** One step of [StartLoop]: the assertions of [StartLoop] and
    [Thread::Start], and the start of the thread, are the first. *)
Definition StartLoop (s : EventLoopThread) : res (option EventLoopThread) :=
  match start s with
  | SNone =>
      _ ← assert (negb (loop_ s)); _ ← assert (negb (started_ s));
      Ok (Some (mkELT (lock_ s) (loop_ s) true (looping_ s) (quit_ s) TLock SLock (stop s) (inits s)))
  | SLock => Ok (l ← acquire OStart s; Some (set_start l SCheck s))
  | SCheck => Ok (Some (if loop_ s then set_start None SDone s else set_start (lock_ s) SSleep s))
  | SSleep => Ok (Some (set_start None SWait s))
  | SWait => Ok None
  | SWoken => Ok (l ← acquire OStart s; Some (set_start l SCheck s))
  | SDone => Ok None
  end.

(** One step of [Stop].  [Quit] does nothing when the loop is not looping or
    quits already; otherwise it waits for [looping_], with the lock of this
    object. *)
Definition Stop (s : EventLoopThread) : option EventLoopThread :=
  match stop s with
  | PNone => Some (set_stop (lock_ s) PLock s)
  | PLock => l ← acquire OStop s; Some (set_stop l PTest s)
  | PTest =>
      if loop_ s then
        if negb (looping_ s) || quit_ s then Some (set_stop (lock_ s) PCheck s)
        else Some (set_stop (lock_ s) PQuit (set_quit true s))
      else Some (set_stop None PDone s)
  | PQuit => if looping_ s then None else Some (set_stop (lock_ s) PCheck s)
  | PCheck => Some (if loop_ s then set_stop (lock_ s) PSleep s else set_stop None PDone s)
  | PSleep => Some (set_stop None PWait s)
  | PWait => None
  | PWoken => l ← acquire OStop s; Some (set_stop l PCheck s)
  | PDone => None
  end.

Definition IsLoopAlive (s : EventLoopThread) : bool := loop_ s.

Inductive label := LThread (callback first : bool) | LStart | LStop | LQuitInLoop | LSpuriousStart | LSpuriousStop.

(** A step that is not enabled leaves the state alone. *)
Definition step (l : label) (s : EventLoopThread) : res EventLoopThread :=
  match l with
  | LThread callback first => Ok (default s (ThreadFunc callback first s))
  | LStart => s' ← StartLoop s; Ok (default s s')
  | LStop => Ok (default s (Stop s))
  | LQuitInLoop => Ok (if bool_decide (thread s = TLooping) then set_quit true s else s)
  | LSpuriousStart => Ok (set_start (lock_ s) (wake_start (start s)) s)
  | LSpuriousStop => Ok (set_stop (lock_ s) (wake_stop (stop s)) s)
  end.

Fixpoint run (ls : list label) (s : EventLoopThread) : res EventLoopThread :=
  match ls with [] => Ok s | l :: ls => s ← step l s; run ls s end.

(** ** The invariant *)

(** The loop object exists and its address is published. *)
Definition published (pc : thread_pc) : bool :=
  match pc with TInit | TLoop | TLooping | TLock2 | TClear => true | _ => false end.
Definition t_holds (pc : thread_pc) : bool := match pc with TPublish | TClear => true | _ => false end.
Definition s_holds (pc : start_pc) : bool := match pc with SCheck | SSleep => true | _ => false end.
Definition p_holds (pc : stop_pc) : bool := match pc with PTest | PQuit | PCheck | PSleep => true | _ => false end.

Record elt_inv (s : EventLoopThread) : Prop := {
  ei_loop : loop_ s = published (thread s);
  ei_looping : looping_ s = bool_decide (thread s = TLooping);
  ei_started : started_ s = negb (bool_decide (thread s = TNone));
  ei_start : start s = SNone ↔ thread s = TNone;
  ei_tlock : t_holds (thread s) = bool_decide (lock_ s = Some OThread);
  ei_slock : s_holds (start s) = bool_decide (lock_ s = Some OStart);
  ei_plock : p_holds (stop s) = bool_decide (lock_ s = Some OStop);
  ei_swait : start s = SSleep ∨ start s = SWait → loop_ s = false;
  ei_sdone : start s = SDone → published (thread s) = true ∨ thread s = TDone;
  ei_pwait : stop s = PQuit ∨ stop s = PSleep ∨ stop s = PWait → loop_ s = true
}.

Lemma elt_new_inv : elt_inv EventLoopThread_new.
Proof. split; cbn; naive_solver. Qed.

Ltac elt_solve := split; cbn in *; try done; naive_solver.

Lemma ThreadFunc_inv cb first s s' : elt_inv s → ThreadFunc cb first s = Some s' → elt_inv s'.
Proof.
  intros [] H. unfold ThreadFunc, acquire, Notify, NotifyAll in H. destruct s as [l lo sd lp q t st p n]. cbn in *.
  destruct t; cbn in *; try done.
  all: try (destruct l as [[]|]; cbn in *; try discriminate).
  all: try (destruct q; try discriminate H).
  all: destruct st; cbn in *; try discriminate.
  all: destruct p; cbn in *; try discriminate.
  all: try (destruct first; cbn in H).
  all: injection H as <-; elt_solve.
Qed.

Lemma StartLoop_inv s s' : elt_inv s → StartLoop s = Ok (Some s') → elt_inv s'.
Proof.
  intros [] H. unfold StartLoop, acquire in H. destruct s as [l lo sd lp q t st p n]. cbn in *.
  destruct st; cbn in *; try done.
  all: destruct lo; cbn in *; try discriminate.
  all: destruct sd; cbn in *; try discriminate.
  all: destruct l as [[]|]; cbn in *; try discriminate.
  all: destruct t; cbn in *; try discriminate.
  all: injection H as <-; elt_solve.
Qed.

Lemma elt_Stop_inv s s' : elt_inv s → Stop s = Some s' → elt_inv s'.
Proof.
  intros [] H. unfold Stop, acquire in H. destruct s as [l lo sd lp q t st p n]. cbn in *.
  destruct p; cbn in *; try done.
  all: destruct lo; cbn in *; try discriminate.
  all: destruct l as [[]|]; cbn in *; try discriminate.
  all: destruct lp, q; cbn in *; try discriminate.
  all: injection H as <-; elt_solve.
Qed.

(** Starting twice fails an assertion; nothing else does. *)
Lemma StartLoop_ok s : elt_inv s → ∃ o, StartLoop s = Ok o.
Proof.
  intros []. unfold StartLoop. destruct (start s) eqn:E; try by eexists.
  rewrite ei_loop0, ei_started0. pose proof (proj1 ei_start0 eq_refl) as ->. by eexists.
Qed.

Lemma elt_step_inv l s : elt_inv s → ∃ s', step l s = Ok s' ∧ elt_inv s'.
Proof.
  intros Hi. destruct l as [cb first| | | | |]; cbn [step].
  - eexists. split; [reflexivity|]. destruct (ThreadFunc cb first s) eqn:E; [by eapply ThreadFunc_inv|done].
  - destruct (StartLoop_ok s Hi) as [o E]. rewrite E. cbn [mbind res_bind]. eexists. split; [reflexivity|].
    destruct o; [by eapply StartLoop_inv|done].
  - eexists. split; [reflexivity|]. destruct (Stop s) eqn:E; [by eapply elt_Stop_inv|done].
  - eexists. split; [reflexivity|]. case_bool_decide; [|done]. destruct Hi. split; cbn; assumption.
  - eexists. split; [reflexivity|]. destruct Hi, s as [l lo sd lp q t st p n]. destruct st; elt_solve.
  - eexists. split; [reflexivity|]. destruct Hi, s as [l lo sd lp q t st p n]. destruct p; elt_solve.
Qed.

Lemma elt_run_inv ls : ∀ s, elt_inv s → ∃ s', run ls s = Ok s' ∧ elt_inv s'.
Proof.
  induction ls as [|l ls IH]; intros s Hi; [by exists s|]. destruct (elt_step_inv l s Hi) as (s1 & E & Hi1).
  destruct (IH s1 Hi1) as (s' & E' & ?). exists s'. cbn [run]. by rewrite E.
Qed.

(** Once [StartLoop] has returned, [Stop] returns only after the thread has
    cleared the pointer. *)
Definition stopped (s : EventLoopThread) : Prop := start s = SDone ∧ (stop s = PDone → thread s = TDone).

Lemma step_stopped l s s' : elt_inv s → stopped s → step l s = Ok s' → stopped s'.
Proof.
  intros [] [Hs Hp] H. unfold stopped. destruct s as [l0 lo sd lp q t st p n]. cbn in Hs. subst st. cbn in *.
  specialize (ei_sdone0 eq_refl).
  destruct l as [cb first| | | | |]; cbn in H.
  - destruct t; cbn in *; try (by injection H as <-).
    all: destruct l0 as [[]|]; cbn in *; try discriminate; try (by injection H as <-).
    all: destruct q; cbn in *; try (by injection H as <-).
    all: injection H as <-; split; [done|]; cbn; destruct p; done || naive_solver.
  - by injection H as <-.
  - destruct p; cbn in *; try (by injection H as <-).
    all: destruct lo; cbn in *; try (by injection H as <-).
    all: destruct l0 as [[]|], lp, q; cbn in *; try discriminate; injection H as <-; cbn; split; try done; intros ?; destruct ei_sdone0; congruence.
  - case_bool_decide; by injection H as <-.
  - by injection H as <-.
  - injection H as <-. split; [done|]. by destruct p.
Qed.

Lemma elt_run_app ls ls' s : run (ls ++ ls') s = (s ← run ls s; run ls' s).
Proof.
  revert s. induction ls as [|l ls IH]; intros s; [done|]. cbn [app run].
  destruct (step l s); cbn [mbind res_bind]; [apply IH|done].
Qed.

Lemma run_stopped ls : ∀ s s', elt_inv s → stopped s → run ls s = Ok s' → stopped s'.
Proof.
  induction ls as [|l ls IH]; intros s s' Hi Hs H; [by injection H as <-|]. cbn [run] in H.
  destruct (elt_step_inv l s Hi) as (s1 & E & Hi1). rewrite E in H. apply (IH s1 s' Hi1); [|done]. exact (step_stopped l s s1 Hi Hs E).
Qed.

(** C34: under every interleaving no assertion fails and no thread sleeps
    through its wake-up: a thread asleep in [StartLoop] has nothing published,
    one asleep in [Stop] has a loop that is still published.  [StartLoop]
    returns only once the thread has published its loop; and when [Stop] is
    called after that, it returns only once the thread has left the loop and
    cleared the pointer. *)
Theorem event_loop_thread_runs ls ls' s :
  run ls EventLoopThread_new = Ok s →
  ∃ s', run (ls ++ ls') EventLoopThread_new = Ok s' ∧
    IsLoopAlive s' = published (thread s') ∧
    (start s' = SWait → loop_ s' = false) ∧ (stop s' = PWait → loop_ s' = true) ∧
    (start s' = SDone → published (thread s') = true ∨ thread s' = TDone) ∧
    (start s = SDone → stop s = PNone → stop s' = PDone → thread s' = TDone ∧ loop_ s' = false).
Proof.
  intros E. destruct (elt_run_inv ls _ elt_new_inv) as (s0 & E0 & Hi). rewrite E in E0. injection E0 as <-.
  destruct (elt_run_inv ls' s Hi) as (s' & E' & Hi'). exists s'. rewrite elt_run_app, E. cbn [mbind res_bind].
  pose proof Hi' as []. split_and!; [done|done|naive_solver|naive_solver|done|].
  intros Hs Hp Hp'. destruct (run_stopped ls' s s' Hi) as [_ Hd]; [by split; [|rewrite Hp]|done|].
  split; [by apply Hd|]. by rewrite ei_loop0, Hd.
Qed.

Lemma event_loop_thread_runs_witness :
  ∃ s', run ([LStart; LThread true true; LThread true true; LStart; LStart; LThread true true; LThread true true] ++
      [LStop; LStop; LStop; LThread true true; LStop; LStop; LStop; LThread true true; LThread true true; LStop; LStop])
      EventLoopThread_new = Ok s' ∧ stop s' = PDone ∧ thread s' = TDone.
Proof.
  destruct (event_loop_thread_runs [LStart; LThread true true; LThread true true; LStart; LStart; LThread true true; LThread true true]
    [LStop; LStop; LStop; LThread true true; LStop; LStop; LStop; LThread true true; LThread true true; LStop; LStop]
    (mkELT None true true true false TLooping SDone PNone 1)) as (s' & E & _ & _ & _ & _ & H); [vm_compute; reflexivity|].
  exists s'. split; [exact E|].
  assert (stop s' = PDone) as Hp by (vm_compute in E; injection E as <-; reflexivity).
  split; [exact Hp|]. apply H; [reflexivity|reflexivity|exact Hp].
Defined.

(** [Quit] has no effect before [Loop] has set [looping_]: a [Stop] that runs
    between [StartLoop] and that point waits for a loop that nobody quits. *)
Definition stop_early : list label :=
  [LStart; LThread false true; LThread false true; LStart; LStart; LStop; LStop; LStop; LStop; LStop;
   LThread false true; LThread false true].

Lemma stop_hangs :
  ∃ s, run stop_early EventLoopThread_new = Ok s ∧ stop s = PWait ∧ thread s = TLooping ∧ quit_ s = false ∧
    (∀ cb first, step (LThread cb first) s = Ok s) ∧ step LStop s = Ok s ∧ step LStart s = Ok s.
Proof. eexists. split; [vm_compute; reflexivity|]. split_and!; reflexivity. Qed.

(** A loop that ends before the thread in [StartLoop] has looked at the
    pointer leaves that thread asleep. *)
Lemma start_hangs :
  ∃ s, run [LStart; LStart; LStart; LStart; LThread false true; LThread false true; LThread false true; LThread false true;
            LQuitInLoop; LThread false true; LThread false true; LThread false true; LStart; LStart; LStart] EventLoopThread_new = Ok s ∧
    start s = SWait ∧ thread s = TDone.
Proof. eexists. split; [vm_compute; reflexivity|]. split; reflexivity. Qed.
