(* ===== verification/MemPool.v ===== *)
(** The block allocator: [muzi/net/mem_pool.h] and [mem_pool.cc].  Addresses
    are integers, with 0 the null pointer; what [malloc] answers is an
    argument.  Nobody writes to a released block but the allocator. *)

From S2P Require Import Prelude.
Local Open Scope Z_scope.

Definition BLOCKSIZE : Z := 4096.
Definition CHUNKSIZE : Z := 49152.
Definition ALIGIN : Z := 8.
Definition ptr_aligin (p : Z) : Z := Z.land (p + (ALIGIN - 1)) (Z.lnot (ALIGIN - 1)).

(** The header of a chunk, three pointers, and where its data begins. *)
Record Chunk := mkChunk { chunk : Z; last : Z; end_ : Z }.
Definition data (chunk : Z) : Z := chunk + 24.

(** [chunks_] follows the [next] pointers; [next] is what released blocks
    hold; [mallocs] counts the calls. *)
Record FixedMemPool := mkMemPool {
  chunks_ : list Chunk;
  idle_nodes_ : Z;
  next : gmap Z Z;
  mallocs : nat
}.

Section pool.
Variable malloc : nat → Z.

(** The answer is the pointer of the new chunk. *)
Definition AllocChunk (s : FixedMemPool) : Z * FixedMemPool :=
  let c := malloc (mallocs s) in
  if decide (c = 0) then (0, mkMemPool (chunks_ s) (idle_nodes_ s) (next s) (S (mallocs s)))
  else (c, mkMemPool (mkChunk c (data c) (c + CHUNKSIZE) :: chunks_ s) (idle_nodes_ s) (next s) (S (mallocs s))).

Definition FixedMemPool_new : FixedMemPool := (AllocChunk (mkMemPool [] 0 ∅ 0)).2.

Definition set_last (l : Z) (s : FixedMemPool) : res FixedMemPool :=
  match chunks_ s with
  | [] => Fault NullDeref
  | c :: cs => Ok (mkMemPool (mkChunk (chunk c) l (end_ c) :: cs) (idle_nodes_ s) (next s) (mallocs s))
  end.

Definition Alloc (s : FixedMemPool) : res (Z * FixedMemPool) :=
  if decide (idle_nodes_ s ≠ 0) then
    let ret := idle_nodes_ s in
    n ← deref UseAfterFree (next s !! ret);
    Ok (ret, mkMemPool (chunks_ s) n (next s) (mallocs s))
  else
    let '(ok, s) := (match chunks_ s with
                     | [] => let '(p, s) := AllocChunk s in (negb (bool_decide (p = 0)), s)
                     | _ :: _ => (true, s)
                     end) in
    if negb ok then Ok (0, s)
    else
      c ← deref NullDeref (head (chunks_ s));
      let ret := ptr_aligin (last c) in
      let s := if decide (end_ c - ret < BLOCKSIZE) then (AllocChunk s).2 else s in
      s ← set_last (ret + BLOCKSIZE) s;
      Ok (ret, s).

Definition Release (ptr : Z) (s : FixedMemPool) : FixedMemPool :=
  if decide (ptr = 0) then s
  else mkMemPool (chunks_ s) ptr (<[ptr := idle_nodes_ s]> (next s)) (mallocs s).

(** [while (!chunks_)]: the loop runs only without chunks, and then reads
    through the null pointer. *)
Definition Clear (s : FixedMemPool) : res FixedMemPool :=
  match chunks_ s with [] => Fault NullDeref | _ :: _ => Ok s end.

(** ** Runs *)

(** [ORelease n] releases the [n]-th block in use. *)
Inductive op := OAlloc | ORelease (n : nat).

Definition run_op (o : op) (p : list Z * FixedMemPool) : res (list Z * FixedMemPool) :=
  let '(live, s) := p in
  match o with
  | OAlloc => '(ptr, s) ← Alloc s; Ok (ptr :: live, s)
  | ORelease n => ptr ← deref OutOfBounds (live !! n); Ok (delete n live, Release ptr s)
  end.

Fixpoint run_ops (os : list op) (p : list Z * FixedMemPool) : res (list Z * FixedMemPool) :=
  match os with [] => Ok p | o :: os => p ← run_op o p; run_ops os p end.

(** How many blocks are in use after each operation, at most eleven. *)
Fixpoint legal (n : nat) (os : list op) : Prop :=
  match os with
  | [] => True
  | OAlloc :: os => (n < 11)%nat ∧ legal (S n) os
  | ORelease i :: os => (i < n)%nat ∧ legal (n - 1) os
  end.
End pool.

(** ** One chunk *)

Section proofs.
Variable malloc : nat → Z.
#[local] Abbreviation base := (malloc 0%nat).
(** [malloc] answers memory aligned for every type. *)
Hypothesis malloc_aligned : 0 < base ∧ base mod 16 = 0.

Definition block (i : nat) : Z := data base + BLOCKSIZE * Z.of_nat i.

(** The idle nodes form the list [F] in memory. *)
Fixpoint chain (p : Z) (F : list Z) (m : gmap Z Z) : Prop :=
  match F with [] => p = 0 | x :: F => p = x ∧ ∃ q, m !! x = Some q ∧ chain q F m end.

Record pool_inv (live : list Z) (s : FixedMemPool) : Prop := {
  mp_blocks : ∃ k F, (k ≤ 11)%nat ∧ chunks_ s = [mkChunk base (block k) (base + CHUNKSIZE)] ∧
    chain (idle_nodes_ s) F (next s) ∧ live ++ F ≡ₚ block <$> seq 0 k
}.

Lemma block_aligned k : ptr_aligin (block k) = block k.
Proof.
  unfold ptr_aligin, ALIGIN. change (Z.lnot (8 - 1)) with (Z.lnot (Z.ones 3)).
  rewrite <- Z.ldiff_land, Z.ldiff_ones_r by lia.
  rewrite Z.shiftl_mul_pow2, Z.shiftr_div_pow2 by lia. change (2 ^ 3) with 8. unfold block, data, BLOCKSIZE.
  assert (base = 16 * (base / 16)) as E by (destruct malloc_aligned as [_ Hm]; pose proof (Z_div_mod_eq_full base 16); lia).
  set (q := base / 16) in *. rewrite E.
  replace ((16 * q + 24 + 4096 * Z.of_nat k + (8 - 1)) / 8) with (2 * q + 3 + 512 * Z.of_nat k); [lia|].
  apply (Z.div_unique_pos _ 8 _ 7); lia.
Qed.

Lemma block_pos k : 0 < block k.
Proof. unfold block, data, BLOCKSIZE. lia. Qed.

Lemma block_inj i j : block i = block j → i = j.
Proof. unfold block, BLOCKSIZE. lia. Qed.

Lemma blocks_nodup k : NoDup (block <$> seq 0 k).
Proof. apply NoDup_fmap_2; [intros i j; apply block_inj|apply NoDup_seq]. Qed.

Lemma chain_insert p F m x q : x ∉ F → chain p F m → chain p F (<[x := q]> m).
Proof.
  revert p. induction F as [|y F IH]; intros p Hx Hc; [done|]. apply not_elem_of_cons in Hx as [Hy Hx].
  destruct Hc as (-> & r & Hr & Hc). split; [done|]. exists r. split; [by rewrite lookup_insert_ne|by apply IH].
Qed.

Lemma mp_new_inv : pool_inv [] (FixedMemPool_new malloc).
Proof.
  split. exists 0%nat, []. split; [lia|]. unfold FixedMemPool_new, AllocChunk. cbn [mallocs].
  rewrite decide_False by lia. cbn. split; [|done]. unfold block. by rewrite Z.mul_0_r, Z.add_0_r.
Qed.

Lemma Alloc_inv live s :
  pool_inv live s → (length live < 11)%nat → ∃ p s', Alloc malloc s = Ok (p, s') ∧ pool_inv (p :: live) s'.
Proof.
  intros [(k & F & Hk & Ec & Hch & Hp)] Hl. unfold Alloc. destruct F as [|x F]; cbn [chain] in Hch.
  - rewrite Hch, decide_False by (by intros []). rewrite Ec. cbn [negb]. rewrite Ec. cbn [head deref mbind res_bind option_bind].
    rewrite app_nil_r in Hp. pose proof (Permutation_length Hp) as Hlen. rewrite length_fmap, length_seq in Hlen.
    cbn [last end_]. rewrite block_aligned. rewrite decide_False by (unfold block, data, CHUNKSIZE, BLOCKSIZE; lia).
    unfold set_last. rewrite Ec. cbn [mbind res_bind]. eexists _, _. split; [reflexivity|]. split. exists (S k), [].
    split; [lia|]. split; [|split; [done|]].
    + cbn. do 2 f_equal. unfold block, BLOCKSIZE. lia.
    + rewrite app_nil_r, Hp, seq_S, fmap_app. cbn. by rewrite (Permutation_app_comm _ [block k]).
  - destruct Hch as (Ex & q & Hq & Hch). assert (x ≠ 0) as Hx.
    { assert (x ∈ block <$> seq 0 k) as Hin by (rewrite <- Hp; apply elem_of_app; right; by apply list_elem_of_here).
      apply list_elem_of_fmap in Hin as (i & -> & _). pose proof (block_pos i). lia. }
    rewrite Ex, decide_True by done. rewrite Hq. cbn [deref mbind res_bind]. eexists _, _. split; [reflexivity|]. split.
    exists k, F. split_and!; try done. by rewrite <- Hp, <- Permutation_middle.
Qed.

Lemma Release_inv live s n p :
  pool_inv live s → live !! n = Some p → pool_inv (delete n live) (Release p s).
Proof.
  intros [(k & F & Hk & Ec & Hch & Hp)] Hn.
  assert (live ≡ₚ p :: delete n live) as Hd by (by apply delete_Permutation).
  assert (NoDup (live ++ F)) as Hnd by (rewrite Hp; apply blocks_nodup).
  assert (p ∈ block <$> seq 0 k) as Hin by (rewrite <- Hp; apply elem_of_app; left; by eapply list_elem_of_lookup_2).
  apply list_elem_of_fmap in Hin as (i & -> & _). pose proof (block_pos i).
  unfold Release. rewrite decide_False by lia. split. exists k, (block i :: F). split; [done|]. split; [done|]. split.
  - split; [done|]. exists (idle_nodes_ s). cbn [next]. split; [apply lookup_insert_eq|]. apply chain_insert; [|done].
    apply NoDup_app in Hnd as (_ & Hnd & _). apply Hnd. by eapply list_elem_of_lookup_2.
  - rewrite <- Hp, <- Permutation_middle. change ((block i :: delete n live) ++ F ≡ₚ live ++ F).
    apply Permutation_app; [by symmetry|done].
Qed.

Lemma mp_run_ops_inv os : ∀ live s, pool_inv live s → legal (length live) os →
  ∃ live' s', run_ops malloc os (live, s) = Ok (live', s') ∧ pool_inv live' s'.
Proof.
  induction os as [|o os IH]; intros live s Hi Hl; [by exists live, s|]. destruct o as [|n]; destruct Hl as [Hn Hl]; cbn [run_ops run_op].
  - destruct (Alloc_inv live s Hi Hn) as (p & s1 & E & Hi1). rewrite E. cbn [mbind res_bind]. by apply IH.
  - destruct (lookup_lt_is_Some_2 live n Hn) as [p Hp]. rewrite Hp. cbn [deref mbind res_bind]. apply IH.
    + by apply Release_inv.
    + rewrite length_delete by (by eexists). done.
Qed.

(** C40: as long as at most eleven blocks are in use at a time, every
    allocation succeeds, and the blocks in use lie in the data of the one
    chunk, aligned and without overlap. *)
Theorem mem_pool_blocks os :
  legal 0 os →
  ∃ live s, run_ops malloc os ([], FixedMemPool_new malloc) = Ok (live, s) ∧ NoDup live ∧
    (∀ p, p ∈ live → data base ≤ p ∧ p + BLOCKSIZE ≤ base + CHUNKSIZE ∧ ptr_aligin p = p) ∧
    (∀ p q, p ∈ live → q ∈ live → p ≠ q → p + BLOCKSIZE ≤ q ∨ q + BLOCKSIZE ≤ p).
Proof.
  intros Hl. destruct (mp_run_ops_inv os [] _ mp_new_inv Hl) as (live & s & E & [(k & F & Hk & _ & _ & Hp)]). exists live, s.
  assert (∀ p, p ∈ live → ∃ i, p = block i ∧ (i < 11)%nat) as Hb.
  { intros p Hin. assert (p ∈ block <$> seq 0 k) as Hin' by (rewrite <- Hp; apply elem_of_app; by left).
    apply list_elem_of_fmap in Hin' as (i & -> & Hi). apply elem_of_seq in Hi. exists i. split; [done|lia]. }
  split_and!; [done| | |].
  - assert (NoDup (live ++ F)) as Hnd by (rewrite Hp; apply blocks_nodup). by apply NoDup_app in Hnd as (? & _).
  - intros p Hin. destruct (Hb p Hin) as (i & -> & Hi). split_and!; [| |apply block_aligned];
      unfold block, data, BLOCKSIZE, CHUNKSIZE; lia.
  - intros p q Hpi Hqi Hne. destruct (Hb p Hpi) as (i & -> & _). destruct (Hb q Hqi) as (j & -> & _).
    assert (i ≠ j) by (by intros ->). unfold block, BLOCKSIZE. lia.
Qed.
End proofs.

Definition malloc_example (n : nat) : Z := 65536 * (1 + Z.of_nat n).

Lemma mem_pool_blocks_witness :
  ∃ live s, run_ops malloc_example [OAlloc; OAlloc; OAlloc; ORelease 1; OAlloc; OAlloc] ([], FixedMemPool_new malloc_example) = Ok (live, s) ∧
    NoDup live ∧ live = [77848; 69656; 73752; 65560].
Proof.
  destruct (mem_pool_blocks malloc_example ltac:(vm_compute; split; reflexivity) [OAlloc; OAlloc; OAlloc; ORelease 1; OAlloc; OAlloc])
    as (live & s & E & Hn & _).
  - cbn. repeat split; lia.
  - exists live, s. split; [exact E|]. split; [exact Hn|]. vm_compute in E. injection E as <- _. reflexivity.
Defined.

(** The twelfth block ends past its chunk: the new chunk is allocated after
    the block was chosen. *)
Lemma twelfth_block_overruns :
  ∃ live s p, run_ops malloc_example (replicate 12 OAlloc) ([], FixedMemPool_new malloc_example) = Ok (p :: live, s) ∧
    malloc_example 0 + CHUNKSIZE < p + BLOCKSIZE ∧ p < malloc_example 0 + CHUNKSIZE ∧ length (chunks_ s) = 2%nat.
Proof. eexists _, _, _. split; [vm_compute; reflexivity|]. vm_compute. by repeat split. Qed.

(** The destructor frees nothing, and without a chunk it reads through the
    null pointer. *)
Lemma clear_frees_nothing s : chunks_ s ≠ [] → Clear s = Ok s.
Proof. unfold Clear. by destruct (chunks_ s). Qed.

Lemma clear_without_chunk : Clear (FixedMemPool_new (λ _, 0)) = Fault NullDeref.
Proof. reflexivity. Qed.
