(* ===== verification/Sync.v ===== *)
(** Mutexes, conditions and latches: [muzi/base/current_thread.h], [.cc],
    [mutex.h], [condition.h], [.cc] and [countdown_latch.h], [.cc].  The
    threads that use a latch interleave in atomic steps, those of the mutex and
    of the holder it records included.  The pthread functions are those of
    POSIX: locking blocks while another thread owns the mutex, waiting
    releases it and sleeps in one step, and a sleeper can wake at any time. *)

From Stdlib Require Import Floats.SpecFloat.
From stdpp Require Import pretty.
From S2P Require Import Prelude Timestamp.
#[local] Open Scope Z_scope.

(** ** The identifier of a thread *)

(** The thread-local variables; [gettid] is what the system call answers. *)
Record CurrentThread := mkCurrent { t_tid : Z; t_tid_string : string; t_tid_length : nat }.

Definition CurrentThread_new : CurrentThread := mkCurrent 0 "" 0.

Definition ResetTid (gettid : Z) (c : CurrentThread) : CurrentThread :=
  mkCurrent gettid (pretty gettid) (String.length (pretty gettid)).

Definition tid (gettid : Z) (c : CurrentThread) : Z * CurrentThread :=
  let c := if t_tid c =? 0 then ResetTid gettid c else c in (t_tid c, c).

Definition tid_string (gettid : Z) (c : CurrentThread) : string * CurrentThread :=
  let c := if t_tid c =? 0 then ResetTid gettid c else c in (t_tid_string c, c).

Definition IsMainThread (gettid getpid : Z) (c : CurrentThread) : bool * CurrentThread :=
  let '(t, c) := tid gettid c in (t =? getpid, c).

(** [SleepUsec]: what is handed to [nanosleep]. *)
Definition SleepUsec (usec : Z) : timespec := ToTimeSpec usec.

(** The variables of a thread whose identifier is [g]: unset, or set to it. *)
Definition current_ok (g : Z) (c : CurrentThread) : Prop :=
  t_tid c = 0 ∨ (t_tid c = g ∧ t_tid_string c = pretty g ∧ t_tid_length c = String.length (pretty g)).

(** However often it was asked before, a thread gets its identifier and its
    text. *)
Lemma current_thread_tid g c : current_ok g c →
  (tid g c).1 = g ∧ current_ok g (tid g c).2 ∧
  (tid_string g c).1 = pretty g ∧ current_ok g (tid_string g c).2.
Proof.
  intros Hc. unfold tid, tid_string. destruct (Z.eqb_spec (t_tid c) 0) as [E|E]; cbn.
  - split_and!; [done| |done|]; by right.
  - destruct Hc as [|(E1 & E2 & E3)]; [done|]. split_and!; [done| |done|]; by right.
Qed.

(** ** MutexLock *)

(** [owner] is the thread that owns the pthread mutex. *)
Record MutexLock := mkMutex { owner : option nat; holder_ : Z }.
#[export] Instance MutexLock_eq_dec : EqDecision MutexLock.
Proof. solve_decision. Defined.

Definition MutexLock_new : MutexLock := mkMutex None 0.

Definition pthread_mutex_lock (i : nat) (m : MutexLock) : option MutexLock :=
  match owner m with None => Some (mkMutex (Some i) (holder_ m)) | Some _ => None end.

Definition pthread_mutex_unlock (i : nat) (m : MutexLock) : res MutexLock :=
  if decide (owner m = Some i) then Ok (mkMutex None (holder_ m)) else Fault LockMisuse.

Definition AssignHolder (t : Z) (m : MutexLock) : MutexLock := mkMutex (owner m) t.
Definition UnassignHolder (m : MutexLock) : MutexLock := mkMutex (owner m) 0.
Definition IsLockedByThisThread (t : Z) (m : MutexLock) : bool := holder_ m =? t.
Definition AssertLocked (t : Z) (m : MutexLock) : res unit := assert (IsLockedByThisThread t m).

(** [~MutexLock]: destroying an owned pthread mutex answers [EBUSY], which
    [ISZERO] does not accept. *)
Definition MutexLock_destroy (m : MutexLock) : res unit :=
  _ ← assert (holder_ m =? 0); assert (bool_decide (owner m = None)).

(** ** CountdownLatch *)

Inductive latch_op := OpCountDown | OpWait | OpGetCount.

(** Where a thread is: outside; in [Lock] before the mutex and before the
    holder is set; at [--count_], the test of the loop or the reading of
    [count_]; at the test that decides on [NotifyAll]; in [Condition::Wait]
    before the holder is reset, before the mutex is released, asleep, woken,
    and with the mutex back; in [Unlock], with what is returned. *)
Inductive latch_pc :=
  | Idle
  | AtLock (o : latch_op) | AtAssign (o : latch_op)
  | AtBody (o : latch_op) | AtNotify
  | AtHolderGuard | AtCondWait | Sleeping | Woken | AtReassign
  | AtUnassign (o : latch_op) (r : Z) | AtUnlock (o : latch_op) (r : Z).

#[export] Instance latch_op_eq_dec : EqDecision latch_op.
Proof. solve_decision. Defined.
#[export] Instance latch_pc_eq_dec : EqDecision latch_pc.
Proof. solve_decision. Defined.

(** [downs]: how often [count_] was decremented; [returned]: the calls that
    have returned, with their results (0 for [void]). *)
Record CountdownLatch := mkLatch {
  mutex_ : MutexLock;
  count_ : Z;
  threads : list latch_pc;
  downs : nat;
  returned : list (nat * latch_op * Z)
}.
#[export] Instance CountdownLatch_eq_dec : EqDecision CountdownLatch.
Proof. solve_decision. Defined.

(** A latch that [m] threads can reach. *)
Definition CountdownLatch_new (count : Z) (m : nat) : CountdownLatch :=
  mkLatch MutexLock_new count (replicate m Idle) 0 [].

(** Thread [i] goes on at [pc], with the mutex as given. *)
Definition go (i : nat) (pc : latch_pc) (m : MutexLock) (s : CountdownLatch) : CountdownLatch :=
  mkLatch m (count_ s) (<[i := pc]> (threads s)) (downs s) (returned s).

Definition set_count (c : Z) (s : CountdownLatch) : CountdownLatch :=
  mkLatch (mutex_ s) c (threads s) (S (downs s)) (returned s).

Definition wake (pc : latch_pc) : latch_pc := match pc with Sleeping => Woken | _ => pc end.

Definition NotifyAll (s : CountdownLatch) : CountdownLatch :=
  mkLatch (mutex_ s) (count_ s) (wake <$> threads s) (downs s) (returned s).

Definition return_ (i : nat) (o : latch_op) (r : Z) (m : MutexLock) (s : CountdownLatch) : CountdownLatch :=
  mkLatch m (count_ s) (<[i := Idle]> (threads s)) (downs s) (returned s ++ [(i, o, r)]).

(** [--x] of an [int]. *)
Definition decrement (x : Z) : res Z := if decide (- 2 ^ 31 < x) then Ok (x - 1) else Fault IntOverflow.

Section latch.
(** What [current_thread::tid()] answers in a thread. *)
Variable tid_of : nat → Z.

(** The next step of thread [i]; [None] while it blocks or has no call. *)
Definition latch_thread (i : nat) (s : CountdownLatch) : res (option CountdownLatch) :=
  let m := mutex_ s in
  match threads s !! i with
  | None | Some Idle | Some Sleeping => Ok None
  | Some (AtLock o) => Ok (m ← pthread_mutex_lock i m; Some (go i (AtAssign o) m s))
  | Some (AtAssign o) => Ok (Some (go i (AtBody o) (AssignHolder (tid_of i) m) s))
  | Some (AtBody OpCountDown) => c ← decrement (count_ s); Ok (Some (go i AtNotify m (set_count c s)))
  | Some AtNotify =>
      let s := if count_ s =? 0 then NotifyAll s else s in Ok (Some (go i (AtUnassign OpCountDown 0) m s))
  | Some (AtBody OpWait) => Ok (Some (go i (if 0 <? count_ s then AtHolderGuard else AtUnassign OpWait 0) m s))
  | Some AtHolderGuard => Ok (Some (go i AtCondWait (UnassignHolder m) s))
  | Some AtCondWait => m ← pthread_mutex_unlock i m; Ok (Some (go i Sleeping m s))
  | Some Woken => Ok (m ← pthread_mutex_lock i m; Some (go i AtReassign m s))
  | Some AtReassign => Ok (Some (go i (AtBody OpWait) (AssignHolder (tid_of i) m) s))
  | Some (AtBody OpGetCount) => Ok (Some (go i (AtUnassign OpGetCount (count_ s)) m s))
  | Some (AtUnassign o r) => Ok (Some (go i (AtUnlock o r) (UnassignHolder m) s))
  | Some (AtUnlock o r) => m ← pthread_mutex_unlock i m; Ok (Some (return_ i o r m s))
  end.

(** A thread enters an operation, takes a step, or wakes unasked. *)
Inductive latch_label := LCall (i : nat) (o : latch_op) | LThread (i : nat) | LSpurious (i : nat).

(** A step that is not possible leaves the state alone. *)
Definition latch_step (l : latch_label) (s : CountdownLatch) : res CountdownLatch :=
  match l with
  | LCall i o =>
      Ok (if decide (threads s !! i = Some Idle) then go i (AtLock o) (mutex_ s) s else s)
  | LThread i => s' ← latch_thread i s; Ok (default s s')
  | LSpurious i =>
      Ok (if decide (threads s !! i = Some Sleeping) then go i Woken (mutex_ s) s else s)
  end.

Fixpoint latch_run (ls : list latch_label) (s : CountdownLatch) : res CountdownLatch :=
  match ls with [] => Ok s | l :: ls => s ← latch_step l s; latch_run ls s end.

(** How many labels of a run change the state. *)
Fixpoint moves (ls : list latch_label) (s : CountdownLatch) : nat :=
  match ls with
  | [] => 0
  | l :: ls => match latch_step l s with
               | Ok s' => (if decide (s' = s) then 0 else 1) + moves ls s'
               | Fault _ => 0
               end
  end.

Definition is_down (l : latch_label) : bool := match l with LCall _ OpCountDown => true | _ => false end.
Definition is_call (l : latch_label) : bool := match l with LCall _ _ => true | _ => false end.

End latch.

(** ** The invariant *)

(** The threads that own the mutex, and those of them the holder names. *)
Definition holds (pc : latch_pc) : bool :=
  match pc with Idle | AtLock _ | Sleeping | Woken => false | _ => true end.
Definition named (pc : latch_pc) : bool :=
  match pc with AtBody _ | AtNotify | AtHolderGuard | AtUnassign _ _ => true | _ => false end.

(** About to decrement; inside [Wait] because the count was positive; about
    to return from [Wait]. *)
Definition will_down (pc : latch_pc) : bool :=
  match pc with AtLock OpCountDown | AtAssign OpCountDown | AtBody OpCountDown => true | _ => false end.
Definition will_sleep (pc : latch_pc) : bool :=
  match pc with AtHolderGuard | AtCondWait => true | _ => false end.
Definition leaves_wait (pc : latch_pc) : bool :=
  match pc with AtUnassign OpWait _ | AtUnlock OpWait _ => true | _ => false end.

Section proofs.
Variable tid_of : nat → Z.
Hypothesis tid_pos : ∀ i, 0 < tid_of i.
Hypothesis tid_inj : ∀ i j, tid_of i = tid_of j → i = j.

(** [n] is the initial count, [k] how often [CountDown] has been called. *)
Record latch_inv (n : Z) (k : nat) (s : CountdownLatch) : Prop := {
  li_owner : ∀ i pc, threads s !! i = Some pc → holds pc = bool_decide (owner (mutex_ s) = Some i);
  li_in : ∀ i, owner (mutex_ s) = Some i → is_Some (threads s !! i);
  li_named : ∀ i pc, threads s !! i = Some pc → named pc = true → holder_ (mutex_ s) = tid_of i;
  li_nobody : (∀ i pc, threads s !! i = Some pc → named pc = false) → holder_ (mutex_ s) = 0;
  li_count : count_ s = n - Z.of_nat (downs s);
  li_downs : (downs s + countb will_down (threads s) ≤ k)%nat;
  li_will_sleep : ∀ i pc, threads s !! i = Some pc → will_sleep pc = true → 0 < count_ s;
  li_sleeps : ∀ i, threads s !! i = Some Sleeping →
    0 < count_ s ∨ (count_ s = 0 ∧ ∃ j, threads s !! j = Some AtNotify);
  li_leaves : ∀ i pc, threads s !! i = Some pc → leaves_wait pc = true → count_ s ≤ 0;
  li_returned : ∀ i r, (i, OpWait, r) ∈ returned s → count_ s ≤ 0
}.

(** Thread [i] moves from [pc] to [pc'], and the mutex with it. *)
Lemma go_inv n k k' i pc pc' m s :
  latch_inv n k s → threads s !! i = Some pc →
  (owner m = owner (mutex_ s) ∨ owner (mutex_ s) = None ∧ owner m = Some i ∨ owner (mutex_ s) = Some i ∧ owner m = None) →
  holds pc' = bool_decide (owner m = Some i) →
  holder_ m = (if named pc' then tid_of i else if named pc then 0 else holder_ (mutex_ s)) →
  (named pc' = true → holds pc = true) →
  ((if will_down pc' then 1 else 0) + k ≤ k' + (if will_down pc then 1 else 0))%nat →
  (will_sleep pc' = true → 0 < count_ s) → (pc' = Sleeping → 0 < count_ s) → (pc = AtNotify → ∀ j, threads s !! j = Some Sleeping → 0 < count_ s) →
  (leaves_wait pc' = true → count_ s ≤ 0) →
  latch_inv n k' (go i pc' m s).
Proof.
  intros [] Hi Ho Hh Hm Hn Hd Hws Hs Hno Hl.
  assert (∀ j q, j ≠ i → threads s !! j = Some q → holds q = true → named pc' = false ∧ named pc = false ∧ owner m = Some j) as Hx.
  { intros j q Hj Hq Hhq. pose proof (li_owner0 j q Hq) as E. rewrite Hhq in E. symmetry in E. apply bool_decide_eq_true in E.
    pose proof (li_owner0 i pc Hi) as E'. rewrite bool_decide_eq_false_2 in E' by congruence.
    split_and!.
    - destruct (named pc'); [|done]. by rewrite Hn in E'.
    - by destruct pc.
    - destruct Ho as [|[[]|[]]]; congruence. }
  pose proof (countb_insert will_down i pc pc' _ Hi) as Cd.
  assert (i < length (threads s))%nat as Hlt by by eapply lookup_lt_Some.
  split; cbn [go mutex_ count_ threads downs returned].
  - intros j q Hq. thread_cases; [done|]. destruct (holds q) eqn:E.
    + symmetry. apply bool_decide_eq_true. by eapply Hx.
    + pose proof (li_owner0 j q Hq) as E'. rewrite E in E'. symmetry in E'. apply bool_decide_eq_false in E'.
      symmetry. apply bool_decide_eq_false. destruct Ho as [|[[]|[]]]; congruence.
  - intros j Hj. destruct (decide (i = j)) as [->|]; [by rewrite list_lookup_insert_eq|].
    rewrite list_lookup_insert_ne by done. apply li_in0. destruct Ho as [|[[]|[]]]; congruence.
  - intros j q Hq Hnq. thread_cases; [by rewrite Hm, Hnq|].
    destruct (Hx j q) as (E1 & E2 & _); [done|done|by destruct q|]. rewrite Hm, E1, E2. by eapply li_named0.
  - intros Hall. assert (named pc' = false) as E by (eapply Hall, list_lookup_insert_eq; lia). rewrite Hm, E.
    destruct (named pc) eqn:E2; [done|]. apply li_nobody0. intros j q Hq.
    destruct (decide (i = j)) as [<-|]; [congruence|]. apply (Hall j). by rewrite list_lookup_insert_ne.
  - done.
  - destruct (will_down pc), (will_down pc'); lia.
  - intros j q Hq Hw. thread_cases; [by apply Hws|]. by eapply li_will_sleep0.
  - intros j Hj. thread_cases; [left; by apply Hs|]. destruct (li_sleeps0 j) as [|[? [x Hx']]]; [done|by left|].
    destruct (decide (i = x)) as [<-|]; [left; eapply Hno; [congruence|done]|].
    right. split; [done|]. exists x. by rewrite list_lookup_insert_ne.
  - intros j q Hq Hw. thread_cases; [by apply Hl|]. by eapply li_leaves0.
  - done.
Qed.

(** A decrement, by the thread that holds the mutex. *)
Lemma count_down_inv n k i s :
  latch_inv n k s → threads s !! i = Some (AtBody OpCountDown) → - 2 ^ 31 ≤ n - Z.of_nat k →
  ∃ c, decrement (count_ s) = Ok c ∧ latch_inv n k (go i AtNotify (mutex_ s) (set_count c s)).
Proof.
  intros [] Hi Hk. pose proof (countb_insert will_down i _ AtNotify _ Hi) as Cd. cbn in Cd.
  exists (count_ s - 1). split; [unfold decrement; rewrite decide_True; [done|lia]|].
  pose proof (li_owner0 i _ Hi) as Ho. cbn in Ho. symmetry in Ho. apply bool_decide_eq_true in Ho.
  assert (i < length (threads s))%nat as Hlt by by eapply lookup_lt_Some.
  split; cbn [go set_count mutex_ count_ threads downs returned].
  - intros j q Hq. thread_cases; [cbn; symmetry; by apply bool_decide_eq_true|]. by apply li_owner0.
  - intros j Hj. rewrite Ho in Hj. injection Hj as <-. by rewrite list_lookup_insert_eq.
  - intros j q Hq Hn. thread_cases; by eapply li_named0.
  - intros Hall. specialize (Hall i AtNotify). rewrite list_lookup_insert_eq in Hall by done. by specialize (Hall eq_refl).
  - lia.
  - lia.
  - intros j q Hq Hw. thread_cases; [done|]. pose proof (li_owner0 j q Hq) as E.
    rewrite bool_decide_eq_false_2 in E by congruence. by destruct q.
  - intros j Hj. thread_cases; [done|]. destruct (li_sleeps0 j) as [|[_ [x Hx]]]; [done| |].
    + destruct (decide (count_ s = 1)); [right; split; [lia|]; exists i; by rewrite list_lookup_insert_eq|left; lia].
    + pose proof (li_owner0 x _ Hx) as E. cbn in E. symmetry in E. apply bool_decide_eq_true in E.
      assert (x = i) as -> by congruence. congruence.
  - intros j q Hq Hw. thread_cases; [done|]. pose proof (li_leaves0 j q Hq Hw). lia.
  - intros j r Hj. pose proof (li_returned0 j r Hj). lia.
Qed.

Lemma lookup_wake i (l : list latch_pc) pc :
  (wake <$> l) !! i = Some pc → ∃ q, l !! i = Some q ∧ pc = wake q.
Proof. intros H. apply list_lookup_fmap_Some in H as (q & -> & ?). eauto. Qed.

Lemma countb_wake l : countb will_down (wake <$> l) = countb will_down l.
Proof. induction l as [|[] l IH]; cbn in *; by rewrite ?IH. Qed.

Lemma notify_all_inv n k s : latch_inv n k s → latch_inv n k (NotifyAll s).
Proof.
  intros []. split; cbn [NotifyAll mutex_ count_ threads downs returned]; rewrite ?countb_wake; try done.
  - intros i pc (q & Hq & ->)%lookup_wake. rewrite <- (li_owner0 i q Hq). by destruct q.
  - intros i Hi. rewrite list_lookup_fmap. destruct (li_in0 i Hi) as [? ->]. eauto.
  - intros i pc (q & Hq & ->)%lookup_wake Hn. apply (li_named0 i q Hq). by destruct q.
  - intros Hall. apply li_nobody0. intros i q Hq. specialize (Hall i (wake q)). rewrite list_lookup_fmap, Hq in Hall.
    specialize (Hall eq_refl). by destruct q.
  - intros i pc (q & Hq & ->)%lookup_wake Hw. apply (li_will_sleep0 i q Hq). by destruct q.
  - intros i (q & Hq & E)%lookup_wake. by destruct q.
  - intros i pc (q & Hq & ->)%lookup_wake Hw. apply (li_leaves0 i q Hq). by destruct q.
Qed.
(** [Unlock]'s last step: the call returns. *)
Lemma return_inv n k i o r s :
  latch_inv n k s → threads s !! i = Some (AtUnlock o r) →
  latch_inv n k (return_ i o r (mkMutex None (holder_ (mutex_ s))) s).
Proof.
  intros Hi E. assert (latch_inv n k (go i Idle (mkMutex None (holder_ (mutex_ s))) s)) as [].
  { pose proof (li_owner n k s Hi i _ E) as Ho. cbn in Ho. symmetry in Ho. apply bool_decide_eq_true in Ho.
    eapply go_inv; try done; [by right; right|cbn; lia]. }
  split; try done. cbn. intros j r' [H|H]%elem_of_app; [by eapply li_returned0|].
  apply list_elem_of_singleton in H as [= -> <- ->]. by eapply (li_leaves n k s Hi i).
Qed.

Lemma owner_of n k s i pc : latch_inv n k s → threads s !! i = Some pc → holds pc = true → owner (mutex_ s) = Some i.
Proof. intros Hi E Hh. rewrite (li_owner n k s Hi i pc E) in Hh. by apply bool_decide_eq_true in Hh. Qed.

Lemma not_owner n k s i pc : latch_inv n k s → threads s !! i = Some pc → holds pc = false → owner (mutex_ s) ≠ Some i.
Proof. intros Hi E Hh. rewrite (li_owner n k s Hi i pc E) in Hh. by apply bool_decide_eq_false in Hh. Qed.

(** The thread that may notify wakes everybody when the count is zero. *)
Lemma notify_inv n k i s :
  latch_inv n k s → threads s !! i = Some AtNotify →
  latch_inv n k (go i (AtUnassign OpCountDown 0) (mutex_ s) (if count_ s =? 0 then NotifyAll s else s)).
Proof.
  intros Hi E. pose proof (owner_of n k s i _ Hi E eq_refl) as Ho.
  assert (latch_inv n k (if count_ s =? 0 then NotifyAll s else s)) as Hi' by (destruct (count_ s =? 0); [by apply notify_all_inv|done]).
  apply (go_inv n k k i AtNotify _ _ _ Hi'); try done.
  - destruct (count_ s =? 0); [|done]. cbn. rewrite list_lookup_fmap, E. done.
  - by destruct (count_ s =? 0); left.
  - cbn. symmetry. by apply bool_decide_eq_true.
  - cbn. by apply (li_named n k s Hi i AtNotify).
  - cbn. lia.
  - intros _ j. destruct (Z.eqb_spec (count_ s) 0) as [H0|H0]; cbn.
    + intros (q & _ & Hq)%lookup_wake. by destruct q.
    + intros Hj. by destruct (li_sleeps n k s Hi j Hj) as [|[]].
Qed.

(** [go_inv] for a step of the code: what it asks for follows from the place
    the thread leaves. *)
Ltac go_next Hi :=
  eapply (go_inv _ _ _ _ _ _ _ _ Hi); [eassumption|..]; cbn; try done; try lia;
  first
  [ by left | by right; left | by right; right; auto
  | by rewrite bool_decide_eq_true_2 by auto | by rewrite bool_decide_eq_false_2 by auto
  | by eapply (li_named _ _ _ Hi)
  | intros ?; first [by eapply (li_will_sleep _ _ _ Hi) | by eapply (li_leaves _ _ _ Hi)] | idtac ].

(** Every step of a thread is possible or blocked, and keeps the invariant. *)
Lemma latch_thread_inv n k i s :
  latch_inv n k s → - 2 ^ 31 ≤ n - Z.of_nat k →
  ∃ o, latch_thread tid_of i s = Ok o ∧ latch_inv n k (default s o).
Proof.
  intros Hi Hk. unfold latch_thread. destruct (threads s !! i) as [pc|] eqn:E; [|by exists None].
  pose proof (owner_of n k s i pc Hi E) as Ho. pose proof (not_owner n k s i pc Hi E) as Hno.
  pose proof (li_named n k s Hi i pc E) as Hn.
  destruct pc as [|o|o|[]| | | | | | |o r|o r]; try (by exists None); cbn in Ho, Hno.
  - unfold pthread_mutex_lock. destruct (owner (mutex_ s)) as [j|] eqn:Eo; [by exists None|].
    eexists. split; [done|]. go_next Hi; try by destruct o.
  - eexists. split; [done|]. go_next Hi; try by destruct o.
  - destruct (count_down_inv n k i s Hi E Hk) as (c & -> & Hi'). eexists. by split.
  - eexists. split; [done|]. cbn. destruct (Z.ltb_spec 0 (count_ s)); go_next Hi.
  - eexists. split; [done|]. go_next Hi.
  - eexists. split; [done|]. by apply notify_inv.
  - eexists. split; [done|]. go_next Hi.
  - unfold pthread_mutex_unlock. rewrite decide_True by by apply Ho. eexists. split; [done|]. go_next Hi.
  - unfold pthread_mutex_lock. destruct (owner (mutex_ s)) as [j|] eqn:Eo; [by exists None|].
    eexists. split; [done|]. go_next Hi.
  - eexists. split; [done|]. go_next Hi.
  - eexists. split; [done|]. go_next Hi.
  - unfold pthread_mutex_unlock. rewrite decide_True by by apply Ho. eexists. split; [done|]. by apply return_inv.
Qed.
Definition down_of (l : latch_label) : nat := if is_down l then 1 else 0.

Lemma latch_step_inv n k l s :
  latch_inv n k s → - 2 ^ 31 ≤ n - Z.of_nat (k + down_of l) →
  ∃ s', latch_step tid_of l s = Ok s' ∧ latch_inv n (k + down_of l) s'.
Proof.
  intros Hi Hk. destruct l as [i o|i|i]; cbn [latch_step].
  - eexists. split; [done|]. case_decide as E.
    + eapply (go_inv _ _ _ _ _ _ _ _ Hi E); try done; cbn; [by left|apply (li_owner _ _ _ Hi _ _ E)|destruct o; cbn; lia].
    + destruct Hi. split; try done. lia.
  - rewrite Nat.add_0_r in *. destruct (latch_thread_inv n k i s Hi Hk) as (o & -> & Ho). by exists (default s o).
  - rewrite Nat.add_0_r in *. eexists. split; [done|]. case_decide as E; [|done].
    eapply (go_inv _ _ _ _ _ _ _ _ Hi E); try done; cbn; [by left|apply (li_owner _ _ _ Hi _ _ E)|lia].
Qed.

Lemma latch_run_inv n ls : ∀ k s,
  latch_inv n k s → - 2 ^ 31 ≤ n - Z.of_nat (k + countb is_down ls) →
  ∃ s', latch_run tid_of ls s = Ok s' ∧ latch_inv n (k + countb is_down ls) s'.
Proof.
  induction ls as [|l ls IH]; intros k s Hi Hk; cbn [latch_run countb] in *; [rewrite Nat.add_0_r; by exists s|].
  fold (down_of l) in *. destruct (latch_step_inv n k l s Hi) as (s1 & -> & Hi1); [lia|]. cbn [mbind res_bind].
  destruct (IH _ s1 Hi1) as (s' & -> & Hi'); [lia|]. exists s'. split; [done|]. by rewrite Nat.add_assoc.
Qed.

Lemma latch_new_inv n m : latch_inv n 0 (CountdownLatch_new n m).
Proof.
  assert (∀ i pc, replicate m Idle !! i = Some pc → pc = Idle) as Hr by (intros i pc [-> _]%lookup_replicate; done).
  split; cbn; try done; try lia.
  - by intros i pc ->%Hr.
  - by intros i pc ->%Hr.
  - assert (countb will_down (replicate m Idle) = 0%nat) as -> by (clear; induction m; done). done.
  - by intros i pc ->%Hr.
  - by intros i E%Hr.
  - by intros i pc ->%Hr.
  - by intros i r ?%not_elem_of_nil.
Qed.

Lemma run_app_latch ls ls' s : latch_run tid_of (ls ++ ls') s = (s ← latch_run tid_of ls s; latch_run tid_of ls' s).
Proof.
  revert s. induction ls as [|l ls IH]; intros s; [done|]. cbn [app latch_run].
  destruct (latch_step tid_of l s); cbn [mbind res_bind]; [apply IH|done].
Qed.

(** ** Once the count is zero *)

(** How many steps a thread is away from its return, waiting included. *)
Definition rank (pc : latch_pc) : nat :=
  match pc with
  | Idle => 0 | AtUnlock _ _ => 1 | AtUnassign _ _ => 2 | AtNotify => 3
  | AtBody OpCountDown => 4 | AtBody _ => 3 | AtAssign _ => 5 | AtLock _ => 6
  | AtReassign => 4 | Woken => 5 | Sleeping => 6 | AtCondWait => 7 | AtHolderGuard => 8
  end.
Definition work (s : CountdownLatch) : nat := sum_list_with rank (threads s).

Lemma work_go i pc pc' m s :
  threads s !! i = Some pc → (work (go i pc' m s) + rank pc = work s + rank pc')%nat.
Proof.
  unfold work, go. cbn [threads]. generalize (threads s). intros l. revert i.
  induction l as [|x l IH]; intros [|i] H; try done.
  - injection H as ->. cbn. lia.
  - change (<[S i := pc']> (x :: l)) with (x :: <[i := pc']> l). cbn [sum_list_with]. specialize (IH i H). lia.
Qed.

Lemma work_notify s : (work (NotifyAll s) ≤ work s)%nat.
Proof.
  unfold work, NotifyAll. cbn [threads]. generalize (threads s). intros l.
  induction l as [|[] l IH]; cbn in *; lia.
Qed.

Lemma latch_thread_work n k i s s' :
  latch_inv n k s → count_ s ≤ 0 → latch_thread tid_of i s = Ok (Some s') → (work s' < work s)%nat ∧ count_ s' ≤ 0.
Proof.
  intros Hi Hc. unfold latch_thread. destruct (threads s !! i) as [pc|] eqn:E; [|done].
  pose proof (λ pc' m, work_go i pc pc' m s E) as Hw.
  destruct pc as [|o|o|[]| | | | | | |o r|o r]; try done.
  - destruct (pthread_mutex_lock i (mutex_ s)) as [m|]; cbn; [|done]. intros [= <-]. specialize (Hw (AtAssign o) m). cbn in *. lia.
  - intros [= <-]. specialize (Hw (AtBody o) (AssignHolder (tid_of i) (mutex_ s))). destruct o; cbn in *; lia.
  - destruct (decrement (count_ s)) as [c|] eqn:Ed; cbn; [|done]. intros [= <-]. specialize (Hw AtNotify (mutex_ s)). cbn in *.
    unfold decrement in Ed. case_decide; [|done]. injection Ed as <-. unfold work in *. cbn in *. lia.
  - rewrite (proj2 (Z.ltb_ge 0 (count_ s)) Hc). intros [= <-]. specialize (Hw (AtUnassign OpWait 0) (mutex_ s)). cbn in *. lia.
  - intros [= <-]. specialize (Hw (AtUnassign OpGetCount (count_ s)) (mutex_ s)). cbn in *. lia.
  - intros [= <-]. pose proof (work_notify s) as Hn. destruct (count_ s =? 0).
    + assert (threads (NotifyAll s) !! i = Some AtNotify) as E' by (cbn; by rewrite list_lookup_fmap, E).
      pose proof (work_go i _ (AtUnassign OpCountDown 0) (mutex_ s) _ E') as Hw'. cbn in *. lia.
    + specialize (Hw (AtUnassign OpCountDown 0) (mutex_ s)). cbn in *. lia.
  - pose proof (li_will_sleep n k s Hi i _ E eq_refl). lia.
  - pose proof (li_will_sleep n k s Hi i _ E eq_refl). lia.
  - destruct (pthread_mutex_lock i (mutex_ s)) as [m|]; cbn; [|done]. intros [= <-]. specialize (Hw AtReassign m). cbn in *. lia.
  - intros [= <-]. specialize (Hw (AtBody OpWait) (AssignHolder (tid_of i) (mutex_ s))). cbn in *. lia.
  - intros [= <-]. specialize (Hw (AtUnlock o r) (UnassignHolder (mutex_ s))). cbn in *. lia.
  - destruct (pthread_mutex_unlock i (mutex_ s)) as [m|]; cbn; [|done]. intros [= <-]. specialize (Hw Idle m).
    unfold work in *. cbn in *. lia.
Qed.

Lemma latch_step_work n k l s s' :
  latch_inv n k s → count_ s ≤ 0 → is_call l = false → latch_step tid_of l s = Ok s' →
  (s' = s ∨ (work s' < work s)%nat) ∧ count_ s' ≤ 0.
Proof.
  intros Hi Hc Hl. destruct l as [i o|i|i]; [done| |]; cbn.
  - destruct (latch_thread tid_of i s) as [[s1|]|] eqn:E; cbn; [| |done]; intros [= <-]; [|by split; [left|]].
    destruct (latch_thread_work n k i s s1 Hi Hc E). split; [by right|done].
  - intros [= <-]. case_decide as E; [|by split; [left|]]. split; [right|done].
    pose proof (work_go i _ Woken (mutex_ s) s E). cbn in *. lia.
Qed.

Lemma latch_moves n k ls : ∀ s,
  latch_inv n k s → count_ s ≤ 0 → - 2 ^ 31 ≤ n - Z.of_nat k → Forall (λ l, is_call l = false) ls →
  (moves tid_of ls s ≤ work s)%nat ∧ ∃ s', latch_run tid_of ls s = Ok s' ∧ latch_inv n k s' ∧ count_ s' ≤ 0.
Proof.
  induction ls as [|l ls IH]; intros s Hi Hc Hk Hls; [split; [cbn; lia|by exists s]|].
  apply Forall_cons in Hls as [Hl Hls]. cbn [moves latch_run].
  assert (down_of l = 0%nat) as H0 by (by destruct l as [? []| |]).
  destruct (latch_step_inv n k l s Hi) as (s1 & E & Hi1); [rewrite H0; lia|].
  rewrite H0, Nat.add_0_r in Hi1. rewrite E. cbn [mbind res_bind].
  destruct (latch_step_work n k l s s1 Hi Hc Hl E) as [Hw Hc1]. destruct (IH s1 Hi1 Hc1 Hk Hls) as [Hm Hs'].
  split; [|done]. case_decide as Es; [subst; lia|]. destruct Hw; [done|lia].
Qed.

(** While somebody has not returned, somebody can move. *)
Lemma latch_progress n k s :
  latch_inv n k s → count_ s ≤ 0 → (∀ i, latch_step tid_of (LThread i) s = Ok s) → ∀ i pc, threads s !! i = Some pc → pc = Idle.
Proof.
  intros Hi Hc Hst.
  assert (∀ i, latch_thread tid_of i s = Ok None) as Hst'.
  { intros i. specialize (Hst i). cbn in Hst. destruct (latch_thread tid_of i s) as [[s1|]|] eqn:E; try done.
    cbn in Hst. injection Hst as ->. destruct (latch_thread_work n k i s s Hi Hc E). lia. }
  assert (∀ i pc, threads s !! i = Some pc → holds pc = false) as Hf.
  { intros i pc E. specialize (Hst' i). unfold latch_thread in Hst'. rewrite E in Hst'.
    destruct pc as [|o|o|[]| | | | | | |o r|o r]; try done.
    - by destruct (decrement (count_ s)).
    - by destruct (pthread_mutex_unlock i (mutex_ s)).
    - by destruct (pthread_mutex_unlock i (mutex_ s)). }
  assert (owner (mutex_ s) = None) as Ho.
  { destruct (owner (mutex_ s)) as [j|] eqn:E; [|done]. destruct (li_in n k s Hi j E) as [pc Hpc].
    pose proof (li_owner n k s Hi j pc Hpc) as Hh. rewrite (Hf j pc Hpc) in Hh. by rewrite bool_decide_eq_true_2 in Hh. }
  intros i pc E. pose proof (Hst' i) as Hsi. pose proof (Hf i pc E) as Hfi. unfold latch_thread, pthread_mutex_lock in Hsi. rewrite E, Ho in Hsi.
  destruct pc; try done. destruct (li_sleeps n k s Hi i E) as [|[_ [j Hj]]]; [lia|]. by apply Hf in Hj.
Qed.

Lemma work_bound s : (work s ≤ 8 * length (threads s))%nat.
Proof. unfold work. induction (threads s) as [|[|[]|[]|[]| | | | | | | |] l IH]; cbn in *; lia. Qed.

(** ** What a step of one thread keeps *)

(** The operation a thread is in. *)
Definition op_of (pc : latch_pc) : option latch_op :=
  match pc with
  | Idle => None
  | AtLock o | AtAssign o | AtBody o | AtUnassign o _ | AtUnlock o _ => Some o
  | AtNotify => Some OpCountDown
  | AtHolderGuard | AtCondWait | Sleeping | Woken | AtReassign => Some OpWait
  end.

(** A thread stays in its operation until it returns, the others stay in
    theirs, and no decrement is lost. *)
Lemma latch_thread_keeps i s s' :
  latch_thread tid_of i s = Ok (Some s') →
  (∃ pc pc', threads s !! i = Some pc ∧ threads s' !! i = Some pc' ∧ pc' ≠ pc ∧
     (op_of pc' = op_of pc ∨ pc' = Idle ∧ ∃ o r, pc = AtUnlock o r)) ∧
  (∀ j, j ≠ i → op_of <$> threads s' !! j = op_of <$> threads s !! j) ∧
  (downs s' + countb will_down (threads s') = downs s + countb will_down (threads s))%nat.
Proof.
  unfold latch_thread. destruct (threads s !! i) as [pc|] eqn:E; [|done].
  assert (i < length (threads s))%nat as Hlt by by eapply lookup_lt_Some.
  assert (∀ s1 pc1 pc' m, threads s1 !! i = Some pc1 → length (threads s1) = length (threads s) → pc' ≠ pc →
    (∀ j, j ≠ i → op_of <$> threads s1 !! j = op_of <$> threads s !! j) → will_down pc1 = will_down pc' →
    (op_of pc' = op_of pc ∨ pc' = Idle ∧ ∃ o r, pc = AtUnlock o r) →
    downs s1 = downs s → countb will_down (threads s1) = countb will_down (threads s) →
    (∃ p p', Some pc = Some p ∧ threads (go i pc' m s1) !! i = Some p' ∧ p' ≠ p ∧
       (op_of p' = op_of p ∨ p' = Idle ∧ ∃ o r, p = AtUnlock o r)) ∧
    (∀ j, j ≠ i → op_of <$> threads (go i pc' m s1) !! j = op_of <$> threads s !! j) ∧
    (downs (go i pc' m s1) + countb will_down (threads (go i pc' m s1)) = downs s + countb will_down (threads s))%nat) as Hgo.
  { intros s1 pc1 pc' m E1 Hl Hne Hj Hw Hop Hd Hc. cbn [go threads downs]. split_and!.
    - exists pc, pc'. rewrite list_lookup_insert_eq by lia. done.
    - intros j Hji. rewrite list_lookup_insert_ne by done. by apply Hj.
    - pose proof (countb_insert will_down i pc1 pc' _ E1) as Cw. rewrite Hw in Cw. lia. }
  assert (∀ pc' m, pc' ≠ pc → will_down pc = will_down pc' → (op_of pc' = op_of pc ∨ pc' = Idle ∧ ∃ o r, pc = AtUnlock o r) → _) as Hgo1
    by (intros pc' m Hne Hw Hop; exact (Hgo s pc pc' m E eq_refl Hne (λ _ _, eq_refl) Hw Hop eq_refl eq_refl)).
  destruct pc as [|o|o|[]| | | | | | |o r|o r]; try done.
  - destruct (pthread_mutex_lock i (mutex_ s)) as [m|]; cbn; [|done]. intros [= <-]. apply Hgo1; [done|by destruct o|by left].
  - intros [= <-]. apply Hgo1; [done|by destruct o|by left].
  - destruct (decrement (count_ s)) as [c|]; cbn; [|done]. intros [= <-]. cbn [go set_count threads downs]. split_and!.
    + exists (AtBody OpCountDown), AtNotify. rewrite list_lookup_insert_eq by done. split_and!; [done..|by left].
    + intros j Hne. by rewrite list_lookup_insert_ne.
    + pose proof (countb_insert will_down i _ AtNotify _ E) as Cw. cbn in Cw. lia.
  - intros [= <-]. apply Hgo1; destruct (0 <? count_ s); [done..|by left|by left].
  - intros [= <-]. by apply Hgo1; [| |left].
  - intros [= <-]. destruct (count_ s =? 0); [|by apply Hgo1; [| |left]].
    eapply Hgo; cbn; rewrite ?list_lookup_fmap, ?length_fmap, ?E; try done; [|by left|apply countb_wake].
    intros j Hne. rewrite list_lookup_fmap. by destruct (threads s !! j) as [[]|].
  - intros [= <-]. by apply Hgo1; [| |left].
  - destruct (pthread_mutex_unlock i (mutex_ s)) as [m|]; cbn; [|done]. intros [= <-]. by apply Hgo1; [| |left].
  - destruct (pthread_mutex_lock i (mutex_ s)) as [m|]; cbn; [|done]. intros [= <-]. by apply Hgo1; [| |left].
  - intros [= <-]. by apply Hgo1; [| |left].
  - intros [= <-]. by apply Hgo1; [| |left].
  - destruct (pthread_mutex_unlock i (mutex_ s)) as [m|]; cbn; [|done]. intros [= <-].
    apply (Hgo1 Idle m); [done..|]. right. split; [done|]. by exists o, r.
Qed.

(** When nobody is inside, the mutex can be destroyed. *)
Lemma idle_destroyable n k s :
  latch_inv n k s → (∀ i pc, threads s !! i = Some pc → pc = Idle) → MutexLock_destroy (mutex_ s) = Ok tt.
Proof.
  intros Hi Hall. assert (holder_ (mutex_ s) = 0) as H0 by (apply (li_nobody _ _ _ Hi); by intros i pc ->%Hall).
  unfold MutexLock_destroy. rewrite H0. cbn. rewrite bool_decide_eq_true_2; [done|].
  destruct (owner (mutex_ s)) as [j|] eqn:Eo; [|done]. destruct (li_in _ _ _ Hi j Eo) as [pc Hpc].
  pose proof (li_owner _ _ _ Hi j pc Hpc) as Hh. rewrite (Hall j pc Hpc), bool_decide_eq_true_2 in Hh; done.
Qed.

(** A thread that owns the mutex can move, and one that wants it can when it
    is free. *)
Lemma latch_can_move n k s i pc :
  latch_inv n k s → - 2 ^ 31 ≤ n - Z.of_nat k → threads s !! i = Some pc →
  holds pc = true ∨ owner (mutex_ s) = None ∧ pc ≠ Idle ∧ pc ≠ Sleeping →
  ∃ s', latch_thread tid_of i s = Ok (Some s').
Proof.
  intros Hi Hk E H. destruct (latch_thread_inv n k i s Hi Hk) as ([s'|] & Es & _); [by exists s'|].
  exfalso. unfold latch_thread, pthread_mutex_lock in Es. rewrite E in Es.
  destruct pc as [|o|o|[]| | | | | | |o r|o r]; try done;
    try (destruct H as [|(Ho & ? & ?)]; [done|]; by rewrite ?Ho in Es).
  - by destruct (decrement (count_ s)).
  - by destruct (pthread_mutex_unlock i (mutex_ s)).
  - by destruct (pthread_mutex_unlock i (mutex_ s)).
Qed.

(** ** What the latch promises *)

(** Once the count of a latch is not positive, nobody waits for ever:
    whatever the order of the steps, wake-ups without a notification
    included, at most eight per thread change anything, and when no thread
    can move every call has returned. *)
Lemma latch_releases n m ls s :
  - 2 ^ 31 ≤ n - Z.of_nat (countb is_down ls) →
  latch_run tid_of ls (CountdownLatch_new n m) = Ok s → count_ s ≤ 0 →
  ∀ ls', Forall (λ l, is_call l = false) ls' →
    (moves tid_of ls' s ≤ 8 * length (threads s))%nat ∧
    ∃ s', latch_run tid_of ls' s = Ok s' ∧
      ((∀ i, latch_step tid_of (LThread i) s' = Ok s') → ∀ i pc, threads s' !! i = Some pc → pc = Idle).
Proof.
  intros Hk E Hc ls' Hls. destruct (latch_run_inv n ls 0 _ (latch_new_inv n m)) as (s0 & E0 & Hi); [lia|].
  rewrite E in E0. injection E0 as <-. destruct (latch_moves n _ ls' s Hi Hc) as (Hm & s' & E' & Hi' & Hc'); [lia|done|].
  split; [pose proof (work_bound s); lia|]. exists s'. split; [done|]. by apply (latch_progress n (0 + countb is_down ls)).
Qed.

(** C35: under every interleaving of threads that use a latch, the mutex admits
    one thread at a time and is never released by another;
    [IsLockedByThisThread] is true exactly in the thread that is inside; the
    count is the initial one less the decrements; a [Wait] returns only when
    the count is not positive; when nobody is inside, the mutex can be
    destroyed; and once the count is not positive nobody waits for ever:
    whatever the order of the steps, wake-ups without a notification included,
    at most eight per thread change anything, and when no thread can move
    every call has returned. *)
Theorem latch_runs n m ls :
  - 2 ^ 31 ≤ n - Z.of_nat (countb is_down ls) →
  ∃ s, latch_run tid_of ls (CountdownLatch_new n m) = Ok s ∧
    (∀ i pc, threads s !! i = Some pc → IsLockedByThisThread (tid_of i) (mutex_ s) = named pc) ∧
    (∀ i j p q, threads s !! i = Some p → threads s !! j = Some q → holds p = true → holds q = true → i = j) ∧
    count_ s = n - Z.of_nat (downs s) ∧
    (∀ i r, (i, OpWait, r) ∈ returned s → count_ s ≤ 0) ∧
    ((∀ i pc, threads s !! i = Some pc → pc = Idle) → MutexLock_destroy (mutex_ s) = Ok tt) ∧
    (count_ s ≤ 0 → ∀ ls', Forall (λ l, is_call l = false) ls' →
      (moves tid_of ls' s ≤ 8 * length (threads s))%nat ∧
      ∃ s', latch_run tid_of ls' s = Ok s' ∧
        ((∀ i, latch_step tid_of (LThread i) s' = Ok s') → ∀ i pc, threads s' !! i = Some pc → pc = Idle)).
Proof.
  intros Hk. destruct (latch_run_inv n ls 0 _ (latch_new_inv n m)) as (s & E & Hi); [lia|].
  exists s. split; [done|]. split_and!; [| |by apply Hi|by apply Hi| |].
  - intros i pc Hpc. unfold IsLockedByThisThread. destruct (named pc) eqn:En.
    { apply Z.eqb_eq. by apply (li_named _ _ _ Hi i pc). }
    apply Z.eqb_neq. intros Et. pose proof (tid_pos i).
    assert (¬ ∀ j q, threads s !! j = Some q → named q = false) as Hex.
    { intros Hno. pose proof (li_nobody _ _ _ Hi Hno). lia. }
    apply Hex. intros j q Hq. destruct (named q) eqn:Eq; [|done].
    rewrite (li_named _ _ _ Hi j q Hq Eq) in Et. apply tid_inj in Et as ->. congruence.
  - intros i j p q Hp Hq Hhp Hhq. pose proof (owner_of _ _ _ _ _ Hi Hp Hhp). pose proof (owner_of _ _ _ _ _ Hi Hq Hhq). congruence.
  - by apply idle_destroyable with (1 := Hi).
  - intros Hc. by apply (latch_releases n m ls).
Qed.

End proofs.

(** ** Waiting for some seconds *)

(** [static_cast<int>] of a double. *)
Definition trunc32 (d : double) : res Z :=
  v ← trunc64 d; if decide (- 2 ^ 31 ≤ v < 2 ^ 31) then Ok v else Fault IntOverflow.

(** The deadline [WaitForSeconds] hands to [pthread_cond_timedwait]; [now] is
    what [clock_gettime] answers. *)
Definition WaitForSeconds_deadline (seconds : double) (now : timespec) : res timespec :=
  s ← trunc32 seconds;
  ns ← trunc32 (dmul (SFsub 53 1024 seconds (double_of_Z s)) (double_of_Z kNanosecondsPerSecond));
  Ok (mkTimespec (ts_sec now + s) (ts_nsec now + ns)).

(** [pthread_cond_timedwait] answers [EINVAL] at once for such a deadline. *)
Definition timespec_valid (t : timespec) : bool := (0 <=? ts_nsec t) && (ts_nsec t <? kNanosecondsPerSecond).

(** [timed_out]: the deadline passes before the thread is woken. *)
Definition WaitForSeconds (seconds : double) (now : timespec) (timed_out : bool) : res bool :=
  t ← WaitForSeconds_deadline seconds now; Ok (timespec_valid t && timed_out).

(** Half a second. *)
Definition half : double := ddiv (double_of_Z 1) (double_of_Z 2).

(** A wait for a whole number of seconds is what it says (here three, at any
    time); the nanoseconds of a fraction are added without a carry, so that
    half a second in the second half of a second is not waited for at all. *)
Lemma wait_three_seconds s ns b : 0 <= ns < kNanosecondsPerSecond →
  WaitForSeconds_deadline (double_of_Z 3) (mkTimespec s ns) = Ok (mkTimespec (s + 3) ns) ∧
  WaitForSeconds (double_of_Z 3) (mkTimespec s ns) b = Ok b.
Proof.
  intros Hns. unfold WaitForSeconds, WaitForSeconds_deadline.
  change (trunc32 (double_of_Z 3)) with (@Ok Z 3). cbn [mbind res_bind].
  change (trunc32 _) with (@Ok Z 0). cbn [mbind res_bind ts_sec ts_nsec]. rewrite Z.add_0_r. split; [done|].
  unfold timespec_valid. cbn [ts_nsec]. destruct (Z.leb_spec 0 ns), (Z.ltb_spec ns kNanosecondsPerSecond); try lia. done.
Qed.

Lemma wait_half_second_invalid s ns b : 500000000 <= ns →
  WaitForSeconds_deadline half (mkTimespec s ns) = Ok (mkTimespec s (ns + 500000000)) ∧
  WaitForSeconds half (mkTimespec s ns) b = Ok false.
Proof.
  intros Hns. unfold WaitForSeconds, WaitForSeconds_deadline.
  change (trunc32 half) with (@Ok Z 0). cbn [mbind res_bind].
  change (trunc32 _) with (@Ok Z 500000000). cbn [mbind res_bind ts_sec ts_nsec]. rewrite Z.add_0_r. split; [done|].
  unfold timespec_valid. cbn [ts_nsec]. destruct (Z.ltb_spec (ns + 500000000) kNanosecondsPerSecond) as [Hl|]; [|by rewrite andb_false_r].
  unfold kNanosecondsPerSecond in Hl. lia.
Qed.

(** ** Examples *)

Definition tid_example (i : nat) : Z := 100 + Z.of_nat i.

Lemma tid_example_pos i : 0 < tid_example i.
Proof. unfold tid_example. lia. Qed.
Lemma tid_example_inj i j : tid_example i = tid_example j → i = j.
Proof. unfold tid_example. lia. Qed.

(** Thread 0 waits for two others and sleeps when the second counts down. *)
Definition wait_then_down : list latch_label :=
  LCall 0 OpWait :: replicate 5 (LThread 0) ++ LCall 1 OpCountDown :: replicate 6 (LThread 1)
  ++ LCall 2 OpCountDown :: replicate 3 (LThread 2).

Lemma latch_runs_witness : ∃ s,
  latch_run tid_example wait_then_down (CountdownLatch_new 2 3) = Ok s ∧ count_ s = 0 ∧
  threads s = [Sleeping; Idle; AtNotify].
Proof.
  destruct (latch_runs tid_example tid_example_pos tid_example_inj 2 3 wait_then_down) as (s & E & _); [by vm_compute|].
  exists s. split; [done|]. vm_compute in E. injection E as <-. done.
Defined.

Definition waiting_latch : CountdownLatch :=
  mkLatch (mkMutex (Some 2%nat) 102) 0 [Sleeping; Idle; AtNotify] 2 [(1%nat, OpCountDown, 0)].

Lemma latch_releases_example : ∃ s',
  latch_run tid_example (replicate 3 (LThread 2) ++ replicate 5 (LThread 0)) waiting_latch = Ok s' ∧
  ((∀ i, latch_step tid_example (LThread i) s' = Ok s') → ∀ i pc, threads s' !! i = Some pc → pc = Idle).
Proof.
  destruct (latch_releases tid_example 2 3 wait_then_down waiting_latch)
    with (ls' := replicate 3 (LThread 2) ++ replicate 5 (LThread 0)) as (_ & H); [by vm_compute|by vm_compute|done|by repeat constructor|].
  exact H.
Defined.

(** In this run everybody returns. *)
Lemma latch_all_return :
  option_map (λ s, (threads s, returned s))
    (match latch_run tid_example (replicate 3 (LThread 2) ++ replicate 5 (LThread 0)) waiting_latch with Ok s => Some s | _ => None end)
  = Some ([Idle; Idle; Idle], [(1%nat, OpCountDown, 0); (2%nat, OpCountDown, 0); (0%nat, OpWait, 0)]).
Proof. vm_compute. done. Qed.
