(* ===== verification/SyncTests.v ===== *)
(** The tests of the mutex and the condition, [base/test/mutex_test.cc] and
    [base/test/condtion_test.cc], under every interleaving of their threads.
    What a thread does with the lock held, between two waits, is made of single
    statements; only the holder can make them. *)

From S2P Require Import Prelude.
Local Open Scope Z_scope.

(** ** The condition: two threads take turns *)
Module Turns.

(** The threads run [sub] and [add]. *)
Inductive thread := Sub | Add.
#[export] Instance thread_eq_dec : EqDecision thread.
Proof. solve_decision. Defined.

(** Where a thread is, with the number of iterations it has left: before its
    guard, at the head of a loop with the lock held, in [cond.Wait()], woken but
    without the lock, finished. *)
Inductive pc := Enter | Loop (i : nat) | Sleep (i : nat) | Woken (i : nat) | Done.

Record state := mkState { sum : Z; pc_sub : pc; pc_add : pc }.
Implicit Types (t : thread) (s : state).

Definition kIterCnt : nat := 500.
Definition start : state := mkState 100 Enter Enter.

Definition pc_of t s : pc := match t with Sub => pc_sub s | Add => pc_add s end.
Definition other t : thread := match t with Sub => Add | Add => Sub end.
Definition set_pc t (p : pc) s : state :=
  match t with Sub => mkState (sum s) p (pc_add s) | Add => mkState (sum s) (pc_sub s) p end.

Definition holds (p : pc) : bool := match p with Loop _ => true | _ => false end.

(** The conditions of the two inner loops, [sum & 1] and [!(sum & 1)]. *)
Definition must_wait t s : bool :=
  match t with Sub => bool_decide (Z.land (sum s) 1 ≠ 0) | Add => bool_decide (Z.land (sum s) 1 = 0) end.

Definition change t s : state :=
  match t with
  | Sub => mkState (sum s + 1) (pc_sub s) (pc_add s)
  | Add => mkState (sum s - 1) (pc_sub s) (pc_add s)
  end.

(** [cond.Notify()] by [t]. *)
Definition Notify t s : state :=
  match pc_of (other t) s with Sleep i => set_pc (other t) (Woken i) s | _ => s end.

(** The next statement of [t], if it is not blocked. *)
Definition move t s : option state :=
  let free := negb (holds (pc_of (other t) s)) in
  match pc_of t s with
  | Enter => if free then Some (set_pc t (Loop kIterCnt) s) else None
  | Woken i => if free then Some (set_pc t (Loop i) s) else None
  | Loop O => Some (set_pc t Done (Notify t s))
  | Loop (S i) => if must_wait t s then Some (set_pc t (Sleep (S i)) (Notify t s)) else Some (set_pc t (Loop i) (change t s))
  | Sleep _ | Done => None
  end.

(** The system may also end a wait without a notification. *)
Inductive step := Move (t : thread) | Spurious (t : thread).

Definition run_step (e : step) s : option state :=
  match e with
  | Move t => move t s
  | Spurious t => match pc_of t s with Sleep i => Some (set_pc t (Woken i) s) | _ => None end
  end.

Fixpoint run (es : list step) s : option state :=
  match es with [] => Some s | e :: es => s ← run_step e s; run es s end.

Definition left (p : pc) : nat :=
  match p with Enter => kIterCnt | Loop i | Sleep i | Woken i => i | Done => 0 end.

(** A sleeper: it is the other's turn, who is awake, or the other holds the
    lock and will notify. *)
Definition justified (turn : Prop) (p : pc) : Prop :=
  match p with Loop _ => True | Sleep _ | Done => False | _ => turn end.

Record inv s : Prop := {
  in_one : holds (pc_sub s) = true → holds (pc_add s) = true → False;
  in_sum : sum s = 100 + Z.of_nat (left (pc_add s)) - Z.of_nat (left (pc_sub s));
  in_turn : (left (pc_sub s) ≤ left (pc_add s) ≤ S (left (pc_sub s)))%nat;
  in_sub : match pc_sub s with
           | Sleep i => (0 < i)%nat ∧ justified (left (pc_add s) = S i) (pc_add s)
           | Woken i => (0 < i)%nat
           | Loop O => left (pc_add s) = 1%nat
           | _ => True
           end;
  in_add : match pc_add s with
           | Sleep i => (0 < i)%nat ∧ justified (left (pc_sub s) = i) (pc_sub s)
           | Woken i => (0 < i)%nat
           | _ => True
           end
}.

(** Whose turn it is, by the iterations left. *)
Lemma parity s : inv s → Z.land (sum s) 1 = if decide (left (pc_add s) = left (pc_sub s)) then 0 else 1.
Proof.
  intros [_ -> Ht _ _]. change 1 with (Z.ones 1). rewrite Z.land_ones by lia. change (2 ^ 1) with 2.
  case_decide as E; [replace (_ + _ - _) with (50 * 2) by lia|replace (_ + _ - _) with (1 + 50 * 2) by lia; rewrite Z_mod_plus_full];
    [by rewrite Z_mod_mult|done].
Qed.

Lemma must_wait_spec t s :
  inv s → must_wait t s = match t with
                          | Sub => bool_decide (left (pc_add s) ≠ left (pc_sub s))
                          | Add => bool_decide (left (pc_add s) = left (pc_sub s))
                          end.
Proof. intros Hi. unfold must_wait. rewrite parity by done. destruct t; apply bool_decide_ext; case_decide; lia. Qed.

(** How many statements are left; a woken thread whose turn it is, and one
    that has to notify, count for more. *)
Definition weight (wait : bool) (p : pc) : nat :=
  match p with
  | Enter => 4 | Sleep _ | Done => 0
  | Woken _ => if wait then 4 else 2
  | Loop _ => if wait then 3 else 1
  end.

Definition measure s : nat :=
  6 * (left (pc_sub s) + left (pc_add s)) + weight (must_wait Sub s) (pc_sub s) + weight (must_wait Add s) (pc_add s).

Lemma kIterCnt_pos : (0 < kIterCnt)%nat.
Proof. unfold kIterCnt. lia. Qed.

Lemma turn_step_inv e s s' : inv s → run_step e s = Some s' → inv s'.
Proof.
  intros Hi E. pose proof (must_wait_spec Sub s Hi) as Ws. pose proof (must_wait_spec Add s Hi) as Wa. pose proof kIterCnt_pos as K0.
  destruct Hi as [H1 H2 H3 H4 H5], s as [n p q], e as [[]|[]]; cbn [pc_sub pc_add sum] in *; cbn [run_step] in E; unfold move, Notify in E;
    cbn [pc_of pc_sub pc_add other sum] in E; rewrite ?Ws, ?Wa in E; clear Ws Wa;
    destruct p as [|[|i]|i|i|], q as [|[|j]|j|j|]; try done; cbn [holds negb left justified] in *; try (by destruct H1);
    try (case_bool_decide); try done; injection E as <-; cbn [set_pc pc_of other change sum pc_sub pc_add] in *;
    (split; cbn [sum pc_sub pc_add holds left justified] in *; try done; try (by tauto); try lia; destruct i; first [done|lia]).
Qed.

Lemma inv_start : inv start.
Proof. split; cbn; try done; lia. Qed.

(** A statement uses up some of the measure; waking up for no reason adds at
    most four. *)
Lemma step_measure e s s' :
  inv s → run_step e s = Some s' →
  match e with Move _ => measure s' < measure s | Spurious _ => measure s' ≤ measure s + 4 end%nat.
Proof.
  intros Hi E. pose proof (turn_step_inv e s s' Hi E) as Hi'. unfold measure. rewrite !must_wait_spec by done.
  pose proof (must_wait_spec Sub s Hi) as Ws. pose proof (must_wait_spec Add s Hi) as Wa. pose proof kIterCnt_pos as K0.
  clear Hi'. destruct Hi as [H1 H2 H3 H4 H5], s as [n p q], e as [[]|[]]; cbn [pc_sub pc_add sum] in *; cbn [run_step] in E;
    unfold move, Notify in E; cbn [pc_of pc_sub pc_add other sum] in E; rewrite ?Ws, ?Wa in E; clear Ws Wa;
    destruct p as [|[|i]|i|i|], q as [|[|j]|j|j|]; try done; cbn [holds negb left justified] in *; try (by destruct H1);
    try (case_bool_decide); try done; injection E as <-; cbn [set_pc pc_of other change sum pc_sub pc_add left weight] in *;
    repeat case_bool_decide; lia.
Qed.

Definition is_move (e : step) : bool := match e with Move _ => true | Spurious _ => false end.

Lemma run_inv es : ∀ s s', inv s → run es s = Some s' →
  inv s' ∧ (length (filter (λ e, is_move e = true) es) + measure s' ≤
            measure s + 4 * length (filter (λ e, is_move e = false) es))%nat.
Proof.
  induction es as [|e es IH]; intros s s' Hi E; [injection E as <-; split; [done|cbn; lia]|]. cbn [run] in E.
  destruct (run_step e s) as [s1|] eqn:E1; [|done]. pose proof (step_measure e s s1 Hi E1) as Hm.
  destruct (IH s1 s' (turn_step_inv e s s1 Hi E1) E) as [Hi' Hl]. split; [done|]. rewrite !filter_cons.
  destruct e; cbn [is_move] in *; [rewrite decide_True, decide_False by done|rewrite decide_False, decide_True by done]; cbn [length]; lia.
Qed.

(** Somebody can go on until both are done. *)
Lemma not_stuck s : inv s → pc_sub s ≠ Done ∨ pc_add s ≠ Done → ∃ t s', move t s = Some s'.
Proof.
  intros [H1 H2 H3 H4 H5] Hd. destruct s as [n p q]. cbn [pc_sub pc_add sum] in *.
  assert (∀ t, holds (pc_of t (mkState n p q)) = true → ∃ s', move t (mkState n p q) = Some s') as Hh.
  { intros t Ht. unfold move. destruct (pc_of t _) as [|[|k]|k|k|]; try done; [by eexists|]. destruct (must_wait _ _); by eexists. }
  destruct (holds p) eqn:Ep; [destruct (Hh Sub Ep) as [s' ?]; by exists Sub, s'|].
  destruct (holds q) eqn:Eq; [destruct (Hh Add Eq) as [s' ?]; by exists Add, s'|].
  destruct p as [|k|k|k|]; try done; [exists Sub; unfold move; cbn; rewrite Eq; by eexists| |exists Sub; unfold move; cbn; rewrite Eq; by eexists|];
    (destruct q as [|k'|k'|k'|]; try done; try (exists Add; unfold move; cbn; by eexists)); cbn in *; tauto || lia.
Qed.

(** The test of the condition passes: under every schedule the sum stays at 100
    or 101, a schedule of statements and spurious wake-ups makes at most 6008
    statements and four more for each such wake-up, somebody can go on until
    both threads are done, and then the sum is 100. *)
Theorem condition_test_passes es s :
  run es start = Some s →
  100 ≤ sum s ≤ 101 ∧
  (length (filter (λ e, is_move e = true) es) ≤ 6008 + 4 * length (filter (λ e, is_move e = false) es))%nat ∧
  (pc_sub s ≠ Done ∨ pc_add s ≠ Done → ∃ t s', move t s = Some s') ∧
  (pc_sub s = Done → pc_add s = Done → sum s = 100).
Proof.
  intros E. destruct (run_inv es start s inv_start E) as [Hi Hl]. pose proof Hi as [_ Hs Ht _ _].
  assert (measure start = 6008%nat) as Em by (vm_compute; reflexivity). split_and!; [lia..|lia|by apply not_stuck|].
  intros E1 E2. rewrite E1, E2 in Hs. cbn in Hs. lia.
Qed.

(** The first thread takes its turn, waits, and the other wakes it. *)
Lemma condition_test_passes_witness : ∃ s,
  run [Move Sub; Move Sub; Move Sub; Move Add; Move Add; Spurious Sub; Move Add] start = Some s ∧ 100 ≤ sum s ≤ 101 ∧
  pc_sub s = Woken 499 ∧ pc_add s = Sleep 499.
Proof.
  destruct (run [Move Sub; Move Sub; Move Sub; Move Add; Move Add; Spurious Sub; Move Add] start) as [s|] eqn:E; [|by vm_compute in E].
  exists s. destruct (condition_test_passes _ s E) as (Hs & _). split; [done|]. split; [exact Hs|].
  vm_compute in E. injection E as <-. by vm_compute.
Defined.
End Turns.

(** ** The mutex: two counters *)
Module Counters.

(** A thread of the test with the iterations it has left: about to sleep or
    take the lock, with the lock held or the counter read (what it has read),
    finished with none left. *)
Inductive cpc := Ready (i : nat) | Locked (i : nat) | Read (i : nat) (x : Z).

(** [cnt] with its threads [add] and [substract], [cnt_unsafe] with the two
    that do not lock; [true] is the thread that adds. *)
Record counters := mkState { cnt : Z; cnt_unsafe : Z; safe : bool → cpc; unsafe : bool → cpc }.
Implicit Types s : counters.

Definition iter_cnt : nat := 500.
Definition counter_start : counters := mkState 1 1 (λ _, Ready iter_cnt) (λ _, Ready iter_cnt).

Definition delta (b : bool) : Z := if b then 1 else -1.
Definition set (f : bool → cpc) (b : bool) (p : cpc) : bool → cpc := λ b', if decide (b' = b) then p else f b'.

Inductive step := Safe (b : bool) | Unsafe (b : bool).

(** A compound assignment reads the counter and writes it. *)
Definition counter_step (e : step) s : option counters :=
  match e with
  | Safe b =>
      match safe s b with
      | Ready (S i) =>
          match safe s (negb b) with
          | Ready _ => Some (mkState (cnt s) (cnt_unsafe s) (set (safe s) b (Locked i)) (unsafe s))
          | _ => None
          end
      | Locked i => Some (mkState (cnt s) (cnt_unsafe s) (set (safe s) b (Read i (cnt s))) (unsafe s))
      | Read i x => Some (mkState (x + delta b) (cnt_unsafe s) (set (safe s) b (Ready i)) (unsafe s))
      | Ready O => None
      end
  | Unsafe b =>
      match unsafe s b with
      | Ready (S i) => Some (mkState (cnt s) (cnt_unsafe s) (safe s) (set (unsafe s) b (Read i (cnt_unsafe s))))
      | Read i x => Some (mkState (cnt s) (x + delta b) (safe s) (set (unsafe s) b (Ready i)))
      | _ => None
      end
  end.

Fixpoint counter_run (es : list step) s : option counters :=
  match es with [] => Some s | e :: es => s ← counter_step e s; counter_run es s end.

(** Iterations whose effect on the counter is still to come. *)
Definition left (p : cpc) : nat := match p with Ready i => i | Locked i | Read i _ => S i end.

Definition inside (p : cpc) : bool := match p with Ready _ => false | _ => true end.

Record inv s : Prop := {
  in_count : cnt s = 1 + Z.of_nat (left (safe s false)) - Z.of_nat (left (safe s true));
  in_one : inside (safe s true) = true → inside (safe s false) = true → False;
  in_read b i x : safe s b = Read i x → x = cnt s
}.

Lemma counter_inv_start : inv counter_start.
Proof. split; cbn; [lia|done|done]. Qed.

Lemma counter_step_inv e s s' : inv s → counter_step e s = Some s' → inv s'.
Proof.
  intros [H1 H2 H3] E. destruct e as [b|b]; cbn [counter_step] in E.
  - assert (∀ p, set (safe s) b p b = p) as Es by (intros; unfold set; by rewrite decide_True).
    assert (∀ p, set (safe s) b p (negb b) = safe s (negb b)) as En by (intros; unfold set; rewrite decide_False; by destruct b).
    assert (∀ p c, (inside p = true → inside (safe s (negb b)) = false) →
      (∀ i x, p = Read i x → x = c) → (∀ i x, safe s (negb b) = Read i x → x = c) →
      c = 1 + (if b then Z.of_nat (left (safe s false)) - Z.of_nat (left p) else Z.of_nat (left p) - Z.of_nat (left (safe s true))) →
      inv (mkState c (cnt_unsafe s) (set (safe s) b p) (unsafe s))) as Hinv.
    { intros p c Hin Hr Ho Hc. split; cbn [cnt safe].
      - pose proof (Es p) as Es'. pose proof (En p) as En'. destruct b; cbn [negb] in *; rewrite Es', En'; lia.
      - pose proof (Es p) as Es'. pose proof (En p) as En'. destruct b; cbn [negb] in *; rewrite Es', En'; intros I1 I2;
          [rewrite Hin in I2 by done|rewrite Hin in I1 by done]; done.
      - intros b' i' x' Hx. destruct (decide (b' = b)) as [->|Hne]; [rewrite Es in Hx; by eapply Hr|].
        assert (b' = negb b) as -> by (by destruct b, b'). rewrite En in Hx. by eapply Ho. }
    assert (inside (safe s b) = true → inside (safe s (negb b)) = false) as Hex.
    { destruct b; cbn [negb]; destruct (safe s true), (safe s false); cbn in *; tauto. }
    destruct (safe s b) as [[|i]|i|i x] eqn:Eb; [done|destruct (safe s (negb b)) as [k|k|k y] eqn:Eo; try done|..]; injection E as <-.
    + apply Hinv; [done|done|done|]. destruct b; rewrite Eb in H1; cbn [left] in *; lia.
    + apply Hinv; [done|by intros ? ? [= _ <-]|by intros i' x'; apply H3|]. destruct b; rewrite Eb in H1; cbn [left] in *; lia.
    + apply Hinv; [done|done| |].
      * intros i' x' Hx. specialize (Hex eq_refl). by rewrite Hx in Hex.
      * rewrite (H3 _ _ _ Eb). destruct b; rewrite Eb in H1; cbn [left delta] in *; lia.
  - destruct (unsafe s b) as [[|i]|i|i x]; try done; injection E as <-; by split.
Qed.

(** The test of the mutex passes: under every schedule, once the threads that
    lock have made all their iterations the counter is 1 again. *)
Theorem mutex_test_passes es s :
  counter_run es counter_start = Some s → safe s true = Ready 0 → safe s false = Ready 0 → cnt s = 1.
Proof.
  assert (∀ es s0, inv s0 → counter_run es s0 = Some s → inv s) as Hrun.
  { clear es. intros es. induction es as [|e es IH]; intros s0 Hi E; [by injection E as <-|]. cbn [counter_run] in E.
    destruct (counter_step e s0) as [s1|] eqn:E1; [|done]. apply (IH s1); [by eapply counter_step_inv|done]. }
  intros E E1 E2. destruct (Hrun es counter_start counter_inv_start E) as [Hc _ _]. rewrite Hc, E1, E2. done.
Qed.

(** All the steps of one thread, then all of the other. *)
Definition one_by_one : list step :=
  concat (replicate iter_cnt [Safe true; Safe true; Safe true]) ++ concat (replicate iter_cnt [Safe false; Safe false; Safe false]).

Definition finished (o : option counters) : bool :=
  match o with
  | Some s => match safe s true, safe s false with Ready O, Ready O => true | _, _ => false end
  | None => false
  end.

Lemma finished_ok o : finished o = true → ∃ s, o = Some s ∧ safe s true = Ready 0 ∧ safe s false = Ready 0.
Proof. destruct o as [s|]; [|done]. cbn. intros H. exists s. by destruct (safe s true) as [[]| |], (safe s false) as [[]| |]. Qed.

Lemma mutex_test_passes_witness : ∃ s, counter_run one_by_one counter_start = Some s ∧ cnt s = 1.
Proof.
  destruct (finished_ok (counter_run one_by_one counter_start)) as (s & E & H1 & H2); [vm_compute; reflexivity|].
  exists s. split; [exact E|exact (mutex_test_passes one_by_one s E H1 H2)].
Defined.

(** Without the lock an update is lost: both threads read 1. *)
Lemma unsafe_update_lost : ∃ s,
  counter_run [Unsafe true; Unsafe false; Unsafe true; Unsafe false] counter_start = Some s ∧ cnt_unsafe s = 0.
Proof. eexists. split; vm_compute; reflexivity. Qed.
End Counters.
