(* ===== verification/Thread.v ===== *)
(** Starting and joining a thread: [muzi/base/thread.h] and [thread.cc].  The
    thread that owns the [Thread] object and the thread it starts interleave;
    they meet in the latch of [Sync], where the owner is thread 0 and the
    started thread is thread 1. *)

From stdpp Require Import pretty.
From S2P Require Import Prelude Sync.
#[local] Open Scope Z_scope.

(** The owner: outside, waiting for the latch in [Start], in [pthread_join],
    after the destructor. *)
Inductive owner_pc := OIdle | OWaitLatch | OJoining | OGone.

(** The started thread in [RunThread]: not there, before it stores its
    identifier, before [CountDown], in it, before the function, returned. *)
Inductive child_pc := CNone | CTid | CCountDown | CLatch | CRun | CDone.

(** What becomes of the pthread: it must be joined or detached once. *)
Inductive handle := HNone | HLive | HJoined | HDetached.

#[export] Instance owner_pc_eq_dec : EqDecision owner_pc.
Proof. solve_decision. Defined.
#[export] Instance child_pc_eq_dec : EqDecision child_pc.
Proof. solve_decision. Defined.
#[export] Instance handle_eq_dec : EqDecision handle.
Proof. solve_decision. Defined.

(** [tid_] is not initialised by the constructor.  [pthread] stands for
    [pthread_id_]; [runs]: how often the function has run. *)
Record Thread := mkThread {
  started_ : bool;
  joined_ : bool;
  pthread : handle;
  tid_ : option Z;
  name_ : string;
  latch_ : CountdownLatch;
  owner_ : owner_pc;
  child : child_pc;
  runs : nat
}.

(** [thread_num] is a global atomic counter; its new value comes along. *)
Definition SetDefaultName (thread_num : Z) (name : string) : string * Z :=
  (if bool_decide (name = "") then String.append "Thread" (pretty thread_num) else name, thread_num + 1).

Definition Thread_new (thread_num : Z) (name : string) : Thread :=
  mkThread false false HNone None (SetDefaultName thread_num name).1 (CountdownLatch_new 1 2) OIdle CNone 0.

Definition IsStarted (t : Thread) : bool := started_ t.
Definition IsJoined (t : Thread) : bool := joined_ t.
Definition GetTid (t : Thread) : option Z := tid_ t.
Definition GetName (t : Thread) : string := name_ t.

Definition set_owner (pc : owner_pc) (t : Thread) : Thread :=
  mkThread (started_ t) (joined_ t) (pthread t) (tid_ t) (name_ t) (latch_ t) pc (child t) (runs t).
Definition set_child (pc : child_pc) (t : Thread) : Thread :=
  mkThread (started_ t) (joined_ t) (pthread t) (tid_ t) (name_ t) (latch_ t) (owner_ t) pc (runs t).
Definition set_latch (l : CountdownLatch) (t : Thread) : Thread :=
  mkThread (started_ t) (joined_ t) (pthread t) (tid_ t) (name_ t) l (owner_ t) (child t) (runs t).

(** The thread is inside an operation of the latch. *)
Definition in_latch (i : nat) (l : CountdownLatch) : bool :=
  negb (bool_decide (threads l !! i = Some Idle)).

(** What a function throws: an exception of the library with its stack trace,
    one of the standard library, or something else. *)
Inductive thrown := MuziException (trace : string) | StdException (what : string) | OtherException.

Definition endl : string := String (Ascii.ascii_of_nat 10) "".

(** What [RunThread] then writes to [std::cerr]. *)
Definition last_words (name : string) (e : thrown) : string :=
  match e with
  | MuziException trace => "muzi Exception caught in thread: " ++ name ++ endl ++ trace
  | StdException what => "Exception caught in thread: " ++ name ++ endl ++ "Reason: " ++ what ++ endl
  | OtherException => "Unknown exception caught in thread: " ++ name ++ endl
  end%string.

Section thread.
(** What [current_thread::tid()] answers in the two threads. *)
Variable tid_of : nat → Z.
(** How the function ends: it returns, or throws. *)
Variable func : option thrown.

(** The function runs inside the [try] of [RunThread]: what is written, and
    whether the process goes on; the last [catch] throws on, which nobody
    catches. *)
Definition call_func (name : string) : string * res unit :=
  match func with None => (""%string, Ok tt) | Some e => (last_words name e, Fault Aborted) end.

(** [Start] up to the wait: [created] is whether [pthread_create] succeeds. *)
Definition Start (created : bool) (t : Thread) : res Thread :=
  _ ← assert (negb (started_ t));
  if created then
    l ← latch_step tid_of (LCall 0 OpWait) (latch_ t);
    Ok (mkThread true (joined_ t) HLive (tid_ t) (name_ t) l OWaitLatch CTid (runs t))
  else Ok t.

Definition Join (t : Thread) : res Thread :=
  _ ← assert (started_ t && negb (joined_ t)); Ok (set_owner OJoining t).

(** The owner's next step inside [Start] or [Join]. *)
Definition owner_step (t : Thread) : res Thread :=
  match owner_ t with
  | OWaitLatch =>
      l ← latch_step tid_of (LThread 0) (latch_ t);
      Ok (set_owner (if in_latch 0 l then OWaitLatch else OIdle) (set_latch l t))
  | OJoining =>
      if decide (child t = CDone) then
        _ ← assert (bool_decide (pthread t = HLive));
        Ok (mkThread (started_ t) true HJoined (tid_ t) (name_ t) (latch_ t) OIdle (child t) (runs t))
      else Ok t
  | OIdle | OGone => Ok t
  end.

(** [~Thread], with the mutex of the latch, its last member. *)
Definition Thread_destroy (t : Thread) : res Thread :=
  t ← (if started_ t && negb (joined_ t) then
         _ ← assert (bool_decide (pthread t = HLive));
         Ok (mkThread (started_ t) (joined_ t) HDetached (tid_ t) (name_ t) (latch_ t) (owner_ t) (child t) (runs t))
       else Ok t);
  _ ← MutexLock_destroy (mutex_ (latch_ t)); Ok (set_owner OGone t).

(** The started thread reaches into the [Thread] object, which must exist. *)
Definition alive (t : Thread) : res unit :=
  if decide (owner_ t = OGone) then Fault UseAfterFree else Ok tt.

(** The next step of [RunThread]. *)
Definition RunThread (t : Thread) : res Thread :=
  match child t with
  | CNone | CDone => Ok t
  | CTid =>
      _ ← alive t;
      Ok (mkThread (started_ t) (joined_ t) (pthread t) (Some (tid_of 1%nat)) (name_ t) (latch_ t) (owner_ t) CCountDown (runs t))
  | CCountDown =>
      _ ← alive t; l ← latch_step tid_of (LCall 1 OpCountDown) (latch_ t); Ok (set_child CLatch (set_latch l t))
  | CLatch =>
      _ ← alive t; l ← latch_step tid_of (LThread 1) (latch_ t);
      Ok (set_child (if in_latch 1 l then CLatch else CRun) (set_latch l t))
  | CRun => _ ← (call_func (name_ t)).2; Ok (mkThread (started_ t) (joined_ t) (pthread t) (tid_ t) (name_ t) (latch_ t) (owner_ t) CDone (S (runs t)))
  end.

(** The calls of the owner, the steps of both, and a wake-up without a
    notification. *)
Inductive thread_label := TStart (created : bool) | TJoin | TDestroy | TOwner | TChild | TSpurious.

(** The owner calls only when it is outside; other labels then do nothing. *)
Definition thread_step (l : thread_label) (t : Thread) : res Thread :=
  match l with
  | TStart created => if decide (owner_ t = OIdle) then Start created t else Ok t
  | TJoin => if decide (owner_ t = OIdle) then Join t else Ok t
  | TDestroy => if decide (owner_ t = OIdle) then Thread_destroy t else Ok t
  | TOwner => owner_step t
  | TChild => RunThread t
  | TSpurious => l ← latch_step tid_of (LSpurious 0) (latch_ t); Ok (set_latch l t)
  end.

Fixpoint thread_run (ls : list thread_label) (t : Thread) : res Thread :=
  match ls with [] => Ok t | l :: ls => t ← thread_step l t; thread_run ls t end.

(** The contract of the owner: not to start twice, and to join once what has
    been started. *)
Definition usable (l : thread_label) (t : Thread) : bool :=
  match l with
  | TStart _ => negb (bool_decide (owner_ t = OIdle)) || negb (started_ t)
  | TJoin => negb (bool_decide (owner_ t = OIdle)) || started_ t && negb (joined_ t)
  | _ => true
  end.

Fixpoint legal (ls : list thread_label) (t : Thread) : bool :=
  match ls with
  | [] => true
  | l :: ls => usable l t && match thread_step l t with Ok t' => legal ls t' | Fault _ => true end
  end.
End thread.

(** ** The invariant *)

(** How often the started thread has entered [CountDown], and whether it has
    stored its identifier. *)
Definition entered (pc : child_pc) : nat := match pc with CLatch | CRun | CDone => 1 | _ => 0 end.
Definition has_tid (pc : child_pc) : bool := match pc with CNone | CTid => false | _ => true end.

(** What the pthread should have become. *)
Definition handle_of (t : Thread) : handle :=
  if started_ t then if joined_ t then HJoined else if decide (owner_ t = OGone) then HDetached else HLive
  else HNone.

Section proofs.
Variable tid_of : nat → Z.
Variable func : option thrown.

Record th_inv (t : Thread) : Prop := {
  ti_latch : latch_inv tid_of 1 (entered (child t)) (latch_ t);
  ti_downs : (downs (latch_ t) + countb will_down (threads (latch_ t)) = entered (child t))%nat;
  ti_owner_op : op_of <$> threads (latch_ t) !! 0%nat = Some (if decide (owner_ t = OWaitLatch) then Some OpWait else None);
  ti_child_op : op_of <$> threads (latch_ t) !! 1%nat = Some (if decide (child t = CLatch) then Some OpCountDown else None);
  ti_len : ∀ i, (2 ≤ i)%nat → threads (latch_ t) !! i = None;
  ti_tid : has_tid (child t) = true → tid_ t = Some (tid_of 1%nat);
  ti_started : started_ t = negb (bool_decide (child t = CNone));
  ti_wait : owner_ t = OWaitLatch → started_ t = true;
  ti_past : owner_ t ≠ OWaitLatch → child t = CNone ∨ child t = CRun ∨ child t = CDone;
  ti_handle : pthread t = handle_of t;
  ti_joined : joined_ t = true → child t = CDone;
  ti_joining : owner_ t = OJoining ∨ owner_ t = OWaitLatch → started_ t = true ∧ joined_ t = false;
  ti_runs : runs t = if decide (child t = CDone) then 1%nat else 0%nat
}.

(** Who returns from the wait has seen the other thread leave the latch. *)
Lemma wait_returns t r :
  th_inv t → threads (latch_ t) !! 0%nat = Some (AtUnlock OpWait r) → child t = CRun ∨ child t = CDone.
Proof.
  intros [] E. pose proof (li_leaves _ _ _ _ ti_latch0 _ _ E eq_refl) as Hc. pose proof (li_count _ _ _ _ ti_latch0) as Hn.
  assert (entered (child t) = 1%nat ∧ countb will_down (threads (latch_ t)) = 0%nat) as [He H0]
    by (destruct (child t); cbn in *; lia).
  destruct (child t) eqn:Ec; try done; [|by left|by right]. exfalso.
  destruct (threads (latch_ t) !! 1%nat) as [pc|] eqn:E1; [|done]. cbn in ti_child_op0.
  pose proof (owner_of _ _ _ _ _ _ ti_latch0 E eq_refl) as Ho.
  pose proof (not_owner _ _ _ _ 1 pc ti_latch0 E1) as Hno. pose proof (owner_of _ _ _ _ 1 pc ti_latch0 E1) as Hyo.
  pose proof (proj1 (countb_none _ _) H0 1%nat pc E1) as Hw.
  destruct (holds pc) eqn:Eh; [rewrite Hyo in Ho by done; done|]. by destruct pc as [|[]|[]|[]| | | | | | |[] ?|[] ?].
Qed.

Lemma thread_new_inv num name : th_inv (Thread_new num name).
Proof.
  split; try done; [apply latch_new_inv| |by left|by intros [|]]. intros [|[|i]] Hi; [lia..|done].
Qed.

Lemma idle_at t i : op_of <$> threads (latch_ t) !! i = Some None → threads (latch_ t) !! i = Some Idle.
Proof. by destruct (threads (latch_ t) !! i) as [[]|]. Qed.

Lemma in_latch_op i l o : op_of <$> threads l !! i = Some o → in_latch i l = bool_decide (is_Some o).
Proof. unfold in_latch. by destruct (threads l !! i) as [[]|]; intros [= <-]. Qed.

(** The bound that keeps the count from overflowing. *)
Lemma entered_bound pc : (- 2 ^ 31 ≤ 1 - Z.of_nat (entered pc))%Z.
Proof. by destruct pc. Qed.

Lemma latch_thread_len i s s' : latch_thread tid_of i s = Ok (Some s') → length (threads s') = length (threads s).
Proof.
  unfold latch_thread, pthread_mutex_lock, pthread_mutex_unlock, decrement. destruct (threads s !! i) as [[|o|o|[]| | | | | | |o r|o r]|]; try done;
    repeat case_match; cbn; intros E; simplify_eq; cbn; by rewrite ?length_insert, ?length_fmap.
Qed.

(** A step of either thread in the latch. *)
Lemma latch_move t i l :
  th_inv t → latch_thread tid_of i (latch_ t) = Ok (Some l) →
  latch_inv tid_of 1 (entered (child t)) l ∧
  (downs l + countb will_down (threads l))%nat = entered (child t) ∧
  (∀ j, j ≠ i → op_of <$> threads l !! j = op_of <$> threads (latch_ t) !! j) ∧
  (∃ pc pc', threads (latch_ t) !! i = Some pc ∧ threads l !! i = Some pc' ∧
     (op_of pc' = op_of pc ∨ pc' = Idle ∧ ∃ o r, pc = AtUnlock o r)) ∧
  (∀ j, (2 ≤ j)%nat → threads l !! j = None).
Proof.
  intros [] E. destruct (latch_thread_inv _ _ _ i _ ti_latch0 (entered_bound _)) as (o & Eo & Hi). rewrite E in Eo. injection Eo as <-.
  destruct (latch_thread_keeps _ _ _ _ E) as ((pc & pc' & E1 & E2 & _ & H1) & H2 & H3). split_and!; [done|lia|done|by exists pc, pc'|].
  intros j Hj. pose proof (latch_thread_len _ _ _ E) as Hl. apply lookup_ge_None. rewrite Hl. by apply lookup_ge_None, ti_len0.
Qed.

Lemma th_Start_inv b t : th_inv t → owner_ t = OIdle → started_ t = false → ∃ t', Start tid_of b t = Ok t' ∧ th_inv t'.
Proof.
  intros Hi Ho Hs. unfold Start. rewrite Hs. cbn [negb assert mbind res_bind]. destruct b; [|by exists t].
  destruct Hi. rewrite Hs in ti_started0. symmetry in ti_started0. apply negb_false_iff, bool_decide_eq_true in ti_started0.
  rewrite Ho, ti_started0 in *. cbn in ti_owner_op0, ti_child_op0, ti_latch0, ti_downs0.
  destruct (latch_step_inv tid_of 1 0 (LCall 0 OpWait) _ ti_latch0) as (l & E & Hl); [done|]. rewrite E. cbn [mbind res_bind].
  apply idle_at in ti_owner_op0, ti_child_op0. pose proof (countb_insert will_down 0 _ (AtLock OpWait) _ ti_owner_op0) as Cw.
  cbn in E. rewrite decide_True in E by done. injection E as <-.
  eexists. split; [done|]. split; cbn [latch_ child owner_ started_ joined_ pthread tid_ runs]; try done.
  - cbn in *. lia.
  - cbn. rewrite list_lookup_insert_eq; [done|]. by eapply lookup_lt_Some.
  - cbn. rewrite list_lookup_insert_ne by done. by rewrite ti_child_op0.
  - intros i Hi. cbn. rewrite list_lookup_insert_ne by lia. by apply ti_len0.
  - destruct (joined_ t) eqn:Ej; [by specialize (ti_joined0 eq_refl)|]. done.
  - intros Hj. by specialize (ti_joined0 Hj).
  - intros _. split; [done|]. destruct (joined_ t); [by specialize (ti_joined0 eq_refl)|done].
Qed.

Lemma owner_step_inv t : th_inv t → ∃ t', owner_step tid_of t = Ok t' ∧ th_inv t'.
Proof.
  intros Hi. unfold owner_step. destruct (owner_ t) eqn:Ho; try (by exists t).
  - cbn [latch_step]. destruct (latch_thread_inv _ _ _ 0 _ (ti_latch t Hi) (entered_bound _)) as ([l|] & E & _);
      rewrite E; cbn [mbind res_bind default from_option id].
    + destruct (latch_move t 0 l Hi E) as (Hl & Hd & Hop & (pc & pc' & E1 & E2 & Hpc) & Hlen).
      pose proof (λ r, wait_returns t r Hi) as Hr. destruct Hi. eexists. split; [done|]. rewrite Ho, E1 in ti_owner_op0. cbn in ti_owner_op0.
      assert (in_latch 0 l = bool_decide (pc' ≠ Idle)) as Hin.
      { unfold in_latch. rewrite E2. destruct (decide (pc' = Idle)) as [->|]; [done|].
        rewrite bool_decide_eq_false_2, bool_decide_eq_true_2 by congruence. done. }
      split; cbn [set_owner set_latch latch_ child owner_ started_ joined_ pthread tid_ runs]; try done.
      * rewrite E2, Hin. cbn. case_bool_decide as Hpi.
        -- rewrite decide_True by done. f_equal. destruct Hpc as [->|[-> _]]; [by injection ti_owner_op0|done].
        -- rewrite decide_False by done. by destruct pc'; try (destruct Hpi; done).
      * by rewrite Hop.
      * intros _. by apply ti_wait0.
      * rewrite Hin. case_bool_decide as Hpi; [done|]. intros _. right.
        destruct (decide (pc' = Idle)) as [->|]; [|done].
        destruct Hpc as [Hpc|[_ (o & r & ->)]]; [rewrite <- Hpc in ti_owner_op0; done|].
        injection ti_owner_op0 as ->. by apply (Hr r).
      * unfold handle_of in *. cbn. rewrite ti_handle0, Ho. destruct (started_ t), (joined_ t), (in_latch 0 l); done.
      * rewrite Ho in ti_joining0. intros _. apply ti_joining0. by right.
    + exists t. split; [|done]. f_equal. rewrite (in_latch_op 0 _ _ (ti_owner_op t Hi)), Ho. cbn. by destruct t; cbn in *; subst.
  - case_decide as Hc; [|by exists t]. pose proof Hi as []. rewrite Ho in *. destruct ti_joining0 as [Hs Hj]; [by left|].
    rewrite ti_handle0. unfold handle_of. rewrite Hs, Hj, Ho. cbn. eexists. split; [done|].
    split; cbn; rewrite ?Hc in *; try done; try congruence.
    + intros _. by right; right.
    + by intros [].
Qed.
Lemma destroyable t : th_inv t → owner_ t ≠ OWaitLatch → MutexLock_destroy (mutex_ (latch_ t)) = Ok tt.
Proof.
  intros [] Ho. apply (idle_destroyable _ _ _ _ ti_latch0). rewrite decide_False in ti_owner_op0 by done.
  rewrite decide_False in ti_child_op0 by (destruct ti_past0 as [->|[->| ->]]; done). apply idle_at in ti_owner_op0, ti_child_op0.
  intros [|[|i]] pc E; [congruence..|]. rewrite ti_len0 in E; [done|lia].
Qed.

Lemma Thread_destroy_inv t : th_inv t → owner_ t = OIdle → ∃ t', Thread_destroy t = Ok t' ∧ th_inv t' ∧ owner_ t' = OGone.
Proof.
  intros Hi Ho. pose proof (destroyable t Hi) as Hd. rewrite Ho in Hd. specialize (Hd ltac:(done)).
  pose proof Hi as []. unfold Thread_destroy, handle_of in *. rewrite Ho in *. cbn in ti_owner_op0, ti_handle0.
  destruct (started_ t) eqn:Es, (joined_ t) eqn:Ej; cbn [andb negb]; rewrite ?ti_handle0, ?(bool_decide_eq_true_2 (HLive = HLive)) by done;
    cbn [assert mbind res_bind latch_]; rewrite Hd; cbn [mbind res_bind]; (eexists; split; [done|split; [|done]]);
    split; cbn; unfold handle_of; cbn; rewrite ?Es, ?Ej; try done; try (by intros []); intros _; by apply ti_past0.
Qed.

(** While the started thread has not left the latch, the object exists. *)
Lemma alive_ok t : th_inv t → child t = CTid ∨ child t = CCountDown ∨ child t = CLatch → alive t = Ok tt ∧ owner_ t = OWaitLatch.
Proof.
  intros Hi Hc. unfold alive. destruct (decide (owner_ t = OWaitLatch)) as [E|E].
  - rewrite E. by rewrite decide_False.
  - destruct (ti_past t Hi E) as [H|[H|H]]; rewrite H in Hc; by destruct Hc as [|[]].
Qed.

(** The thread is about to call a function that throws. *)
Definition doomed (t : Thread) : Prop := child t = CRun ∧ is_Some func.

Lemma th_RunThread_inv t :
  th_inv t → (∃ t', RunThread tid_of func t = Ok t' ∧ th_inv t') ∨ doomed t ∧ RunThread tid_of func t = Fault Aborted.
Proof.
  intros Hi. destruct (decide (child t = CRun ∧ is_Some func)) as [[Hc [e He]]|Hn].
  { right. split; [by split; [|exists e]|]. unfold RunThread. rewrite Hc. unfold call_func. by rewrite He. }
  left. unfold RunThread. pose proof (alive_ok t Hi) as Ha.
  destruct (child t) eqn:Hc; try (by exists t).
  - destruct Ha as [-> Ho]; [by left|]. cbn [mbind res_bind]. eexists. split; [done|]. destruct Hi. unfold handle_of in *.
    rewrite Hc, Ho in *. split; cbn; unfold handle_of; cbn; rewrite ?Ho; try done. by intros Hj%ti_joined0.
  - destruct Ha as [-> Ho]; [by right; left|]. pose proof Hi as []. unfold handle_of in *. rewrite Hc, Ho in *.
    cbn in ti_child_op0, ti_owner_op0, ti_latch0, ti_downs0.
    destruct (latch_step_inv tid_of 1 0 (LCall 1 OpCountDown) _ ti_latch0) as (l & E & Hl); [done|]. rewrite E. cbn [mbind res_bind].
    eexists. split; [done|]. apply idle_at in ti_child_op0. pose proof (countb_insert will_down 1 _ (AtLock OpCountDown) _ ti_child_op0) as Cw.
    cbn in E. rewrite decide_True in E by done. injection E as <-.
    split; cbn [set_child set_latch latch_ child owner_ started_ joined_ pthread tid_ runs]; unfold handle_of; cbn; rewrite ?Ho; try done.
    + cbn in Cw. lia.
    + rewrite list_lookup_insert_ne by done. apply ti_owner_op0.
    + rewrite list_lookup_insert_eq; [done|]. by eapply lookup_lt_Some.
    + intros i H. rewrite list_lookup_insert_ne by lia. by apply ti_len0.
    + by intros Hj%ti_joined0.
  - destruct Ha as [-> Ho]; [by right; right|]. cbn [mbind res_bind latch_step].
    destruct (latch_thread_inv _ _ _ 1 _ (ti_latch t Hi) (entered_bound _)) as ([l|] & E & _);
      rewrite E; cbn [mbind res_bind default from_option id].
    + destruct (latch_move t 1 l Hi E) as (Hl & Hd & Hop & (pc & pc' & E1 & E2 & Hpc) & Hlen).
      eexists. split; [done|]. destruct Hi. unfold handle_of in *. rewrite Hc, Ho in *. rewrite E1 in ti_child_op0. cbn in ti_child_op0.
      assert (in_latch 1 l = bool_decide (pc' ≠ Idle)) as Hin.
      { unfold in_latch. rewrite E2. destruct (decide (pc' = Idle)) as [->|]; [done|].
        rewrite bool_decide_eq_false_2, bool_decide_eq_true_2 by congruence. done. }
      destruct (decide (pc' = Idle)) as [->|Hpi].
      * rewrite Hin. cbn. split; cbn; unfold handle_of; cbn; rewrite ?Ho, ?E2; try done; [by rewrite Hop|by intros Hj%ti_joined0].
      * rewrite Hin. rewrite bool_decide_eq_true_2 by done. split; cbn; unfold handle_of; cbn; rewrite ?Ho, ?E2; try done; [by rewrite Hop|].
        destruct Hpc as [Hpc|[? _]]; [|done]. cbn. rewrite Hpc. done.
    + exists t. split; [|done]. f_equal. rewrite (in_latch_op 1 _ _ (ti_child_op t Hi)), Hc. cbn. by destruct t; cbn in *; subst.
  - unfold call_func. destruct func as [e|]; [destruct Hn; by split; [|exists e]|]. cbn [snd mbind res_bind].
    eexists. split; [done|]. destruct Hi. unfold handle_of in *. rewrite Hc in *. split; cbn; unfold handle_of; cbn; try done.
    + by intros; right; right.
    + by rewrite ti_runs0.
Qed.
Lemma spurious_inv t : th_inv t → ∃ t', thread_step tid_of func TSpurious t = Ok t' ∧ th_inv t'.
Proof.
  intros Hi. cbn. eexists. split; [done|]. case_decide as E; [|by destruct t].
  destruct (latch_step_inv tid_of 1 (entered (child t)) (LSpurious 0) _ (ti_latch t Hi)) as (l & El & Hl);
    [cbn; rewrite Nat.add_0_r; apply entered_bound|]. cbn in El. rewrite decide_True in El by done. injection El as <-.
  cbn in Hl. rewrite Nat.add_0_r in Hl. pose proof (countb_insert will_down 0 _ Woken _ E) as Cw. cbn in Cw.
  destruct Hi. rewrite E in ti_owner_op0. split; try done.
  - cbn. lia.
  - cbn. by rewrite list_lookup_insert_eq by by eapply lookup_lt_Some.
  - cbn. by rewrite list_lookup_insert_ne.
  - intros i H. cbn. rewrite list_lookup_insert_ne by lia. by apply ti_len0.
Qed.

(** The owner's calls and the steps other than the function's. *)
Lemma thread_step_inv l t :
  th_inv t → usable l t = true →
  (∃ t', thread_step tid_of func l t = Ok t' ∧ th_inv t') ∨ (l = TChild ∧ doomed t ∧ thread_step tid_of func l t = Fault Aborted).
Proof.
  intros Hi Hu. destruct l as [b| | | | |]; [| | |left; by apply owner_step_inv| |left; by apply spurious_inv];
    [left..|destruct (th_RunThread_inv t Hi) as [?|[? ?]]; [by left|by right]];
    cbn [thread_step usable] in *; case_decide as Ho; try (by exists t); rewrite ?bool_decide_eq_true_2 in Hu by done.
  - apply th_Start_inv; [done|done|by destruct (started_ t)].
  - unfold Join. cbn in Hu. rewrite Hu. cbn [assert mbind res_bind]. eexists. split; [done|].
    apply andb_true_iff in Hu as [Hs Hj%negb_true_iff]. destruct Hi. unfold handle_of in *. rewrite Ho in *.
    split; cbn; unfold handle_of; cbn; try done. intros _. by apply ti_past0.
  - destruct (Thread_destroy_inv t Hi Ho) as (t' & E & Hi' & _). by exists t'.
Qed.

(** A run ends well, or with the function that throws. *)
Lemma thread_run_inv ls : ∀ t, th_inv t → legal tid_of func ls t = true →
  (∃ t', thread_run tid_of func ls t = Ok t' ∧ th_inv t') ∨
  (∃ ls1 ls2 t1, ls = ls1 ++ TChild :: ls2 ∧ thread_run tid_of func ls1 t = Ok t1 ∧ th_inv t1 ∧ doomed t1 ∧
     thread_run tid_of func ls t = Fault Aborted).
Proof.
  induction ls as [|l ls IH]; intros t Hi Hl; [left; by exists t|]. cbn [legal thread_run] in *.
  apply andb_true_iff in Hl as [Hu Hl]. destruct (thread_step_inv l t Hi Hu) as [(t1 & E & Hi1)|(-> & Hd & E)]; rewrite E in *.
  - cbn [mbind res_bind]. destruct (IH t1 Hi1 Hl) as [?|(l1 & l2 & t2 & -> & E2 & ? & ? & ?)]; [by left|].
    right. exists (l :: l1), l2, t2. split_and!; try done. cbn [thread_run]. by rewrite E.
  - right. by exists [], ls, t.
Qed.

(** ** [Start] cannot be stuck *)

(** A step in the latch is a step of its thread, and changes the state. *)
Lemma owner_moves t l :
  owner_ t = OWaitLatch → latch_thread tid_of 0 (latch_ t) = Ok (Some l) → ∃ t', thread_step tid_of func TOwner t = Ok t' ∧ t' ≠ t.
Proof.
  intros Ho E. cbn [thread_step]. unfold owner_step. rewrite Ho. cbn [latch_step]. rewrite E. cbn [mbind res_bind default from_option id].
  eexists. split; [done|]. intros Et. apply (f_equal latch_) in Et. cbn in Et.
  destruct (latch_thread_keeps _ _ _ _ E) as ((pc & pc' & E1 & E2 & Hne & _) & _). congruence.
Qed.

Lemma child_moves t l :
  th_inv t → child t = CLatch → latch_thread tid_of 1 (latch_ t) = Ok (Some l) → ∃ t', thread_step tid_of func TChild t = Ok t' ∧ t' ≠ t.
Proof.
  intros Hi Hc E. cbn [thread_step]. unfold RunThread. rewrite Hc. destruct (alive_ok t Hi) as [-> _]; [by right; right|].
  cbn [mbind res_bind latch_step]. rewrite E. cbn [mbind res_bind default from_option id].
  eexists. split; [done|]. intros Et. apply (f_equal latch_) in Et. cbn in Et.
  destruct (latch_thread_keeps _ _ _ _ E) as ((pc & pc' & E1 & E2 & Hne & _) & _). congruence.
Qed.

(** Before the latch the started thread always moves. *)
Lemma child_free t : th_inv t → child t = CTid ∨ child t = CCountDown →
  ∃ t', thread_step tid_of func TChild t = Ok t' ∧ t' ≠ t.
Proof.
  intros Hi Hc. destruct (th_RunThread_inv t Hi) as [(t' & E & _)|[[Hr _] _]]; [|rewrite Hr in Hc; by destruct Hc].
  exists t'. split; [done|]. intros ->. revert E.
  unfold RunThread. destruct (alive_ok t Hi) as [Ha _]; [by destruct Hc; auto|].
  destruct Hc as [Hc|Hc]; rewrite Hc, Ha; cbn [mbind res_bind].
  - intros [= E]. apply (f_equal child) in E. cbn in E. congruence.
  - destruct (latch_step _ _ _); cbn [mbind res_bind]; [|done]. intros [= E]. apply (f_equal child) in E. cbn in E. congruence.
Qed.

(** Whoever owns the mutex is the one who can go on. *)
Lemma latch_owner_moves t j :
  th_inv t → owner_ t = OWaitLatch → owner (mutex_ (latch_ t)) = Some j →
  ∃ l t', (l = TOwner ∨ l = TChild) ∧ thread_step tid_of func l t = Ok t' ∧ t' ≠ t.
Proof.
  intros Hi Ho Eo. destruct (li_in _ _ _ _ (ti_latch t Hi) j Eo) as [pc E].
  pose proof (li_owner _ _ _ _ (ti_latch t Hi) j pc E) as Hh. rewrite bool_decide_eq_true_2 in Hh by done.
  destruct (latch_can_move _ _ _ _ _ _ (ti_latch t Hi) (entered_bound _) E (or_introl Hh)) as (l & El).
  destruct j as [|[|j]].
  - destruct (owner_moves t l Ho El) as (t' & ?). exists TOwner, t'. auto.
  - assert (child t = CLatch) as Hc.
    { pose proof (ti_child_op t Hi) as Hop. rewrite E in Hop. case_decide; [done|]. by destruct pc. }
    destruct (child_moves t l Hi Hc El) as (t' & ?). exists TChild, t'. auto.
  - rewrite (ti_len t Hi) in E; [done|lia].
Qed.

(** Once the started thread has left the latch, the owner can go on. *)
Lemma left_latch_moves t :
  th_inv t → owner_ t = OWaitLatch → child t = CRun ∨ child t = CDone → owner (mutex_ (latch_ t)) = None →
  ∃ t', thread_step tid_of func TOwner t = Ok t' ∧ t' ≠ t.
Proof.
  intros Hi Ho Hc Eo. pose proof (ti_owner_op t Hi) as Hop. rewrite Ho in Hop.
  destruct (threads (latch_ t) !! 0%nat) as [pc|] eqn:E; [|done].
  destruct (latch_can_move _ _ _ _ _ _ (ti_latch t Hi) (entered_bound _) E) as (l & El); [|by eapply owner_moves].
  right. split_and!; [done|by intros ->|]. intros ->.
  pose proof (li_count _ _ _ _ (ti_latch t Hi)) as Hn. pose proof (ti_child_op t Hi) as Hco.
  rewrite decide_False in Hco by (destruct Hc as [Hc|Hc]; by rewrite Hc). apply idle_at in Hco.
  assert (countb will_down (threads (latch_ t)) = 0%nat) as H0.
  { apply countb_none. intros [|[|i]] q Eq; [rewrite E in Eq|rewrite Hco in Eq|rewrite (ti_len t Hi) in Eq; [done|lia]]; by injection Eq as <-. }
  pose proof (ti_downs t Hi) as Hd. assert (entered (child t) = 1%nat) as He by (destruct Hc as [Hc|Hc]; by rewrite Hc).
  destruct (li_sleeps _ _ _ _ (ti_latch t Hi) 0 E) as [|[_ [[|[|i]] Hx]]]; [lia|congruence|congruence|].
  rewrite (ti_len t Hi) in Hx; [done|lia].
Qed.

Lemma start_progress t :
  th_inv t → owner_ t = OWaitLatch → ∃ l t', (l = TOwner ∨ l = TChild) ∧ thread_step tid_of func l t = Ok t' ∧ t' ≠ t.
Proof.
  intros Hi Ho. destruct (owner (mutex_ (latch_ t))) as [j|] eqn:Eo; [by eapply latch_owner_moves|].
  pose proof (child_free t Hi) as Hf. pose proof (ti_wait t Hi Ho) as Hs. rewrite (ti_started t Hi) in Hs.
  destruct (child t) eqn:Hc; try done; try (destruct Hf as (t' & ?); [by auto|]; exists TChild, t'; by auto).
  - pose proof (ti_child_op t Hi) as Hop. rewrite Hc in Hop. destruct (threads (latch_ t) !! 1%nat) as [pc|] eqn:E; [|done].
    destruct (latch_can_move _ _ _ _ _ _ (ti_latch t Hi) (entered_bound _) E) as (l & El); [right; split_and!; [done|by intros ->..]|].
    destruct (child_moves t l Hi Hc El) as (t' & ?). exists TChild, t'. auto.
  - destruct (left_latch_moves t Hi Ho) as (t' & ?); [by left|done|]. exists TOwner, t'. auto.
  - destruct (left_latch_moves t Hi Ho) as (t' & ?); [by right|done|]. exists TOwner, t'. auto.
Qed.

(** ** What [Thread] promises *)

(** C33: however the owner and the thread it starts interleave, nothing is
    used after it is destroyed and every assertion holds, as long as the owner
    does not start twice and joins once what it started.  Once [Start] has
    returned, the identifier is the thread's; the function runs at most once,
    and has run when [Join] has returned; a destroyed [Thread] leaves no
    pthread that is neither joined nor detached; and [Start] always can go on.
    Only a function that throws ends the process, when it is called, and then
    [Start] has published the identifier and [Join] has not returned. *)
Theorem thread_runs ls num name :
  legal tid_of func ls (Thread_new num name) = true →
  (∃ t, thread_run tid_of func ls (Thread_new num name) = Ok t ∧
    (IsStarted t = true → owner_ t ≠ OWaitLatch → GetTid t = Some (tid_of 1%nat)) ∧
    (runs t ≤ 1)%nat ∧ (IsJoined t = true → runs t = 1%nat) ∧
    (owner_ t = OGone → pthread t ≠ HLive) ∧
    (owner_ t = OWaitLatch → ∃ l t', (l = TOwner ∨ l = TChild) ∧ thread_step tid_of func l t = Ok t' ∧ t' ≠ t)) ∨
  (∃ e ls1 ls2 t, func = Some e ∧ ls = ls1 ++ TChild :: ls2 ∧ thread_run tid_of func ls1 (Thread_new num name) = Ok t ∧
    GetTid t = Some (tid_of 1%nat) ∧ IsJoined t = false ∧ runs t = 0%nat ∧
    thread_run tid_of func ls (Thread_new num name) = Fault Aborted).
Proof.
  intros Hl. destruct (thread_run_inv ls _ (thread_new_inv num name) Hl) as [(t & E & Hi)|(l1 & l2 & t & El & E & Hi & [Hc [e He]] & Ha)].
  - left. exists t. split; [done|].
    pose proof (start_progress t Hi) as Hp. destruct Hi. split_and!; [| | | |exact Hp].
    + unfold IsStarted. intros Hs Ho. rewrite Hs in ti_started0. apply ti_tid0. by destruct (ti_past0 Ho) as [H|[H|H]]; rewrite H in *.
    + rewrite ti_runs0. case_decide; lia.
    + unfold IsJoined. intros Hj%ti_joined0. by rewrite ti_runs0, Hj.
    + intros Ho. rewrite ti_handle0. unfold handle_of. rewrite Ho. by destruct (started_ t), (joined_ t).
  - right. exists e, l1, l2, t. destruct Hi. rewrite Hc in *. split_and!; try done; [by apply ti_tid0|].
    unfold IsJoined. destruct (joined_ t); [by specialize (ti_joined0 eq_refl)|done].
Qed.
End proofs.

(** ** Examples *)

(** A first [pthread_create] fails; the second succeeds, the owner sleeps in
    the latch, is woken, returns, joins and is destroyed. *)
Definition start_and_join : list thread_label :=
  TStart false :: TStart true :: replicate 5 TOwner ++ replicate 9 TChild ++ replicate 5 TOwner
  ++ TJoin :: TOwner :: TDestroy :: [].

Lemma thread_runs_witness :
  (∃ t, thread_run tid_example None start_and_join (Thread_new 7 "") = Ok t ∧ GetName t = "Thread7"%string ∧
    IsJoined t = true ∧ runs t = 1%nat ∧ owner_ t = OGone) ∧
  thread_run tid_example (Some OtherException) start_and_join (Thread_new 7 "") = Fault Aborted.
Proof.
  split.
  - destruct (thread_runs tid_example None start_and_join 7 "") as [(t & E & _)|(e & _ & _ & _ & He & _)]; [by vm_compute| |done].
    exists t. split; [done|]. vm_compute in E. injection E as <-. done.
  - destruct (thread_runs tid_example (Some OtherException) start_and_join 7 "") as [(t & E & _)|(_ & _ & _ & _ & _ & _ & _ & _ & _ & _ & E)];
      [by vm_compute| |exact E]. by vm_compute in E.
Defined.

(** Starting twice is what the assertion is for. *)
Lemma start_twice : thread_run tid_example None (start_and_join ++ [TStart true]) (Thread_new 0 "io") = thread_run tid_example None start_and_join (Thread_new 0 "io") ∧
  thread_run tid_example None (take 17 start_and_join ++ replicate 20 TOwner ++ [TStart true]) (Thread_new 0 "io") = Fault AssertFail.
Proof. split; vm_compute; done. Qed.

(** What is left of a function that throws. *)
Lemma last_words_example :
  call_func (Some (StdException "bad")) "io" =
  (("Exception caught in thread: io" ++ endl ++ "Reason: bad" ++ endl)%string, Fault Aborted).
Proof. done. Qed.
