(* ===== verification/EchoServer.v ===== *)
(** The parts put together: the echo server of [muzi/examples/echo_server.cc]
    (the message callback is also that of [examples/pingpong/server.cc]), its
    callbacks on a connection of [TcpConnection] with the chained buffers of
    [ChainBuffer]. *)

From S2P Require Import Prelude ChainBuffer ByteQueue Poller TcpConnection.

(** It only logs. *)
Definition OnConnection (c : TcpConnection ChainBuffer) : res (TcpConnection ChainBuffer) := Ok c.

(** [buffer] is the input buffer of the connection.  Of the callbacks only
    that of the high water mark can run inside [Send], and the server sets
    none. *)
Definition OnMessage (c : TcpConnection ChainBuffer) : res (TcpConnection ChainBuffer) :=
  c ← Send_buffer (λ _ c, Ok c) (input_buffer_ c) c;
  Ok (set_input (RetriveAll (input_buffer_ c)) c).

(** What the callbacks of a connection of this server do to it; the close
    callback is the server's, see [TcpServer]. *)
Definition EchoServer (ev : cb_event) (c : TcpConnection ChainBuffer) : res (TcpConnection ChainBuffer) :=
  match ev with
  | EvConnection => OnConnection c
  | EvMessage _ => OnMessage c
  | _ => Ok c
  end.

(** The server sets the connection and the message callback only. *)
Definition echo_connection (sock_fd : Z) : res (TcpConnection ChainBuffer) :=
  EstablishConnection EchoServer (TcpConnection_new sock_fd true false false).

(** ** Connections that echo

    What follows holds of any connection whose message callback takes all
    that was received and replies to it: this server's, the two ends of
    [PingPong], and with an empty reply that of [EchoClient]. *)
Section echo.
Variable sys_readv : nat → readv_fn.
Variable sys_writev : nat → writev_fn.
Variable invoke : cb_event → TcpConnection ChainBuffer → res (TcpConnection ChainBuffer).
Implicit Types c : TcpConnection ChainBuffer.

(** What the next [HandleRead] takes from the socket. *)
Definition read_by c : bytes :=
  match ReadFd (sys_readv (calls c)) (input_buffer_ c) with
  | Ok (_, _, b) => drop (length (content (input_buffer_ c))) (content b)
  | Fault _ => []
  end.

(** One event of the socket, with what was received so far. *)
Definition echo_event (e : Z * Z) (s : TcpConnection ChainBuffer * bytes) : res (TcpConnection ChainBuffer * bytes) :=
  let '(c, received) := s in
  let d := if has e.1 (Z.lor (Z.lor POLLIN POLLPRI) POLLRDHUP) then read_by c else [] in
  c' ← HandleEvent sys_readv sys_writev invoke e.1 e.2 c;
  Ok (c', received ++ d).

Fixpoint echo_run (es : list (Z * Z)) (s : TcpConnection ChainBuffer * bytes) : res (TcpConnection ChainBuffer * bytes) :=
  match es with [] => Ok s | e :: es => s ← echo_event e s; echo_run es s end.

(** Events come while the connection is open. *)
Fixpoint echo_legal (es : list (Z * Z)) (s : TcpConnection ChainBuffer * bytes) : Prop :=
  match es with
  | [] => True
  | e :: es => open s.1 ∧ mask_ok e.1 ∧ ∀ s', echo_event e s = Ok s' → echo_legal es s'
  end.

(** ** The invariant *)

Record echo_inv c (received : bytes) : Prop := {
  ei_wf : conn_wf c;
  ei_thread : in_loop_thread c = true;
  ei_message : message_callback_ c = true;
  ei_complete : write_complete_callback_ c = false;
  ei_high : high_water_callback_ c = false;
  ei_state : state_ c = kConnected ∨ state_ c = kDisConnected;
  ei_reading : state_ c = kConnected → chan_reading (channel_ c) = true;
  ei_input : content (input_buffer_ c) = [];
  ei_stream : stream c = received
}.

(** The fields nothing here changes. *)
Definition same_setup c c' : Prop :=
  chan_reading (channel_ c') = chan_reading (channel_ c) ∧
  in_loop_thread c' = in_loop_thread c ∧ message_callback_ c' = message_callback_ c ∧
  write_complete_callback_ c' = write_complete_callback_ c ∧ high_water_callback_ c' = high_water_callback_ c.

(** The message callback empties the input buffer and sends [reply] of what
    was in it. *)
Definition answers (reply : bytes → bytes) : Prop := ∀ t c,
  conn_wf c → in_loop_thread c = true → high_water_callback_ c = false → state_ c = kConnected →
  ∃ c', invoke (EvMessage t) c = Ok c' ∧ conn_wf c' ∧ same_setup c c' ∧ state_ c' = kConnected ∧
    content (input_buffer_ c') = [] ∧ stream c' = stream c ++ reply (content (input_buffer_ c)).

(** On a closed connection the other callbacks do nothing but, at most, take
    its channel out of the poll set. *)
Definition closed_channel : Prop := ∀ ev c c',
  ev = EvConnection ∨ ev = EvClose → state_ c = kDisConnected → invoke ev c = Ok c' → ∃ ch, c' = set_channel ch c.

(** What the channel waits for to write says nothing of reading. *)
Lemma chan_reading_updates fd e s s' :
  chan_reading (mkAbs fd (Z.lor e kWriteEvent) s) = chan_reading (mkAbs fd e s') ∧
  chan_reading (mkAbs fd (Z.land e (Z.lnot kWriteEvent)) s) = chan_reading (mkAbs fd e s').
Proof.
  unfold chan_reading, has. cbn [a_events].
  rewrite Z.land_lor_distr_l, <- Z.land_assoc. change (Z.land kWriteEvent kReadEvent) with 0%Z.
  change (Z.land (Z.lnot kWriteEvent) kReadEvent) with kReadEvent. by rewrite Z.lor_0_r.
Qed.

Lemma chan_update_reading f x y :
  chan_update f x = Ok y → (∀ fd e s s', chan_reading (mkAbs fd (f e) s) = chan_reading (mkAbs fd e s')) →
  chan_reading y = chan_reading x.
Proof.
  intros E Hf. destruct x as [fd e s]. unfold chan_update in E. cbn in E.
  destruct s; try done; injection E as <-; apply Hf.
Qed.

Lemma enable_writting_setup c c' :
  enable_writting_if_not c = Ok c' → same_setup c c' ∧ state_ c' = state_ c ∧ input_buffer_ c' = input_buffer_ c.
Proof.
  unfold enable_writting_if_not, on_channel. destruct (negb _); [|by intros [= <-]].
  destruct (chan_enable_writting (channel_ c)) as [y|] eqn:E; cbn [mbind res_bind]; [|done]. intros [= <-].
  split; [|done]. split; [|done]. apply (chan_update_reading _ _ _ E). intros. apply chan_reading_updates.
Qed.

Lemma OnMessage_spec c :
  conn_wf c → in_loop_thread c = true → high_water_callback_ c = false → state_ c = kConnected →
  ∃ c', OnMessage c = Ok c' ∧ conn_wf c' ∧ same_setup c c' ∧ state_ c' = kConnected ∧
    content (input_buffer_ c') = [] ∧ stream c' = stream c ++ content (input_buffer_ c).
Proof.
  intros Hw Ht Hh Hs. unfold OnMessage, Send_buffer, SendInLoop_buffer, AssertInLoopThread.
  rewrite Hs, Ht. rewrite decide_True by done. cbn [mbind res_bind]. rewrite decide_False by done.
  unfold high_water. rewrite Hh, decide_False by (intros (_ & _ & ?); done). cbn [mbind res_bind].
  destruct (bq_append_queue_law (ouput_buffer_ c) (input_buffer_ c)) as (q & -> & Hq & Hc); [apply Hw..|].
  cbn [mbind res_bind].
  destruct (append_output_sound c q _ Hw (or_introl Hs) Hq Hc) as (c1 & E & Hw1 & _ & _ & Hst & _).
  destruct (enable_writting_setup _ _ E) as (Hsame & Hs1 & Hi1). rewrite E. cbn [mbind res_bind].
  eexists. split; [done|]. destruct (RetriveAll_spec (input_buffer_ c1)) as [Hr Hr0]; [apply Hw1|].
  split_and!; try done; [by destruct Hw1|by rewrite <- Hs].
Qed.

Lemma echo_server_ok : callbacks_ok EchoServer.
Proof.
  intros ev c Hw Ht _. destruct ev as [|t| | |n]; try (exists c; by split_and!).
  cbn [EchoServer]. unfold OnMessage, Send_buffer. rewrite Ht.
  destruct (RetriveAll_spec (input_buffer_ c)) as [Hr0 _]; [apply Hw|].
  assert (∀ b c', conn_wf c' → wf b → conn_wf (set_input b c')) as Hset by (intros b c' [] ?; by split).
  destruct (decide (state_ c = kConnected)) as [Hs|Hs]; cbn [mbind res_bind].
  - destruct (SendInLoop_buffer_sends (λ _ c, Ok c) silent_ok (input_buffer_ c) c Hw Ht) as [(c1 & -> & Hw1 & He & Hh) _]; [apply Hw|].
    cbn [mbind res_bind]. destruct (RetriveAll_spec (input_buffer_ c1)) as [Hr1 _]; [apply Hw1|].
    eexists. split; [done|]. split_and!; [by apply Hset| |done|congruence].
    etransitivity; [exact He|]. by apply extends_same.
  - eexists. split; [done|]. split_and!; [by apply Hset|by apply extends_same|done|done].
Qed.

Hypothesis readv_law : ∀ k, readv_ok (sys_readv k).
Hypothesis writev_law : ∀ k, writev_ok (sys_writev k).
Hypothesis invoke_law : callbacks_ok invoke.
Variable reply : bytes → bytes.
Hypothesis reply_nil : reply [] = [].
Hypothesis invoke_message : answers reply.
Hypothesis invoke_closed : closed_channel.

Lemma HandleClose_echo c received :
  echo_inv c received → open c → ∃ c', HandleClose invoke c = Ok c' ∧ echo_inv c' received.
Proof.
  intros [] Ho. destruct (HandleClose_sound invoke invoke_law c ei_wf0 ei_thread0 Ho) as (c' & E & Hw & _ & Hs & _).
  exists c'. split; [done|]. revert E. unfold HandleClose, AssertInLoopThread, on_channel.
  rewrite bool_decide_true, ei_thread0 by done. cbn [assert mbind res_bind].
  destruct (chan_disable_all _); cbn [mbind res_bind]; [|done].
  unfold call_back. destruct (invoke EvConnection _) as [c1|] eqn:E1; cbn [mbind res_bind]; [|done].
  apply invoke_closed in E1 as [x1 ->]; [|by left|done]. intros E2. apply invoke_closed in E2 as [x2 ->]; [|by right|done].
  split; try done; by right.
Qed.

(** The fields an event of this server keeps, given what it reads. *)
Lemma HandleRead_echo t c received :
  echo_inv c received → state_ c = kConnected →
  ∃ c', HandleRead sys_readv invoke t c = Ok c' ∧ echo_inv c' (received ++ reply (read_by c)).
Proof.
  intros Hi Hs. pose proof Hi as []. unfold HandleRead, AssertInLoopThread, read_by. rewrite ei_thread0. cbn [mbind res_bind].
  destruct (bq_readfd_law (sys_readv (calls c)) (input_buffer_ c) (cw_input c ei_wf0) (readv_law _)) as (n & err & q & E & Hq & Hr).
  rewrite E. cbn [bq_readfd ChainBuffer_queue] in E. rewrite E. cbn [mbind res_bind]. cbn [bq_content ChainBuffer_laws] in Hr.
  rewrite ei_input0 in *. cbn [length]. rewrite drop_0.
  set (c1 := set_input q (tick c)). assert (conn_wf c1) as Hw1 by (destruct ei_wf0; by split).
  inversion Hr as [e E1 E2 E3|d E1 E2 E3]; subst n; cbn [app] in E3.
  - rewrite decide_True by lia. rewrite reply_nil, app_nil_r. exists c1. split; [done|]. by split.
  - rewrite decide_False by lia. destruct (decide (Z.of_nat (length d) = 0)%Z) as [H0|H0].
    + assert (d = []) as -> by (apply nil_length_inv; lia). rewrite <- ?E3, reply_nil, app_nil_r.
      apply HandleClose_echo; [by split|by left].
    + cbn [message_callback_ c1 set_input tick set_calls]. rewrite ei_message0. unfold call_back.
      destruct (invoke_message t (set_trace (trace c1 ++ [EvMessage t]) c1)) as (c' & -> & Hw' & (S0 & S1 & S2 & S3 & S4) & Hs' & Hc & Hst);
        [by apply conn_wf_trace; [|left]|done..|].
      exists c'. split; [done|]. cbn in S0, S1, S2, S3, S4. split; try done; try congruence. intros _. rewrite S0. by apply ei_reading0. rewrite Hst, <- ei_stream0. cbn. by rewrite ?E3.
Qed.

Lemma HandleWrite_echo c received :
  echo_inv c received → ∃ c', HandleWrite sys_writev invoke c = Ok c' ∧ echo_inv c' received.
Proof.
  intros Hi. pose proof Hi as []. destruct (HandleWrite_sound sys_writev invoke writev_law invoke_law c ei_wf0 ei_thread0) as (c' & E & Hw & _ & _).
  exists c'. split; [done|]. revert E. unfold HandleWrite, AssertInLoopThread. rewrite ei_thread0. cbn [mbind res_bind].
  destruct (chan_writting (channel_ c)); [|by intros [= <-]].
  destruct (bq_writefd_law (sys_writev (calls c)) (ouput_buffer_ c) (cw_output c ei_wf0) (writev_law _))
    as (n & err & out & q & -> & Hq & Hout). cbn [mbind res_bind]. apply write_outcome_stream in Hout.
  assert ((sent c ++ out) ++ bq_content q = received) as Hst by (by rewrite <- app_assoc, Hout).
  destruct (decide (n < 0)%Z); [by intros [= <-]; split|]. destruct (decide _); [|by intros [= <-]; split].
  unfold on_channel. destruct (chan_disable_writting _) as [y|] eqn:Ey; cbn [mbind res_bind]; [|done].
  cbn [write_complete_callback_ set_channel set_sent set_output tick set_calls state_]. rewrite ei_complete0. cbn [mbind res_bind].
  cbn [state_ set_channel set_sent set_output tick set_calls]. rewrite decide_False by (by destruct ei_state0 as [->| ->]).
  intros [= <-]. split; try done. intros Hs. rewrite <- (ei_reading0 Hs).
  apply (chan_update_reading _ _ _ Ey). intros. apply chan_reading_updates.
Qed.

(** What an event makes the connection read. *)
Definition event_read (e : Z * Z) c : bytes :=
  if has e.1 (Z.lor (Z.lor POLLIN POLLPRI) POLLRDHUP) then read_by c else [].

Lemma echo_event_inv e c total received :
  echo_inv c total → open c → mask_ok e.1 →
  ∃ c', echo_event e (c, received) = Ok (c', received ++ event_read e c) ∧ echo_inv c' (total ++ reply (event_read e c)).
Proof.
  intros Hi Ho Hm. unfold echo_event, event_read, HandleEvent, HandleEventWithGuard, callbacks. cbn [Poller.read_callback_
    Poller.write_callback_ Poller.error_callback_ Poller.close_callback_ call fmap option_fmap option_map].
  assert ((if has e.1 (Z.lor POLLERR POLLNVAL) then HandleError c else Ok c) = Ok c) as -> by (by destruct (has _ _)).
  cbn [mbind res_bind]. assert (state_ c = kConnected) as Hs.
  { destruct (ei_state _ _ Hi) as [|E]; [done|]. by apply closed_not_open in E. }
  assert (∃ c1, (if has e.1 (Z.lor (Z.lor POLLIN POLLPRI) POLLRDHUP) then HandleRead sys_readv invoke e.2 c else Ok c) = Ok c1 ∧
    echo_inv c1 (total ++ reply (if has e.1 (Z.lor (Z.lor POLLIN POLLPRI) POLLRDHUP) then read_by c else []))) as Hr.
  { destruct (has e.1 (Z.lor (Z.lor POLLIN POLLPRI) POLLRDHUP)); [by apply HandleRead_echo|]. exists c. by rewrite reply_nil, app_nil_r. }
  destruct (has e.1 POLLHUP && negb (has e.1 POLLIN)) eqn:Eh.
  - destruct (Hm Eh) as [-> ->]. cbn [mbind res_bind]. destruct (HandleClose_echo c total Hi Ho) as (c' & -> & Hi').
    cbn [mbind res_bind]. rewrite reply_nil, !app_nil_r. by exists c'.
  - destruct Hr as (c1 & -> & Hi1). cbn [mbind res_bind].
    assert (∃ c2, (if has e.1 POLLOUT then HandleWrite sys_writev invoke c1 else Ok c1) = Ok c2 ∧
      echo_inv c2 (total ++ reply (if has e.1 (Z.lor (Z.lor POLLIN POLLPRI) POLLRDHUP) then read_by c else []))) as (c2 & -> & Hi2)
      by (destruct (has e.1 POLLOUT); [by apply HandleWrite_echo|by exists c1]).
    cbn [mbind res_bind]. by exists c2.
Qed.
End echo.

Lemma OnMessage_answers invoke : (∀ t c, invoke (EvMessage t) c = OnMessage c) → answers invoke id.
Proof. intros Hi t c Hw Ht Hh Hs. rewrite Hi. by apply OnMessage_spec. Qed.

Lemma closed_same invoke :
  (∀ ev c, ev = EvConnection ∨ ev = EvClose → state_ c = kDisConnected → invoke ev c = Ok c) → closed_channel invoke.
Proof. intros Hi ev c c' He Hs. rewrite Hi by done. intros [= <-]. exists (channel_ c). by destruct c. Qed.

Lemma echo_run_inv sys_readv sys_writev invoke :
  (∀ k, readv_ok (sys_readv k)) → (∀ k, writev_ok (sys_writev k)) → callbacks_ok invoke → answers invoke id →
  closed_channel invoke → ∀ es c received,
  echo_inv c received → echo_legal sys_readv sys_writev invoke es (c, received) →
  ∃ c' received', echo_run sys_readv sys_writev invoke es (c, received) = Ok (c', received') ∧ echo_inv c' received'.
Proof.
  intros Hrv Hwv Hok Hm Hcl es. induction es as [|e es IH]; intros c received Hi Hl; [by exists c, received|].
  destruct Hl as (Ho & Hmask & Hl).
  destruct (echo_event_inv sys_readv sys_writev invoke Hrv Hwv Hok id eq_refl Hm Hcl e c received received Hi Ho Hmask) as (c1 & E & Hi1).
  cbn [echo_run]. rewrite E. cbn [mbind res_bind]. apply IH; [done|]. by apply Hl.
Qed.

Lemma echo_connection_inv fd : ∃ c, echo_connection fd = Ok c ∧ echo_inv c [].
Proof.
  destruct (EstablishConnection_ok EchoServer echo_server_ok fd true false false) as (c & E & []). exists c. split; [done|].
  unfold echo_connection in *. vm_compute in E. injection E as <-. split; try done. by left.
Qed.

Lemma echo_server_closed : closed_channel EchoServer.
Proof. apply closed_same. by intros ev c [-> | ->] _. Qed.

(** ** The theorem *)

(** The echo server sends back what it receives: after any events on a
    connection, however the kernel splits reads and writes, what the socket
    has taken followed by what waits in the output buffer is exactly what was
    received; nothing is left in the input buffer; and while something waits
    the connection asks to be told when it can write, and while it is
    connected, when it can read. *)
Theorem echo_server_echoes sys_readv sys_writev fd es :
  (∀ k, readv_ok (sys_readv k)) → (∀ k, writev_ok (sys_writev k)) →
  ∃ c0, echo_connection fd = Ok c0 ∧
    (echo_legal sys_readv sys_writev EchoServer es (c0, []) →
     ∃ c received, echo_run sys_readv sys_writev EchoServer es (c0, []) = Ok (c, received) ∧
       sent c ++ content (ouput_buffer_ c) = received ∧ content (input_buffer_ c) = [] ∧
       (open c → content (ouput_buffer_ c) ≠ [] → chan_writting (channel_ c) = true) ∧
       (state_ c = kConnected → chan_reading (channel_ c) = true)).
Proof.
  intros Hr Hw. destruct (echo_connection_inv fd) as (c0 & E0 & Hi0). exists c0. split; [done|]. intros Hl.
  destruct (echo_run_inv sys_readv sys_writev EchoServer Hr Hw echo_server_ok (OnMessage_answers _ (λ _ _, eq_refl))
    echo_server_closed es c0 [] Hi0 Hl)
    as (c & received & E & []). exists c, received.
  split_and!; [done|done|done|exact (cw_pending c ei_wf0)|done].
Qed.

(** ** A run *)

(** The kernel delivers a greeting in one read, a name in the next, then the
    end of the stream; it takes three bytes of each write. *)
Definition echo_readv (k : nat) : readv_fn :=
  λ lens, ReadvData (take (sum_list lens) (match k with 0 => B "hello" | 2 => B " muzi" | _ => [] end)).
Definition echo_writev (k : nat) : writev_fn := λ d, WritevN (Nat.min 3 (length d)).

Definition echo_events : list (Z * Z) :=
  [(POLLIN, 1%Z); (POLLOUT, 2%Z); (Z.lor POLLIN POLLOUT, 3%Z); (POLLOUT, 4%Z); (POLLOUT, 5%Z); (POLLIN, 6%Z)].

Lemma echo_server_echoes_witness : ∃ c0 c,
  echo_connection 9 = Ok c0 ∧ echo_run echo_readv echo_writev EchoServer echo_events (c0, []) = Ok (c, B "hello muzi") ∧
  sent c = B "hello muzi" ∧ state_ c = kDisConnected.
Proof.
  assert (∀ r, has r POLLHUP = false → mask_ok r) as Hm by (intros r Hr; unfold mask_ok; by rewrite Hr).
  destruct (echo_server_echoes echo_readv echo_writev) with (fd := 9%Z) (es := echo_events) as (c0 & E0 & H).
  - intros k lens d [= <-]. rewrite length_take. lia.
  - intros k d n E. assert (n = Nat.min 3 (length d)) as -> by (unfold echo_writev in E; congruence). apply Nat.le_min_r.
  - vm_compute in E0. injection E0 as <-.
    destruct H as (c & received & E & H1 & _).
    + repeat match goal with
      | |- echo_legal _ _ _ [] _ => exact I
      | |- echo_legal _ _ _ _ _ => split; [vm_compute; by left|split; [by apply Hm|]]
      | |- ∀ _, _ => intros ? E; vm_compute in E; injection E as <-
      end.
    + vm_compute in E. injection E as <- <-. eexists _, _. split_and!; [by vm_compute..|done].
Defined.
