(* ===== verification/Network.v ===== *)
(** Connections over a network that loses nothing: the kernel at one end of a
    connection, and what an event there, or a message sent there, does to the
    bytes on the way.  [PingPong] and [EchoClient] put two ends together. *)

From S2P Require Import Prelude ChainBuffer ByteQueue Poller TcpConnection EchoServer.

(** The kernel of one end: a read takes at most [k] of the bytes that have
    arrived, a write at most [k] bytes, or the call fails. *)
Definition kernel_readv (arrived : bytes) (k : option nat) : readv_fn :=
  λ lens, match k with
          | Some k => ReadvData (take (Nat.min k (sum_list lens)) arrived)
          | None => ReadvErr 11
          end.
Definition kernel_writev (k : option nat) : writev_fn :=
  λ d, match k with Some k => WritevN (Nat.min k (length d)) | None => WritevErr 11 end.

(** The connection [HandleRead] gives to the message callback, if it calls it. *)
Definition message_arg (readv : readv_fn) (t : Z) (c : TcpConnection ChainBuffer) : option (TcpConnection ChainBuffer) :=
  match ReadFd readv (input_buffer_ c) with
  | Ok (n, _, q) =>
      if decide (0 < n)%Z then Some (set_trace (trace c ++ [EvMessage t]) (set_input q (tick c))) else None
  | Fault _ => None
  end.

Lemma kernel_readv_ok arrived k : readv_ok (kernel_readv arrived k).
Proof.
  intros lens d. unfold kernel_readv. destruct k; [|done]. intros [= <-]. rewrite length_take. lia.
Qed.

Lemma kernel_writev_ok k : writev_ok (kernel_writev k).
Proof. intros d n. unfold kernel_writev. destruct k; [|done]. intros [= <-]. lia. Qed.

(** What a read takes is what has arrived first. *)
Lemma read_by_kernel arrived k c got :
  echo_inv c got →
  read_by (λ _, kernel_readv arrived k) c = take (length (read_by (λ _, kernel_readv arrived k) c)) arrived.
Proof.
  intros Hi. pose proof (ei_input _ _ Hi) as Hin. unfold read_by.
  destruct (ReadFd_spec (kernel_readv arrived k) (input_buffer_ c)) as (x & -> & Hx); [apply Hi|apply kernel_readv_ok|].
  rewrite Hin in *. unfold kernel_readv in Hx. destruct k as [k|].
  - destruct Hx as (b' & -> & _ & Hc). cbn [length]. rewrite Hc, drop_0. cbn [app].
    rewrite length_take. by rewrite <- (take_take arrived _ (length arrived)), firstn_all.
  - subst x. cbn. by rewrite Hin.
Qed.

Lemma drop_of_take {A} (d arrived : list A) : d = take (length d) arrived → d ++ drop (length d) arrived = arrived.
Proof. intros H. rewrite H at 1. apply take_drop. Qed.

(** An event at an end: it reads [d], the first of what has arrived, the
    stream grows by the reply to it, and the socket takes [x]. *)
Lemma end_event invoke reply arrived nr nw e c total got :
  callbacks_ok invoke → reply [] = [] → answers invoke reply →
  closed_channel invoke →
  echo_inv c total → open c → mask_ok e.1 →
  ∃ c' d x,
    echo_event (λ _, kernel_readv arrived nr) (λ _, kernel_writev nw) invoke e (c, got) = Ok (c', got ++ d) ∧
    echo_inv c' (total ++ reply d) ∧ d = take (length d) arrived ∧ sent c' = sent c ++ x ∧
    d = event_read (λ _, kernel_readv arrived nr) e c.
Proof.
  intros Hok Hnil Hm Hcl Hi Ho He.
  destruct (echo_event_inv (λ _, kernel_readv arrived nr) (λ _, kernel_writev nw) invoke
    (λ _, kernel_readv_ok _ _) (λ _, kernel_writev_ok _) Hok reply Hnil Hm Hcl e c total got Hi Ho He) as (c' & E & Hi').
  exists c', (event_read (λ _, kernel_readv arrived nr) e c).
  destruct (HandleEvent_sound (λ _, kernel_readv arrived nr) (λ _, kernel_writev nw) invoke
    (λ _, kernel_readv_ok _ _) (λ _, kernel_writev_ok _) Hok e.1 e.2 c (ei_wf _ _ Hi) (ei_thread _ _ Hi) Ho He)
    as (c1 & E1 & _ & Hx & _).
  assert (c1 = c') as -> by (unfold echo_event in E; rewrite E1 in E; cbn [mbind res_bind] in E; by injection E as <-).
  destruct (ex_sent _ _ Hx) as (x & Ex). exists x. split_and!; try done.
  unfold event_read. destruct (has _ _); [by eapply read_by_kernel|done].
Qed.

(** The message callback runs when something was read, and finds it. *)
Lemma message_arg_read readv t c got :
  echo_inv c got → readv_ok readv →
  match message_arg readv t c with
  | Some arg => wf (input_buffer_ arg) ∧ content (input_buffer_ arg) = read_by (λ _, readv) c ∧ read_by (λ _, readv) c ≠ []
  | None => read_by (λ _, readv) c = []
  end.
Proof.
  intros Hi Hr. unfold message_arg, read_by. pose proof (ei_input _ _ Hi) as Hin.
  destruct (ReadFd_outcome readv (input_buffer_ c)) as (n & err & q & E & Hq & Ho); [apply Hi|done|].
  rewrite E. rewrite Hin in *. inversion Ho as [x E1 E2 E3|d E1 E2 E3]; subst n; cbn [app] in E3.
  - rewrite decide_False by lia. cbn [length]. by rewrite drop_0.
  - cbn [length]. rewrite drop_0. destruct (decide _).
    + cbn [input_buffer_ set_trace set_input]. split_and!; [done|done|]. intros E0. change (bq_content q) with (content q) in E3. rewrite E0 in E3. subst d. cbn in *. lia.
    + rewrite <- E3. apply nil_length_inv. lia.
Qed.

(** Bytes that wait at an end wait for its socket. *)
Lemma waits c got : echo_inv c got → state_ c = kConnected → content (ouput_buffer_ c) ≠ [] → chan_writting (channel_ c) = true.
Proof. intros Hi Hs. apply (cw_pending _ (ei_wf _ _ Hi)). by left. Qed.

(** ** Sending in the loop *)

Section send.
Variable sys_write : nat → bytes → writev_result.
Variable invoke : cb_event → TcpConnection ChainBuffer → res (TcpConnection ChainBuffer).
Hypothesis write_whole : writes_whole sys_write.
Hypothesis invoke_law : callbacks_ok invoke.

(** Buffering what a direct write has not taken. *)
Lemma buffer_setup first len c c1 :
  conn_wf c → state_ c = kConnected → high_water_callback_ c = false → len ≤ length first →
  (c' ← high_water invoke len c;
   q ← bq_append (ouput_buffer_ c') (drop 0 first) len;
   enable_writting_if_not (set_output q c')) = Ok c1 →
  same_setup c c1 ∧ state_ c1 = kConnected ∧ input_buffer_ c1 = input_buffer_ c ∧ stream c1 = stream c ++ take len first.
Proof.
  intros Hw Hs Hh Hl. unfold high_water. rewrite decide_False by (rewrite Hh; by intros (_ & _ & ?)).
  cbn [mbind res_bind]. rewrite drop_0.
  destruct (bq_append_law (ouput_buffer_ c) first len) as (q & -> & Hq & Hc); [apply Hw|done|]. cbn [mbind res_bind].
  destruct (append_output_sound c q (take len first) Hw (or_introl Hs) Hq Hc) as (c' & E & _ & _ & _ & Hst & _).
  rewrite E. intros [= <-]. by destruct (enable_writting_setup _ _ E) as (? & -> & ->).
Qed.

(** The bytes come behind the stream: the kernel takes them at once or they
    wait. *)
Lemma SendInLoop_setup first len c0 :
  conn_wf c0 → in_loop_thread c0 = true → state_ c0 = kConnected →
  write_complete_callback_ c0 = false → high_water_callback_ c0 = false → len ≤ length first →
  ∃ c1, SendInLoop sys_write invoke first len c0 = Ok c1 ∧ conn_wf c1 ∧
    same_setup c0 c1 ∧ state_ c1 = kConnected ∧ input_buffer_ c1 = input_buffer_ c0 ∧ stream c1 = stream c0 ++ take len first ∧
    ∃ x, sent c1 = sent c0 ++ x.
Proof.
  intros Hw Ht Hs Hc Hh Hl.
  destruct (SendInLoop_sends sys_write invoke write_whole invoke_law first len c0 Hw Ht Hl) as [(c1 & E & Hw1 & He & _) _].
  exists c1. split; [done|]. split; [done|]. pose proof (ex_sent _ _ He) as Hsent. clear He.
  enough (same_setup c0 c1 ∧ state_ c1 = kConnected ∧ input_buffer_ c1 = input_buffer_ c0 ∧ stream c1 = stream c0 ++ take len first)
    as (? & ? & ? & ?) by done. clear Hsent. revert E.
  unfold SendInLoop, AssertInLoopThread. rewrite Ht. cbn [mbind res_bind]. rewrite decide_False by congruence.
  assert (∀ c, tick c0 = c ∨ c0 = c → (if decide (0 < len) then
      c' ← high_water invoke len c; q ← bq_append (ouput_buffer_ c') (drop 0 first) len;
      enable_writting_if_not (set_output q c') else Ok c) = Ok c1 →
    same_setup c0 c1 ∧ state_ c1 = kConnected ∧ input_buffer_ c1 = input_buffer_ c0 ∧ stream c1 = stream c0 ++ take len first) as Hbuf.
  { intros c Hd. assert (conn_wf c) as Hwc by (destruct Hd as [<-| <-]; [by apply (conn_wf_same c0)|done]).
    destruct (decide _).
    - intros (S1 & S2 & S3 & S4)%buffer_setup; [|done|by destruct Hd as [<-| <-]..|done]. by destruct Hd as [<-| <-].
    - intros [= <-]. assert (len = 0) as -> by lia. rewrite app_nil_r. by destruct Hd as [<-| <-]. }
  destruct (negb _ && _) eqn:Eg; cbn [mbind res_bind]; [|intros E; apply (Hbuf c0); auto].
  apply andb_true_iff in Eg as [_ Eg%bool_decide_eq_true]. rewrite bq_readable_law in Eg by apply Hw. apply nil_length_inv in Eg.
  unfold write_directly, read_mem. rewrite decide_True by done. cbn [mbind res_bind].
  destruct (sys_write _ _) as [e|n] eqn:Ew; cbn [mbind res_bind]; [intros E; apply (Hbuf (tick c0)); auto|].
  destruct (decide (0 < n)); cbn [mbind res_bind]; [|intros E; apply (Hbuf (tick c0)); auto].
  destruct (write_whole _ _ _ Ew) as [->| ->]; [lia|]. rewrite length_take, Nat.min_l by lia.
  cbn [write_complete_callback_ set_sent tick set_calls].
  rewrite (decide_False (P := _ ∧ _)) by (rewrite Hc; by intros [_ ?]). cbn [mbind res_bind]. rewrite decide_False by lia.
  intros [= <-]. split_and!; try done. unfold stream. cbn. rewrite take_take, Nat.min_id. change (content (ouput_buffer_ c0) = []) in Eg. by rewrite Eg, !app_nil_r.
Qed.
End send.
