(* ===== verification/PingPong.v ===== *)
(** The ping-pong benchmark: [examples/pingpong/client.cc] and
    [server.cc].  A session sends a block of bytes and both ends send back
    whatever they receive; the two connections, with their chained buffers,
    are put together over a network of two queues of bytes.  Then the count of
    connected sessions the client keeps. *)

From S2P Require Import Prelude ChainBuffer ByteQueue Endian Poller TcpConnection EchoServer Network.

(** ** The server *)

(** It sets the socket option [TCP_NODELAY], which no part of the model sees. *)
Definition server_onConnection (c : TcpConnection ChainBuffer) : res (TcpConnection ChainBuffer) := Ok c.

Definition server_onMessage (c : TcpConnection ChainBuffer) : res (TcpConnection ChainBuffer) :=
  c ← Send_buffer (λ _ c, Ok c) (input_buffer_ c) c;
  Ok (set_input (RetriveAll (input_buffer_ c)) c).

Definition server_callbacks (ev : cb_event) (c : TcpConnection ChainBuffer) : res (TcpConnection ChainBuffer) :=
  match ev with
  | EvConnection => server_onConnection c
  | EvMessage _ => server_onMessage c
  | _ => Ok c
  end.

(** ** A session of the client *)

(** [Client::message_]; [blockSize] may be negative, then there is none. *)
Definition message (blockSize : Z) : bytes :=
  (λ i, byte_of (Z.of_nat i mod 128)) <$> seq 0 (Z.to_nat blockSize).

(** The counters are [int64_t]s; no run counts far enough to overflow them. *)
Record Session := mkSession {
  conn : TcpConnection ChainBuffer   (** that of [client_] *);
  bytesRead_ : Z;
  bytesWritten_ : Z;
  messagesRead_ : Z;
  messageWrittten_ : Z
}.

Section session.
Variable sys_write : nat → bytes → writev_result.
Variable block : bytes   (** the owner's message *).

(** [Session::onConnection]; the [std::string] sent ends in a NUL.  What it
    tells the owner is in [Client] below. *)
Definition onConnection (c : TcpConnection ChainBuffer) : res (TcpConnection ChainBuffer) :=
  if decide (state_ c = kConnected)
  then Send sys_write (λ _ c, Ok c) (block ++ [nul]) (length block) c
  else Ok c.

(** What [Session::onMessage] does to the counters when it is given a buffer
    of [n] readable bytes. *)
Definition count_message (n : nat) (s : Session) : Session :=
  mkSession (conn s) (bytesRead_ s + Z.of_nat n) (bytesWritten_ s) (messagesRead_ s + 1) (messageWrittten_ s + 1).

Definition onMessage (c : TcpConnection ChainBuffer) : res (TcpConnection ChainBuffer) :=
  c ← Send_buffer (λ _ c, Ok c) (input_buffer_ c) c;
  Ok (set_input (RetriveAll (input_buffer_ c)) c).

Definition Session_callbacks (ev : cb_event) (c : TcpConnection ChainBuffer) : res (TcpConnection ChainBuffer) :=
  match ev with
  | EvConnection => onConnection c
  | EvMessage _ => onMessage c
  | _ => Ok c
  end.

(** A session whose connection has just been made. *)
Definition Session_new (fd : Z) : res Session :=
  c ← EstablishConnection Session_callbacks (TcpConnection_new fd true false false);
  Ok (mkSession c 0 0 0 0).

(** An event of the session's socket; [got] is what the session has read. *)
Definition session_event (readv : readv_fn) (writev : writev_fn) (e : Z * Z) (s : Session) (got : bytes) :
    res (Session * bytes) :=
  '(c, got) ← echo_event (λ _, readv) (λ _, writev) Session_callbacks e (conn s, got);
  let s' := match (if has e.1 (Z.lor (Z.lor POLLIN POLLPRI) POLLRDHUP) then message_arg readv e.2 (conn s) else None) with
            | Some arg => count_message (ReadableBytes (input_buffer_ arg)) s
            | None => s
            end in
  Ok (mkSession c (bytesRead_ s') (bytesWritten_ s') (messagesRead_ s') (messageWrittten_ s'), got).
End session.

(** ** The two ends and the network between them *)

Record Ring := mkRing {
  session : Session;
  server : TcpConnection ChainBuffer;
  to_server : bytes   (** on the way, as [to_client] *);
  to_client : bytes;
  client_got : bytes   (** read so far, as [server_got] *);
  server_got : bytes
}.

Record ring_event := mkEvent {
  on_client : bool;
  event : Z * Z   (** the mask and the time *);
  nread : option nat;
  nwrite : option nat
}.

Section ring.
Variable sys_write : nat → bytes → writev_result.
Variable block : bytes.

Definition ring_start (fd_client fd_server : Z) : res Ring :=
  s ← Session_new sys_write block fd_client;
  c ← EstablishConnection server_callbacks (TcpConnection_new fd_server true false false);
  Ok (mkRing s c (sent (conn s)) (sent c) [] []).

Definition ring_step (e : ring_event) (r : Ring) : res Ring :=
  if on_client e then
    '(s, got) ← session_event sys_write block (kernel_readv (to_client r) (nread e)) (kernel_writev (nwrite e))
                  (event e) (session r) (client_got r);
    Ok (mkRing s (server r) (to_server r ++ drop (length (sent (conn (session r)))) (sent (conn s)))
          (drop (length got - length (client_got r)) (to_client r)) got (server_got r))
  else
    '(c, got) ← echo_event (λ _, kernel_readv (to_server r) (nread e)) (λ _, kernel_writev (nwrite e))
                  server_callbacks (event e) (server r, server_got r);
    Ok (mkRing (session r) c (drop (length got - length (server_got r)) (to_server r))
          (to_client r ++ drop (length (sent (server r))) (sent c)) (client_got r) got).

Fixpoint ring_run (es : list ring_event) (r : Ring) : res Ring :=
  match es with [] => Ok r | e :: es => r ← ring_step e r; ring_run es r end.

(** Events come to an end while its connection is open. *)
Fixpoint ring_legal (es : list ring_event) (r : Ring) : Prop :=
  match es with
  | [] => True
  | e :: es => open (if on_client e then conn (session r) else server r) ∧ mask_ok (event e).1 ∧
               ∀ r', ring_step e r = Ok r' → ring_legal es r'
  end.
End ring.

(** ** One end *)

Lemma server_callbacks_echo ev c : server_callbacks ev c = EchoServer ev c.
Proof. by destruct ev. Qed.

Lemma server_callbacks_ok : callbacks_ok server_callbacks.
Proof. intros ev c. rewrite server_callbacks_echo. apply echo_server_ok. Qed.

Section ends.
Variable sys_write : nat → bytes → writev_result.
Variable block : bytes.
Hypothesis write_whole : writes_whole sys_write.

Lemma onConnection_closed : closed_channel (Session_callbacks sys_write block).
Proof. apply closed_same. intros ev c [-> | ->] Hs; [|done]. cbn. unfold onConnection. by rewrite decide_False by (by rewrite Hs). Qed.

Lemma Session_callbacks_ok : callbacks_ok (Session_callbacks sys_write block).
Proof.
  intros ev c Hw Ht Hev. destruct (decide (ev = EvConnection)) as [->|Hne].
  - cbn. unfold onConnection, Send. rewrite Ht.
    destruct (decide _) as [Hs|]; [|by exists c].
    destruct (SendInLoop_sends sys_write (λ _ c, Ok c) write_whole silent_ok (block ++ [nul]) (length block) c Hw Ht)
      as [(c1 & E & Hw1 & He & Hh) _]; [rewrite length_app; lia|].
    exists c1. split_and!; try done. congruence.
  - destruct ev; [done|exact (echo_server_ok (EvMessage received_time) c Hw Ht Hev)|by exists c..].
Qed.

(** A session starts with its block in the stream. *)
Lemma Session_new_inv fd : ∃ s,
  Session_new sys_write block fd = Ok s ∧ echo_inv (conn s) block ∧ state_ (conn s) = kConnected ∧
  bytesRead_ s = 0%Z ∧ messagesRead_ s = 0%Z ∧ messageWrittten_ s = 0%Z.
Proof.
  destruct (EstablishConnection_ok (Session_callbacks sys_write block) Session_callbacks_ok fd true false false)
    as (c & E & [Hw _ Ht _]).
  unfold Session_new. rewrite E. cbn [mbind res_bind]. eexists. split; [done|]. cbn [conn].
  unfold EstablishConnection, on_channel, chan_enable_reading, chan_update in E.
  cbn [AssertInLoopThread TcpConnection_new in_loop_thread mbind res_bind assert close_callback_
    connection_callback_ state_ SetState channel_ a_status] in E.
  rewrite bool_decide_true in E by done. cbn [assert mbind res_bind a_status a_fd a_events] in E.
  unfold call_back in E. cbn [Session_callbacks] in E.
  destruct ChainBuffer_new_wf as [Hn Hc].
  unfold onConnection, Send in E. cbn [state_ set_trace set_channel SetState in_loop_thread] in E. rewrite !decide_True in E by done.
  destruct (SendInLoop_setup sys_write (λ _ c, Ok c) write_whole silent_ok (block ++ [nul]) (length block)
    (set_trace [EvConnection] (set_channel (mkAbs fd kReadEvent Registered) (SetState kConnected (TcpConnection_new fd true false false)))))
    as (c1 & E1 & _ & (S0 & S1 & S2 & S3 & S4) & Hs & Hi & Hst & _); try done.
  { apply (conn_wf_trace (set_channel (mkAbs fd kReadEvent Registered) (SetState kConnected (TcpConnection_new fd true false false))) EvConnection); [|by left].
    split; [exact Hn|exact Hn|done|intros _ Hx; by destruct Hx|split; [unfold closes; cbn; lia|done]]. }
  { rewrite length_app. lia. }
  rewrite take_app_length in Hst. assert (Ok c1 = Ok c) as [= ->] by (rewrite <- E1; exact E).
  split; [|done]. split; [done|by rewrite S1|by rewrite S2|by rewrite S3|by rewrite S4|by left|intros _; by rewrite S0|by rewrite Hi|].
  rewrite Hst. unfold stream. change (bq_content _) with (content ChainBuffer_new). by rewrite Hc.
Qed.
End ends.

(** ** The ring *)

Record ring_inv (block : bytes) (r : Ring) : Prop := {
  ri_client : echo_inv (conn (session r)) (block ++ client_got r);
  ri_server : echo_inv (server r) (server_got r);
  ri_up : sent (conn (session r)) = server_got r ++ to_server r;
  ri_down : sent (server r) = client_got r ++ to_client r;
  ri_bytes : bytesRead_ (session r) = Z.of_nat (length (client_got r));
  ri_messages : messageWrittten_ (session r) = messagesRead_ (session r);
  ri_some : (0 <= messagesRead_ (session r) <= bytesRead_ (session r))%Z
}.

Section ring.
Variable sys_write : nat → bytes → writev_result.
Variable block : bytes.
Hypothesis write_whole : writes_whole sys_write.

Lemma ring_start_inv f1 f2 : ∃ r,
  ring_start sys_write block f1 f2 = Ok r ∧ ring_inv block r ∧
  state_ (conn (session r)) = kConnected ∧ state_ (server r) = kConnected ∧ client_got r = [].
Proof.
  unfold ring_start. destruct (Session_new_inv sys_write block write_whole f1) as (s & -> & Hi & Hs & Hb & Hm & Hw).
  cbn [mbind res_bind]. destruct (echo_connection_inv f2) as (c & E & Hc).
  assert (EstablishConnection server_callbacks (TcpConnection_new f2 true false false) = Ok c ∧ sent c = [] ∧ state_ c = kConnected)
    as (-> & E2 & Es) by (vm_compute in E; injection E as <-; done).
  cbn [mbind res_bind]. eexists. split; [done|]. split; [|done]. split; cbn; try done; [by rewrite app_nil_r|by rewrite Hw, Hm|rewrite Hb, Hm; lia].
Qed.

Lemma ring_step_inv e r :
  ring_inv block r → open (if on_client e then conn (session r) else server r) → mask_ok (event e).1 →
  ∃ r', ring_step sys_write block e r = Ok r' ∧ ring_inv block r'.
Proof.
  intros [] Ho Hm. unfold ring_step. destruct (on_client e).
  - unfold session_event.
    destruct (end_event (Session_callbacks sys_write block) id (to_client r) (nread e) (nwrite e) (event e)
      (conn (session r)) (block ++ client_got r) (client_got r)) as (c' & d & x & -> & Hi & Hd & Hx & Hr); try done.
    { by apply Session_callbacks_ok. } { by apply OnMessage_answers. } { by apply onConnection_closed. }
    rewrite <- app_assoc in Hi.
    cbn [mbind res_bind]. eexists. split; [done|].
    assert (length d ≤ length (to_client r)) as Hl by (rewrite Hd, length_take; lia).
    set (cnt := match _ with Some arg => count_message _ _ | None => _ end).
    assert (bytesRead_ cnt = (bytesRead_ (session r) + Z.of_nat (length d))%Z ∧ messageWrittten_ cnt = messagesRead_ cnt ∧
            (0 <= messagesRead_ cnt <= bytesRead_ cnt)%Z) as (Hb & Hmw & Hbd).
    { subst cnt. rewrite Hr. unfold event_read. destruct (has _ _); [|cbn [length]; lia].
      pose proof (message_arg_read (kernel_readv (to_client r) (nread e)) (event e).2 _ _ ri_client0 (kernel_readv_ok _ _)) as Harg.
      destruct (message_arg _ _ _) as [arg|]; [|rewrite Harg; cbn [length]; lia].
      destruct Harg as (Hwa & Harg & Hne). unfold ReadableBytes. rewrite <- (content_length _ Hwa), Harg.
      cbn [count_message bytesRead_ messageWrittten_ messagesRead_]. destruct (read_by _ _); [done|]. cbn [length] in *. lia. }
    split; cbn [conn session server to_server to_client client_got server_got bytesRead_ messagesRead_ messageWrittten_]; try done.
    + by rewrite Hx, ri_up0, drop_app_length, app_assoc.
    + rewrite length_app, ri_down0, <- app_assoc. f_equal. replace (_ - _) with (length d) by lia. by rewrite drop_of_take.
    + rewrite length_app, Hb, ri_bytes0. lia.
  - destruct (end_event server_callbacks id (to_server r) (nread e) (nwrite e) (event e)
      (server r) (server_got r) (server_got r)) as (c' & d & x & -> & Hi & Hd & Hx & Hr); try done.
    { apply server_callbacks_ok. } { by apply OnMessage_answers. } { intros ev c. rewrite server_callbacks_echo. by apply echo_server_closed. }
    cbn [mbind res_bind]. eexists. split; [done|].
    split; cbn [conn session server to_server to_client client_got server_got]; try done.
    + rewrite length_app, ri_up0, <- app_assoc. f_equal. replace (_ - _) with (length d) by lia. by rewrite drop_of_take.
    + by rewrite Hx, ri_down0, drop_app_length, app_assoc.
Qed.

Lemma ring_run_inv es : ∀ r,
  ring_inv block r → ring_legal sys_write block es r →
  ∃ r', ring_run sys_write block es r = Ok r' ∧ ring_inv block r'.
Proof.
  induction es as [|e es IH]; intros r Hi Hl; [by exists r|]. destruct Hl as (Ho & Hm & Hl).
  destruct (ring_step_inv e r Hi Ho Hm) as (r1 & E & Hi1). cbn [ring_run]. rewrite E. cbn [mbind res_bind].
  apply IH; [done|]. by apply Hl.
Qed.
End ring.

(** What goes round: at any time, from the client's read position on, the
    bytes on the way to it, those the server has not yet written, those on
    the way to the server and those the client has not yet written. *)
Definition in_ring (r : Ring) : bytes :=
  to_client r ++ content (ouput_buffer_ (server r)) ++ to_server r ++ content (ouput_buffer_ (conn (session r))).

Lemma ring_conserves block r : ring_inv block r → block ++ client_got r = client_got r ++ in_ring r.
Proof.
  intros []. rewrite <- (ei_stream _ _ ri_client0). unfold stream, in_ring. rewrite ri_up0, <- (ei_stream _ _ ri_server0).
  unfold stream. rewrite ri_down0. by rewrite <- !app_assoc.
Qed.

(** A word that shifts into itself is periodic. *)
Lemma rotation_periodic {A} (m g w : list A) k x :
  0 < length m → m ++ g = g ++ w → g !! k = Some x → m !! (k `mod` length m) = Some x.
Proof.
  intros Hm E. revert x. induction (lt_wf k) as [k _ IH]. intros x Hk.
  assert ((m ++ g) !! k = Some x) as Hmg by (rewrite E; by apply lookup_app_l_Some).
  destruct (decide (k < length m)) as [Hlt|Hge].
  - rewrite lookup_app_l in Hmg by done. by rewrite Nat.mod_small.
  - rewrite lookup_app_r in Hmg by lia. apply IH in Hmg; [|lia].
    replace k with (k - length m + 1 * length m) by lia. by rewrite Nat.Div0.mod_add.
Qed.

Lemma message_lookup blockSize k x :
  message blockSize !! k = Some x → x = byte_of (Z.of_nat k mod 128).
Proof.
  unfold message. rewrite list_lookup_fmap, fmap_Some. intros (i & Hi & ->). by apply lookup_seq in Hi as [-> _].
Qed.

Lemma message_length blockSize : length (message blockSize) = Z.to_nat blockSize.
Proof. unfold message. by rewrite length_fmap, length_seq. Qed.

(** What the invariant says of the ring. *)
Lemma ring_settled blockSize r :
  (0 < blockSize)%Z → ring_inv (message blockSize) r →
  (∀ k x, client_got r !! k = Some x → x = byte_of (Z.of_nat k mod blockSize mod 128)) ∧
  length (in_ring r) = Z.to_nat blockSize ∧
  bytesRead_ (session r) = Z.of_nat (length (client_got r)) ∧
  messageWrittten_ (session r) = messagesRead_ (session r) ∧
  (0 <= messagesRead_ (session r) <= bytesRead_ (session r))%Z ∧
  (state_ (conn (session r)) = kConnected → state_ (server r) = kConnected →
   chan_reading (channel_ (conn (session r))) = true ∧ chan_reading (channel_ (server r)) = true ∧
   (to_client r ≠ [] ∨ to_server r ≠ [] ∨ chan_writting (channel_ (conn (session r))) = true ∨
    chan_writting (channel_ (server r)) = true)).
Proof.
  intros Hb Hi. pose proof (ring_conserves _ _ Hi) as Hc.
  assert (length (in_ring r) = Z.to_nat blockSize) as Hlen.
  { apply (f_equal length) in Hc. rewrite !length_app, message_length in Hc. lia. }
  split_and!; [|done|apply Hi..|].
  - intros k x Hk. apply (rotation_periodic (message blockSize) _ (in_ring r)) in Hk; [|rewrite message_length; lia|done].
    apply message_lookup in Hk. rewrite message_length, Nat2Z.inj_mod, Z2Nat.id in Hk by lia. done.
  - intros Hs1 Hs2. pose proof (ri_client _ _ Hi) as H1. pose proof (ri_server _ _ Hi) as H2.
    split_and!; [by apply H1|by apply H2|].
    destruct (decide (to_client r = [])) as [E1|]; [|by left]. destruct (decide (to_server r = [])) as [E2|]; [|by right; left].
    right. right. destruct (decide (content (ouput_buffer_ (conn (session r))) = [])) as [E3|]; [|left; by eapply waits].
    right. eapply waits; [done|done|]. intros E4. unfold in_ring in Hlen. rewrite E1, E2, E3, E4 in Hlen. cbn [app length] in Hlen. lia.
Qed.

(** ** The one direct write

    The client writes directly only when its connection comes up. *)
Section upto.
Context {Q : Type} `{ByteQueue Q}.
Implicit Types c : TcpConnection Q.
Variables i1 i2 : cb_event → TcpConnection Q → res (TcpConnection Q).
Hypothesis same : ∀ ev c, (ev = EvConnection → state_ c = kDisConnected) → i1 ev c = i2 ev c.

Lemma call_back_same ev c : (ev = EvConnection → state_ c = kDisConnected) → call_back i1 ev c = call_back i2 ev c.
Proof. intros Hev. by apply same. Qed.

Lemma HandleClose_same c : HandleClose i1 c = HandleClose i2 c.
Proof.
  unfold HandleClose. destruct (assert _); cbn [mbind res_bind]; [|done]. destruct (AssertInLoopThread c); cbn [mbind res_bind]; [|done].
  unfold on_channel. destruct (chan_disable_all _) as [x|]; cbn [mbind res_bind]; [|done].
  rewrite (call_back_same EvConnection) by done. destruct (call_back i2 EvConnection _); cbn [mbind res_bind]; [|done].
  by apply call_back_same.
Qed.

Lemma HandleEvent_same readv writev r t c :
  TcpConnection.HandleEvent readv writev i1 r t c = TcpConnection.HandleEvent readv writev i2 r t c.
Proof.
  assert (∀ x, HandleRead readv i1 t x = HandleRead readv i2 t x) as Hr.
  { intros x. unfold HandleRead. destruct (AssertInLoopThread x); cbn [mbind res_bind]; [|done].
    destruct (bq_readfd _ _) as [[[n err] q]|]; cbn [mbind res_bind]; [|done].
    rewrite HandleClose_same. by rewrite (call_back_same (EvMessage t)). }
  assert (∀ x, HandleWrite writev i1 x = HandleWrite writev i2 x) as Hw.
  { intros x. unfold HandleWrite. destruct (AssertInLoopThread x); cbn [mbind res_bind]; [|done].
    destruct (chan_writting _); [|done]. destruct (bq_writefd _ _) as [[[[n err] out] q]|]; cbn [mbind res_bind]; [|done].
    destruct (decide _); [done|]. destruct (decide _); [|done]. destruct (on_channel _ _); cbn [mbind res_bind]; [|done].
    by rewrite (call_back_same EvWriteComplete). }
  unfold TcpConnection.HandleEvent, HandleEventWithGuard, callbacks. cbn [Poller.read_callback_ Poller.write_callback_ Poller.error_callback_
    Poller.close_callback_ call fmap option_fmap option_map].
  destruct (if has r (Z.lor POLLERR POLLNVAL) then _ else _) as [c1|]; cbn [mbind res_bind]; [|done].
  rewrite Hr. destruct (if has r (Z.lor (Z.lor POLLIN POLLPRI) POLLRDHUP) then _ else _) as [c2|]; cbn [mbind res_bind]; [|done].
  rewrite Hw. destruct (if has r POLLOUT then _ else _) as [c3|]; cbn [mbind res_bind]; [|done]. by rewrite HandleClose_same.
Qed.
End upto.

Section first_write.
Variable sys_write : nat → bytes → writev_result.
Variable block : bytes.

Lemma Session_callbacks_same ev c :
  (ev = EvConnection → state_ c = kDisConnected) → Session_callbacks sys_write block ev c = Session_callbacks (made_whole sys_write) block ev c.
Proof.
  intros Hev. destruct ev; try done. specialize (Hev eq_refl).
  change (onConnection sys_write block c = onConnection (made_whole sys_write) block c).
  unfold onConnection. assert (state_ c ≠ kConnected) as Hn by congruence. by rewrite !decide_False.
Qed.

Lemma ring_step_made_whole e r : ring_step sys_write block e r = ring_step (made_whole sys_write) block e r.
Proof.
  unfold ring_step, session_event, echo_event. destruct (on_client e); [|done].
  by rewrite (HandleEvent_same _ _ Session_callbacks_same).
Qed.

Lemma ring_run_made_whole es : ∀ r, ring_run sys_write block es r = ring_run (made_whole sys_write) block es r.
Proof.
  induction es as [|e es IH]; intros r; [done|]. cbn [ring_run]. rewrite ring_step_made_whole.
  destruct (ring_step _ _ _ r); cbn [mbind res_bind]; [apply IH|done].
Qed.

Lemma ring_legal_made_whole es : ∀ r, ring_legal sys_write block es r → ring_legal (made_whole sys_write) block es r.
Proof.
  induction es as [|e es IH]; intros r; [done|]. intros (? & ? & Hl). split_and!; [done|done|]. intros r' E.
  apply IH, Hl. by rewrite ring_step_made_whole.
Qed.

(** The socket takes only a part of the block, the first write there is. *)
Definition block_short : bool :=
  match sys_write 0 block with WritevN n => bool_decide (0 < n < length block) | WritevErr _ => false end.

Lemma ring_start_made_whole f1 f2 :
  (∀ k, writev_ok (sys_write k)) → block_short = false → ring_start sys_write block f1 f2 = ring_start (made_whole sys_write) block f1 f2.
Proof.
  intros Hl Hs. unfold ring_start, Session_new. f_equal.
  set (c0 := set_trace (Q := ChainBuffer) [EvConnection] (set_channel (mkAbs f1 kReadEvent Registered) (SetState kConnected (TcpConnection_new f1 true false false)))).
  change (EstablishConnection (Session_callbacks sys_write block) (TcpConnection_new f1 true false false)) with
    (SendInLoop sys_write (λ _ c, Ok c) (block ++ [nul]) (length block) c0).
  change (EstablishConnection (Session_callbacks (made_whole sys_write) block) (TcpConnection_new f1 true false false)) with
    (SendInLoop (made_whole sys_write) (λ _ c, Ok c) (block ++ [nul]) (length block) c0).
  rewrite (SendInLoop_made_whole sys_write (λ _ c, Ok c) Hl (block ++ [nul]) (length block) c0); [done|rewrite length_app; lia|].
  unfold takes_part. rewrite take_app_length. change (calls c0) with 0. unfold block_short in Hs.
  destruct (sys_write 0 block); [by rewrite andb_false_r|]. by rewrite Hs, andb_false_r.
Qed.
End first_write.

(** C19: the ping-pong client and server over a network that loses nothing:
    unless the socket takes only a part of the client's first write, that of
    the whole block, where the code goes wrong ([short_write_overreads]),
    from the connection on and whatever events come at the two ends, however
    the kernel splits reads and writes, no assertion fails; the client reads
    its own block over and over, byte for byte; exactly the [blockSize] bytes
    of the block are always under way, in the two output buffers and the
    network; the counters are the bytes read and a number of messages of at
    least a byte each; and as long as both ends are connected they listen and
    something is in the network or waits for a socket to become writable, so
    the exchange never stalls. *)
Theorem pingpong_ring sys_write blockSize f1 f2 es :
  (∀ k, writev_ok (sys_write k)) → (0 < blockSize)%Z →
  (∃ n, sys_write 0 (message blockSize) = WritevN n ∧ 0 < n < Z.to_nat blockSize) ∨
  ∃ r0, ring_start sys_write (message blockSize) f1 f2 = Ok r0 ∧
    (ring_legal sys_write (message blockSize) es r0 →
     ∃ r, ring_run sys_write (message blockSize) es r0 = Ok r ∧
  (∀ k x, client_got r !! k = Some x → x = byte_of (Z.of_nat k mod blockSize mod 128)) ∧
  length (in_ring r) = Z.to_nat blockSize ∧
  bytesRead_ (session r) = Z.of_nat (length (client_got r)) ∧
  messageWrittten_ (session r) = messagesRead_ (session r) ∧
  (0 <= messagesRead_ (session r) <= bytesRead_ (session r))%Z ∧
  (state_ (conn (session r)) = kConnected → state_ (server r) = kConnected →
   chan_reading (channel_ (conn (session r))) = true ∧ chan_reading (channel_ (server r)) = true ∧
   (to_client r ≠ [] ∨ to_server r ≠ [] ∨ chan_writting (channel_ (conn (session r))) = true ∨
    chan_writting (channel_ (server r)) = true))).
Proof.
  intros Hl Hb. destruct (block_short sys_write (message blockSize)) eqn:Es; [left|right].
  { unfold block_short in Es. destruct (sys_write 0 _) as [|n]; [done|]. apply bool_decide_eq_true in Es.
    rewrite message_length in Es. by exists n. }
  rewrite (ring_start_made_whole sys_write _ f1 f2 Hl Es). pose proof (made_whole_whole sys_write) as Hw.
  destruct (ring_start_inv _ (message blockSize) Hw f1 f2) as (r0 & E0 & Hi0 & _). exists r0. split; [done|].
  intros Hleg%ring_legal_made_whole. destruct (ring_run_inv _ _ Hw es r0 Hi0 Hleg) as (r & E & Hi).
  exists r. rewrite ring_run_made_whole. split; [done|]. by apply ring_settled.
Qed.

(** A block of five bytes goes round once and a bit, the server's socket
    taking two bytes at a time. *)
Definition ring_example : list ring_event :=
  [mkEvent false (POLLIN, 1%Z) (Some 3) None; mkEvent false (Z.lor POLLIN POLLOUT, 2%Z) (Some 9) (Some 2);
   mkEvent true (POLLIN, 3%Z) (Some 9) None; mkEvent false (POLLOUT, 4%Z) None (Some 2);
   mkEvent true (Z.lor POLLIN POLLOUT, 5%Z) (Some 9) (Some 4); mkEvent false (POLLIN, 6%Z) (Some 9) None;
   mkEvent false (POLLOUT, 7%Z) None (Some 9); mkEvent true (POLLIN, 8%Z) (Some 9) None].

Definition ring_write (k : nat) (d : bytes) : writev_result := WritevN (length d).

Lemma ring_write_whole : writes_whole ring_write.
Proof. intros k d n [= <-]. by right. Qed.
Lemma ring_write_law k : writev_ok (ring_write k).
Proof. intros d n E. by injection E as <-. Qed.

Lemma pingpong_ring_witness : ∃ r0 r,
  ring_start ring_write (message 5) 7 9 = Ok r0 ∧ ring_run ring_write (message 5) ring_example r0 = Ok r ∧
  client_got r = byte_of <$> [0; 1; 2; 3; 4; 0; 1; 2; 3]%Z ∧ length (in_ring r) = 5 ∧
  bytesRead_ (session r) = 9%Z ∧ messagesRead_ (session r) = 3%Z.
Proof.
  assert (∀ r, has r POLLHUP = false → mask_ok r) as Hm by (intros r Hr; unfold mask_ok; by rewrite Hr).
  destruct (pingpong_ring ring_write 5 7 9 ring_example ring_write_law) as [(n & En & Hn)|(r0 & E0 & H)];
    [done|exfalso; injection En as <-; vm_compute in Hn; lia|].
  vm_compute in E0. injection E0 as <-. destruct H as (r & E & _ & Hl & _).
  - repeat match goal with
    | |- ring_legal _ _ [] _ => exact I
    | |- ring_legal _ _ _ _ => split; [vm_compute; by left|split; [by apply Hm|]]
    | |- ∀ _, _ => intros ? E; vm_compute in E; injection E as <-
    end.
  - vm_compute in E. injection E as <-. eexists _, _. split_and!; [by vm_compute..|done|by vm_compute|by vm_compute].
Defined.

(** ** The client's count of sessions *)

Inductive report :=
  | AllConnected
  | AllDisconnected (totalBytesRead totalMessagesRead : Z).

(** [quits] counts the [Client::quit]s queued. *)
Record Client := mkClient {
  sessionCount_ : Z;
  numConnected_ : Z;
  reports : list report;
  quits : nat
}.

Definition Client_new (sessionCount : Z) : Client := mkClient sessionCount 0 [] 0.

Definition onConnect (cl : Client) : Client :=
  mkClient (sessionCount_ cl) (numConnected_ cl + 1)
    (reports cl ++ if decide (numConnected_ cl = sessionCount_ cl - 1)%Z then [AllConnected] else []) (quits cl).

Definition onDisconnect (sessions : list Session) (cl : Client) : Client :=
  let n := (numConnected_ cl - 1)%Z in
  if decide (numConnected_ cl = 1%Z) then
    mkClient (sessionCount_ cl) n
      (reports cl ++ [AllDisconnected (foldr (λ s, Z.add (bytesRead_ s)) 0%Z sessions)
                        (foldr (λ s, Z.add (messagesRead_ s)) 0%Z sessions)]) (S (quits cl))
  else mkClient (sessionCount_ cl) n (reports cl) (quits cl).

(** What the connection callbacks of the sessions tell the client, in order:
    [None] for a new connection, for a closed one the sessions as they are. *)
Definition tell (e : option (list Session)) : Client → Client :=
  match e with None => onConnect | Some sessions => onDisconnect sessions end.

Fixpoint client_run (es : list (option (list Session))) (cl : Client) : Client :=
  match es with [] => cl | e :: es => client_run es (tell e cl) end.

Lemma client_run_app es es' cl : client_run (es ++ es') cl = client_run es' (client_run es cl).
Proof. revert cl. by induction es as [|e es IH]; intros cl; cbn; [|rewrite IH]. Qed.

Lemma client_connects k cl :
  (numConnected_ cl + Z.of_nat k <= sessionCount_ cl)%Z →
  client_run (replicate k None) cl =
    mkClient (sessionCount_ cl) (numConnected_ cl + Z.of_nat k)
      (reports cl ++ if decide ((numConnected_ cl + Z.of_nat k = sessionCount_ cl)%Z ∧ 0 < k) then [AllConnected] else []) (quits cl).
Proof.
  revert cl. induction k as [|k IH]; intros cl Hk; cbn [replicate client_run].
  - rewrite decide_False by lia. rewrite app_nil_r, Z.add_0_r. by destruct cl.
  - cbn [tell]. rewrite IH by (cbn; lia). cbn [sessionCount_ numConnected_ reports quits onConnect].
    rewrite <- app_assoc. f_equal; [lia|]. f_equal.
    destruct (decide (numConnected_ cl = _)), (decide (_ ∧ _)), (decide (_ ∧ _)); cbn; try done; lia.
Qed.

Lemma client_disconnects ss cl :
  numConnected_ cl = Z.of_nat (length ss) →
  client_run (Some <$> ss) cl =
    mkClient (sessionCount_ cl) 0
      (reports cl ++ match last ss with
                     | Some s => [AllDisconnected (foldr (λ s, Z.add (bytesRead_ s)) 0%Z s) (foldr (λ s, Z.add (messagesRead_ s)) 0%Z s)]
                     | None => []
                     end) (quits cl + (if ss is [] then 0 else 1)).
Proof.
  revert cl. induction ss as [|s ss IH]; intros cl Hn.
  - cbn. rewrite app_nil_r, Nat.add_0_r. destruct cl. cbn in *. by subst.
  - cbn [fmap list_fmap client_run tell]. unfold onDisconnect. destruct ss as [|s' ss].
    + rewrite decide_True by done. cbn. rewrite Hn. f_equal; lia.
    + rewrite decide_False by (cbn in Hn; lia). rewrite IH by (cbn in *; lia). done.
Qed.

(** When no session is lost before all are connected, the client reports
    "all connected" once and, with the last session, the totals, and it quits
    once. *)
Lemma client_normal_run (ss : list (list Session)) s :
  client_run (replicate (S (length ss)) None ++ (Some <$> (ss ++ [s]))) (Client_new (Z.of_nat (S (length ss)))) =
  mkClient (Z.of_nat (S (length ss))) 0
    [AllConnected; AllDisconnected (foldr (λ s, Z.add (bytesRead_ s)) 0%Z s) (foldr (λ s, Z.add (messagesRead_ s)) 0%Z s)] 1.
Proof.
  rewrite client_run_app, client_connects by (cbn; lia). cbn [Client_new sessionCount_ numConnected_ reports quits].
  rewrite decide_True by lia. rewrite client_disconnects by (cbn [numConnected_]; rewrite length_app; cbn; lia).
  cbn [sessionCount_ numConnected_ reports quits app]. rewrite last_snoc. by destruct ss.
Qed.

(** Two sessions, the first of which is lost before the second is connected:
    the client stops after the first, and stops again after the second. *)
Lemma client_stops_early :
  (client_run [None; Some []] (Client_new 2)).(quits) = 1 ∧
  client_run [None; Some []; None; Some []] (Client_new 2) = mkClient 2 0 [AllDisconnected 0 0; AllDisconnected 0 0] 2.
Proof. done. Qed.
