(* ===== verification/EchoClient.v ===== *)
(** The echo client of [muzi/examples/echo_client.cc] with the echo server: the
    main thread that reads lines and sends them, the loop of the connection
    that prints what comes back, and the server at the other end of a network
    that loses nothing. *)

From S2P Require Import Prelude ChainBuffer ByteQueue Poller TcpConnection SendOrder EchoServer Network.

(** ** The client's callbacks *)

Definition newline : bytes := ["010"%char].

(** It only logs. *)
Definition OnConnection (c : TcpConnection ChainBuffer) : res (TcpConnection ChainBuffer) := Ok c.

(** The text [OnMessage] prints for a message. *)
Definition message_text (m : bytes) : bytes := B "Message from server:" ++ newline ++ m ++ newline.

(** The first part of the result goes to [std::cout]. *)
Definition OnMessage (c : TcpConnection ChainBuffer) : res (bytes * TcpConnection ChainBuffer) :=
  '(s, q) ← RetriveAllAsString (input_buffer_ c);
  Ok (message_text s, set_input q c).

Definition client_callbacks (ev : cb_event) (c : TcpConnection ChainBuffer) : res (TcpConnection ChainBuffer) :=
  match ev with
  | EvConnection => OnConnection c
  | EvMessage _ => '(_, c) ← OnMessage c; Ok c
  | _ => Ok c
  end.

(** ** The program *)

(** Where the main thread is: in [std::getline], past the test of
    [conn->IsConnected()] with a line to send, after the loop. *)
Inductive main_state := Reads | Sends (line : bytes) | Exits.

Record Talk := mkTalk {
  main : main_state;
  client : TcpConnection ChainBuffer;
  server : TcpConnection ChainBuffer;
  to_server : bytes   (** on the way, as [to_client] *);
  to_client : bytes;
  client_got : bytes   (** read so far, as [server_got] *);
  server_got : bytes;
  cout : list bytes   (** what [OnMessage] has printed *);
  typed : list bytes   (** the lines whose [Send] found the connection up *)
}.

(** A line comes, or the end of the input; the main thread calls [Send]; the
    client's loop runs a functor; an event at the client or the server. *)
Inductive talk_event :=
  | TInput (line : option bytes)
  | TSend
  | TRun
  | TClient (event : Z * Z) (nread nwrite : option nat)
  | TServer (event : Z * Z) (nread nwrite : option nat).

Definition IsConnected (c : TcpConnection ChainBuffer) : bool := bool_decide (state_ c = kConnected).

(** The loop of [main], from [std::getline] to [Send]. *)
Definition main_input (line : option bytes) (c : TcpConnection ChainBuffer) : main_state :=
  match line with
  | None => Exits
  | Some line => if IsConnected c then if decide (line = B "Q" ∨ line = B "q") then Exits else Sends line else Exits
  end.

Definition set_main (m : main_state) (t : Talk) : Talk :=
  mkTalk m (client t) (server t) (to_server t) (to_client t) (client_got t) (server_got t) (cout t) (typed t).

(** The client's connection becomes [c]; what its socket has taken is on the
    way. *)
Definition set_client (c : TcpConnection ChainBuffer) (t : Talk) : Talk :=
  mkTalk (main t) c (server t) (to_server t ++ drop (length (sent (client t))) (sent c)) (to_client t)
    (client_got t) (server_got t) (cout t) (typed t).

Section talk.
Variable sys_write : nat → bytes → writev_result.

(** A thread that is elsewhere does not move. *)
Definition talk_step (e : talk_event) (t : Talk) : res Talk :=
  match e with
  | TInput line => Ok (if main t is Reads then set_main (main_input line (client t)) t else t)
  | TSend =>
      if main t is Sends line then
        c ← in_thread false (Send sys_write client_callbacks (line ++ [nul]) (length line)) (client t);
        Ok (mkTalk Reads c (server t) (to_server t) (to_client t) (client_got t) (server_got t) (cout t)
              (if IsConnected (client t) then typed t ++ [line] else typed t))
      else Ok t
  | TRun => c ← RunFunctor sys_write client_callbacks (client t); Ok (set_client c t)
  | TClient ev nr nw =>
      let readv := kernel_readv (to_client t) nr in
      '(c, got) ← echo_event (λ _, readv) (λ _, kernel_writev nw) client_callbacks ev (client t, client_got t);
      let said := match (if has ev.1 (Z.lor (Z.lor POLLIN POLLPRI) POLLRDHUP) then message_arg readv ev.2 (client t) else None) with
                  | Some arg => match OnMessage arg with Ok (s, _) => [s] | Fault _ => [] end
                  | None => []
                  end in
      Ok (mkTalk (main t) c (server t) (to_server t ++ drop (length (sent (client t))) (sent c))
            (drop (length got - length (client_got t)) (to_client t)) got (server_got t) (cout t ++ said) (typed t))
  | TServer ev nr nw =>
      '(c, got) ← echo_event (λ _, kernel_readv (to_server t) nr) (λ _, kernel_writev nw) EchoServer ev (server t, server_got t);
      Ok (mkTalk (main t) (client t) c (drop (length got - length (server_got t)) (to_server t))
            (to_client t ++ drop (length (sent (server t))) (sent c)) (client_got t) got (cout t) (typed t))
  end.

Fixpoint talk_run (es : list talk_event) (t : Talk) : res Talk :=
  match es with [] => Ok t | e :: es => t ← talk_step e t; talk_run es t end.

(** Events come to an end while its connection is open. *)
Definition talk_can (e : talk_event) (t : Talk) : Prop :=
  match e with
  | TClient ev _ _ => open (client t) ∧ mask_ok ev.1
  | TServer ev _ _ => open (server t) ∧ mask_ok ev.1
  | _ => True
  end.

Fixpoint talk_legal (es : list talk_event) (t : Talk) : Prop :=
  match es with
  | [] => True
  | e :: es => talk_can e t ∧ ∀ t', talk_step e t = Ok t' → talk_legal es t'
  end.
End talk.

(** Both ends have just been connected. *)
Definition talk_start (fd_client fd_server : Z) : res Talk :=
  c ← EstablishConnection client_callbacks (TcpConnection_new fd_client true false false);
  s ← echo_connection fd_server;
  Ok (mkTalk Reads c s (sent c) (sent s) [] [] [] []).

(** ** The client's callbacks *)

Lemma client_message_spec c :
  wf (input_buffer_ c) →
  ∃ q, OnMessage c = Ok (message_text (content (input_buffer_ c)), set_input q c) ∧
    wf q ∧ content q = [].
Proof.
  intros Hw. unfold OnMessage, RetriveAllAsString. rewrite PeekAll_spec by done. cbn [mbind res_bind].
  eexists. split; [done|]. by destruct (RetriveAll_spec (input_buffer_ c) Hw).
Qed.

Lemma conn_wf_input q (c : TcpConnection ChainBuffer) : conn_wf c → wf q → conn_wf (set_input q c).
Proof. intros [] ?. by split. Qed.

Lemma client_callbacks_ok : callbacks_ok client_callbacks.
Proof.
  intros ev c Hw Ht _. destruct ev as [|t| | |n]; try (exists c; by split_and!).
  cbn [client_callbacks]. destruct (client_message_spec c) as (q & -> & Hq & _); [apply Hw|]. cbn [mbind res_bind].
  eexists. split; [done|]. split_and!; [by apply conn_wf_input|by apply extends_same|done|done].
Qed.

Lemma client_callbacks_quiet : quiet client_callbacks.
Proof.
  intros ev c c' E. destruct ev as [|t| | |n]; try (injection E as <-; done). cbn in E.
  destruct (OnMessage c) as [[s c1]|] eqn:E1; [|done]. injection E as <-. unfold OnMessage in E1.
  destruct (RetriveAllAsString _) as [[s' q]|]; [|done]. by injection E1 as _ <-.
Qed.

(** It sends nothing. *)
Lemma client_answers : answers client_callbacks (λ _, []).
Proof.
  intros t c Hw Ht Hh Hs. cbn [client_callbacks]. destruct (client_message_spec c) as (q & -> & Hq & Hc); [apply Hw|].
  cbn [mbind res_bind]. eexists. split; [done|]. rewrite app_nil_r. split_and!; try done. by apply conn_wf_input.
Qed.

Lemma client_closed : closed_channel client_callbacks.
Proof. apply closed_same. by intros ev c [-> | ->] _. Qed.

(** An event at the client leaves the queue of its loop. *)
Lemma client_event_functors arrived nr nw ev c total got c' got' :
  echo_inv c total → open c → mask_ok ev.1 →
  echo_event (λ _, kernel_readv arrived nr) (λ _, kernel_writev nw) client_callbacks ev (c, got) = Ok (c', got') →
  functors_ c' = functors_ c.
Proof.
  intros Hi Ho Hm E. unfold echo_event in E.
  destruct (HandleEvent _ _ _ _ _ c) as [c1|] eqn:E1; [|done]. injection E as <- _.
  by destruct (HandleEvent_keeps (λ _, kernel_readv arrived nr) (λ _, kernel_writev nw) client_callbacks (λ _, kernel_readv_ok _ _)
    (λ _, kernel_writev_ok _) client_callbacks_ok client_callbacks_quiet _ _ _ _ (ei_wf _ _ Hi) (ei_thread _ _ Hi) Ho Hm E1).
Qed.

(** ** The invariant *)

(** [queued]: the lines that wait in the loop; [done_]: those it has sent. *)
Record talk_inv (t : Talk) (done_ : bytes) (queued : list bytes) : Prop := {
  ti_client : echo_inv (client t) done_;
  ti_queue : functors_ (client t) = FSendInLoop <$> queued;
  ti_typed : if decide (state_ (client t) = kConnected) then done_ ++ concat queued = concat (typed t)
             else done_ `prefix_of` concat (typed t);
  ti_server : echo_inv (server t) (server_got t);
  ti_up : sent (client t) = server_got t ++ to_server t;
  ti_down : sent (server t) = client_got t ++ to_client t;
  ti_cout : ∃ ms, cout t = message_text <$> ms ∧
              Forall (λ m, m ≠ []) ms ∧ concat ms = client_got t
}.

Lemma talk_start_inv f1 f2 : ∃ t, talk_start f1 f2 = Ok t ∧ talk_inv t [] [] ∧ state_ (client t) = kConnected ∧ typed t = [].
Proof.
  unfold talk_start. destruct (EstablishConnection_ok client_callbacks client_callbacks_ok f1 true false false) as (c & E & []).
  rewrite E. cbn [mbind res_bind]. destruct (echo_connection_inv f2) as (s & Es & Hs). rewrite Es. cbn [mbind res_bind].
  assert (sent s = []) as Hsent by (vm_compute in Es; by injection Es as <-).
  vm_compute in E. injection E as <-. eexists. split; [done|]. split; [|done].
  split; cbn [client server to_server to_client client_got server_got cout typed]; try done.
  - split; try done. by left.
  - by exists [].
Qed.

Lemma closed_state total (c : TcpConnection ChainBuffer) : echo_inv c total → state_ c ≠ kConnected → state_ c = kDisConnected.
Proof. intros Hi. by destruct (ei_state _ _ Hi). Qed.

(** Another thread calls [Send]. *)
Lemma remote_Send sys_write line c total :
  echo_inv c total →
  ∃ c', in_thread false (Send sys_write client_callbacks (line ++ [nul]) (length line)) c = Ok c' ∧ echo_inv c' total ∧
    state_ c' = state_ c ∧ sent c' = sent c ∧
    functors_ c' = functors_ c ++ if decide (state_ c = kConnected) then [FSendInLoop line] else [].
Proof.
  intros []. unfold in_thread, Send. cbn [state_ set_thread in_loop_thread]. destruct (decide (state_ c = kConnected)) as [Hs|Hs].
  - unfold read_mem. rewrite decide_True by (rewrite length_app; lia). cbn [mbind res_bind]. rewrite take_app_length.
    eexists. split; [done|]. split; [|done]. split; try done. by apply (conn_wf_same c).
  - cbn [mbind res_bind]. eexists. split; [done|]. rewrite app_nil_r. split; [|done]. split; try done. by apply (conn_wf_same c).
Qed.

(** The loop sends a line. *)
Lemma run_line sys_write line fs c total :
  writes_whole sys_write → echo_inv c total → functors_ c = FSendInLoop line :: fs →
  ∃ c' x, RunFunctor sys_write client_callbacks c = Ok c' ∧ functors_ c' = fs ∧ state_ c' = state_ c ∧ sent c' = sent c ++ x ∧
    echo_inv c' (total ++ if decide (state_ c = kConnected) then line else []).
Proof.
  intros Hww Hi Hf. pose proof Hi as []. unfold RunFunctor. rewrite Hf. cbn [run_functor].
  assert (conn_wf (set_functors fs c)) as Hw by by apply (conn_wf_same c).
  destruct (decide (state_ c = kConnected)) as [Hs|Hs].
  - destruct (SendInLoop_setup sys_write client_callbacks Hww client_callbacks_ok (line ++ [nul]) (length line) (set_functors fs c))
      as (c' & E & Hw' & (S0 & S1 & S2 & S3 & S4) & Hs' & Hin & Hst & x & Hx); try done.
    { rewrite length_app. lia. }
    rewrite take_app_length in Hst.
    exists c', x. split; [done|]. cbn [functors_ set_functors sent] in *.
    destruct (SendInLoop_follows sys_write client_callbacks Hww client_callbacks_ok client_callbacks_quiet (line ++ [nul]) (length line) (set_functors fs c) c')
      as [_ Hfs]; [done|done|by left|rewrite length_app; lia|done|].
    split_and!; [done|congruence|done|].
    split; [done|by rewrite S1|by rewrite S2|by rewrite S3|by rewrite S4|by left|intros _; rewrite S0; by apply ei_reading|by rewrite Hin|].
    rewrite Hst. change (stream (set_functors fs c)) with (stream c). by rewrite ei_stream.
  - unfold SendInLoop, AssertInLoopThread. cbn [in_loop_thread set_functors state_]. rewrite ei_thread. cbn [mbind res_bind].
    rewrite decide_True by by eapply closed_state. exists (set_functors fs c), []. rewrite !app_nil_r. split_and!; try done.
Qed.

Section run.
Variable sys_write : nat → bytes → writev_result.
Hypothesis write_whole : writes_whole sys_write.

Lemma concat_snoc {A} (l : list (list A)) x : concat (l ++ [x]) = concat l ++ x.
Proof. rewrite concat_app. cbn. by rewrite app_nil_r. Qed.

Lemma send_inv t d q line :
  talk_inv t d q → main t = Sends line → ∃ t' q', talk_step sys_write TSend t = Ok t' ∧ talk_inv t' d q'.
Proof.
  intros [] Hm. cbn [talk_step]. rewrite Hm.
  destruct (remote_Send sys_write line (client t) d ti_client0) as (c' & -> & Hi & Hs & Hx & Hf). cbn [mbind res_bind].
  exists (mkTalk Reads c' (server t) (to_server t) (to_client t) (client_got t) (server_got t) (cout t)
    (if IsConnected (client t) then typed t ++ [line] else typed t)), (if decide (state_ (client t) = kConnected) then q ++ [line] else q).
  split; [done|]. unfold IsConnected. split; cbn [client server to_server to_client client_got server_got cout typed]; try done.
  - rewrite Hf, ti_queue0. destruct (decide _); [by rewrite fmap_app|by rewrite app_nil_r].
  - rewrite Hs. case_bool_decide as Hc.
    + rewrite !decide_True in * by done. by rewrite !concat_snoc, app_assoc, ti_typed0.
    + rewrite !decide_False in * by done. done.
  - by rewrite Hx.
Qed.

Lemma client_run_inv t d q :
  talk_inv t d q → ∃ t' d' q', talk_step sys_write TRun t = Ok t' ∧ talk_inv t' d' q'.
Proof.
  intros Hinv. pose proof Hinv as []. cbn [talk_step]. destruct q as [|line q].
  - unfold RunFunctor. rewrite ti_queue0. cbn [mbind res_bind fmap list_fmap]. eexists _, d, []. split; [done|].
    unfold set_client. rewrite drop_all, app_nil_r. by destruct t.
  - destruct (run_line sys_write line (FSendInLoop <$> q) (client t) d) as (c' & x & -> & Hf & Hs & Hx & Hi); [done|done|done|].
    cbn [mbind res_bind]. eexists _, _, q. split; [done|].
    split; unfold set_client; cbn [client server to_server to_client client_got server_got cout typed]; try done.
    + rewrite Hs. destruct (decide _); [rewrite <- ti_typed0; cbn; by rewrite <- app_assoc|by rewrite app_nil_r].
    + by rewrite Hx, ti_up0, drop_app_length, app_assoc.
Qed.

Lemma client_inv t d q ev nr nw :
  talk_inv t d q → open (client t) → mask_ok ev.1 → ∃ t', talk_step sys_write (TClient ev nr nw) t = Ok t' ∧ talk_inv t' d q.
Proof.
  intros [] Ho Hm. cbn [talk_step].
  destruct (end_event client_callbacks (λ _, []) (to_client t) nr nw ev (client t) d (client_got t))
    as (c' & x & y & E & Hi & Hd & Hx & Hr); [apply client_callbacks_ok|done|apply client_answers|apply client_closed|done..|].
  pose proof (client_event_functors _ _ _ _ _ _ _ _ _ ti_client0 Ho Hm E) as Hf. rewrite E. cbn [mbind res_bind].
  eexists. split; [done|]. rewrite app_nil_r in Hi.
  assert (length x ≤ length (to_client t)) as Hl by (rewrite Hd, length_take; lia).
  split; cbn [client server to_server to_client client_got server_got cout typed]; try done.
  - by rewrite Hf.
  - assert (state_ (client t) = kConnected) as Hs.
    { destruct (ei_state _ _ ti_client0) as [|E']; [done|]. by apply closed_not_open in E'. }
    rewrite decide_True in ti_typed0 by done. destruct (decide _); [done|]. rewrite <- ti_typed0. by apply prefix_app_r.
  - by rewrite Hx, ti_up0, drop_app_length, app_assoc.
  - rewrite length_app, ti_down0, <- app_assoc. f_equal. replace (_ - _) with (length x) by lia. by rewrite drop_of_take.
  - destruct ti_cout0 as (ms & E1 & E2 & E3). rewrite Hr. unfold event_read.
    destruct (has _ _); [|exists ms; by rewrite !app_nil_r].
    pose proof (message_arg_read (kernel_readv (to_client t) nr) ev.2 _ _ ti_client0 (kernel_readv_ok _ _)) as Harg.
    destruct (message_arg _ _ _) as [arg|]; [|rewrite Harg; exists ms; by rewrite !app_nil_r].
    destruct Harg as (Hwa & Ha & Hne). destruct (client_message_spec arg Hwa) as (q' & -> & _).
    exists (ms ++ [content (input_buffer_ arg)]). rewrite fmap_app, concat_snoc, E1, E3, Ha. split_and!; [done| |done].
    apply Forall_app. split; [done|]. by apply Forall_singleton.
Qed.

Lemma server_inv t d q ev nr nw :
  talk_inv t d q → open (server t) → mask_ok ev.1 → ∃ t', talk_step sys_write (TServer ev nr nw) t = Ok t' ∧ talk_inv t' d q.
Proof.
  intros [] Ho Hm. cbn [talk_step].
  destruct (end_event EchoServer id (to_server t) nr nw ev (server t) (server_got t) (server_got t))
    as (c' & x & y & -> & Hi & Hd & Hx & _); [apply echo_server_ok|done|by apply OnMessage_answers|apply echo_server_closed|done..|].
  cbn [mbind res_bind]. eexists. split; [done|].
  split; cbn [client server to_server to_client client_got server_got cout typed]; try done.
  - rewrite length_app, ti_up0, <- app_assoc. f_equal. replace (_ - _) with (length x) by lia. by rewrite drop_of_take.
  - by rewrite Hx, ti_down0, drop_app_length, app_assoc.
Qed.

Lemma talk_step_inv e t d q :
  talk_inv t d q → talk_can e t → ∃ t' d' q', talk_step sys_write e t = Ok t' ∧ talk_inv t' d' q'.
Proof.
  intros Hi Hc. destruct e as [line| | |ev nr nw|ev nr nw].
  - cbn [talk_step]. exists (if main t is Reads then set_main (main_input line (client t)) t else t), d, q.
    split; [by destruct (main t)|]. by destruct (main t), Hi.
  - destruct (main t) as [|line|] eqn:Em; [exists t, d, q; cbn; by rewrite Em| |exists t, d, q; cbn; by rewrite Em].
    destruct (send_inv t d q line Hi Em) as (t' & q' & ? & ?). by exists t', d, q'.
  - by apply client_run_inv with d q.
  - destruct Hc. destruct (client_inv t d q ev nr nw) as (t' & ? & ?); try done. by exists t', d, q.
  - destruct Hc. destruct (server_inv t d q ev nr nw) as (t' & ? & ?); try done. by exists t', d, q.
Qed.

Lemma talk_run_inv es : ∀ t d q,
  talk_inv t d q → talk_legal sys_write es t → ∃ t' d' q', talk_run sys_write es t = Ok t' ∧ talk_inv t' d' q'.
Proof.
  induction es as [|e es IH]; intros t d q Hi Hl; [by exists t, d, q|]. destruct Hl as [Hc Hl].
  destruct (talk_step_inv e t d q Hi Hc) as (t1 & d1 & q1 & E & Hi1). cbn [talk_run]. rewrite E. cbn [mbind res_bind].
  apply (IH t1 d1 q1 Hi1). by apply Hl.
Qed.
End run.

(** What has been typed and is not yet back: on the way to the client, in the
    server, on the way to it, in the client, queued in the client's loop. *)
Definition under_way (t : Talk) : bytes :=
  to_client t ++ content (ouput_buffer_ (server t)) ++ to_server t ++ content (ouput_buffer_ (client t))
  ++ concat (payload <$> functors_ (client t)).

(** What the invariant says of what is printed. *)
Lemma talk_settled t d q :
  talk_inv t d q → ∃ ms, cout t = message_text <$> ms ∧ Forall (λ m, m ≠ []) ms ∧
    concat ms `prefix_of` concat (typed t) ∧
    (state_ (client t) = kConnected → concat (typed t) = concat ms ++ under_way t) ∧
    (state_ (client t) = kConnected → state_ (server t) = kConnected →
     chan_reading (channel_ (client t)) = true ∧ chan_reading (channel_ (server t)) = true ∧
     (under_way t ≠ [] →
      functors_ (client t) ≠ [] ∨ to_client t ≠ [] ∨ to_server t ≠ [] ∨
      chan_writting (channel_ (client t)) = true ∨ chan_writting (channel_ (server t)) = true)).
Proof.
  intros []. destruct ti_cout0 as (ms & E1 & E2 & E3). exists ms.
  assert (d = concat ms ++ to_client t ++ content (ouput_buffer_ (server t)) ++ to_server t ++ content (ouput_buffer_ (client t))) as Ed.
  { rewrite <- (ei_stream _ _ ti_client0). unfold stream. rewrite ti_up0, <- (ei_stream _ _ ti_server0). unfold stream.
    rewrite ti_down0, E3. by rewrite <- !app_assoc. }
  assert (payload <$> functors_ (client t) = q) as Eq by (rewrite ti_queue0, <- list_fmap_compose; apply list_fmap_id).
  split_and!; try done.
  - transitivity d; [rewrite Ed; by apply prefix_app_r|]. destruct (decide _); [|done]. rewrite <- ti_typed0. by apply prefix_app_r.
  - intros Hs. rewrite decide_True in ti_typed0 by done. unfold under_way. rewrite Eq, <- ti_typed0, Ed. by rewrite <- !app_assoc.
  - intros Hs1 Hs2. split_and!; [by apply ti_client0|by apply ti_server0|]. intros Hu.
    destruct (decide (functors_ (client t) = [])) as [F|]; [|by left]. right.
    destruct (decide (to_client t = [])) as [F1|]; [|by left]. right.
    destruct (decide (to_server t = [])) as [F2|]; [|by left]. right.
    destruct (decide (content (ouput_buffer_ (client t)) = [])) as [F3|]; [|left; by eapply waits]. right.
    eapply waits; [done|done|]. intros F4. destruct Hu. unfold under_way. by rewrite F, F1, F2, F3, F4.
Qed.

(** ** Up to the first short direct write *)

Section upto.
Variable sys_write : nat → bytes → writev_result.

(** The client's loop runs the functor that sends a line, and the socket takes
    a part of it. *)
Definition talk_takes_part (e : talk_event) (t : Talk) : bool :=
  match e with TRun => op_takes_part sys_write OpRunFunctor (client t) | _ => false end.

Hypothesis write_law : ∀ k, writev_ok (sys_write k).

Lemma talk_step_made_whole e t :
  talk_can e t → talk_takes_part e t = false →
  talk_can e t ∧ talk_step sys_write e t = talk_step (made_whole sys_write) e t.
Proof.
  intros Hc Ht. split; [done|]. destruct e as [line| | |ev nr nw|ev nr nw]; try done; cbn [talk_step talk_takes_part] in *.
  pose proof (run_op_made_whole sys_write (λ _ _, ReadvData []) (λ _ d, WritevN 0) client_callbacks write_law OpRunFunctor (client t) I Ht) as E.
  cbn [run_op] in E. by rewrite E.
Qed.

(** C17: the echo client talks to the echo server: whatever lines are typed,
    however the main thread, the two loops and the kernels interleave and
    split what is sent, no assertion fails; what the client prints are the
    messages that came back, none of them empty, and together they are a
    beginning of the lines sent, byte for byte and in order; as long as the
    client is connected nothing is lost, what is not yet printed is under
    way; and while both ends are connected and something is under way, a
    functor is queued, bytes are on the network or an end waits for its
    socket to become writable, with both ends reading, so that the echo
    comes.  This holds to the end, or until the client's loop writes a line
    directly and the socket takes only a part of it, where the line is sent
    wrongly ([short_write_overreads]). *)
Theorem echo_client_echoes f1 f2 es :
  ∃ t0, talk_start f1 f2 = Ok t0 ∧
    (talk_legal sys_write es t0 →
     ∃ done rest t, es = done ++ rest ∧ talk_run sys_write done t0 = Ok t ∧
       (∃ ms, cout t = message_text <$> ms ∧ Forall (λ m, m ≠ []) ms ∧
        concat ms `prefix_of` concat (typed t) ∧
        (state_ (client t) = kConnected → concat (typed t) = concat ms ++ under_way t) ∧
        (state_ (client t) = kConnected → state_ (server t) = kConnected →
         chan_reading (channel_ (client t)) = true ∧ chan_reading (channel_ (server t)) = true ∧
         (under_way t ≠ [] →
          functors_ (client t) ≠ [] ∨ to_client t ≠ [] ∨ to_server t ≠ [] ∨
          chan_writting (channel_ (client t)) = true ∨ chan_writting (channel_ (server t)) = true))) ∧
       (rest = [] ∨ ∃ e rest', rest = e :: rest' ∧ talk_takes_part e t = true)).
Proof.
  destruct (talk_start_inv f1 f2) as (t0 & E0 & Hi0 & _). exists t0. split; [done|].
  apply (run_upto (talk_step sys_write) (talk_step (made_whole sys_write)) talk_can talk_can talk_takes_part
    (talk_run sys_write) (talk_run (made_whole sys_write)) (talk_legal sys_write) (talk_legal (made_whole sys_write))
    ltac:(done) ltac:(done) ltac:(done) ltac:(done) ltac:(done) ltac:(done) ltac:(done) talk_step_made_whole (λ _ t, ∃ ms, _)).
  intros dn _ Hdn.
  destruct (talk_run_inv (made_whole sys_write) (made_whole_whole sys_write) dn t0 [] [] Hi0 Hdn) as (t & d & q & E & Hi).
  exists t. split; [done|]. by eapply talk_settled.
Qed.
End upto.

(** ** A run *)

(** Two lines; the echo of the first comes in two pieces, the second with the
    end of it; then the user quits. *)
Definition talk_example : list talk_event :=
  [TInput (Some (B "hello")); TSend; TRun; TServer (POLLIN, 1%Z) (Some 9) None; TServer (POLLOUT, 2%Z) None (Some 3);
   TInput (Some (B "muzi")); TClient (POLLIN, 3%Z) (Some 9) None; TSend; TServer (POLLOUT, 4%Z) None (Some 9); TRun;
   TServer (POLLIN, 5%Z) (Some 2) None; TServer (POLLOUT, 6%Z) None (Some 9); TClient (POLLIN, 7%Z) (Some 9) None; TInput (Some (B "q"))].

Definition talk_write (k : nat) (d : bytes) : writev_result := WritevN (length d).

Lemma talk_write_law k : writev_ok (talk_write k).
Proof. intros d n E. by injection E as <-. Qed.

Lemma echo_client_echoes_witness : ∃ t0,
  talk_start 7 9 = Ok t0 ∧
  (∃ done rest t ms, talk_example = done ++ rest ∧ talk_run talk_write done t0 = Ok t ∧ cout t = message_text <$> ms ∧
     concat ms `prefix_of` concat (typed t) ∧
     (rest = [] ∨ ∃ e rest', rest = e :: rest' ∧ talk_takes_part talk_write e t = true)) ∧
  ∃ t, talk_run talk_write talk_example t0 = Ok t ∧ main t = Exits ∧
    cout t = message_text <$> [B "hel"; B "lomu"] ∧ typed t = [B "hello"; B "muzi"] ∧ under_way t = B "zi" ∧
    concat (typed t) = B "hel" ++ B "lomu" ++ under_way t.
Proof.
  assert (∀ r, has r POLLHUP = false → mask_ok r) as Hm by (intros r Hr; unfold mask_ok; by rewrite Hr).
  destruct (echo_client_echoes talk_write talk_write_law 7 9 talk_example) as (t0 & E0 & H). exists t0. split; [exact E0|].
  vm_compute in E0. injection E0 as <-. split.
  - match type of H with ?P → _ => assert P as Hl end.
    { repeat match goal with
    | |- talk_legal _ [] _ => exact I
    | |- talk_legal _ _ _ => split
    | |- talk_can (TClient _ _ _) _ => split; [vm_compute; by left|by apply Hm]
    | |- talk_can (TServer _ _ _) _ => split; [vm_compute; by left|by apply Hm]
    | |- talk_can _ _ => exact I
    | |- ∀ _, _ => intros ? E; vm_compute in E; injection E as <-
    end. }
    specialize (H Hl). clear Hl. destruct H as (dn & H). exists dn. destruct H as (rest & H). exists rest. destruct H as (t & H1 & H2 & H3 & H4).
    exists t. destruct H3 as (ms & H5 & _ & H6 & _). exists ms. exact (conj H1 (conj H2 (conj H5 (conj H6 H4)))).
  - eexists. split; [vm_compute; reflexivity|]. split_and!; vm_compute; reflexivity.
Defined.

(** A line typed just before "q" may still be in the queue of the loop when
    [main] returns. *)
Lemma quit_leaves_line : ∃ t0 t,
  talk_start 7 9 = Ok t0 ∧ talk_run talk_write [TInput (Some (B "hello")); TSend; TInput (Some (B "q"))] t0 = Ok t ∧
  main t = Exits ∧ typed t = [B "hello"] ∧ sent (client t) = [] ∧ functors_ (client t) = [FSendInLoop (B "hello")].
Proof. eexists _, _. split; [vm_compute; reflexivity|]. split; [vm_compute; reflexivity|]. repeat split; reflexivity. Qed.
