(* ===== verification/EchoProgram.v ===== *)
(** The whole program of an echo server: [main] of [muzi/examples/echo_server.cc]
    and of [examples/pingpong/server.cc].  The server of [ServerStack], started
    as these programs start it, with the connections of [TcpConnection], the
    buffers of [ChainBuffer] and the callbacks of [EchoServer] and [PingPong]. *)

From S2P Require Import Prelude ChainBuffer ByteQueue Poller TcpServer TcpConnection ServerStack EchoServer PingPong.

(** The two programs; the ping-pong server takes a number of threads. *)
Inductive program := EchoMain | PingPongMain (threadCount : Z).

(** The two [main]s up to [loop.Loop()], in loop [loop]; thread [i] of the pool
    gets the loop [start_loop i]. *)
Definition echo_main (start_loop : nat → Z) (loop : Z) : res TcpServer := started start_loop loop (B "EchoServer") 0.

Definition pingpong_main (start_loop : nat → Z) (loop threadCount : Z) : res TcpServer :=
  started start_loop loop (B "PingPong") (if decide (1 < threadCount)%Z then Z.to_nat threadCount else 0).

Definition main (start_loop : nat → Z) (loop : Z) (p : program) : res TcpServer :=
  match p with
  | EchoMain => echo_main start_loop loop
  | PingPongMain threadCount => pingpong_main start_loop loop threadCount
  end.

(** The callbacks they set, on every connection. *)
Definition user_of (p : program) (id : nat) : cb_event → TcpConnection ChainBuffer → res (TcpConnection ChainBuffer) :=
  match p with EchoMain => EchoServer | PingPongMain _ => server_callbacks end.

(** [got]: what each connection has received. *)
Record Program := mkProgram { stack : Stack (Q := ChainBuffer); got : gmap nat bytes }.

(** The loops of the server find a connection waiting, an event of a
    connection, or a queued task.  The programs call the library from these
    callbacks only. *)
Inductive prog_event :=
  | PAccept (fd : Z)
  | PEvent (id : nat) (revents received_time : Z)
  | PTask (cur : Z).

Section program.
Variable p : program.
Variable sys_write : nat → nat → bytes → writev_result.
Variable sys_readv : nat → nat → readv_fn.
Variable sys_writev : nat → nat → writev_fn.

Definition step_stack : stack_event → Stack → res (Stack (Q := ChainBuffer)) :=
  stack_step sys_write sys_readv sys_writev (user_of p) true false.

Definition prog_step (e : prog_event) (r : Program) : res Program :=
  match e with
  | PAccept fd =>
      st ← step_stack (SAccept fd) (stack r);
      Ok (mkProgram st (<[conn_sequence_ (srv (stack r)) := []]> (got r)))
  | PEvent id revents t =>
      c ← deref NullDeref (objects (stack r) !! id);
      st ← step_stack (SObject id (OpEvent revents t)) (stack r);
      Ok (mkProgram st (<[id := default [] (got r !! id) ++ event_read (sys_readv id) (revents, t) c]> (got r)))
  | PTask cur => st ← step_stack (STask cur) (stack r); Ok (mkProgram st (got r))
  end.

Fixpoint prog_run (es : list prog_event) (r : Program) : res Program :=
  match es with [] => Ok r | e :: es => r ← prog_step e r; prog_run es r end.

(** Events come for open connections only. *)
Definition prog_can (e : prog_event) (r : Program) : Prop :=
  match e with
  | PEvent id revents t => stack_legal (SObject id (OpEvent revents t)) (stack r)
  | _ => True
  end.

Fixpoint prog_legal (es : list prog_event) (r : Program) : Prop :=
  match es with
  | [] => True
  | e :: es => prog_can e r ∧ ∀ r', prog_step e r = Ok r' → prog_legal es r'
  end.
End program.

(** ** The callbacks *)

Lemma OnMessage_closes b c : conn_wf c → in_loop_thread c = true → closes_well b c (OnMessage c).
Proof.
  intros Hw Ht c' E. unfold OnMessage in E. destruct (Send_buffer _ _ c) as [c1|] eqn:E1; [|done].
  cbn [mbind res_bind] in E. injection E as <-. transitivity c1; [|by apply closing_quiet].
  unfold Send_buffer in E1. rewrite Ht in E1. destruct (decide (state_ c = kConnected)) as [Hs|]; [|by injection E1 as <-].
  unfold SendInLoop_buffer, AssertInLoopThread, high_water in E1. rewrite Ht in E1. cbn [mbind res_bind] in E1.
  rewrite decide_False in E1 by (rewrite Hs; done).
  destruct (decide _) as [Hd|Hd] in E1; cbn [call_back mbind res_bind] in E1;
    (destruct (bq_append_queue _ _) as [q|] in E1; [|done]); cbn [mbind res_bind] in E1.
  - etransitivity; [|eapply enable_writting_closes; [|exact E1]; by left].
    left. cbn [trace set_trace]. rewrite closes_snoc, decide_False, Nat.add_0_r by done. done.
  - eapply enable_writting_closes; [|exact E1]. by left.
Qed.

Lemma user_echo p id ev c : user_of p id ev c = EchoServer ev c.
Proof. destruct p; [done|apply server_callbacks_echo]. Qed.

Lemma user_ok p id : callbacks_ok (user_of p id).
Proof. intros ev c. rewrite user_echo. apply echo_server_ok. Qed.

Lemma user_closing p b id ev c :
  ev ≠ EvClose → conn_wf c → in_loop_thread c = true → closes_well b c (user_of p id ev c).
Proof. intros _ Hw Ht. rewrite user_echo. destruct ev; try apply closes_ok. by apply OnMessage_closes. Qed.

(** The callbacks as the server sets them, its own close callback included. *)
Lemma server_answers b p i : answers (server_invoke b (user_of p i)) id.
Proof. apply OnMessage_answers. intros t c. cbn [server_invoke]. by rewrite user_echo. Qed.

Lemma DestroyConnection_channel (c c' : TcpConnection ChainBuffer) :
  DestroyConnection c = Ok c' → ∃ ch, c' = set_channel ch (SetState kDisConnected c).
Proof.
  unfold DestroyConnection, on_channel. destruct (AssertInLoopThread c); cbn [mbind res_bind]; [|done].
  destruct (decide _) as [|Hs].
  - destruct (chan_disable_all _) as [y|]; cbn [mbind res_bind]; [|done]. destruct (chan_remove _) as [x|]; cbn [mbind res_bind]; [|done].
    intros [= <-]. by exists x.
  - apply dec_stable in Hs. cbn [mbind res_bind]. destruct (chan_remove (channel_ c)) as [x|]; cbn [mbind res_bind]; [|done].
    intros [= <-]. exists x. destruct c. cbn in Hs. by subst.
Qed.

Lemma server_closed b p i : closed_channel (server_invoke b (user_of p i)).
Proof.
  intros ev c c' Hev Hs. destruct Hev as [-> | ->]; cbn [server_invoke]; [rewrite user_echo; by apply echo_server_closed; [left|]|].
  destruct b; [|intros [= <-]; exists (channel_ c); by destruct c]. intros [ch ->]%DestroyConnection_channel.
  exists ch. destruct c. cbn in Hs. by subst.
Qed.

(** ** The invariant *)

Section proofs.
Variable p : program.
Variable sys_write : nat → nat → bytes → writev_result.
Variable sys_readv : nat → nat → readv_fn.
Variable sys_writev : nat → nat → writev_fn.
Hypothesis readv_law : ∀ i k, readv_ok (sys_readv i k).
Hypothesis writev_law : ∀ i k, writev_ok (sys_writev i k).
Implicit Types (c : TcpConnection ChainBuffer) (st : Stack (Q := ChainBuffer)) (r : Program).

(** A connection that waits to be established, or one that echoes. *)
Definition known c (d : bytes) : Prop :=
  (d = [] ∧ ∃ fd, c = TcpConnection_new fd true false false) ∨ echo_inv c d.

Record prog_inv r : Prop := {
  pi_stack : stack_inv true false (stack r);
  pi_known : ∀ i c, objects (stack r) !! i = Some c → ∃ d, got r !! i = Some d ∧ known c d
}.

Lemma known_insert (o : gmap nat (TcpConnection ChainBuffer)) (g : gmap nat bytes) i c d :
  (∀ j x, j ≠ i → o !! j = Some x → ∃ d, g !! j = Some d ∧ known x d) → g !! i = Some d → known c d →
  ∀ j x, <[i := c]> o !! j = Some x → ∃ d, g !! j = Some d ∧ known x d.
Proof.
  intros Ho Hg Hc j x. destruct (decide (j = i)) as [->|Hne].
  - rewrite lookup_insert_eq. intros [= <-]. by exists d.
  - rewrite lookup_insert_ne by done. by apply Ho.
Qed.

Lemma establish_echo b i fd :
  EstablishConnection (server_invoke b (user_of p i)) (TcpConnection_new fd true false false) = echo_connection fd.
Proof. by destruct p. Qed.

(** Only a waiting connection can be established. *)
Lemma establish_known i st st' c d :
  objects st !! i = Some c → known c d → establish (user_of p) i st = Ok st' →
  ∃ c', objects st' = <[i := c']> (objects st) ∧ known c' d.
Proof.
  intros Hi Hk. unfold establish. rewrite Hi. cbn [deref mbind res_bind].
  destruct (EstablishConnection _ c) as [c'|] eqn:E; cbn [mbind res_bind]; [|done].
  destruct (notify _ _ _ _); cbn [mbind res_bind]; [|done]. intros [= <-]. exists c'. split; [done|]. right.
  destruct Hk as [[-> [fd ->]]|[]].
  - unfold callbacks_of in E. rewrite establish_echo in E. destruct (echo_connection_inv fd) as (x & Ex & ?). congruence.
  - revert E. unfold EstablishConnection. destruct (AssertInLoopThread c), (assert (close_callback_ c)), (assert (connection_callback_ c)); try done.
    cbn [mbind res_bind]. rewrite bool_decide_false; [done|]. intros Hs. rewrite Hs in *. by destruct ei_state.
Qed.

Lemma destroyed_echo c c' d : known c d → DestroyConnection c = Ok c' → conn_wf c' → echo_inv c' d.
Proof.
  intros Hk [ch ->]%DestroyConnection_channel Hw. destruct Hk as [[-> [fd ->]]|[]]; split; try done; by right.
Qed.

Lemma accept_known fd r :
  prog_inv r → ∃ r', prog_step p sys_write sys_readv sys_writev (PAccept fd) r = Ok r' ∧ prog_inv r'.
Proof.
  intros [Hs Hk]. destruct (accept_inv (user_of p) true false (user_ok p) (user_closing p) fd (stack r) Hs) as (st & E & Hs').
  cbn [prog_step step_stack stack_step]. rewrite E. cbn [mbind res_bind]. eexists. split; [done|]. split; [done|]. cbn [stack got].
  revert E. unfold accept. set (i := conn_sequence_ _). destruct (NewConnection _ _) as [s|]; cbn [mbind res_bind]; [|done].
  assert (∀ j x, j ≠ i → objects (stack r) !! j = Some x → ∃ d, <[i := []]> (got r) !! j = Some d ∧ known x d) as Ho.
  { intros j x Hj Hx. rewrite lookup_insert_ne by done. by apply Hk. }
  assert (known (TcpConnection_new fd true false false) []) as Hn by (left; split; [done|by eexists]).
  destruct (decide _) as [_|_].
  - intros E. eapply establish_known in E as (c' & -> & Hc); [|cbn [objects]; apply lookup_insert_eq|exact Hn].
    cbn [objects]. rewrite insert_insert_eq. by eapply known_insert; [|apply lookup_insert_eq|].
  - intros [= <-]. cbn [objects]. by eapply known_insert; [|apply lookup_insert_eq|].
Qed.

Lemma event_known i revents t r :
  prog_inv r → prog_can (PEvent i revents t) r →
  ∃ r', prog_step p sys_write sys_readv sys_writev (PEvent i revents t) r = Ok r' ∧ prog_inv r'.
Proof.
  intros [Hs Hk] Hc. pose proof Hc as (c & v & Ec & _ & _ & [Ho Hm] & _). destruct (Hk i c Ec) as (d & Ed & Hd).
  destruct Hd as [[_ [fd ->]]|Hd]; [by destruct Ho|].
  destruct (on_object_inv (λ _, ring_write) sys_readv sys_writev (user_of p) true false (user_ok p) (user_closing p)
    (λ _, ring_write_whole) readv_law writev_law i (OpEvent revents t) (stack r) Hs Hc) as (st & E & Hs').
  change (on_object sys_write sys_readv sys_writev (user_of p) i (OpEvent revents t) (stack r) = Ok st) in E.
  cbn [prog_step step_stack stack_step]. rewrite Ec, Ed, E. cbn [deref mbind res_bind default from_option id].
  eexists. split; [done|]. split; [done|]. cbn [stack got].
  revert E. unfold on_object. rewrite Ec. cbn [deref mbind res_bind run_op].
  set (b := same_loop (srv (stack r)) i).
  destruct (echo_event_inv (sys_readv i) (sys_writev i) (server_invoke b (user_of p i)) (readv_law i) (writev_law i)
    (server_invoke_ok b (user_of p i) (user_ok p i)) id eq_refl (server_answers b p i) (server_closed b p i) (revents, t) c d d Hd Ho Hm)
    as (c' & E & Hc').
  unfold echo_event in E. cbn [fst snd] in E. unfold callbacks_of. fold b.
  destruct (HandleEvent _ _ _ revents t c) as [c1|]; cbn [mbind res_bind] in *; [|done]. injection E as ->.
  destruct (notify _ _ _ _); cbn [mbind res_bind]; [|done]. intros [= <-]. cbn [objects].
  eapply known_insert; [|apply lookup_insert_eq|by right]. intros j x Hj Hx. rewrite lookup_insert_ne by done. by apply Hk.
Qed.

Lemma task_known cur r :
  prog_inv r → ∃ r', prog_step p sys_write sys_readv sys_writev (PTask cur) r = Ok r' ∧ prog_inv r'.
Proof.
  intros [Hs Hk]. destruct (stack_task_inv (user_of p) true false (user_ok p) (user_closing p) cur (stack r) Hs) as (st & E & Hs').
  cbn [prog_step step_stack stack_step]. rewrite E. cbn [mbind res_bind]. eexists. split; [done|]. split; [done|]. cbn [stack got].
  revert E. unfold run_task. destruct (list_find _ _) as [[? [? t]]|]; [|by intros [= <-]].
  destruct (RunTask _ _) as [s|]; cbn [mbind res_bind]; [|done].
  assert (∀ i, (if decide (state_of s i = Some Destroyed) then
      c ← deref NullDeref (objects (stack r) !! i); c ← DestroyConnection c; Ok (mkStack s (<[i := c]> (objects (stack r))))
    else Ok (mkStack s (objects (stack r)))) = Ok st → ∀ j x, objects st !! j = Some x → ∃ d, got r !! j = Some d ∧ known x d) as Hdes.
  { intros i. destruct (decide _) as [Hd|]; [|by intros [= <-]].
    destruct (objects (stack r) !! i) as [c|] eqn:Ec; cbn [deref mbind res_bind]; [|done].
    destruct (DestroyConnection c) as [c'|] eqn:E; cbn [mbind res_bind]; [|done]. intros [= <-].
    destruct (Hk i c Ec) as (d & Ed & Hd'). eapply known_insert; [intros j x _; apply Hk|exact Ed|]. right.
    eapply destroyed_echo; [done..|]. destruct (st_view _ _ _ Hs' i Destroyed Hd) as (c1 & Ec1 & Ha & _).
    cbn [objects] in Ec1. rewrite lookup_insert_eq in Ec1. injection Ec1 as <-. apply Ha. }
  destruct t as [|i|i|i]; cbn [mirror srv objects]; [by intros [= <-]| |apply Hdes..].
  intros E. assert (∃ c, objects (stack r) !! i = Some c) as [c Ec].
  { unfold establish in E. cbn [objects] in E. destruct (objects (stack r) !! i) as [c|]; [by exists c|done]. }
  destruct (Hk i c Ec) as (d & Ed & Hd). eapply establish_known in E as (c' & -> & Hc); [|exact Ec|exact Hd].
  cbn [objects]. eapply known_insert; [intros j x _; apply Hk|exact Ed|done].
Qed.

Lemma prog_run_inv es : ∀ r,
  prog_inv r → prog_legal p sys_write sys_readv sys_writev es r →
  ∃ r', prog_run p sys_write sys_readv sys_writev es r = Ok r' ∧ prog_inv r'.
Proof.
  induction es as [|e es IH]; intros r Hi Hl; [by exists r|]. destruct Hl as [Hc Hl].
  assert (∃ r', prog_step p sys_write sys_readv sys_writev e r = Ok r' ∧ prog_inv r') as (r1 & E & Hi1).
  { destruct e; [by apply accept_known|by apply event_known|by apply task_known]. }
  destruct (IH r1 Hi1 (Hl r1 E)) as (r' & E' & Hi'). exists r'. cbn [prog_run]. by rewrite E.
Qed.

Lemma main_start start_loop loop :
  ∃ s0, main start_loop loop p = Ok s0 ∧ prog_inv (mkProgram (mkStack s0 ∅) ∅).
Proof.
  assert (∃ name n, main start_loop loop p = started start_loop loop name n) as (name & n & ->)
    by (destruct p; by eexists _, _).
  destruct (stack_start (Q := ChainBuffer) true false start_loop loop name n) as (s0 & E & Hi). exists s0. split; [done|].
  split; [done|]. intros i c. cbn [stack objects]. by rewrite lookup_empty.
Qed.

(** What is known of every connection of the server. *)
Lemma echo_known c d :
  known c d →
  sent c ++ content (ouput_buffer_ c) = d ∧ content (input_buffer_ c) = [] ∧
  (open c → content (ouput_buffer_ c) ≠ [] → chan_writting (channel_ c) = true) ∧
  (state_ c = kConnected → chan_reading (channel_ c) = true) ∧ (open c → state_ c = kConnected).
Proof.
  intros [[-> [fd ->]]|Hi].
  - split_and!; try done; by intros [].
  - split_and!; [apply Hi..|]. intros Ho. destruct (ei_state _ _ Hi) as [|E]; [done|]. by apply closed_not_open in E.
Qed.

(** C4: a whole echo server.  From [main], whichever of the two programs it
    is, the server accepts any number of connections, spreads them over the
    loops of its threads, and dispatches their events and its own tasks in any
    order, without a failed assertion; and each connection, whatever happens to
    the others and however the kernel splits reads and writes, has sent back,
    in order, exactly what it has received, but for what waits in its output
    buffer, for which it asks to be told when it can write.  While it is
    connected it also asks for what there is to read; and when no task is
    queued it is connected and in the server's map, or closed, out of the poll
    set and out of the map. *)
Theorem echo_program start_loop loop es :
  ∃ s0, main start_loop loop p = Ok s0 ∧
    (prog_legal p sys_write sys_readv sys_writev es (mkProgram (mkStack s0 ∅) ∅) →
     ∃ r, prog_run p sys_write sys_readv sys_writev es (mkProgram (mkStack s0 ∅) ∅) = Ok r ∧
       ∀ i v, state_of (srv (stack r)) i = Some v → ∃ c d, objects (stack r) !! i = Some c ∧ got r !! i = Some d ∧
         sent c ++ content (ouput_buffer_ c) = d ∧ content (input_buffer_ c) = [] ∧
         (open c → content (ouput_buffer_ c) ≠ [] → chan_writting (channel_ c) = true) ∧
         (state_ c = kConnected → chan_reading (channel_ c) = true) ∧
         (srv_queue (srv (stack r)) = [] →
            (state_ c = kConnected ∧ connections_ (srv (stack r)) !! conn_name (srv (stack r)) i = Some i) ∨
            (state_ c = kDisConnected ∧ a_status (channel_ c) = Removed ∧
             connections_ (srv (stack r)) !! conn_name (srv (stack r)) i = None))).
Proof.
  destruct (main_start start_loop loop) as (s0 & E & Hi). exists s0. split; [done|]. intros Hl.
  destruct (prog_run_inv es _ Hi Hl) as (r & Er & [Hs Hk]). exists r. split; [done|]. intros i v Ev.
  destruct (stack_settled true false (stack r) i v Hs Ev) as (c & Ec & _ & _ & _ & _ & Hq).
  destruct (Hk i c Ec) as (d & Ed & Hd). exists c, d. destruct (echo_known c d Hd) as (H1 & H2 & H3 & H4 & H5).
  split_and!; try done. intros [[Ho ?]|?]%Hq; [left; auto|by right].
Qed.
End proofs.

(** ** A run *)

(** Two threads and two peers: the first sends a greeting and closes. *)
Definition two_readv (i k : nat) : readv_fn :=
  λ lens, ReadvData (take (sum_list lens) (match i, k with 0, 0 => B "hello" | 1, 0 => B "muzi" | _, _ => [] end)).
Definition two_writev (i k : nat) : writev_fn := λ d, WritevN (length d).

Definition two_peers : list prog_event :=
  [PAccept 7; PAccept 8; PTask 10; PEvent 0 POLLIN 1; PTask 11; PEvent 1 POLLIN 2; PEvent 0 POLLOUT 3; PEvent 0 POLLIN 4;
   PTask 0; PTask 10].

(** A check of a run: events without a hang-up, for open connections. *)
Definition event_fits (e : prog_event) (r : Program) : bool :=
  match e with
  | PEvent i revents _ =>
      match objects (stack r) !! i, state_of (srv (stack r)) i with
      | Some c, Some v => negb (bool_decide (v = Connecting)) && bool_decide (state_ c = kConnected) && negb (has revents POLLHUP)
      | _, _ => false
      end
  | _ => true
  end.

Fixpoint run_fits (step : prog_event → Program → res Program) (es : list prog_event) (r : Program) : bool :=
  match es with
  | [] => true
  | e :: es => event_fits e r && match step e r with Ok r => run_fits step es r | Fault _ => true end
  end.

Lemma run_fits_legal p sys_write sys_readv sys_writev es : ∀ r,
  run_fits (prog_step p sys_write sys_readv sys_writev) es r = true → prog_legal p sys_write sys_readv sys_writev es r.
Proof.
  induction es as [|e es IH]; intros r Hf; [done|]. apply andb_true_iff in Hf as [He Hf]. split.
  - destruct e as [|i x t|]; [done| |done]. cbn [event_fits] in He.
    destruct (objects (stack r) !! i) as [c|] eqn:Ec; [|done]. destruct (state_of (srv (stack r)) i) as [v|] eqn:Ev; [|done].
    apply andb_true_iff in He as [[Hv Hs]%andb_true_iff Hm]. apply bool_decide_eq_true in Hs.
    apply negb_true_iff, bool_decide_eq_false in Hv. apply negb_true_iff in Hm.
    exists c, v. split_and!; try done. split; [by left|]. unfold mask_ok. by rewrite Hm.
  - intros r' E. rewrite E in Hf. by apply IH.
Qed.

(** What became of the two connections. *)
Definition outcome (r : Program) :=
  c0 ← objects (stack r) !! 0; c1 ← objects (stack r) !! 1;
  Some ((state_of (srv (stack r)) 0, state_of (srv (stack r)) 1), (state_ c0, sent c0), (state_ c1, content (ouput_buffer_ c1)),
        (srv_queue (srv (stack r)), connections_ (srv (stack r)) !! conn_name (srv (stack r)) 0)).

Lemma echo_program_witness : ∃ s0 r c0 c1,
  main (λ i, 10 + Z.of_nat i)%Z 0 (PingPongMain 2) = Ok s0 ∧
  prog_run (PingPongMain 2) (λ _, ring_write) two_readv two_writev two_peers (mkProgram (mkStack s0 ∅) ∅) = Ok r ∧
  objects (stack r) !! 0 = Some c0 ∧ objects (stack r) !! 1 = Some c1 ∧
  state_ c0 = kDisConnected ∧ sent c0 = B "hello" ∧ got r !! 0 = Some (sent c0 ++ content (ouput_buffer_ c0)) ∧
  state_ c1 = kConnected ∧ content (ouput_buffer_ c1) = B "muzi" ∧ got r !! 1 = Some (sent c1 ++ B "muzi") ∧
  srv_queue (srv (stack r)) = [] ∧ connections_ (srv (stack r)) !! conn_name (srv (stack r)) 0 = None.
Proof.
  destruct (echo_program (PingPongMain 2) (λ _, ring_write) two_readv two_writev) with (start_loop := λ i, (10 + Z.of_nat i)%Z)
    (loop := 0%Z) (es := two_peers) as (s0 & E0 & H).
  - intros i k lens d [= <-]. rewrite length_take. lia.
  - intros i k d n [= <-]. lia.
  - pose proof E0 as E0'. vm_compute in E0'. injection E0' as <-.
    destruct H as (r & E & H); [apply run_fits_legal; vm_compute; reflexivity|].
    match type of E with ?run = _ => assert (match run with Ok r => outcome r | Fault _ => None end =
      Some ((Some Destroyed, Some Connected), (kDisConnected, B "hello"), (kConnected, B "muzi"), ([], None))) as Ho
      by (vm_compute; reflexivity) end.
    rewrite E in Ho. unfold outcome in Ho.
    destruct (objects (stack r) !! 0) as [c0|] eqn:Ec0; [|done]. destruct (objects (stack r) !! 1) as [c1|] eqn:Ec1; [|done].
    injection Ho as Hv0 Hv1 Hs0 Hd0 Hs1 Hd1 Hq Hm.
    destruct (H 0 Destroyed Hv0) as (x0 & d0 & Ex0 & Ed0 & <- & _). destruct (H 1 Connected Hv1) as (x1 & d1 & Ex1 & Ed1 & <- & _).
    rewrite Ec0 in Ex0. rewrite Ec1 in Ex1. injection Ex0 as <-. injection Ex1 as <-. rewrite Hd1 in Ed1.
    eexists _, r, c0, c1. split; [exact E0|]. by split_and!.
Defined.
