(* ===== verification/PingPongClient.v ===== *)
(** The client of the ping-pong benchmark, [examples/pingpong/client.cc], from
    the constructor of [Client] to the timer that stops its sessions: the pool
    of [TcpServer] that gives each session its loop, and a [TcpClient] for
    each session.  What a session does with its connection is in [PingPong]. *)

From S2P Require Import Prelude Endian Timestamp Calendar Connector TcpClient TcpServer.

(** [snprintf(buf, sizeof buf, "C%05d", i)]; an [int] always fits. *)
Definition session_name (i : nat) : bytes := B "C" ++ fmt_0d 5 (Z.of_nat i).

(** A [Session], with the loop and the name given to its [client_]. *)
Record session := mkSession { name_ : bytes; loop_ : Z; client_ : TcpClient }.

(** [Session::start] and [stop]; [in_loop]: in the thread of its own loop. *)
Definition start (in_loop : bool) (saved_errno : Z) (s : session) : res session :=
  c ← TcpClient.Connect in_loop saved_errno (client_ s); Ok (mkSession (name_ s) (loop_ s) c).
Definition stop (s : session) : session := mkSession (name_ s) (loop_ s) (DisConnect (client_ s)).

Section client.
(** The loops of the threads, and what [connect(2)] answers each session that
    lives in the loop of the constructor. *)
Variable start_loop : nat → Z.
Variable connect_errno : nat → Z.

(** [n] rounds of the loop that makes the sessions, from the [i]-th. *)
Fixpoint make_sessions (n i : nat) (p : EventLoopThreadPool) : res (list session) :=
  match n with
  | O => Ok []
  | S n =>
      '(loop, p) ← GetNextLoop true p;
      s ← start (bool_decide (loop = base_loop_ p)) (connect_errno i) (mkSession (session_name i) loop TcpClient_new);
      ss ← make_sessions n (S i) p;
      Ok (s :: ss)
  end.

(** The constructor of [Client], but for the timer and the message. *)
Definition Client_construct (loop sessionCount threadCount : Z) : res (list session) :=
  let p := EventLoopThreadPool_new loop in
  let p := if decide (1 < threadCount)%Z then SetThreadNum (Z.to_nat threadCount) p else p in
  p ← Pool_Start start_loop false p;
  make_sessions (Z.to_nat sessionCount) 0 p.

Definition handleTimeout (sessions : list session) : list session := stop <$> sessions.

(** ** What the constructor makes *)

(** The loop of the [i]-th session. *)
Definition loop_of (loop threadCount : Z) (i : nat) : Z :=
  if decide (1 < threadCount)%Z then start_loop (i mod Z.to_nat threadCount) else loop.

Lemma start_ok b err name loop :
  ∃ c, start b err (mkSession name loop TcpClient_new) = Ok (mkSession name loop c) ∧ client_inv c ∧ to_connect_ c = true.
Proof.
  destruct (run_client_inv (EvConnect b err) TcpClient_new client_inv_new) as (c & E & Hc).
  { by split; [|destruct b]. }
  cbn [run_client] in E. exists c. unfold start. cbn [client_ name_ loop_]. rewrite E. split_and!; [done|done|].
  revert E. unfold TcpClient.Connect. destruct (Connector.Start _ _ _); cbn [mbind res_bind]; [|done]. by intros [= <-].
Qed.

Lemma make_sessions_spec n : ∀ k p,
  pool_ok k p →
  ∃ ss, make_sessions n k p = Ok ss ∧ length ss = n ∧
    ∀ i s, ss !! i = Some s → name_ s = session_name (k + i) ∧ loop_ s = pick p (k + i) ∧
      client_inv (client_ s) ∧ to_connect_ (client_ s) = true.
Proof.
  induction n as [|n IH]; intros k p Hp; [by exists []|]. cbn [make_sessions].
  destruct (GetNextLoop_spec k p Hp) as (p' & -> & Hp' & El & Eb). cbn [mbind res_bind].
  destruct (start_ok (bool_decide (pick p k = base_loop_ p')) (connect_errno k) (session_name k) (pick p k)) as (c & -> & Hc & Ht).
  cbn [mbind res_bind]. destruct (IH (S k) p' Hp') as (ss & -> & Hl & Hs). cbn [mbind res_bind].
  eexists. split; [done|]. split; [cbn; lia|]. intros [|i] s Hi.
  - injection Hi as <-. by rewrite Nat.add_0_r.
  - destruct (Hs i s Hi) as (Hn & Hlo & ?). rewrite <- Nat.add_succ_comm. split_and!; try done; try tauto.
    rewrite Hlo. unfold pick. by rewrite El, Eb.
Qed.

(** The constructor starts the sessions it was asked for: the [i]-th has its
    number as its name, connects, and lives in the loop of thread
    [i mod threadCount], or in the loop of the client when there is at most
    one thread. *)
Lemma Client_construct_spec loop sessionCount threadCount :
  ∃ ss, Client_construct loop sessionCount threadCount = Ok ss ∧ length ss = Z.to_nat sessionCount ∧
    ∀ i s, ss !! i = Some s → name_ s = session_name i ∧ loop_ s = loop_of loop threadCount i ∧
      client_inv (client_ s) ∧ to_connect_ (client_ s) = true.
Proof.
  unfold Client_construct, loop_of.
  set (n := if decide (1 < threadCount)%Z then Z.to_nat threadCount else 0).
  assert ((if decide (1 < threadCount)%Z then SetThreadNum (Z.to_nat threadCount) (EventLoopThreadPool_new loop)
           else EventLoopThreadPool_new loop) = SetThreadNum n (EventLoopThreadPool_new loop)) as ->
    by (subst n; by destruct (decide _)).
  destruct (Pool_Start_spec start_loop false loop n) as (p & -> & Hp & El & Eb). cbn [mbind res_bind].
  destruct (make_sessions_spec (Z.to_nat sessionCount) 0 p Hp) as (ss & -> & Hl & Hs). exists ss. split_and!; [done|done|].
  intros i s Hi. destruct (Hs i s Hi) as (Hn & Hlo & Hc). split_and!; try done; try apply Hc.
  rewrite Hlo. unfold pick. rewrite El, Eb, length_fmap, length_seq. subst n. cbn [Nat.add].
  destruct (decide (1 < threadCount)%Z) as [Ht|_]; [|done].
  rewrite list_lookup_fmap, lookup_seq_lt; [done|]. apply Nat.mod_upper_bound. lia.
Qed.
End client.

Lemma dec_inj n : ∀ x y, (0 <= x < 10 ^ Z.of_nat n)%Z → (0 <= y < 10 ^ Z.of_nat n)%Z → dec n x = dec n y → x = y.
Proof.
  induction n as [|n IH]; intros x y Hx Hy E; [cbn in Hx, Hy; lia|].
  cbn [dec] in E. apply app_inj_tail in E as [E Ed].
  assert (10 ^ Z.of_nat (S n) = 10 * 10 ^ Z.of_nat n)%Z as Ep by (rewrite Nat2Z.inj_succ, Z.pow_succ_r by lia; done).
  rewrite Ep in Hx, Hy. apply IH in E; [|lia..].
  apply (f_equal val_of) in Ed. rewrite !val_of_digit in Ed by lia. lia.
Qed.

(** Up to a hundred thousand sessions have different names. *)
Lemma session_names_distinct i j :
  (Z.of_nat i < 100000)%Z → (Z.of_nat j < 100000)%Z → session_name i = session_name j → i = j.
Proof.
  intros Hi Hj E. unfold session_name in E. apply app_inv_head in E.
  assert (10 ^ Z.of_nat 5 = 100000)%Z as E5 by reflexivity.
  rewrite !(fmt_0d_dec 5) in E by (rewrite ?E5; lia). apply dec_inj in E; rewrite ?E5; lia.
Qed.

(** ** The timer *)

(** A session that is connected is shut down by the timer; one that is still
    connecting is not stopped: it connects later, and is never shut down. *)
Lemma timeout_misses_connecting :
  ∃ c c', run_clients [EvConnect true EINPROGRESS] TcpClient_new = Ok c ∧
    run_clients [EvConnector (EvWritable 0 false); EvConnector (EvTask 0)] (client_ (stop (mkSession [] 0 c))) = Ok c' ∧
    connection_ c' = Some 0 ∧ TcpClient.conns c' = [CUp] ∧ to_connect_ c' = false.
Proof. eexists _, _. split_and!; vm_compute; reflexivity. Qed.

Lemma timeout_stops_connected :
  ∃ c, run_clients [EvConnect true EINPROGRESS; EvConnector (EvWritable 0 false); EvConnector (EvTask 0)] TcpClient_new = Ok c ∧
    TcpClient.conns (client_ (stop (mkSession [] 0 c))) = [CShut].
Proof. eexists. split; vm_compute; reflexivity. Qed.
