(* ===== verification/Bench.v ===== *)
(** The event benchmark: [examples/pingpong/bench.cc].  A ring of socket
    pairs, each with a channel whose read callback reads one byte and writes
    one to the next pair.  The loop it runs in is that of [net/event_loop.cc]
    with its two flags; which channels the poller reports is a parameter. *)

From S2P Require Import Prelude.

(** The [int]s are taken as unbounded: the largest are the sum of two of the
    options and twice one. *)
Record Bench := mkBench {
  pipes : list nat   (** the bytes waiting at the read end of each pair *);
  g_reads : Z;
  g_writes : Z;
  g_fired : Z;
  looping_ : bool;
  quit_ : bool
}.

Section bench.
Variables numPipes numActive numWrites : Z.

Definition set_pipes (v : list nat) (s : Bench) : Bench :=
  mkBench v (g_reads s) (g_writes s) (g_fired s) (looping_ s) (quit_ s).
Definition set_flags (looping quit : bool) (s : Bench) : Bench :=
  mkBench (pipes s) (g_reads s) (g_writes s) (g_fired s) looping quit.

(** [send(g_pipes[j], "m", 1, 0)] for an odd [j]: the byte comes out at the
    other socket of the pair. *)
Definition send (j : Z) (s : Bench) : res Bench :=
  if decide (0 <= j)%Z then
    n ← deref OutOfBounds (pipes s !! Z.to_nat (j / 2));
    Ok (set_pipes (<[Z.to_nat (j / 2) := S n]> (pipes s)) s)
  else Fault OutOfBounds.

(** [recv] of a byte; on an empty socket it would block for ever. *)
Definition recv (i : nat) (s : Bench) : res (Z * Bench) :=
  n ← deref OutOfBounds (pipes s !! i);
  match n with O => Fault OutOfFuel | S n => Ok (1%Z, set_pipes (<[i := n]> (pipes s)) s) end.

(** [EventLoop::Quit], called in the loop's thread. *)
Definition Quit (s : Bench) : Bench := if looping_ s then set_flags true true s else s.

Definition readCallback (idx : nat) (s : Bench) : res Bench :=
  '(n, s) ← recv idx s;
  let s := mkBench (pipes s) (g_reads s + n) (g_writes s) (g_fired s) (looping_ s) (quit_ s) in
  s ← (if decide (0 < g_writes s)%Z then
         let widx := (Z.of_nat idx + 1)%Z in
         let widx := if decide (numPipes <= widx)%Z then (widx - numPipes)%Z else widx in
         s ← send (2 * widx + 1) s;
         Ok (mkBench (pipes s) (g_reads s) (g_writes s - 1) (g_fired s + 1) (looping_ s) (quit_ s))
       else Ok s);
  Ok (if decide (g_fired s = g_reads s) then Quit s else s).

Fixpoint HandleEvents (active : list nat) (s : Bench) : res Bench :=
  match active with [] => Ok s | i :: active => s ← readCallback i s; HandleEvents active s end.

(** [EventLoop::Loop]; [poll] gives the active channels. *)
Variable poll : Bench → list nat.

Fixpoint Loop_while (fuel : nat) (s : Bench) : res Bench :=
  match fuel with
  | O => Fault OutOfFuel
  | S fuel =>
      if quit_ s then Ok (set_flags false true s)
      else s ← HandleEvents (poll s) s; Loop_while fuel s
  end.

Definition Loop (fuel : nat) (s : Bench) : res Bench :=
  _ ← assert (negb (looping_ s));
  _ ← assert (negb (quit_ s));
  Loop_while fuel (set_flags true false s).

Fixpoint send_first (i n : nat) (space : Z) (s : Bench) : res Bench :=
  match n with O => Ok s | S n => s ← send (Z.of_nat i * space + 1) s; send_first (S i) n space s end.

(** The channels listen from here on; dividing by zero kills the process. *)
Definition runOnce (fuel : nat) (s : Bench) : res Bench :=
  space ← (if decide (numActive = 0%Z) then Fault Aborted else Ok (numPipes `quot` numActive)%Z);
  s ← send_first 0 (Z.to_nat numActive) (space * 2) s;
  Loop fuel (mkBench (pipes s) 0 numWrites numActive (looping_ s) (quit_ s)).

(** The pipes just made, in a loop just made. *)
Definition Bench_new : Bench := mkBench (replicate (Z.to_nat numPipes) 0) 0 0 0 false false.

(** ** The invariant *)

(** Bytes under way. *)
Definition in_flight (s : Bench) : nat := sum_list (pipes s).

(** What the poller may report: channels that are ready, each once, and some
    if there is one. *)
Definition poll_ok (s : Bench) : Prop :=
  NoDup (poll s) ∧ (∀ i, i ∈ poll s → ∃ n, pipes s !! i = Some (S n)) ∧ (in_flight s ≠ 0 → poll s ≠ []).

Record bench_inv (s : Bench) : Prop := {
  bi_pipes : Z.of_nat (length (pipes s)) = numPipes;
  bi_flight : Z.of_nat (in_flight s) = (g_fired s - g_reads s)%Z;
  bi_total : (g_fired s + g_writes s = numActive + numWrites)%Z;
  bi_writes : (0 <= g_writes s)%Z;
  bi_looping : looping_ s = true;
  bi_quit : quit_ s = true ↔ in_flight s = 0;
  bi_last : in_flight s = 0 → g_writes s = 0%Z
}.

Lemma sum_insert i n m (l : list nat) :
  l !! i = Some n → sum_list (<[i := m]> l) + n = sum_list l + m.
Proof.
  revert i. induction l as [|x l IH]; intros [|i] Hi; try done.
  - injection Hi as ->. change (<[0:=m]> (n :: l)) with (m :: l). cbn. lia.
  - specialize (IH i Hi). change (<[S i:=m]> (x :: l)) with (x :: <[i:=m]> l). cbn. lia.
Qed.

Lemma send_spec (j : Z) s :
  (0 <= j < 2 * Z.of_nat (length (pipes s)))%Z →
  ∃ n, pipes s !! Z.to_nat (j / 2) = Some n ∧
       send j s = Ok (set_pipes (<[Z.to_nat (j / 2) := S n]> (pipes s)) s).
Proof.
  intros Hj. unfold send. rewrite decide_True by lia.
  destruct (lookup_lt_is_Some_2 (pipes s) (Z.to_nat (j / 2))) as [n En].
  { assert (j / 2 < Z.of_nat (length (pipes s)))%Z by (apply Z.div_lt_upper_bound; lia).
    assert (0 <= j / 2)%Z by (apply Z.div_pos; lia). lia. }
  exists n. by rewrite En.
Qed.
End bench.

Section proofs.
Variables numPipes numActive numWrites : Z.
Hypothesis pipes_pos : (0 < numPipes)%Z.
Hypothesis active_pos : (0 < numActive)%Z.
Hypothesis writes_pos : (0 <= numWrites)%Z.
Notation inv := (bench_inv numPipes numActive numWrites).

Lemma sum_ge i n (l : list nat) : l !! i = Some n → n ≤ sum_list l.
Proof. revert i. induction l as [|x l IH]; intros [|i] Hi; try done; [injection Hi as ->; cbn; lia|]. specialize (IH i Hi). cbn. lia. Qed.

(** One callback reads one byte; the other ready channels stay ready. *)
Lemma readCallback_inv i n s :
  inv s → pipes s !! i = Some (S n) →
  ∃ s', readCallback numPipes i s = Ok s' ∧ inv s' ∧ g_reads s' = (g_reads s + 1)%Z ∧
    ∀ j m, j ≠ i → pipes s !! j = Some (S m) → ∃ m', pipes s' !! j = Some (S m').
Proof.
  intros [] Hi. unfold readCallback, recv. rewrite Hi. cbn [deref mbind res_bind].
  pose proof (lookup_lt_Some _ _ _ Hi) as Hlt. pose proof (sum_ge _ _ _ Hi) as Hge.
  pose proof (sum_insert i (S n) n (pipes s) Hi) as Hsum. unfold in_flight in *.
  assert (quit_ s = false) as Hq by (destruct (quit_ s); [|done]; destruct bi_quit0 as [H _]; specialize (H eq_refl); lia).
  cbn [pipes g_reads g_writes g_fired looping_ quit_ set_pipes].
  destruct (decide (0 < g_writes s)%Z) as [Hw|Hw].
  - set (widx := if decide _ then _ else _).
    assert (0 <= widx < numPipes)%Z as Hx by (subst widx; destruct (decide _); lia).
    set (s1 := mkBench _ _ _ _ _ _). destruct (send_spec (2 * widx + 1) s1) as (k & Ek & ->).
    { cbn [s1 pipes]. rewrite length_insert. lia. }
    cbn [mbind res_bind pipes set_pipes s1 g_reads g_writes g_fired looping_ quit_] in *.
    set (w := Z.to_nat _) in *. pose proof (sum_insert w k (S k) (<[i:=n]> (pipes s)) Ek) as Hsum2.
    rewrite decide_False by lia. eexists. split; [done|].
    split; [split; cbn [pipes g_reads g_writes g_fired looping_ quit_]; unfold in_flight; cbn [pipes];
      rewrite ?length_insert, ?Hq; try lia; done|].
    split; [done|]. cbn [pipes]. intros j m Hj Hm. destruct (decide (j = w)) as [->|Hjw].
    + rewrite list_lookup_insert_eq by (rewrite length_insert; by eapply lookup_lt_Some). by eexists.
    + rewrite !list_lookup_insert_ne by done. by eexists.
  - cbn [mbind res_bind g_fired g_reads]. assert (g_writes s = 0%Z) as Hw0 by lia.
    assert (∀ q, (q = true ↔ sum_list (<[i:=n]> (pipes s)) = 0) →
      inv (mkBench (<[i:=n]> (pipes s)) (g_reads s + 1) (g_writes s) (g_fired s) true q)) as Hinv.
    { intros q Hq'. split; cbn [pipes g_reads g_writes g_fired looping_ quit_]; unfold in_flight; cbn [pipes];
        rewrite ?length_insert; try lia; done. }
    assert (∀ j m, j ≠ i → pipes s !! j = Some (S m) → ∃ m', <[i:=n]> (pipes s) !! j = Some (S m')) as Hrest.
    { intros j m Hj Hm. rewrite list_lookup_insert_ne by done. by eexists. }
    destruct (decide (g_fired s = g_reads s + 1)%Z); eexists; (split; [done|]); unfold Quit; cbn [looping_]; rewrite ?bi_looping0;
      unfold set_flags; cbn [pipes g_reads g_writes g_fired].
    + split_and!; [apply Hinv; split; [lia|done]|done|done].
    + rewrite Hq. split_and!; [apply Hinv; split; [done|lia]|done|done].
Qed.

Lemma HandleEvents_inv active : ∀ s,
  inv s → NoDup active → (∀ i, i ∈ active → ∃ n, pipes s !! i = Some (S n)) →
  ∃ s', HandleEvents numPipes active s = Ok s' ∧ inv s' ∧ g_reads s' = (g_reads s + Z.of_nat (length active))%Z.
Proof.
  induction active as [|i active IH]; intros s Hs Hnd Hr; [exists s; cbn; rewrite Z.add_0_r; done|].
  apply NoDup_cons in Hnd as [Hi Hnd]. destruct (Hr i) as [n Hn]; [left|].
  destruct (readCallback_inv i n s Hs Hn) as (s1 & E & Hs1 & Hr1 & Hrest).
  destruct (IH s1 Hs1 Hnd) as (s2 & E2 & Hs2 & Hr2).
  { intros j Hj. destruct (Hr j) as [m Hm]; [by right|]. apply (Hrest j m); [by intros ->|done]. }
  exists s2. cbn [HandleEvents]. rewrite E. cbn [mbind res_bind length]. split_and!; [done|done|lia].
Qed.

Variable poll : Bench → list nat.
Hypothesis poll_law : ∀ s, poll_ok poll s.

Lemma Loop_while_inv fuel : ∀ s,
  inv s → (numActive + numWrites - g_reads s < Z.of_nat fuel)%Z →
  ∃ s', Loop_while numPipes poll fuel s = Ok s' ∧ pipes s' = replicate (Z.to_nat numPipes) 0 ∧
    g_reads s' = (numActive + numWrites)%Z ∧ g_fired s' = g_reads s' ∧ g_writes s' = 0%Z ∧
    looping_ s' = false ∧ quit_ s' = true.
Proof.
  induction fuel as [|fuel IH]; intros s Hs Hf.
  { destruct Hs. lia. }
  cbn [Loop_while]. destruct (quit_ s) eqn:Hq.
  - eexists. split; [done|]. destruct Hs. unfold set_flags. cbn [pipes g_reads g_writes g_fired looping_ quit_].
    apply bi_quit0 in Hq. pose proof (bi_last0 Hq). split_and!; try done; try lia.
    apply list_eq_same_length with (n := length (pipes s)); [rewrite length_replicate; lia|done|].
    intros j x y _ Hx Hy. apply lookup_replicate in Hy as [-> _]. apply sum_ge in Hx. unfold in_flight in Hq. lia.
  - destruct (poll_law s) as (Hnd & Hr & Hne).
    destruct (HandleEvents_inv (poll s) s Hs Hnd Hr) as (s1 & E & Hs1 & Hr1). rewrite E. cbn [mbind res_bind].
    apply IH; [done|]. assert (poll s ≠ []) as Hp by (apply Hne; intros E0; apply (bi_quit _ _ _ _ Hs) in E0; congruence).
    destruct (poll s); [done|]. cbn [length] in Hr1. lia.
Qed.

(** The first bytes go to existing pipes. *)
Lemma send_first_spec n : ∀ i s,
  Z.of_nat (length (pipes s)) = numPipes → (Z.of_nat i + Z.of_nat n = numActive)%Z →
  ∃ l, send_first i n (numPipes `quot` numActive * 2) s = Ok (set_pipes l s) ∧
    length l = length (pipes s) ∧ sum_list l = sum_list (pipes s) + n.
Proof.
  induction n as [|n IH]; intros i s Hl Hi.
  { exists (pipes s). rewrite Nat.add_0_r. split_and!; try done. by destruct s. }
  cbn [send_first]. set (q := (numPipes `quot` numActive)%Z) in *.
  assert (0 <= q ∧ numActive * q <= numPipes)%Z as [Hq0 Hq].
  { subst q. rewrite Z.quot_div_nonneg by lia. split; [apply Z.div_pos; lia|apply Z.mul_div_le; lia]. }
  destruct (send_spec (Z.of_nat i * (q * 2) + 1) s) as (k & Ek & ->); [nia|]. cbn [mbind res_bind].
  pose proof (sum_insert _ _ (S k) _ Ek) as Hsum.
  match goal with |- context [set_pipes ?l s] => destruct (IH (S i) (set_pipes l s)) as (l' & -> & Hl' & Hs') end;
    [cbn [pipes set_pipes]; by rewrite length_insert|lia|].
  cbn [pipes set_pipes] in Hl', Hs'. rewrite length_insert in Hl'. exists l'. split_and!; [done|done|lia].
Qed.

(** One run of the benchmark ends, whatever the poller reports of the
    channels that are ready: every callback finds the byte it reads and the
    pipe it writes to, exactly [numActive + numWrites] bytes are read, as many
    as were sent, none is left behind, and the loop quits.  A second run in
    the same loop, which [main] makes, fails the loop's assertion that it has
    not been quit. *)
Theorem bench_run fuel :
  (numActive + numWrites < Z.of_nat fuel)%Z →
  ∃ s, runOnce numPipes numActive numWrites poll fuel (Bench_new numPipes) = Ok s ∧
    g_reads s = (numActive + numWrites)%Z ∧ g_fired s = g_reads s ∧ g_writes s = 0%Z ∧
    pipes s = replicate (Z.to_nat numPipes) 0 ∧ looping_ s = false ∧ quit_ s = true ∧
    ∀ fuel', runOnce numPipes numActive numWrites poll fuel' s = Fault AssertFail.
Proof.
  intros Hf. unfold runOnce. rewrite (decide_False (P := numActive = 0%Z)) by lia. cbn [mbind res_bind].
  destruct (send_first_spec (Z.to_nat numActive) 0 (Bench_new numPipes)) as (l & -> & Hl & Hs);
    [cbn; rewrite length_replicate; lia|lia|]. cbn [mbind res_bind].
  unfold Loop at 1. cbn [set_pipes Bench_new pipes looping_ quit_ negb assert mbind res_bind] in *. unfold set_flags. cbn [pipes].
  rewrite length_replicate in Hl.
  assert (sum_list (replicate (Z.to_nat numPipes) 0) = 0) as H0 by (rewrite sum_list_replicate; lia).
  rewrite H0 in Hs. destruct (Loop_while_inv fuel (mkBench l 0 numWrites numActive true false)) as (s & E & Hp & H1 & H2 & H3 & H4 & H5);
    [split; unfold in_flight; cbn; lia || done|cbn; lia|].
  exists s. split; [exact E|]. split_and!; try done. intros fuel'.
  destruct (send_first_spec (Z.to_nat numActive) 0 s) as (l' & -> & _ & _); [rewrite Hp, length_replicate; lia|lia|].
  cbn [mbind res_bind]. unfold Loop. cbn [set_pipes looping_ quit_]. by rewrite H4, H5.
Qed.
End proofs.

(** ** A run *)

(** A poller that reports every ready channel. *)
Definition poll_all (s : Bench) : list nat :=
  filter (λ i, 0 < default 0 (pipes s !! i)) (seq 0 (length (pipes s))).

Lemma poll_all_ok s : poll_ok poll_all s.
Proof.
  unfold poll_all. split_and!.
  - apply NoDup_filter, NoDup_seq.
  - intros i [Hi _]%list_elem_of_filter. destruct (pipes s !! i) as [[|n]|]; cbn in Hi; [lia|by eexists|lia].
  - intros Hf E. apply Hf. unfold in_flight. assert (∀ i n, pipes s !! i = Some n → n = 0) as Hz.
    { intros i n Hi. destruct n as [|n]; [done|]. exfalso.
      assert (i ∈ filter (λ i, 0 < default 0 (pipes s !! i)) (seq 0 (length (pipes s)))) as Hin.
      { apply list_elem_of_filter. rewrite Hi. split; [cbn; lia|]. apply elem_of_seq. apply lookup_lt_Some in Hi. lia. }
      rewrite E in Hin. by apply not_elem_of_nil in Hin. }
    clear E Hf. induction (pipes s) as [|x l IH]; [done|]. cbn. rewrite (Hz 0 x eq_refl), IH; [done|].
    intros i n Hi. by apply (Hz (S i)).
Qed.

Lemma bench_run_witness :
  ∃ s, runOnce 5 2 7 poll_all 10 (Bench_new 5) = Ok s ∧ g_reads s = 9%Z ∧ runOnce 5 2 7 poll_all 10 s = Fault AssertFail.
Proof.
  destruct (bench_run 5 2 7 eq_refl eq_refl ltac:(lia) poll_all poll_all_ok 10) as (s & E & Hr & _ & _ & _ & _ & _ & H2); [lia|].
  exists s. split_and!; [exact E|exact Hr|apply H2].
Defined.

(** ** [main] *)

(** What [getopt] finds: an option with the number [atoi] makes of its
    argument, or one that is not known. *)
Inductive bench_opt := OptPipes (n : Z) | OptActive (n : Z) | OptWrites (n : Z) | OptIllegal.

Fixpoint parse_options (opts : list bench_opt) (v : Z * Z * Z) : option (Z * Z * Z) :=
  let '(numPipes, numActive, numWrites) := v in
  match opts with
  | [] => Some v
  | OptPipes n :: opts => parse_options opts (n, numActive, numWrites)
  | OptActive n :: opts => parse_options opts (numPipes, n, numWrites)
  | OptWrites n :: opts => parse_options opts (numPipes, numActive, n)
  | OptIllegal :: _ => None
  end.

(** Whether [socketpair] succeeds for each pair; whether the limit of
    descriptors could be raised makes no difference. *)
Section main.
Variable socketpair : nat → bool.
Variable poll : Bench → list nat.
Variable fuel : nat.

Fixpoint repeat_run (n : nat) (numPipes numActive numWrites : Z) (s : Bench) : res Bench :=
  match n with
  | O => Ok s
  | S n => s ← runOnce numPipes numActive numWrites poll fuel s; repeat_run n numPipes numActive numWrites s
  end.

(** The exit code.  A vector cannot have a negative size. *)
Definition bench_main (opts : list bench_opt) : res Z :=
  match parse_options opts (100, 1, 100)%Z with
  | None => Ok 1%Z
  | Some (numPipes, numActive, numWrites) =>
      _ ← (if decide (numPipes < 0)%Z then Fault Aborted else Ok tt);
      if forallb socketpair (seq 0 (Z.to_nat numPipes)) then
        _ ← repeat_run 25 numPipes numActive numWrites (Bench_new numPipes); Ok 0%Z
      else Ok 1%Z
  end.

(** With options for which the first run ends, [main] never does: it dies in
    the second of its 25 runs. *)
Lemma bench_main_dies opts numPipes numActive numWrites :
  (∀ s, poll_ok poll s) → (∀ i, socketpair i = true) →
  parse_options opts (100, 1, 100)%Z = Some (numPipes, numActive, numWrites) →
  (0 < numPipes)%Z → (0 < numActive)%Z → (0 <= numWrites)%Z → (numActive + numWrites < Z.of_nat fuel)%Z →
  bench_main opts = Fault AssertFail.
Proof.
  intros Hp Hs E Hn Ha Hw Hf. unfold bench_main. rewrite E. rewrite decide_False by lia. cbn [mbind res_bind].
  rewrite (proj2 (forallb_forall _ _)) by (intros; apply Hs).
  destruct (bench_run numPipes numActive numWrites Hn Ha Hw poll Hp fuel Hf) as (s & E1 & _ & _ & _ & _ & _ & _ & E2).
  cbn [repeat_run]. rewrite E1. cbn [mbind res_bind]. by rewrite E2.
Qed.

(** Without an active pipe the benchmark divides by zero. *)
Lemma bench_main_no_active opts numPipes numWrites :
  (∀ i, socketpair i = true) → parse_options opts (100, 1, 100)%Z = Some (numPipes, 0%Z, numWrites) →
  bench_main opts = Fault Aborted.
Proof.
  intros Hs E. unfold bench_main. rewrite E. destruct (decide _); [done|]. cbn [mbind res_bind].
  by rewrite (proj2 (forallb_forall _ _)) by (intros; apply Hs).
Qed.
End main.

Lemma bench_main_dies_example : bench_main (λ _, true) poll_all 102 [] = Fault AssertFail.
Proof. eapply bench_main_dies; [apply poll_all_ok|done|reflexivity|lia..]. Qed.
