(* ===== verification/LoopLifetime.v ===== *)
(** Creating and destroying loops: the constructor and the destructor of
    [EventLoop] ([muzi/net/event_loop.cc]) with those of the [TimerQueue] and
    the channels it owns, over the poller of [Poller].  A process has several
    loops; [t_loop_in_this_thread] remembers which one a thread has. *)

From S2P Require Import Prelude Poller.
#[local] Open Scope Z_scope.

(** What the life of a loop needs of it; channels are named by their address
    in the poller's store.  See [EventLoop] for the rest. *)
Record LoopObject (K : Type) := mkLoopObject {
  tid_ : Z;
  looping_ : bool;
  quit_ : bool;
  wakeup_fd_ : Z;
  epoll_fd_ : Z;
  timer_fd_ : Z;
  wakeup_channel_ : Z;
  timer_channel_ : Z;
  poller_ : EpollPoller K
}.
Arguments mkLoopObject {K}.
Arguments tid_ {K} _.
Arguments looping_ {K} _.
Arguments quit_ {K} _.
Arguments wakeup_fd_ {K} _.
Arguments epoll_fd_ {K} _.
Arguments timer_fd_ {K} _.
Arguments wakeup_channel_ {K} _.
Arguments timer_channel_ {K} _.
Arguments poller_ {K} _.

(** [t_loop_in_this_thread]: by thread, absent when it is null. *)
Record Process (K : Type) := mkProcess {
  loops : gmap Z (LoopObject K);
  t_loop_in_this_thread : gmap Z Z;
  open_fds : gset Z
}.
Arguments mkProcess {K}.
Arguments loops {K} _.
Arguments t_loop_in_this_thread {K} _.
Arguments open_fds {K} _.

Section lifetime.
Context {K : Type} `{EpollKernel K}.
Implicit Types w : Process K.
Implicit Types o : LoopObject K.

Definition Process_new : Process K := mkProcess ∅ ∅ ∅.

Definition GetLoopOfCurrentThread (thread : Z) w : option Z := t_loop_in_this_thread w !! thread.

Definition AbortNotInLoopThread (thread : Z) o : res unit :=
  if decide (tid_ o = thread) then Ok tt else Fault Aborted.

Definition set_poller (p : EpollPoller K) o : LoopObject K :=
  mkLoopObject (tid_ o) (looping_ o) (quit_ o) (wakeup_fd_ o) (epoll_fd_ o) (timer_fd_ o) (wakeup_channel_ o) (timer_channel_ o) p.
Definition set_looping (b q : bool) o : LoopObject K :=
  mkLoopObject (tid_ o) b q (wakeup_fd_ o) (epoll_fd_ o) (timer_fd_ o) (wakeup_channel_ o) (timer_channel_ o) (poller_ o).
Definition set_loop (this : Z) o w : Process K :=
  mkProcess (<[this := o]> (loops w)) (t_loop_in_this_thread w) (open_fds w).

(** The constructor, in the order of the members and then its body.  [k] is
    the new epoll instance, [efd], [pfd] and [tfd] what [eventfd],
    [epoll_create1] and [timerfd_create] answer: a failure of the first two is
    fatal, one of the third becomes so in [epoll_ctl]. *)
Definition EventLoop_construct (thread this wakeup timer : Z) (k : K) (efd pfd tfd : option Z) w : res (Process K) :=
  efd ← deref Aborted efd;
  pfd ← deref Aborted pfd;
  let p := Channel_create wakeup efd (EpollPoller_new k) in
  tfd ← deref Aborted tfd;
  p ← EnableReading timer (Channel_create timer tfd p);
  _ ← (match t_loop_in_this_thread w !! thread with Some _ => Fault Aborted | None => Ok tt end);
  p ← EnableReading wakeup p;
  Ok (mkProcess (<[this := mkLoopObject thread false false efd pfd tfd wakeup timer p]> (loops w))
        (<[thread := this]> (t_loop_in_this_thread w)) ({[efd; pfd; tfd]} ∪ open_fds w)).

(** The body of the destructor, then the members in reverse order: the timer
    queue goes before the poller, the channel of the eventfd after it; each
    closes its descriptor. *)
Definition EventLoop_destroy (thread this : Z) w : res (Process K) :=
  o ← deref UseAfterFree (loops w !! this);
  _ ← AbortNotInLoopThread thread o;
  _ ← assert (negb (looping_ o));
  p ← DisableAll (wakeup_channel_ o) (poller_ o);
  p ← Channel_Remove (wakeup_channel_ o) p;
  p ← DisableAll (timer_channel_ o) p;
  p ← Channel_Remove (timer_channel_ o) p;
  p ← Channel_destroy (timer_channel_ o) p;
  p ← Channel_destroy (wakeup_channel_ o) p;
  Ok (mkProcess (delete this (loops w)) (delete thread (t_loop_in_this_thread w))
        (open_fds w ∖ {[wakeup_fd_ o; epoll_fd_ o; timer_fd_ o]})).

(** [Loop] begins, and ends because [quit_] was set. *)
Definition Loop_enter (thread this : Z) w : res (Process K) :=
  o ← deref UseAfterFree (loops w !! this);
  _ ← assert (negb (looping_ o));
  _ ← assert (negb (quit_ o));
  _ ← AbortNotInLoopThread thread o;
  Ok (set_loop this (set_looping true false o) w).
Definition Loop_leave (this : Z) w : res (Process K) :=
  o ← deref UseAfterFree (loops w !! this); Ok (set_loop this (set_looping false true o) w).

(** An operation of a channel of the user, in [UpdateChannel] or
    [RemoveChannel] of its loop. *)
Definition UseChannel (thread this : Z) (c : chan_op) w : res (Process K) :=
  o ← deref UseAfterFree (loops w !! this);
  _ ← AbortNotInLoopThread thread o;
  p ← run_chan (poller_ o) c;
  Ok (set_loop this (set_poller p o) w).

Inductive life_op :=
  | LifeConstruct (thread this wakeup timer : Z) (k : K) (efd pfd tfd : Z)
  | LifeDestroy (thread this : Z)
  | LifeEnter (thread this : Z)
  | LifeLeave (this : Z)
  | LifeChannel (thread this : Z) (c : chan_op).

Definition life_step (l : life_op) w : res (Process K) :=
  match l with
  | LifeConstruct thread this wakeup timer k efd pfd tfd =>
      EventLoop_construct thread this wakeup timer k (Some efd) (Some pfd) (Some tfd) w
  | LifeDestroy thread this => EventLoop_destroy thread this w
  | LifeEnter thread this => Loop_enter thread this w
  | LifeLeave this => Loop_leave this w
  | LifeChannel thread this c => UseChannel thread this c w
  end.

Fixpoint life_run (ls : list life_op) w : res (Process K) :=
  match ls with [] => Ok w | l :: ls => w ← life_step l w; life_run ls w end.

(** The channel an operation is about. *)
Definition chan_of (c : chan_op) : Z :=
  match c with
  | ChCreate ptr _ | ChEnableReading ptr | ChDisableReading ptr | ChEnableWritting ptr
  | ChDisableWritting ptr | ChDisableAll ptr | ChRemove ptr | ChDestroy ptr => ptr
  end.

(** What the code relies on: fresh addresses, descriptors and instances, one
    loop per thread, one call of [Loop], destruction in the loop's thread when
    it has ended, and users that leave the loop's own channels alone. *)
Definition life_legal (l : life_op) w : Prop :=
  match l with
  | LifeConstruct thread this wakeup timer k efd pfd tfd =>
      loops w !! this = None ∧ t_loop_in_this_thread w !! thread = None ∧ interest k = ∅ ∧
      wakeup ≠ timer ∧ efd ≠ tfd ∧ efd ≠ pfd ∧ pfd ≠ tfd ∧ (efd ∉ open_fds w) ∧ (pfd ∉ open_fds w) ∧ (tfd ∉ open_fds w)
  | LifeDestroy thread this =>
      ∃ o, loops w !! this = Some o ∧ tid_ o = thread ∧ looping_ o = false
  | LifeEnter thread this =>
      ∃ o, loops w !! this = Some o ∧ tid_ o = thread ∧ looping_ o = false ∧ quit_ o = false
  | LifeLeave this => is_Some (loops w !! this)
  | LifeChannel thread this c =>
      ∃ o, loops w !! this = Some o ∧ tid_ o = thread ∧ is_Some (spec_chan (abs (poller_ o)) c) ∧
        chan_of c ≠ wakeup_channel_ o ∧ chan_of c ≠ timer_channel_ o
  end.

Fixpoint life_legal_run (ls : list life_op) w : Prop :=
  match ls with
  | [] => True
  | l :: ls => life_legal l w ∧ ∀ w', life_step l w = Ok w' → life_legal_run ls w'
  end.
End lifetime.
Arguments life_op K : clear implicits.

(** ** The invariant *)

Section proofs.
Context {K : Type} `{EpollKernelLaws K}.
Implicit Types w : Process K.
Implicit Types o : LoopObject K.

Definition fds_of o : gset Z := {[wakeup_fd_ o; epoll_fd_ o; timer_fd_ o]}.

Record loop_ok o : Prop := {
  lo_wf : poller_wf (poller_ o);
  lo_idle : idle (poller_ o);
  lo_wakeup : abs (poller_ o) !! wakeup_channel_ o = Some (mkAbs (wakeup_fd_ o) kReadEvent Registered);
  lo_timer : abs (poller_ o) !! timer_channel_ o = Some (mkAbs (timer_fd_ o) kReadEvent Registered);
  lo_differ : wakeup_channel_ o ≠ timer_channel_ o ∧ NoDup [wakeup_fd_ o; epoll_fd_ o; timer_fd_ o]
}.

Record proc_inv w : Prop := {
  pv_loop : ∀ this o, loops w !! this = Some o → loop_ok o ∧ t_loop_in_this_thread w !! tid_ o = Some this;
  pv_thread : ∀ thread this, t_loop_in_this_thread w !! thread = Some this → ∃ o, loops w !! this = Some o ∧ tid_ o = thread;
  pv_fds : ∀ fd, fd ∈ open_fds w ↔ ∃ this o, loops w !! this = Some o ∧ fd ∈ fds_of o;
  pv_disjoint : ∀ this this' o o' fd, loops w !! this = Some o → loops w !! this' = Some o' → fd ∈ fds_of o → fd ∈ fds_of o' → this = this'
}.

Lemma spec_chans_cons a c os a1 r :
  spec_chan a c = Some a1 → spec_chans a1 os = r → spec_chans a (c :: os) = r.
Proof. intros E <-. cbn [spec_chans]. by rewrite E. Qed.

Lemma spec_events_some f ptr x a :
  a !! ptr = Some x → a_status x = Registered ∨ (a_status x = Fresh ∧ fd_free (a_fd x) a) →
  spec_events f ptr a = Some (<[ptr := mkAbs (a_fd x) (f (a_events x)) Registered]> a).
Proof. intros E Hu. unfold spec_events. rewrite E. cbn [mbind option_bind]. by rewrite bool_decide_eq_true_2. Qed.

Ltac fd_free_cases :=
  repeat match goal with H : _ ∨ _ |- _ => destruct H | H : _ ∧ _ |- _ => destruct H end; subst; cbn in *; congruence.

(** The two channels of a new loop. *)
Lemma construct_spec wch tch wfd tfd :
  wch ≠ tch → wfd ≠ tfd →
  ∃ a, spec_chans ∅ [ChCreate wch wfd; ChCreate tch tfd; ChEnableReading tch; ChEnableReading wch] = Some a ∧
    a !! wch = Some (mkAbs wfd kReadEvent Registered) ∧ a !! tch = Some (mkAbs tfd kReadEvent Registered).
Proof.
  intros Hc Hf. eexists. split.
  - eapply spec_chans_cons; [cbn; by rewrite bool_decide_eq_true_2 by apply lookup_empty|].
    eapply spec_chans_cons; [cbn; by rewrite bool_decide_eq_true_2 by by rewrite lookup_insert_ne|].
    eapply spec_chans_cons; [apply spec_events_some; [apply lookup_insert_eq|right; split; [done|]]|].
    { intros i x Hx [Hfd Hr]. rewrite !lookup_insert_Some, lookup_empty in Hx. fd_free_cases. }
    eapply spec_chans_cons; [apply spec_events_some; [by rewrite 2!lookup_insert_ne, lookup_insert_eq|right; split; [done|]]|done].
    intros i x Hx [Hfd Hr]. rewrite !lookup_insert_Some, lookup_empty in Hx. fd_free_cases.
  - split; [by rewrite lookup_insert_eq|]. by rewrite lookup_insert_ne, lookup_insert_eq.
Qed.

(** Destroying them, whatever else is in the poll set. *)
Lemma destroy_spec a wch tch wfd tfd :
  wch ≠ tch → a !! wch = Some (mkAbs wfd kReadEvent Registered) → a !! tch = Some (mkAbs tfd kReadEvent Registered) →
  is_Some (spec_chans a [ChDisableAll wch; ChRemove wch; ChDisableAll tch; ChRemove tch; ChDestroy tch; ChDestroy wch]).
Proof.
  intros Hc Hw Ht. eexists.
  eapply spec_chans_cons; [apply (spec_events_some _ _ _ _ Hw); by left|].
  eapply spec_chans_cons; [cbn [spec_chan]; rewrite lookup_insert_eq; cbn [mbind option_bind]; by rewrite bool_decide_eq_true_2|].
  eapply spec_chans_cons; [apply spec_events_some; [by rewrite !lookup_insert_ne|by left]|].
  eapply spec_chans_cons; [cbn [spec_chan]; rewrite lookup_insert_eq; cbn [mbind option_bind]; by rewrite bool_decide_eq_true_2|].
  eapply spec_chans_cons; [cbn [spec_chan]; rewrite lookup_insert_eq; cbn [mbind option_bind]; by rewrite bool_decide_eq_true_2|].
  eapply spec_chans_cons; [cbn [spec_chan]; rewrite lookup_delete_ne, !lookup_insert_ne, lookup_insert_eq by done; cbn [mbind option_bind]; by rewrite bool_decide_eq_true_2|].
  done.
Qed.

(** An operation on another channel leaves a channel alone. *)
Lemma spec_chan_other a a' c ptr : spec_chan a c = Some a' → ptr ≠ chan_of c → a' !! ptr = a !! ptr.
Proof.
  intros Hs Hp. destruct c; cbn in *; unfold spec_events in *;
    repeat (case_match; try done); try (destruct (a !! _); cbn in *; [|done]); repeat (case_match; try done);
    injection Hs as <-; by rewrite ?lookup_insert_ne, ?lookup_delete_ne.
Qed.

(** The poller of a new loop. *)
Lemma construct_poller wch tch (k : K) efd tfd :
  interest k = ∅ → wch ≠ tch → efd ≠ tfd →
  ∃ p1 p, EnableReading tch (Channel_create tch tfd (Channel_create wch efd (EpollPoller_new k))) = Ok p1 ∧
    EnableReading wch p1 = Ok p ∧ poller_wf p ∧ idle p ∧
    abs p !! wch = Some (mkAbs efd kReadEvent Registered) ∧ abs p !! tch = Some (mkAbs tfd kReadEvent Registered).
Proof.
  intros Hk Hc Hf. destruct (EpollPoller_new_wf k Hk) as [Hwf Hid].
  destruct (construct_spec wch tch efd tfd Hc Hf) as (a & Ea & Hw & Ht).
  assert (abs (EpollPoller_new k) = ∅) as E0 by (unfold abs; cbn; by rewrite fmap_empty).
  rewrite <- E0 in Ea. destruct (run_chans_spec _ _ a Hwf Hid Ea) as (p & E & Hwf' & Hid' & Ha).
  cbn [run_chans run_chan] in E. cbn [mbind res_bind] in E.
  destruct (EnableReading tch _) as [p1|]; cbn [mbind res_bind] in *; [|done].
  destruct (EnableReading wch p1) as [p2|] eqn:E2; cbn [mbind res_bind] in *; [|done]. injection E as ->.
  exists p1, p. by rewrite Ha.
Qed.

Lemma construct_ok thread this wch tch (k : K) efd pfd tfd w :
  proc_inv w → life_legal (LifeConstruct thread this wch tch k efd pfd tfd) w →
  ∃ w', EventLoop_construct thread this wch tch k (Some efd) (Some pfd) (Some tfd) w = Ok w' ∧ proc_inv w'.
Proof.
  intros [] (Hn & Ht & Hk & Hc & Hf & Hep & Hpt & Hef & Hpf & Htf).
  destruct (construct_poller wch tch k efd tfd Hk Hc Hf) as (p1 & p & E1 & E2 & Hwf & Hid & Hw & Htc).
  unfold EventLoop_construct. cbn [deref mbind res_bind]. rewrite E1. cbn [mbind res_bind]. rewrite Ht. cbn [mbind res_bind].
  rewrite E2. cbn [mbind res_bind].
  eexists. split; [done|]. set (o := mkLoopObject _ _ _ _ _ _ _ _ _).
  assert (∀ fd, fd ∈ fds_of o ↔ fd = efd ∨ fd = pfd ∨ fd = tfd) as Ho by (intros; unfold fds_of; cbn; set_solver).
  split; cbn [loops t_loop_in_this_thread open_fds].
  - intros this' o' [[<- <-]|[Hne Hl]]%lookup_insert_Some.
    + split; [|cbn; by rewrite lookup_insert_eq]. split; try done. split; [done|]. cbn.
      rewrite !NoDup_cons. split_and!; [set_solver..|by constructor].
    + destruct (pv_loop0 this' o' Hl) as [? Ht']. split; [done|]. rewrite lookup_insert_ne; [done|]. congruence.
  - intros th this' [[<- <-]|[Hne Hl]]%lookup_insert_Some; [exists o; by rewrite lookup_insert_eq|].
    destruct (pv_thread0 th this' Hl) as (o' & Ho' & ?). exists o'. rewrite lookup_insert_ne; [done|]. congruence.
  - intros fd. rewrite elem_of_union. split.
    + intros [Hfd|Hfd].
      * exists this, o. rewrite lookup_insert_eq. split; [done|]. exact Hfd.
      * apply pv_fds0 in Hfd as (this' & o' & Hl & ?). exists this', o'. rewrite lookup_insert_ne; [done|]. congruence.
    + intros (this' & o' & [[<- <-]|[Hne Hl]]%lookup_insert_Some & Hfd); [left; exact Hfd|]. right. apply pv_fds0. eauto.
  - assert (∀ this' o' fd, loops w !! this' = Some o' → fd ∈ fds_of o' → fd ∈ fds_of o → False) as Hx.
    { intros this' o' fd Hl Hfd Hfd'. assert (fd ∈ open_fds w) by (apply pv_fds0; eauto). apply Ho in Hfd' as [->|[->| ->]]; done. }
    intros t1 t2 o1 o2 fd [[<- <-]|[Hne1 Hl1]]%lookup_insert_Some [[<- <-]|[Hne2 Hl2]]%lookup_insert_Some H1 H2;
      [done|by destruct (Hx _ _ _ Hl2 H2 H1)|by destruct (Hx _ _ _ Hl1 H1 H2)|by eapply pv_disjoint0].
Qed.

Lemma destroy_ok thread this w :
  proc_inv w → life_legal (LifeDestroy thread this) w → ∃ w', EventLoop_destroy thread this w = Ok w' ∧ proc_inv w'.
Proof.
  intros [] (o & Hl & Ht & Hlo). destruct (pv_loop0 this o Hl) as [[] Hth].
  destruct (destroy_spec (abs (poller_ o)) _ _ _ _ (proj1 lo_differ0) lo_wakeup0 lo_timer0) as (a & Ea).
  destruct (run_chans_spec _ _ a lo_wf0 lo_idle0 Ea) as (p & E & _).
  unfold EventLoop_destroy, AbortNotInLoopThread. rewrite Hl. cbn [deref mbind res_bind]. rewrite decide_True, Hlo by done.
  cbn [negb assert mbind res_bind]. cbn [run_chans run_chan] in E.
  repeat match type of E with
  | mbind _ ?m = _ => destruct m; cbn [mbind res_bind] in *; [|done]
  end.
  eexists. split; [done|]. rewrite Ht in Hth. split; cbn [loops t_loop_in_this_thread open_fds].
  - intros this' o' [Hne Hl']%lookup_delete_Some. destruct (pv_loop0 this' o' Hl') as [? Ht']. split; [done|].
    rewrite lookup_delete_ne; [done|]. congruence.
  - intros th this' [Hne Ht']%lookup_delete_Some. destruct (pv_thread0 th this' Ht') as (o' & Ho' & ?). exists o'.
    rewrite lookup_delete_ne; [done|]. intros <-. congruence.
  - intros fd. rewrite elem_of_difference, pv_fds0. split.
    + intros [(this' & o' & Hl' & Hfd) Hn]. exists this', o'. rewrite lookup_delete_ne; [done|]. intros <-.
      assert (o' = o) as -> by congruence. done.
    + intros (this' & o' & [Hne Hl']%lookup_delete_Some & Hfd). split; [eauto|]. intros Hfd'. apply Hne.
      by eapply (pv_disjoint0 this this' o o' fd).
  - intros t1 t2 o1 o2 fd [_ H1]%lookup_delete_Some [_ H2]%lookup_delete_Some. by eapply pv_disjoint0.
Qed.

(** Replacing a loop by one with the same thread and descriptors. *)
Lemma set_loop_inv this o o' w :
  proc_inv w → loops w !! this = Some o → loop_ok o' → tid_ o' = tid_ o → fds_of o' = fds_of o → proc_inv (set_loop this o' w).
Proof.
  intros [] Hl Ho Ht Hf. split; cbn [set_loop loops t_loop_in_this_thread open_fds].
  - intros this' o1 [[<- <-]|[Hne Hl']]%lookup_insert_Some; [|by apply pv_loop0]. split; [done|]. rewrite Ht. by apply pv_loop0.
  - intros th this' Hth. destruct (pv_thread0 th this' Hth) as (o1 & Ho1 & <-). destruct (decide (this = this')) as [<-|].
    + exists o'. rewrite lookup_insert_eq. split; [done|]. congruence.
    + exists o1. by rewrite lookup_insert_ne.
  - intros fd. rewrite pv_fds0. split.
    + intros (this' & o1 & Hl' & Hfd). destruct (decide (this = this')) as [<-|].
      * exists this, o'. rewrite lookup_insert_eq, Hf. split; [done|]. congruence.
      * exists this', o1. by rewrite lookup_insert_ne.
    + intros (this' & o1 & [[<- <-]|[Hne Hl']]%lookup_insert_Some & Hfd); [|eauto]. exists this, o. by rewrite <- Hf.
  - intros t1 t2 o1 o2 fd [[<- <-]|[Hne1 Hl1]]%lookup_insert_Some [[<- <-]|[Hne2 Hl2]]%lookup_insert_Some;
      rewrite ?Hf; eauto.
Qed.

Lemma life_step_ok l w : proc_inv w → life_legal l w → ∃ w', life_step l w = Ok w' ∧ proc_inv w'.
Proof.
  intros Hi Hl. destruct l as [thread this wch tch k efd pfd tfd|thread this|thread this|this|thread this c]; cbn [life_step].
  - by apply construct_ok.
  - by apply destroy_ok.
  - destruct Hl as (o & Hl & Ht & Hlo & Hq). unfold Loop_enter, AbortNotInLoopThread. rewrite Hl. cbn [deref mbind res_bind].
    rewrite Hlo, Hq, decide_True by done. cbn [negb assert mbind res_bind]. eexists. split; [done|].
    destruct (pv_loop w Hi this o Hl) as [[] _]. by apply (set_loop_inv this o).
  - destruct Hl as (o & Hl). unfold Loop_leave. rewrite Hl. cbn [deref mbind res_bind]. eexists. split; [done|].
    destruct (pv_loop w Hi this o Hl) as [[] _]. by apply (set_loop_inv this o).
  - destruct Hl as (o & Hl & Ht & (a & Ea) & Hw & Htm). unfold UseChannel, AbortNotInLoopThread. rewrite Hl. cbn [deref mbind res_bind].
    rewrite decide_True by done. cbn [mbind res_bind]. destruct (pv_loop w Hi this o Hl) as [[] _].
    destruct (run_chan_spec _ _ _ lo_wf0 lo_idle0 Ea) as (p & -> & Hwf & Hid & Ha). cbn [mbind res_bind].
    eexists. split; [done|]. apply (set_loop_inv this o); [done|done| |done|done].
    split; cbn; try done; by rewrite Ha, (spec_chan_other _ _ _ _ Ea).
Qed.

Lemma Process_new_inv : proc_inv (Process_new (K := K)).
Proof.
  split; cbn; try (intros *; by rewrite !lookup_empty). intros fd. split; [set_solver|]. intros (? & ? & Hl & _). by rewrite lookup_empty in Hl.
Qed.

Lemma life_run_ok ls : ∀ w, proc_inv w → life_legal_run ls w → ∃ w', life_run ls w = Ok w' ∧ proc_inv w'.
Proof.
  induction ls as [|l ls IH]; intros w Hi Hl; [by exists w|]. destruct Hl as [Hl Hls].
  destruct (life_step_ok l w Hi Hl) as (w1 & E & Hi1). cbn [life_run]. rewrite E. cbn [mbind res_bind]. apply IH; [done|]. by apply Hls.
Qed.

(** C30: loops come and go with no failed assertion and no fatal error, whatever
    else their users register: a thread has at most one loop and finds it,
    the descriptors that are open are those of the loops that exist (the
    eventfd, the timerfd and the epoll instance of each), none is shared, and the kernel watches the eventfd and the timerfd of each. *)
Theorem loop_lifetime ls :
  life_legal_run ls (Process_new (K := K)) →
  ∃ w, life_run ls (Process_new (K := K)) = Ok w ∧
    (∀ thread this, GetLoopOfCurrentThread thread w = Some this ↔ ∃ o, loops w !! this = Some o ∧ tid_ o = thread) ∧
    (∀ fd, fd ∈ open_fds w ↔ ∃ this o, loops w !! this = Some o ∧ fd ∈ [wakeup_fd_ o; epoll_fd_ o; timer_fd_ o]) ∧
    (∀ this this' o o' fd, loops w !! this = Some o → loops w !! this' = Some o' →
       fd ∈ [wakeup_fd_ o; epoll_fd_ o; timer_fd_ o] → fd ∈ [wakeup_fd_ o'; epoll_fd_ o'; timer_fd_ o'] → this = this') ∧
    (∀ this o, loops w !! this = Some o → NoDup [wakeup_fd_ o; epoll_fd_ o; timer_fd_ o]) ∧
    (∀ this o, loops w !! this = Some o →
       interest (epfd_ (poller_ o)) !! wakeup_fd_ o = Some (kReadEvent, wakeup_channel_ o) ∧
       interest (epfd_ (poller_ o)) !! timer_fd_ o = Some (kReadEvent, timer_channel_ o)).
Proof.
  intros Hl. destruct (life_run_ok ls _ Process_new_inv Hl) as (w & E & []). exists w. split; [done|]. split_and!.
  - intros thread this. split; [apply pv_thread0|]. intros (o & Ho & <-). by apply pv_loop0.
  - intros fd. rewrite pv_fds0. unfold fds_of. set_solver.
  - intros this this' o o' fd Ho Ho' Hfd Hfd'. eapply (pv_disjoint0 this this' o o' fd); try done; unfold fds_of; set_solver.
  - intros this o Ho. apply (pv_loop0 this o Ho).
  - intros this o Ho. destruct (pv_loop0 this o Ho) as [[] _]. destruct (wf_kernel_agrees _ lo_wf0) as [Ha _].
    split; [apply (Ha _ _ lo_wakeup0)|apply (Ha _ _ lo_timer0)]; done.
Qed.

(** A second loop in a thread, or destroying a loop from another thread, is
    fatal. *)
Lemma second_loop_aborts thread this other wch tch (k : K) efd pfd tfd w :
  interest k = ∅ → wch ≠ tch → efd ≠ tfd → GetLoopOfCurrentThread thread w = Some other →
  EventLoop_construct thread this wch tch k (Some efd) (Some pfd) (Some tfd) w = Fault Aborted.
Proof.
  intros Hk Hc Hf Ht. destruct (construct_poller wch tch k efd tfd Hk Hc Hf) as (p1 & p & E1 & _).
  unfold EventLoop_construct. cbn [deref mbind res_bind]. rewrite E1. cbn [mbind res_bind].
  unfold GetLoopOfCurrentThread in Ht. by rewrite Ht.
Qed.

Lemma destroy_elsewhere_aborts thread this o w :
  loops w !! this = Some o → tid_ o ≠ thread → EventLoop_destroy thread this w = Fault Aborted.
Proof. intros Hl Ht. unfold EventLoop_destroy, AbortNotInLoopThread. rewrite Hl. cbn [deref mbind res_bind]. by rewrite decide_False. Qed.
End proofs.

(** ** A run *)

(** Two threads make a loop each; the user of the first registers a channel;
    the first loop goes. *)
Definition two_loops : list (life_op (gmap Z (Z * Z))) :=
  [LifeConstruct 1 100 10 11 ∅ 5 3 6; LifeConstruct 2 200 20 21 ∅ 7 4 8;
   LifeChannel 1 100 (ChCreate 12 9); LifeChannel 1 100 (ChEnableReading 12); LifeDestroy 1 100].

Lemma loop_lifetime_witness : ∃ w,
  life_run two_loops Process_new = Ok w ∧ GetLoopOfCurrentThread 1 w = None ∧
  GetLoopOfCurrentThread 2 w = Some 200 ∧ open_fds w = {[7; 4; 8]}.
Proof.
  destruct (loop_lifetime two_loops) as (w & E & _).
  - unfold two_loops.
    repeat match goal with
    | |- life_legal_run [] _ => exact I
    | |- life_legal_run _ _ => split
    | |- ∀ _, _ => intros ? E; vm_compute in E; injection E as <-
    | |- life_legal (LifeConstruct _ _ _ _ _ _ _ _) _ => split_and!; first [by vm_compute | apply (bool_decide_unpack _); by vm_compute]
    | |- life_legal (LifeLeave _) _ => eexists; vm_compute; reflexivity
    | |- life_legal _ _ => eexists; split_and!; [vm_compute; reflexivity|..]; first [by vm_compute | eexists; vm_compute; reflexivity]
    end.
  - exists w. split; [done|]. vm_compute in E. injection E as <-. split_and!; [done..|]. by apply (bool_decide_unpack _).
Defined.
